(* ===== verification/_CoqProject ===== *)
-Q . S2P
Root.v
Prelude.v
Eth.v
Schema.v
KeySpace.v
KV.v
Chain.v
Storage.v
Batch.v
PrefixOps.v
StorageFacts.v
StorageProps.v
StorageReads.v
Instances.v
StorageThms.v
StorageSafety.v
AddressIndex.v
BlockRange.v
StorageWitnesses.v
Wire.v
Codec.v
Gaps.v
Bloom.v
RpcCache.v
Fetcher.v
FetcherPebble.v
Pool.v
Filter.v
EventBus.v
Logs.v
LogQueries.v
Guards.v
Heap.v
Queue.v
Waiters.v
Worker.v
Json.v
JsonCodec.v
Index.v
TokenHolders.v
