(* ===== verification/Root.v ===== *)
(** * indexer-go: a verification development

    indexer-go reads the blocks of an Ethereum-like chain from a node, stores them
    with their transactions, receipts, logs and derived records in a Pebble
    key-value database, and answers queries over GraphQL, JSON-RPC and WebSocket.
    This library models the part everything else rests on, the database of
    pkg/storage, the fetcher that fills it, and the components around them that have a
    contract of their own: gap recovery, the event bus with its filters, the watch-list
    bloom filter, and the cache, queue, breaker and workers of the RPC proxy.

    ** The program and its parts

    A [Fetcher] (pkg/fetch) asks the node (pkg/client, pkg/adapters) for blocks and
    receipts and writes them through the [Storage] interface; [PebbleStorage]
    (pkg/storage) implements it by turning each record into keys (schema.go) and
    bytes (encoder.go) and by calling the database directly or through a batch.
    Processors for addresses, tokens, delegations and user operations add index
    entries under keys of their own, and the API servers read them back with prefix
    scans. So correctness of what a user sees comes down to: keys of different
    records never collide, a scan meets exactly the entries of its index, encodings
    read back, composite writes are complete and atomic, and the readers find what
    the writers wrote. Those are the first theorems of this library.

    ** The files

    - Prelude.v: Go's unsigned 64-bit integers as [Z] with wrap-around ([u64]), error
      values and the result monad [res], the state-and-error computations [ST] with
      total Hoare triples ([runs]), byte strings as [list ascii] with the parts of
      fmt, strconv, strings and bytes the code uses, and their lemmas and tactics.
    - Eth.v: [common.Hash] and [common.Address] as fixed-length byte arrays and the
      interface [EthHex] of their printing.
    - Schema.v: pkg/storage/schema.go, every prefix and key function under its name.
    - KeySpace.v: the logical key space. [dbkey] has a constructor per record or
      index family, [encode] applies the key function, [scan] names the prefixes.
    - KV.v: the interfaces [Pebble] (point reads, atomic writes, bounded ordered
      iteration that can fail at the start or midway) and [RLP], with their laws, and an
      in-memory database.
    - Chain.v: blocks, transactions and receipts as the storage sees them, and the RLP
      wrappers of encoder.go.
    - Storage.v: the record [PebbleStorage] and the operations of pebble.go,
      pebble_blocks.go, pebble_transactions.go and pebble_receipts.go that read or
      write directly. One definition per method, with its guards in their order.
    - Batch.v: [pebbleBatch] (pebble_batch.go) and the operations made of one batch,
      [SetBlockWithReceipts], [SetBlocks] and [SetReceipts].
    - PrefixOps.v: the raw key-value methods and the prefix operations of pebble.go,
      and their theorems, with a database whose iterators fail midway.
    - StorageFacts.v, StorageProps.v, StorageReads.v: shared lemmas. A successful
      operation is described by the list of database writes it makes ([applied],
      [batched]); frames then say which reads change; on a database that does not
      fail ([healthy]) the operations succeed ([runs]).
    - Instances.v: a chain, an encoder and storages that satisfy every law.
    - StorageThms.v, StorageSafety.v, AddressIndex.v, BlockRange.v: the theorems about
      the store. StorageWitnesses.v applies them to the storages of Instances.v.
    - Wire.v and Codec.v: the binary formats of encoder.go, with readers and writers
      that can panic.
    - Gaps.v: pkg/fetch/fetcher_gaps.go against the interface [BlockStore] and its
      specification [BlockStoreSpec]; PebbleStorage is shown to be an instance.
    - Bloom.v: pkg/watchlist/bloom.go.
    - RpcCache.v: pkg/rpcproxy/cache.go.
    - Fetcher.v: pkg/fetch/fetcher.go and fetcher_processing.go against the interface
      [FetcherEnv] (node, storage, bus, stages) and its specification [FetcherSpec]:
      retries, [FetchBlock], [FetchRange], [Run]. FetcherPebble.v: PebbleStorage with a
      node that can fail is an instance. Pool.v: [FetchRangeConcurrent], the producer,
      the workers and the collector as a step relation.
    - Filter.v: pkg/events/filter.go and the events of types.go. EventBus.v:
      pkg/events/bus.go, subscriptions in a heap of pointers, channels as bounded
      buffers, publishers, main loop, subscribers and shutdown as a step relation.
    - Logs.v: pkg/storage/pebble_logs.go, indexing and querying event logs, with the
      scanning of keys by [fmt.Sscanf]. LogQueries.v: its theorems. Guards.v: what a closed
      or read-only storage and a closed batch refuse, for every method of the files above.
    - Heap.v: the binary heap of Go's container/heap. Queue.v: pkg/rpcproxy/queue.go
      over it. Waiters.v: waiting on the condition variable of the queue, as a step
      relation. Worker.v: the circuit breaker and [processRequest] of worker.go.
    - Json.v and JsonCodec.v: the texts of Go's encoding/json and encoding/base64, written
      and read back, and codecs of struct fields. Index.v: pages, loops over index entries
      and the theory of a table of records with its index entries. TokenHolders.v:
      pkg/storage/pebble_token_holder.go and token_holder.go over them.

    ** How state and effects are modelled

    A method of a Go object is a function from the object's state to a result and
    the new state: [op A] is [PebbleStorage -> res A * PebbleStorage], a batch method
    runs over the storage and the batch together, since committing one changes the
    counters of the other. An error is a value that says where it came from
    ([wrapST msg] is the wrapping by [fmt.Errorf]), so theorems can tell [ErrNotFound]
    from a failing database. A panic is [Panic]. State survives an error: what
    a method wrote before it failed stays written. The cache and the filters thread
    their record in the same way. Integers that the code keeps in 64 bits are [Z] with
    [u64] applied where the code's operation can wrap.

    ** What the theorems show

    Keys (KeySpace.v). [encode_inj]: two different well-formed logical keys, of the
    same or of different families, have different bytes. [scan_exact]: below a scan
    prefix lie exactly the keys of its index with its arguments. Where that is not what the
    comment on a prefix says the statement follows the code; [misnamed_prefixes] (lemma) lists
    the three: [ModuleAllPrefix], [TokenSearchIndexKeyPrefix], [LogBlockRangeIndexKeyPrefix].
    [index_keys_ordered], [holder_index_descending]: the byte order of index keys is
    the order the readers want. [parse_keys], [chain_keys_scoped] (lemmas): parsers read keys
    back. [block_key_range_inverted]: block keys are not fixed-width.

    Store. [SetBlock_reads], [SetBlockWithReceipts_reads]: what every reader returns
    after a block is stored, for what was written and for everything else; a receipt comes
    back without the derived fields its encoding leaves out ([stored_receipt]).
    [SetBlocks_batch_equiv]: the batch of many blocks equals storing them one by one.
    [SetReceipt_roundtrip], [DeleteBlock_removes], [SetBlock_twice],
    [GetMissingReceipts_exact], [GetReceiptsByBlock_exact], [GetBlocks_total],
    [GetBlocks_panics], [GetBlocks_diverges]: the other operations, also where they do less, or more,
    than their names say. [batch_ops_atomic], [commit_failure_counts],
    [guards_refuse]: failures of a batch, and what is refused. [address_pages]: the address index refines a
    list of hashes per address with appending and slicing; [restart_overwrites]: what
    reopening the database does to it. [Iterate_exact], [DeleteByPrefix_exact],
    [DeleteByPrefix_overreach], [DeleteByPrefix_partial]: the two upper bounds of prefix
    scans, and an iteration that fails midway.

    Codecs. [Proposal_roundtrip], [BalanceSnapshot_roundtrip],
    [change_events_roundtrip]: encoders fill their buffer exactly, never panic on what
    fits, and decoding gives the value back up to what the format does not carry
    (signs, and nil for zero). [decoders_panic]: inputs that crash the decoders.

    Gaps. [DetectGaps_exact]: the loop ends and returns the maximal missing intervals.
    [FillReceiptGap_exact]: which receipts are missing afterwards. [GapRange_Size].

    Filter. [bloom_no_false_negatives], [bloom_merge], [bloom_bytes_roundtrip],
    [bloom_mismatches].

    Cache. [cache_refines]: the map and the recency list implement one list of
    entries, most recent first, cut at the capacity. [cache_bounded]: an invariant of
    every reachable state. [cache_set_diverges].

    Fetching. [retry_first_success]: which answer a fetch with retries returns.
    [FetchBlock_complete]: what is stored when it succeeds. [FetchRange_progress],
    [Run_no_gaps]: below the height the loop goes on from, every block is stored, across
    failures and restarts. [pool_in_order], [pool_complete], [pool_terminates]: for every
    interleaving the concurrent fetch stores a prefix of the range in order, all of it
    when it succeeds, and cannot run for ever, for ranges that end below 2^64-1.
    [pool_cancel_returns_ok]: a cancelled call can return nil with heights missing.
    [pool_leaks]: what failing leaves behind.

    Logs. [IndexLogs_refines]: indexing logs that are consistent with the stored ones inserts
    into a map from positions to logs.
    [log_queries_exact], [GetLogs_exact]: the queries return exactly the logs they
    describe. [GetLogs_range_ends], [reindex_stale]: where they do not.

    Events. [Clone_match], [MatchLog_spec]: filters. [delivery]: what a subscriber gets,
    and drops, of what was broadcast to it. [history_recent]: the ring buffer implements the
    last events. [stop_returns]: a cancelled bus shuts down. [only_replay_panics],
    [replay_panics], [resubscribe_orphans], [subscribe_races]: races of subscribing.

    Queue and workers. [queue_refines], [queue_bounded], [mpq_best]: a bounded bag served
    by priority and time. [no_lost_wakeup], [timeout_loses_wakeup]: waiting with and
    without a deadline. [breaker_transitions], [breaker_refuses]: the circuit breaker.
    [processRequest_attempts]: the retries of a worker.

    Token holders. [ProcessERC20Transfer_refines]: a transfer debits, credits and counts in
    the map of balances the store implements. [transfer_conserves]: totals and counts.
    [GetTokenHolders_page], [GetTokenHolderCount_exact]: the queries.

    ** Loops and fuel

    Loops over lists, prefixes and iterators are structural, and so are loops with a
    fixed number of retries. The others take fuel, returning [None] when it runs out:
    [GetBlocks_loop], the two detection loops and [FetchRange] need one step per height
    and one more, which the theorems prove enough for ranges that end below 2^64-1;
    a round of [Run] one step per height of its batch and one more; the draining of the
    results in Pool.v one step per collected result and one more; [GetLogs] at most 10002
    rounds, since longer ranges are refused; [evict_loop] of the cache needs two
    steps in a reachable state, since a store finds at most one entry too many. That
    [GetBlocks] and [GetLogs] at 2^64-1 and [evict_loop] at a capacity of zero or less do
    not end is proved as well, for every fuel. The loops of the heap go up or down a tree
    and are given the length of the slice; draining the queue takes one step per request.

    ** Interfaces and what is assumed of them

    Code outside src/ is reached through classes whose laws state its documentation:
    [EthHexLaws] (an address or hash prints as 0x and hex digits, two different ones
    differently), [PebbleLaws] (a committed write is all of its operations in order or
    none, reads see the last write, iteration lists keys of a range with their values in
    byte order once each, and all of them unless it ends in an error), [RLPLaws] and
    [ChainLaws] (decoding an encoding gives the value up to the fields that are not encoded).
    For blocks, transactions, locations and logs that is the value itself; for a receipt it
    is [consensus_receipt], which keeps what go-ethereum's consensus encoding has (type, state
    root or status, cumulative gas, bloom, and addresses, topics and data of the logs) and has
    the zero value in every derived field. [healthy] says that no call of the database
    fails; only theorems about success assume it. Instances.v and KV.v satisfy all of
    them at once. Inside the library [BlockStoreSpec] and [FetcherSpec] are promises of
    the storage and the stages to their callers, discharged for PebbleStorage. The stages
    of other files (balances, addresses, consensus metadata, token processors) are
    operations of [FetcherEnv] of which [FetcherSpec] asks that they leave blocks, receipts
    and the latest height alone, and of [ProcessReceiptsParallel] of large_block.go, the
    stage for blocks with many receipts, that it stores every receipt when it succeeds.

    ** What has no counterpart

    Locks: an operation that holds the component's lock, or is used by one writer, is one
    step. Goroutines are modelled where the code has them, in Pool.v, EventBus.v and
    Waiters.v, by rules that interleave the steps between locks and channel operations;
    the cleanup goroutine of the cache is a [cleanup] at any moment. The channel of
    published events is buffered in EventBus.v, as every caller makes it; unbuffered and
    oversized channels are left out, and so are nil events and the events that are not of
    types.go. [MultiPriorityQueue.Dequeue] is one step, though it releases the lock of each
    queue before it polls the next, so its theorem is about sequential histories. The
    counters of the cache are unbounded. A loop that checks [iter.Error()] and stops early at
    a limit is taken to see an error that the iterator would have met later; [Iterate],
    [DeleteByPrefix] and [CountByPrefix] are exact there. Sync options of writes, metrics and
    log messages. A context is never cancelled inside the storage, where [Iterate] polls it;
    the detection loops poll it and are given the outcome of each poll. The capacity of
    a Go slice is taken to be its length. Entries of the cache are identified by their
    keys instead of by pointers, which is sound as long as the map and the list hold
    the same entries, the invariant proved in RpcCache.v.

    ** Not modelled, and the order in which it should be

    Next: the address index records and the other indexes of pkg/storage; the watch-list
    service; the signer bitmap and epochs of
    pkg/consensus/wbft and pkg/crypto/bls; the fetch optimizer; retries of
    pkg/notifications; the reconnect state machine of pkg/resilience; the life cycle
    of pkg/multichain; the filter manager of pkg/api/jsonrpc. Left aside: JSON and
    GraphQL translation, the adapters of Kafka and Redis, the callers of a node, a
    compiler process or a mail server, floating-point estimates, and configuration. *)
