(* ===== verification/Prelude.v ===== *)
(** Prelude: what every component of the development shares.

    Go's machine integers with their wrap-around, the error values and the
    result monad, byte strings ([list ascii]) with the parts of [fmt],
    [strconv], [strings] and [bytes] that the modelled code uses, the
    lexicographic order of byte strings, and the lemmas and tactics about them.
    The components are documented in Root.v. *)
From Stdlib Require Export ZArith Ascii String Lia.
From stdpp Require Export base tactics numbers list gmap strings.
#[global] Open Scope Z_scope.

(** * Machine integers *)

Definition two64 : Z := 2 ^ 64.

(** The value of a [uint64] computation: reduction modulo 2^64. *)
Definition u64 (z : Z) : Z := z mod two64.

(** [int(x)] of a [uint64] on a 64-bit platform: two's complement. *)
Definition i64 (z : Z) : Z :=
  let m := z mod two64 in if m <? 2 ^ 63 then m else m - two64.

Definition is_u64 (z : Z) : Prop := 0 <= z < two64.

#[global] Instance is_u64_dec z : Decision (is_u64 z).
Proof. unfold is_u64. apply _. Defined.

Lemma u64_range z : is_u64 (u64 z).
Proof. apply Z.mod_pos_bound. reflexivity. Qed.

Lemma u64_id z : is_u64 z -> u64 z = z.
Proof. apply Z.mod_small. Qed.

Lemma i64_id z : 0 <= z < 2 ^ 63 -> i64 z = z.
Proof.
  intros H. unfold i64, two64. rewrite Z.mod_small by lia.
  destruct (Z.ltb_spec z (2 ^ 63)); lia.
Qed.

Create HintDb go discriminated.
#[export] Hint Resolve u64_range : go.

(** * Errors and results *)

(** Go's error values: the sentinels the code compares with [==], messages
    made by [fmt.Errorf], wrapping by its verb [%w], and errors that come out of
    code outside the repository. Format arguments of a message are not kept.
    [Panic] is not an error value: it marks a run-time panic of the goroutine. *)
Inductive error : Type :=
| ErrNotFound | ErrClosed | ErrReadOnly | ErrInvalidReceipt
| ErrSyntax | ErrRange
| Errorf (msg : string)
| Wrap (msg : string) (e : error)
| External (code : Z)
| Panic (msg : string).

#[global] Instance error_eq_dec : EqDecision error.
Proof. solve_decision. Defined.

Inductive res (A : Type) : Type :=
| Ok (a : A)
| Err (e : error).
Arguments Ok {A} a.
Arguments Err {A} e.

#[global] Instance res_ret : MRet res := fun A a => Ok a.
#[global] Instance res_bind : MBind res := fun A B k r =>
  match r with Ok a => k a | Err e => Err e end.
#[global] Instance res_fmap : FMap res := fun A B f r =>
  match r with Ok a => Ok (f a) | Err e => Err e end.

Definition is_ok {A} (r : res A) : bool := match r with Ok _ => true | Err _ => false end.

(** [return fmt.Errorf("...: %w", err)] around a call. *)
Definition wrap_err {A} (msg : string) (r : res A) : res A :=
  match r with Ok a => Ok a | Err e => Err (Wrap msg e) end.

Lemma bind_ok {A B} (r : res A) (k : A -> res B) b :
  (r ≫= k) = Ok b -> exists a, r = Ok a /\ k a = Ok b.
Proof. destruct r; cbn; intros H; [eauto | discriminate]. Qed.

Lemma wrap_err_ok {A} msg (r : res A) a : wrap_err msg r = Ok a <-> r = Ok a.
Proof. destruct r; cbn; split; congruence. Qed.


(** Peel one successful [bind] or [wrap_err] off a hypothesis. *)
Ltac inv_ok :=
  repeat match goal with
    | H : (_ ≫= _) = Ok _ |- _ =>
        let a := fresh "r" in let H1 := fresh H in
        apply bind_ok in H as (a & H1 & H)
    | H : wrap_err _ _ = Ok _ |- _ => apply wrap_err_ok in H
    | H : Ok _ = Ok _ |- _ => injection H as H; subst
    | H : Err _ = Ok _ |- _ => discriminate H
    end.

(** * State and errors *)

(** A computation on a mutable state: it ends in a value or an error, and the
    state keeps the writes made before the error, as the code's does. *)
Definition ST (S A : Type) : Type := S -> res A * S.

#[global] Instance ST_ret S : MRet (ST S) := fun A a s => (Ok a, s).
#[global] Instance ST_bind S : MBind (ST S) := fun A B k m s =>
  match m s with
  | (Ok a, s') => k a s'
  | (Err e, s') => (Err e, s')
  end.

Definition lift {S A} (r : res A) : ST S A := fun s => (r, s).
Definition fail {S A} (e : error) : ST S A := lift (Err e).
Definition gets {S A} (f : S -> A) : ST S A := fun s => (Ok (f s), s).
Definition modify {S} (f : S -> S) : ST S unit := fun s => (Ok tt, f s).
Definition wrapST {S A} (msg : string) (m : ST S A) : ST S A :=
  fun s => let '(r, s') := m s in (wrap_err msg r, s').

(** Look at how a computation ended: the [if err != nil] that tells errors apart. *)
Definition tryST {S A B} (m : ST S A) (k : res A -> ST S B) : ST S B :=
  fun s => let '(r, s') := m s in k r s'.

(** [for _, x := range l { if err := f(x); err != nil { return err } }]. *)
Fixpoint forST {S A} (f : A -> ST S unit) (l : list A) : ST S unit :=
  match l with
  | [] => mret tt
  | x :: l' => _ ← f x; forST f l'
  end.

Lemma bind_ST_ok {S A B} (m : ST S A) (k : A -> ST S B) s b s' :
  (m ≫= k) s = (Ok b, s') -> exists a s1, m s = (Ok a, s1) /\ k a s1 = (Ok b, s').
Proof.
  unfold mbind, ST_bind. destruct (m s) as [[a|e] s1]; [eauto|discriminate].
Qed.

Lemma wrapST_ok {S A} msg (m : ST S A) s a s' :
  wrapST msg m s = (Ok a, s') <-> m s = (Ok a, s').
Proof.
  unfold wrapST. destruct (m s) as [r s1]. destruct r; cbn; split; intros; simplify_eq; done.
Qed.

(** Peel one successful step off a hypothesis about a computation. *)
Ltac inv_ST :=
  repeat match goal with
    | H : (_ ≫= _) _ = (Ok _, _) |- _ =>
        let a := fresh "r" in let s1 := fresh "s" in let H1 := fresh H in
        apply bind_ST_ok in H as (a & s1 & H1 & H)
    | H : wrapST _ _ _ = (Ok _, _) |- _ => apply wrapST_ok in H
    | H : lift (Ok _) _ = (Ok _, _) |- _ => injection H as ? ?; subst
    | H : lift (Err _) _ = (Ok _, _) |- _ => discriminate H
    | H : fail _ _ = (Ok _, _) |- _ => discriminate H
    | H : mret _ _ = (Ok _, _) |- _ => injection H as ? ?; subst
    | H : modify _ _ = (Ok _, _) |- _ => injection H as ? ?; subst
    | H : gets _ _ = (Ok _, _) |- _ => injection H as ? ?; subst
    end.

(** [runs m s Q]: from [s] the computation ends without an error, in a value and a
    state that satisfy [Q]. *)
Definition runs {S A} (m : ST S A) (s : S) (Q : A -> S -> Prop) : Prop :=
  exists a s', m s = (Ok a, s') /\ Q a s'.

Lemma runs_ret {S A} (a : A) (s : S) (Q : A -> S -> Prop) : Q a s -> runs (mret a) s Q.
Proof. intros H. by exists a, s. Qed.

Lemma runs_lift {S A} (r : res A) (s : S) a (Q : A -> S -> Prop) :
  r = Ok a -> Q a s -> runs (lift r) s Q.
Proof. intros -> H. by exists a, s. Qed.

Lemma runs_wrapST {S A} msg (m : ST S A) s Q : runs m s Q -> runs (wrapST msg m) s Q.
Proof. intros (a & s' & H & HQ). exists a, s'. split; [|done]. unfold wrapST. by rewrite H. Qed.

Lemma runs_bind {S A B} (m : ST S A) (k : A -> ST S B) s Q :
  runs m s (fun a s' => runs (k a) s' Q) -> runs (m ≫= k) s Q.
Proof.
  intros (a & s1 & H & b & s2 & H2 & HQ). exists b, s2. split; [|done].
  unfold mbind, ST_bind. by rewrite H.
Qed.

Lemma runs_mono {S A} (m : ST S A) s (Q R : A -> S -> Prop) :
  runs m s Q -> (forall a s', Q a s' -> R a s') -> runs m s R.
Proof. intros (a & s' & H & HQ) HR. exists a, s'. auto. Qed.

Lemma runs_forST {S A} (I : S -> Prop) (f : A -> ST S unit) l s :
  (forall x s, x ∈ l -> I s -> runs (f x) s (fun _ => I)) -> I s ->
  runs (forST f l) s (fun _ => I).
Proof.
  intros Hf. revert s. induction l as [|x l IH]; intros s HI; cbn [forST]; [by apply runs_ret|].
  apply runs_bind. eapply runs_mono; [apply Hf; [by left | done]|].
  intros a s' HI'. apply IH; [|done]. intros y s1 Hy HI1. apply Hf; [by right | done].
Qed.

Lemma runs_tt {S} (m : ST S unit) s Q : runs m s Q -> exists s', m s = (Ok tt, s').
Proof. intros ([] & s' & H & _). eauto. Qed.

(** * Byte strings *)

Abbreviation bytes := (list ascii).

Definition lit (s : string) : bytes := list_ascii_of_string s.

Definition byte_val (c : ascii) : Z := Z.of_N (N_of_ascii c).
Definition byte_of (z : Z) : ascii := ascii_of_N (Z.to_N (z mod 256)).

Lemma byte_val_range c : 0 <= byte_val c < 256.
Proof.
  unfold byte_val. pose proof (N_ascii_bounded c). lia.
Qed.

Lemma byte_val_of z : byte_val (byte_of z) = z mod 256.
Proof.
  unfold byte_val, byte_of.
  pose proof (Z.mod_pos_bound z 256 eq_refl).
  rewrite N_ascii_embedding by lia. lia.
Qed.

Lemma byte_val_inj c d : byte_val c = byte_val d -> c = d.
Proof.
  unfold byte_val. intros H. apply N2Z.inj in H.
  rewrite <- (ascii_N_embedding c), <- (ascii_N_embedding d), H. done.
Qed.

Lemma byte_of_val c : byte_of (byte_val c) = c.
Proof.
  apply byte_val_inj. rewrite byte_val_of. apply Z.mod_small, byte_val_range.
Qed.

(** [bytes.HasPrefix], [strings.HasPrefix]: argument order as in Go. *)
Fixpoint HasPrefix (key prefix : bytes) : bool :=
  match prefix, key with
  | [], _ => true
  | p :: ps, k :: ks => bool_decide (p = k) && HasPrefix ks ps
  | _ :: _, [] => false
  end.

(** [strings.TrimPrefix]. *)
Definition TrimPrefix (s prefix : bytes) : bytes :=
  if HasPrefix s prefix then drop (length prefix) s else s.

Lemma HasPrefix_spec key prefix :
  HasPrefix key prefix = true <-> exists rest, key = prefix ++ rest.
Proof.
  revert key. induction prefix as [|p ps IH]; intros key.
  { destruct key; cbn; split; eauto. }
  destruct key as [|k ks]; cbn.
  { split; [done | intros [? ?]; done]. }
  rewrite andb_true_iff, bool_decide_eq_true, IH.
  split; [intros [-> [r ->]] | intros [r [= -> ->]]]; eauto.
Qed.

Lemma HasPrefix_app p s : HasPrefix (p ++ s) p = true.
Proof. apply HasPrefix_spec. eauto. Qed.

Lemma TrimPrefix_app p s : TrimPrefix (p ++ s) p = s.
Proof. unfold TrimPrefix. by rewrite HasPrefix_app, drop_app_length. Qed.


(** [strings.Split(s, "/")] for the separator the keys use. *)
Definition slash : ascii := "/"%char.

Fixpoint Split_slash (s : bytes) : list bytes :=
  match s with
  | [] => [[]]
  | c :: s' =>
      if bool_decide (c = slash) then [] :: Split_slash s'
      else match Split_slash s' with
           | seg :: segs => (c :: seg) :: segs
           | [] => [[c]]
           end
  end.

Definition no_slash (s : bytes) : Prop := slash ∉ s.

Lemma Split_slash_seg s : no_slash s -> Split_slash s = [s].
Proof.
  induction s as [|c s IH]; intros H; [done|].
  apply not_elem_of_cons in H as [Hc Hs]. cbn.
  rewrite bool_decide_eq_false_2 by congruence. by rewrite IH.
Qed.

Lemma Split_slash_app s t :
  no_slash s -> Split_slash (s ++ slash :: t) = s :: Split_slash t.
Proof.
  induction s as [|c s IH]; intros H; [done|].
  apply not_elem_of_cons in H as [Hc Hs]. cbn.
  rewrite bool_decide_eq_false_2 by congruence. by rewrite IH.
Qed.

(** Two strings cut at the first occurrence of a separator they do not hold. *)
Lemma sep_app_inj (c : ascii) s1 s2 t1 t2 :
  c ∉ s1 -> c ∉ s2 -> s1 ++ c :: t1 = s2 ++ c :: t2 -> s1 = s2 /\ t1 = t2.
Proof.
  revert s2. induction s1 as [|d s1 IH]; intros [|e s2] H1 H2 E; cbn in E.
  - by simplify_eq.
  - simplify_eq. by destruct H2; left.
  - simplify_eq. by destruct H1; left.
  - injection E as -> E.
    apply not_elem_of_cons in H1 as [? ?], H2 as [? ?].
    destruct (IH s2) as [-> ->]; auto.
Qed.

Lemma slash_app_inj s1 s2 t1 t2 :
  no_slash s1 -> no_slash s2 ->
  s1 ++ slash :: t1 = s2 ++ slash :: t2 -> s1 = s2 /\ t1 = t2.
Proof. apply sep_app_inj. Qed.

(** * Numbers in text: the verbs %d, %0wd, %0wx of [fmt] *)

Definition digit (d : Z) : ascii := byte_of (if d <? 10 then 48 + d else 87 + d).

Definition digit_val (c : ascii) : Z :=
  let v := byte_val c in if v <? 58 then v - 48 else v - 87.

Lemma digit_val_digit d : 0 <= d < 16 -> digit_val (digit d) = d.
Proof.
  intros H. unfold digit_val, digit. rewrite byte_val_of.
  destruct (Z.ltb_spec d 10).
  - rewrite Z.mod_small by lia. destruct (Z.ltb_spec (48 + d) 58); lia.
  - rewrite Z.mod_small by lia. destruct (Z.ltb_spec (87 + d) 58); lia.
Qed.

Lemma byte_val_digit d : 0 <= d < 16 ->
  byte_val (digit d) = if d <? 10 then 48 + d else 87 + d.
Proof.
  intros H. unfold digit. rewrite byte_val_of.
  destruct (Z.ltb_spec d 10); apply Z.mod_small; lia.
Qed.

(** The [n] least significant digits, most significant first. *)
Fixpoint fixed_digits (b : Z) (n : nat) (z : Z) : bytes :=
  match n with
  | O => []
  | S n' => fixed_digits b n' (z / b) ++ [digit (z mod b)]
  end.

Definition digits_val (b : Z) (s : bytes) : Z :=
  fold_left (fun acc c => acc * b + digit_val c) s 0.

(** How many digits [z] needs, at least one. *)
Fixpoint ndigits_go (fuel : nat) (b z : Z) : nat :=
  match fuel with
  | O => 1
  | S f => if z <? b then 1%nat else S (ndigits_go f b (z / b))
  end.

Definition ndigits (b z : Z) : nat := ndigits_go (Z.to_nat (Z.log2 z)) b z.

(** An unsigned number in base [b], zero-padded to width [w]. *)
Definition fmt_nat (b : Z) (w : nat) (z : Z) : bytes :=
  fixed_digits b (Nat.max w (ndigits b z)) z.

(** A signed number: the sign counts in the width. *)
Definition fmt_int (b : Z) (w : nat) (z : Z) : bytes :=
  if z <? 0 then "-"%char :: fmt_nat b (w - 1) (- z) else fmt_nat b w z.

Definition fmt_d (z : Z) : bytes := fmt_int 10 0 z.
Definition fmt_0d (w : nat) (z : Z) : bytes := fmt_int 10 w z.
Definition fmt_0x (w : nat) (z : Z) : bytes := fmt_int 16 w z.

Example fmt_examples :
  fmt_d 0 = lit "0" /\ fmt_d 1234567 = lit "1234567" /\
  fmt_0d 6 42 = lit "000042" /\ fmt_0d 6 (-1) = lit "-00001" /\
  fmt_0x 4 255 = lit "00ff".
Proof. vm_compute. auto. Qed.

(** A base the digits of this file cover. *)
Definition good_base (b : Z) : Prop := 2 <= b <= 16.

Lemma good_base_10 : good_base 10.
Proof. unfold good_base; lia. Qed.
Lemma good_base_16 : good_base 16.
Proof. unfold good_base; lia. Qed.
#[export] Hint Resolve good_base_10 good_base_16 : go.

Lemma length_fixed_digits b n z : length (fixed_digits b n z) = n.
Proof.
  revert z. induction n as [|n IH]; intros z; cbn; [done|].
  rewrite length_app, IH. cbn. lia.
Qed.

Lemma digits_val_snoc b s c :
  digits_val b (s ++ [c]) = digits_val b s * b + digit_val c.
Proof. unfold digits_val. by rewrite fold_left_app. Qed.

Lemma digits_val_fixed b n z : good_base b ->
  digits_val b (fixed_digits b n z) = z mod b ^ Z.of_nat n.
Proof.
  intros Hb. unfold good_base in Hb. revert z.
  induction n as [|n IH]; intros z; cbn [fixed_digits].
  { cbn. by rewrite Z.mod_1_r. }
  rewrite digits_val_snoc, IH, digit_val_digit
    by (pose proof (Z.mod_pos_bound z b); lia).
  rewrite Nat2Z.inj_succ, Z.pow_succ_r by lia.
  rewrite Z.rem_mul_r by (try apply Z.pow_nonzero; lia). lia.
Qed.

Lemma ndigits_go_bound fuel b z : good_base b ->
  0 <= z < 2 ^ Z.of_nat (S fuel) -> z < b ^ Z.of_nat (ndigits_go fuel b z).
Proof.
  intros Hb. pose proof Hb as Hb'. unfold good_base in Hb'. revert z.
  induction fuel as [|f IH]; intros z Hz; cbn [ndigits_go].
  { change (Z.of_nat 1) with 1 in *. rewrite Z.pow_1_r in *. lia. }
  destruct (Z.ltb_spec z b) as [Hlt|Hge].
  { change (Z.of_nat 1) with 1. rewrite Z.pow_1_r. lia. }
  rewrite Nat2Z.inj_succ, Z.pow_succ_r by lia.
  assert (z / b < b ^ Z.of_nat (ndigits_go f b (z / b))) as H1.
  { apply IH. split; [apply Z.div_pos; lia|].
    apply Z.div_lt_upper_bound; [lia|].
    rewrite Nat2Z.inj_succ, Z.pow_succ_r in Hz by lia.
    pose proof (Z.pow_pos_nonneg 2 (Z.of_nat (S f)) ltac:(lia) ltac:(lia)). nia. }
  pose proof (Z.div_mod z b ltac:(lia)).
  pose proof (Z.mod_pos_bound z b ltac:(lia)). nia.
Qed.

Lemma ndigits_bound b z : good_base b -> 0 <= z ->
  z < b ^ Z.of_nat (ndigits b z).
Proof.
  intros Hb Hz. apply ndigits_go_bound; [done|]. split; [done|].
  destruct (decide (z = 0)) as [->|]; [done|].
  rewrite Nat2Z.inj_succ, Z2Nat.id by apply Z.log2_nonneg.
  apply Z.log2_spec. lia.
Qed.

(** Printing then evaluating the digits gives the number back. *)
Lemma digits_val_fmt_nat b w z : good_base b -> 0 <= z ->
  digits_val b (fmt_nat b w z) = z.
Proof.
  intros Hb Hz. unfold fmt_nat. rewrite digits_val_fixed by done.
  apply Z.mod_small. split; [done|].
  pose proof (ndigits_bound b z Hb Hz). unfold good_base in Hb.
  eapply Z.lt_le_trans; [eassumption|]. apply Z.pow_le_mono_r; lia.
Qed.

(** The characters a formatted number is made of. *)
Definition is_digit_byte (b : Z) (c : ascii) : Prop :=
  exists d, 0 <= d < b /\ c = digit d.

Lemma fixed_digits_chars b n z : good_base b ->
  Forall (is_digit_byte b) (fixed_digits b n z).
Proof.
  intros Hb. revert z. induction n as [|n IH]; intros z; cbn; [constructor|].
  apply Forall_app. split; [apply IH|]. constructor; [|constructor].
  exists (z mod b). split; [|done]. unfold good_base in Hb.
  apply Z.mod_pos_bound. lia.
Qed.

Lemma digit_byte_range b c : good_base b -> is_digit_byte b c ->
  48 <= byte_val c < 58 \/ 97 <= byte_val c < 103.
Proof.
  intros Hb (d & Hd & ->). unfold good_base in Hb.
  rewrite byte_val_digit by lia. destruct (Z.ltb_spec d 10); lia.
Qed.

Lemma fmt_nat_chars b w z : good_base b -> Forall (is_digit_byte b) (fmt_nat b w z).
Proof. apply fixed_digits_chars. Qed.

Lemma fmt_nat_nonempty b w z : fmt_nat b w z <> [].
Proof.
  intros H%(f_equal length). unfold fmt_nat in H.
  rewrite length_fixed_digits in H. cbn [length] in H.
  assert (1 <= ndigits b z)%nat; [|lia].
  unfold ndigits. destruct (Z.to_nat _); cbn; [lia|]. case_match; lia.
Qed.

Lemma digit_no_slash b c : good_base b -> is_digit_byte b c -> c <> slash.
Proof.
  intros Hb H ->. apply digit_byte_range in H; [|done].
  change (byte_val slash) with 47 in H. lia.
Qed.

Lemma chars_no_slash b s : good_base b -> Forall (is_digit_byte b) s -> no_slash s.
Proof.
  intros Hb H Hin. rewrite Forall_forall in H.
  by apply (digit_no_slash b slash Hb (H _ Hin)).
Qed.

Lemma fmt_int_no_slash b w z : good_base b -> no_slash (fmt_int b w z).
Proof.
  intros Hb. unfold fmt_int. case_match.
  - apply not_elem_of_cons. split; [done|]. by eapply chars_no_slash, fmt_nat_chars.
  - by eapply chars_no_slash, fmt_nat_chars.
Qed.

Lemma fmt_int_inj b w z1 z2 : good_base b ->
  fmt_int b w z1 = fmt_int b w z2 -> z1 = z2.
Proof.
  intros Hb. unfold fmt_int.
  assert (Hhd : forall w z t, fmt_nat b w z <> "-"%char :: t).
  { intros w0 z t E. pose proof (fmt_nat_chars b w0 z Hb) as Hc.
    rewrite E in Hc. inversion_clear Hc as [|? ? H _].
    apply digit_byte_range in H; [|done].
    change (byte_val "-"%char) with 45 in H. lia. }
  destruct (Z.ltb_spec z1 0), (Z.ltb_spec z2 0); intros E.
  - injection E as E. apply (f_equal (digits_val b)) in E.
    rewrite !digits_val_fmt_nat in E by (done || lia). lia.
  - symmetry in E. by apply Hhd in E.
  - by apply Hhd in E.
  - apply (f_equal (digits_val b)) in E.
    by rewrite !digits_val_fmt_nat in E by (done || lia).
Qed.

Lemma fmt_d_no_slash z : no_slash (fmt_d z).
Proof. apply fmt_int_no_slash; auto with go. Qed.
Lemma fmt_0d_no_slash w z : no_slash (fmt_0d w z).
Proof. apply fmt_int_no_slash; auto with go. Qed.
Lemma fmt_0x_no_slash w z : no_slash (fmt_0x w z).
Proof. apply fmt_int_no_slash; auto with go. Qed.
#[export] Hint Resolve fmt_d_no_slash fmt_0d_no_slash fmt_0x_no_slash : go.

Lemma fmt_d_inj z1 z2 : fmt_d z1 = fmt_d z2 -> z1 = z2.
Proof. apply fmt_int_inj; auto with go. Qed.
Lemma fmt_0d_inj w z1 z2 : fmt_0d w z1 = fmt_0d w z2 -> z1 = z2.
Proof. apply fmt_int_inj; auto with go. Qed.
Lemma fmt_0x_inj w z1 z2 : fmt_0x w z1 = fmt_0x w z2 -> z1 = z2.
Proof. apply fmt_int_inj; auto with go. Qed.

(** A value that fits its width is printed on exactly that many digits. *)
Lemma ndigits_go_small fuel b z n : good_base b ->
  0 <= z < b ^ Z.of_nat n -> (1 <= n)%nat -> (ndigits_go fuel b z <= n)%nat.
Proof.
  intros Hb. unfold good_base in Hb. revert z n.
  induction fuel as [|f IH]; intros z n Hz Hn; cbn; [lia|].
  destruct (Z.ltb_spec z b); [lia|].
  destruct n as [|[|n]]; [lia| |].
  { change (Z.of_nat 1) with 1 in Hz. rewrite Z.pow_1_r in Hz. lia. }
  apply le_n_S, IH; [|lia]. split; [apply Z.div_pos; lia|].
  apply Z.div_lt_upper_bound; [lia|].
  rewrite (Nat2Z.inj_succ (S n)), Z.pow_succ_r in Hz by lia. lia.
Qed.

Lemma fmt_int_fixed b w z : good_base b -> (1 <= w)%nat ->
  0 <= z < b ^ Z.of_nat w -> fmt_int b w z = fixed_digits b w z.
Proof.
  intros Hb Hw Hz. unfold fmt_int, fmt_nat.
  destruct (Z.ltb_spec z 0); [lia|]. f_equal.
  pose proof (ndigits_go_small (Z.to_nat (Z.log2 z)) b z w Hb Hz Hw).
  unfold ndigits. lia.
Qed.

(** * Parsing numbers: [strconv.ParseUint(s, 10, 64)] *)

(** The loop of [ParseUint] once base 10 and the 64-bit cutoff are fixed; it
    stops at the first character that is not a digit or at the first overflow. *)
Fixpoint ParseUint_go (n : Z) (s : bytes) : res Z :=
  match s with
  | [] => Ok n
  | c :: s' =>
      let d := byte_val c - 48 in
      if (d <? 0) || (9 <? d) then Err ErrSyntax
      else if (two64 - 1) / 10 + 1 <=? n then Err ErrRange
      else let n1 := n * 10 + d in
           if two64 - 1 <? n1 then Err ErrRange else ParseUint_go n1 s'
  end.

Definition ParseUint (s : bytes) : res Z :=
  match s with [] => Err ErrSyntax | _ => ParseUint_go 0 s end.

Lemma fold_digits_ge s acc : 0 <= acc -> Forall (is_digit_byte 10) s ->
  acc <= fold_left (fun a c => a * 10 + digit_val c) s acc.
Proof.
  intros Ha H. revert acc Ha. induction H as [|c s (d & Hd & ->) Hs IH]; intros acc Ha.
  { cbn. lia. }
  cbn. rewrite digit_val_digit by lia. specialize (IH (acc * 10 + d)). lia.
Qed.

Lemma ParseUint_go_digits s acc : 0 <= acc -> Forall (is_digit_byte 10) s ->
  fold_left (fun a c => a * 10 + digit_val c) s acc < two64 ->
  ParseUint_go acc s = Ok (fold_left (fun a c => a * 10 + digit_val c) s acc).
Proof.
  intros Ha H. revert acc Ha. induction H as [|c s (d & Hd & ->) Hs IH]; intros acc Ha Hlt.
  { done. }
  cbn in Hlt |- *. rewrite digit_val_digit in Hlt |- * by lia.
  rewrite byte_val_digit by lia. destruct (Z.ltb_spec d 10); [|lia].
  replace (48 + d - 48) with d by lia.
  destruct (Z.ltb_spec d 0); [lia|]. destruct (Z.ltb_spec 9 d); [lia|]. cbn.
  pose proof (fold_digits_ge s (acc * 10 + d) ltac:(lia) Hs).
  unfold two64 in *. change ((2 ^ 64 - 1) / 10 + 1) with 1844674407370955162.
  destruct (Z.leb_spec 1844674407370955162 acc); [lia|].
  destruct (Z.ltb_spec (2 ^ 64 - 1) (acc * 10 + d)); [lia|].
  apply IH; lia.
Qed.

(** [ParseUint] reads back what the [%d] verb prints. *)
Lemma ParseUint_fmt_d z : is_u64 z -> ParseUint (fmt_d z) = Ok z.
Proof.
  intros [Hz Hz']. unfold fmt_d, fmt_int. destruct (Z.ltb_spec z 0); [lia|].
  pose proof (fmt_nat_chars 10 0 z good_base_10) as Hc.
  pose proof (digits_val_fmt_nat 10 0 z good_base_10 Hz) as Hv.
  pose proof (fmt_nat_nonempty 10 0 z) as Hn.
  unfold ParseUint. destruct (fmt_nat 10 0 z) eqn:E; [done|].
  rewrite ParseUint_go_digits; unfold digits_val in Hv; rewrite ?Hv; done.
Qed.

(** * Big-endian integers: [encoding/binary], [big.Int.Bytes] *)

Fixpoint be_put (n : nat) (z : Z) : bytes :=
  match n with
  | O => []
  | S n' => be_put n' (z / 256) ++ [byte_of z]
  end.

Definition be_get (s : bytes) : Z :=
  fold_left (fun acc c => acc * 256 + byte_val c) s 0.

Lemma be_get_snoc s c : be_get (s ++ [c]) = be_get s * 256 + byte_val c.
Proof. unfold be_get. by rewrite fold_left_app. Qed.

Lemma length_be_put n z : length (be_put n z) = n.
Proof.
  revert z. induction n as [|n IH]; intros z; cbn; [done|].
  rewrite length_app, IH. cbn. lia.
Qed.

Lemma be_get_put n z : be_get (be_put n z) = z mod 256 ^ Z.of_nat n.
Proof.
  revert z. induction n as [|n IH]; intros z; cbn [be_put].
  { cbn. by rewrite Z.mod_1_r. }
  rewrite be_get_snoc, IH, byte_val_of, Nat2Z.inj_succ, Z.pow_succ_r by lia.
  rewrite Z.rem_mul_r by (try apply Z.pow_nonzero; lia). lia.
Qed.

Lemma be_get_range s : 0 <= be_get s < 256 ^ Z.of_nat (length s).
Proof.
  induction s as [|c s IH] using rev_ind; [done|].
  rewrite be_get_snoc, length_app, Nat2Z.inj_add, Z.pow_add_r by lia.
  change (256 ^ Z.of_nat (length [c])) with 256.
  pose proof (byte_val_range c). lia.
Qed.

Lemma be_put_get s : be_put (length s) (be_get s) = s.
Proof.
  induction s as [|c s IH] using rev_ind; [done|].
  rewrite length_app, Nat.add_1_r, be_get_snoc. cbn [be_put].
  pose proof (byte_val_range c).
  rewrite Z.div_add_l, (Z.div_small (byte_val c)), Z.add_0_r, IH by lia.
  do 2 f_equal. apply byte_val_inj. rewrite byte_val_of.
  rewrite Z.add_comm, Z.mod_add by lia. apply Z.mod_small. lia.
Qed.

(** [big.Int.Bytes]: the absolute value, without leading zero bytes. *)
Fixpoint nbytes_go (fuel : nat) (z : Z) : nat :=
  match fuel with
  | O => 0
  | S f => if z <=? 0 then 0 else S (nbytes_go f (z / 256))
  end.

Definition big_Bytes (z : Z) : bytes :=
  be_put (nbytes_go (S (Z.to_nat (Z.log2 (Z.abs z)))) (Z.abs z)) (Z.abs z).

(** [new(big.Int).SetBytes]. *)
Definition big_SetBytes (s : bytes) : Z := be_get s.

Lemma nbytes_go_bound fuel z : 0 <= z < 2 ^ Z.of_nat fuel ->
  z < 256 ^ Z.of_nat (nbytes_go fuel z).
Proof.
  revert z. induction fuel as [|f IH]; intros z Hz; cbn [nbytes_go].
  { change (2 ^ Z.of_nat 0) with 1 in Hz. change (256 ^ Z.of_nat 0) with 1. lia. }
  destruct (Z.leb_spec z 0); [change (256 ^ Z.of_nat 0) with 1; lia|].
  rewrite Nat2Z.inj_succ, Z.pow_succ_r in Hz by lia.
  rewrite Nat2Z.inj_succ, Z.pow_succ_r by lia.
  assert (z / 256 < 256 ^ Z.of_nat (nbytes_go f (z / 256))) as H1.
  { apply IH. split; [apply Z.div_pos; lia|]. apply Z.div_lt_upper_bound; lia. }
  pose proof (Z.div_mod z 256 ltac:(lia)).
  pose proof (Z.mod_pos_bound z 256 ltac:(lia)). lia.
Qed.

Lemma big_SetBytes_Bytes z : big_SetBytes (big_Bytes z) = Z.abs z.
Proof.
  unfold big_SetBytes, big_Bytes. rewrite be_get_put. apply Z.mod_small.
  split; [lia|]. apply nbytes_go_bound. split; [lia|].
  rewrite Nat2Z.inj_succ, Z2Nat.id by apply Z.log2_nonneg.
  destruct (decide (z = 0)) as [->|]; [done|]. apply Z.log2_spec. lia.
Qed.

Lemma big_Bytes_nil z : big_Bytes z = [] <-> z = 0.
Proof.
  split; [|by intros ->]. intros H.
  pose proof (big_SetBytes_Bytes z) as E. rewrite H in E. cbn in E. lia.
Qed.

(** * The lexicographic order of byte strings: [bytes.Compare] *)

Fixpoint bytes_ltb (a b : bytes) : bool :=
  match a, b with
  | _, [] => false
  | [], _ :: _ => true
  | x :: xs, y :: ys =>
      if byte_val x <? byte_val y then true
      else if byte_val y <? byte_val x then false
      else bytes_ltb xs ys
  end.

Definition bytes_leb (a b : bytes) : bool := negb (bytes_ltb b a).

Lemma bytes_ltb_irrefl a : bytes_ltb a a = false.
Proof. induction a as [|x a IH]; cbn; [done|]. by rewrite Z.ltb_irrefl. Qed.

Lemma bytes_ltb_trans a b c :
  bytes_ltb a b = true -> bytes_ltb b c = true -> bytes_ltb a c = true.
Proof.
  revert b c. induction a as [|x a IH]; intros [|y b] [|z c]; cbn; try done.
  destruct (Z.ltb_spec (byte_val x) (byte_val y)),
    (Z.ltb_spec (byte_val y) (byte_val x)),
    (Z.ltb_spec (byte_val y) (byte_val z)),
    (Z.ltb_spec (byte_val z) (byte_val y)),
    (Z.ltb_spec (byte_val x) (byte_val z)),
    (Z.ltb_spec (byte_val z) (byte_val x)); try lia; try done; eauto.
Qed.

Lemma bytes_ltb_total a b : bytes_ltb a b = false -> bytes_ltb b a = false -> a = b.
Proof.
  revert b. induction a as [|x a IH]; intros [|y b]; cbn; try done.
  destruct (Z.ltb_spec (byte_val x) (byte_val y)),
    (Z.ltb_spec (byte_val y) (byte_val x)); try done.
  intros H1 H2. f_equal; [apply byte_val_inj; lia | auto].
Qed.

Lemma bytes_ltb_app p a b : bytes_ltb (p ++ a) (p ++ b) = bytes_ltb a b.
Proof. induction p as [|x p IH]; cbn; [done|]. by rewrite Z.ltb_irrefl. Qed.

(** Digit strings of one width are ordered as the numbers they print,
    whatever follows them in the key. *)
Lemma digit_mono d e : 0 <= d < e -> e < 16 -> byte_val (digit d) < byte_val (digit e).
Proof.
  intros H1 H2. rewrite !byte_val_digit by lia.
  destruct (Z.ltb_spec d 10), (Z.ltb_spec e 10); lia.
Qed.

Lemma fixed_digits_ltb b n x y s t : good_base b ->
  0 <= x < y -> y < b ^ Z.of_nat n ->
  bytes_ltb (fixed_digits b n x ++ s) (fixed_digits b n y ++ t) = true.
Proof.
  intros Hb. pose proof Hb as Hb'. unfold good_base in Hb'. revert x y s t.
  induction n as [|n IH]; intros x y s t Hxy Hy.
  { change (b ^ Z.of_nat 0) with 1 in Hy. lia. }
  cbn [fixed_digits]. rewrite <- !app_assoc.
  rewrite Nat2Z.inj_succ, Z.pow_succ_r in Hy by lia.
  pose proof (Z.div_mod x b ltac:(lia)). pose proof (Z.mod_pos_bound x b ltac:(lia)).
  pose proof (Z.div_mod y b ltac:(lia)). pose proof (Z.mod_pos_bound y b ltac:(lia)).
  pose proof (Z.div_pos x b ltac:(lia) ltac:(lia)).
  destruct (Z.lt_total (x / b) (y / b)) as [Hlt|[Heq|Hgt]].
  - apply IH; [lia|]. apply Z.div_lt_upper_bound; lia.
  - rewrite Heq, bytes_ltb_app. cbn.
    pose proof (digit_mono (x mod b) (y mod b) ltac:(nia) ltac:(lia)) as Hd.
    apply Z.ltb_lt in Hd. by rewrite Hd.
  - nia.
Qed.

Lemma fmt_0d_ltb w x y s t : (1 <= w)%nat -> 0 <= x < y -> y < 10 ^ Z.of_nat w ->
  bytes_ltb (fmt_0d w x ++ s) (fmt_0d w y ++ t) = true.
Proof.
  intros. unfold fmt_0d. rewrite !fmt_int_fixed by (auto with go; lia).
  apply fixed_digits_ltb; auto with go.
Qed.

Lemma fmt_0x_ltb w x y s t : (1 <= w)%nat -> 0 <= x < y -> y < 16 ^ Z.of_nat w ->
  bytes_ltb (fmt_0x w x ++ s) (fmt_0x w y ++ t) = true.
Proof.
  intros. unfold fmt_0x. rewrite !fmt_int_fixed by (auto with go; lia).
  apply fixed_digits_ltb; auto with go.
Qed.

(** [strings.Index(s, "/")]: the first slash, if any. *)
Fixpoint Index_slash (s : bytes) : option nat :=
  match s with
  | [] => None
  | c :: s' => if bool_decide (c = slash) then Some O else S <$> Index_slash s'
  end.

Lemma Index_slash_app s t : no_slash s -> Index_slash (s ++ slash :: t) = Some (length s).
Proof.
  induction s as [|c s IH]; intros H; [done|].
  apply not_elem_of_cons in H as [Hc Hs]. cbn.
  rewrite bool_decide_eq_false_2 by congruence. by rewrite IH.
Qed.

#[global] Instance no_slash_dec s : Decision (no_slash s).
Proof. unfold no_slash. apply _. Defined.

Lemma no_slash_app s t : no_slash s -> no_slash t -> no_slash (s ++ t).
Proof. unfold no_slash. rewrite elem_of_app. tauto. Qed.

#[export] Hint Resolve no_slash_app : go.
#[export] Hint Extern 1 (no_slash (lit _)) => refine (bool_decide_unpack (no_slash _) _); vm_compute; exact I : go.

Lemma fmt_0d_underscore w z : "_"%char ∉ fmt_0d w z.
Proof.
  assert (Hu : forall b w z, good_base b -> "_"%char ∉ fmt_nat b w z).
  { intros b w0 z0 Hb Hin. pose proof (fmt_nat_chars b w0 z0 Hb) as Hc.
    rewrite Forall_forall in Hc. apply Hc, digit_byte_range in Hin; [|done].
    change (byte_val "_"%char) with 95 in Hin. lia. }
  unfold fmt_0d, fmt_int. case_match; [|auto with go].
  apply not_elem_of_cons. auto with go.
Qed.

Lemma cons_eq_inv {A} (x y : A) l k : x :: l = y :: k -> x = y /\ l = k.
Proof. by intros [= -> ->]. Qed.
