(* ===== verification/Eth.v ===== *)
(** The go-ethereum values the indexer's code sees.

    [common.Address] and [common.Hash] are Go arrays of 20 and 32 bytes, which
    the code copies, compares and zeroes as arrays, so they are arrays here.
    Their [Hex] methods (EIP-55 checksum, [hexutil.Encode]) belong to
    go-ethereum: they are the operations of the class [EthHex], and [EthHexLaws]
    states what their documentation promises and the database keys rely on. *)
From S2P Require Import Prelude.

(** * Fixed-size byte arrays *)

Definition byte_array (n : nat) : Type := dsig (fun l : bytes => length l = n).

#[global] Instance byte_array_eq_dec n : EqDecision (byte_array n).
Proof.
  intros x y. destruct (decide (`x = `y)) as [E|E].
  - left. by apply dsig_eq.
  - right. congruence.
Defined.

#[global] Instance byte_array_countable n : Countable (byte_array n).
Proof.
  apply (inj_countable' (fun x : byte_array n => `x)
           (fun l => match decide (length l = n) with
                     | left p => dexist l p
                     | right _ => dexist (replicate n zero) (length_replicate n zero)
                     end)).
  intros x. destruct (decide (length (`x) = n)) as [p|p].
  - by apply dsig_eq.
  - destruct p. apply (proj2_dsig x).
Defined.

(** [copy(arr[:], src)] into a fresh (zeroed) array of [n] bytes. *)
Definition copy_bytes (n : nat) (src : bytes) : bytes :=
  take n src ++ replicate (n - length src) zero.

Lemma length_copy_bytes n src : length (copy_bytes n src) = n.
Proof. unfold copy_bytes. rewrite length_app, length_take, length_replicate. lia. Qed.

Definition array_copy (n : nat) (src : bytes) : byte_array n :=
  dexist (copy_bytes n src) (length_copy_bytes n src).

Definition zero_array (n : nat) : byte_array n := array_copy n [].

Definition Address : Type := byte_array 20.
Definition Hash : Type := byte_array 32.

Lemma array_copy_bytes n (a : byte_array n) : array_copy n (`a) = a.
Proof.
  apply dsig_eq. cbn. unfold copy_bytes.
  rewrite (proj2_dsig a), Nat.sub_diag, app_nil_r, firstn_all2; [done|].
  by rewrite (proj2_dsig a).
Qed.

(** * Hexadecimal rendering *)

Class EthHex := {
  Address_Hex : Address -> bytes;
  Hash_Hex : Hash -> bytes;
}.

Class EthHexLaws {E : EthHex} : Prop := {
  Address_Hex_inj : forall a b, Address_Hex a = Address_Hex b -> a = b;
  Hash_Hex_inj : forall a b, Hash_Hex a = Hash_Hex b -> a = b;
  Address_Hex_0x : forall a, HasPrefix (Address_Hex a) (lit "0x") = true;
  Hash_Hex_0x : forall a, HasPrefix (Hash_Hex a) (lit "0x") = true;
  Address_Hex_no_slash : forall a, no_slash (Address_Hex a);
  Hash_Hex_no_slash : forall a, no_slash (Hash_Hex a);
}.
Arguments EthHexLaws : clear implicits.

#[export] Hint Resolve Address_Hex_no_slash Hash_Hex_no_slash : go.

(** A lower-case rendering that satisfies the laws: two digits per byte. *)
Definition hex_encode (s : bytes) : bytes :=
  lit "0x" ++ flat_map (fun c => fixed_digits 16 2 (byte_val c)) s.

Definition lower_hex : EthHex :=
  {| Address_Hex := fun a => hex_encode (`a); Hash_Hex := fun h => hex_encode (`h) |}.

Lemma hex_pair_inj c d s t :
  fixed_digits 16 2 (byte_val c) ++ s = fixed_digits 16 2 (byte_val d) ++ t ->
  c = d /\ s = t.
Proof.
  intros E. apply app_inj_1 in E as [E ->];
    [|by rewrite !length_fixed_digits].
  split; [|done]. apply (f_equal (digits_val 16)) in E.
  rewrite !digits_val_fixed in E by auto with go.
  change (16 ^ Z.of_nat 2) with 256 in E.
  rewrite !Z.mod_small in E by apply byte_val_range. by apply byte_val_inj.
Qed.

Lemma hex_encode_inj s t : hex_encode s = hex_encode t -> s = t.
Proof.
  unfold hex_encode. intros E. apply (inj (app _)) in E. revert t E.
  induction s as [|c s IH]; intros [|d t] E; cbn [flat_map] in E; [done| | |].
  - symmetry in E. apply app_eq_nil in E as [E _].
    by apply (f_equal length) in E; rewrite length_fixed_digits in E.
  - apply app_eq_nil in E as [E _].
    by apply (f_equal length) in E; rewrite length_fixed_digits in E.
  - apply hex_pair_inj in E as [-> E]. f_equal. auto.
Qed.

Lemma hex_encode_no_slash s : no_slash (hex_encode s).
Proof.
  unfold hex_encode, no_slash. rewrite not_elem_of_app. split; [by apply (bool_decide_unpack _)|].
  induction s as [|c s IH]; cbn [flat_map]; [apply not_elem_of_nil|].
  rewrite not_elem_of_app. split; [|done].
  eapply chars_no_slash, fixed_digits_chars; auto with go.
Qed.

Lemma lower_hex_laws : EthHexLaws lower_hex.
Proof.
  split; unfold Address_Hex, Hash_Hex, lower_hex; intros.
  - by apply dsig_eq, hex_encode_inj.
  - by apply dsig_eq, hex_encode_inj.
  - apply HasPrefix_app.
  - apply HasPrefix_app.
  - apply hex_encode_no_slash.
  - apply hex_encode_no_slash.
Qed.

(** Sample values for concrete evaluations. *)
Definition sample_address (n : Z) : Address := array_copy 20 (be_put 20 n).
Definition sample_hash (n : Z) : Hash := array_copy 32 (be_put 32 n).
