(* ===== verification/Schema.v ===== *)
(** Schema: the database keys of pkg/storage/schema.go.

    Every constant and every key function of that file is here under its name.
    A Go [[]byte] key is a byte string; [fmt.Sprintf] with the verbs %s, %d, %0wd
    and %0wx is concatenation with [fmt_d], [fmt_0d], [fmt_0x] of Prelude.v, and
    [x.Hex()] is the method of the class [EthHex]. [strings.ToLower] folds all of
    Unicode: it is the operation of the class [Unicode]. *)
From S2P Require Import Prelude Eth.

Class Unicode := { ToLower : bytes -> bytes }.

(** * Key prefixes *)

Definition prefixMeta : bytes := lit "/meta/".
Definition prefixData : bytes := lit "/data/".
Definition prefixIndex : bytes := lit "/index/".
Definition prefixBlocks : bytes := lit "/data/blocks/".
Definition prefixTxs : bytes := lit "/data/txs/".
Definition prefixReceipts : bytes := lit "/data/receipts/".
Definition prefixTxHash : bytes := lit "/index/txh/".
Definition prefixAddr : bytes := lit "/index/addr/".
Definition prefixBlockHash : bytes := lit "/index/blockh/".
Definition prefixContractAddr : bytes := lit "/data/contractaddr/".
Definition prefixSysContracts : bytes := lit "/data/syscontracts/".
Definition prefixSysMint : bytes := lit "/data/syscontracts/mint/".
Definition prefixSysBurn : bytes := lit "/data/syscontracts/burn/".
Definition prefixSysMinterConfig : bytes := lit "/data/syscontracts/minterconfig/".
Definition prefixSysValidator : bytes := lit "/data/syscontracts/validator/".
Definition prefixSysProposal : bytes := lit "/data/syscontracts/proposal/".
Definition prefixSysVote : bytes := lit "/data/syscontracts/vote/".
Definition prefixSysBlacklist : bytes := lit "/data/syscontracts/blacklist/".
Definition prefixSysMember : bytes := lit "/data/syscontracts/member/".
Definition prefixSysGasTip : bytes := lit "/data/syscontracts/gastip/".
Definition prefixSysEmergency : bytes := lit "/data/syscontracts/emergency/".
Definition prefixSysDepositMint : bytes := lit "/data/syscontracts/depositmint/".
Definition prefixSysMaxProposals : bytes := lit "/data/syscontracts/maxproposals/".
Definition prefixSysProposalSkipped : bytes := lit "/data/syscontracts/proposalskipped/".
Definition prefixSysAuthorizedAccounts : bytes := lit "/data/syscontracts/authorizedaccounts/".
Definition prefixWBFT : bytes := lit "/data/wbft/".
Definition prefixWBFTExtra : bytes := lit "/data/wbft/extra/".
Definition prefixWBFTEpoch : bytes := lit "/data/wbft/epoch/".
Definition prefixWBFTValidatorStats : bytes := lit "/data/wbft/validator/stats/".
Definition prefixWBFTValidatorActivity : bytes := lit "/data/wbft/validator/activity/".
Definition prefixIdxWBFT : bytes := lit "/index/wbft/".
Definition prefixIdxWBFTSignerPrepare : bytes := lit "/index/wbft/signers/prepare/".
Definition prefixIdxWBFTSignerCommit : bytes := lit "/index/wbft/signers/commit/".
Definition prefixIdxSysContracts : bytes := lit "/index/syscontracts/".
Definition prefixIdxMintMinter : bytes := lit "/index/syscontracts/mint_minter/".
Definition prefixIdxBurnBurner : bytes := lit "/index/syscontracts/burn_burner/".
Definition prefixIdxProposalStatus : bytes := lit "/index/syscontracts/proposal_status/".
Definition prefixIdxBlacklistActive : bytes := lit "/index/syscontracts/blacklist_active/".
Definition prefixIdxMinterActive : bytes := lit "/index/syscontracts/minter_active/".
Definition prefixIdxValidatorActive : bytes := lit "/index/syscontracts/validator_active/".
Definition prefixIdxTotalSupply : bytes := lit "/index/syscontracts/total_supply".
Definition prefixContractCreation : bytes := lit "/data/contract/creation/".
Definition prefixInternalTx : bytes := lit "/data/internal/".
Definition prefixERC20Transfer : bytes := lit "/data/erc20/transfer/".
Definition prefixERC721Transfer : bytes := lit "/data/erc721/transfer/".
Definition prefixIdxContractCreator : bytes := lit "/index/contract/creator/".
Definition prefixIdxContractBlock : bytes := lit "/index/contract/block/".
Definition prefixIdxInternalFrom : bytes := lit "/index/internal/from/".
Definition prefixIdxInternalTo : bytes := lit "/index/internal/to/".
Definition prefixIdxInternalBlock : bytes := lit "/index/internal/block/".
Definition prefixIdxERC20Token : bytes := lit "/index/erc20/token/".
Definition prefixIdxERC20From : bytes := lit "/index/erc20/from/".
Definition prefixIdxERC20To : bytes := lit "/index/erc20/to/".
Definition prefixIdxERC721Token : bytes := lit "/index/erc721/token/".
Definition prefixIdxERC721From : bytes := lit "/index/erc721/from/".
Definition prefixIdxERC721To : bytes := lit "/index/erc721/to/".
Definition prefixIdxERC721TokenOwner : bytes := lit "/index/erc721/tokenowner/".
Definition prefixIdxERC721Owner : bytes := lit "/index/erc721/owner/".
Definition prefixLogs : bytes := lit "/data/logs/".
Definition prefixIdxLogsAddr : bytes := lit "/index/logs/addr/".
Definition prefixIdxLogsTopic0 : bytes := lit "/index/logs/topic0/".
Definition prefixIdxLogsTopic1 : bytes := lit "/index/logs/topic1/".
Definition prefixIdxLogsTopic2 : bytes := lit "/index/logs/topic2/".
Definition prefixIdxLogsTopic3 : bytes := lit "/index/logs/topic3/".
Definition prefixIdxLogsBlock : bytes := lit "/index/logs/block/".
Definition prefixABI : bytes := lit "/data/abi/".
Definition prefixContractVerification : bytes := lit "/data/verification/".
Definition prefixIdxVerifiedContracts : bytes := lit "/index/verification/verified/".
Definition prefixFeeDelegation : bytes := lit "/data/feedelegation/".
Definition prefixIdxFeeDelegationPayer : bytes := lit "/index/feedelegation/payer/".
Definition prefixNotificationSetting : bytes := lit "/data/notification/setting/".
Definition prefixNotification : bytes := lit "/data/notification/notif/".
Definition prefixNotificationHistory : bytes := lit "/data/notification/history/".
Definition prefixNotificationStats : bytes := lit "/data/notification/stats/".
Definition prefixIdxNotificationStatus : bytes := lit "/index/notification/status/".
Definition prefixIdxNotificationSetting : bytes := lit "/index/notification/setting/".
Definition prefixIdxNotificationPending : bytes := lit "/index/notification/pending/".
Definition prefixTokenMetadata : bytes := lit "/data/token/metadata/".
Definition prefixIdxTokenStandard : bytes := lit "/index/token/standard/".
Definition prefixIdxTokenSymbol : bytes := lit "/index/token/symbol/".
Definition prefixIdxTokenName : bytes := lit "/index/token/name/".
Definition prefixTokenHolder : bytes := lit "/data/token/holder/".
Definition prefixTokenHolderStats : bytes := lit "/data/token/holderstats/".
Definition prefixIdxTokenHolderByToken : bytes := lit "/index/token/holder/token/".
Definition prefixIdxTokenHolderByHolder : bytes := lit "/index/token/holder/holder/".
Definition prefixSetCodeAuth : bytes := lit "/data/setcode/auth/".
Definition prefixSetCodeDelegation : bytes := lit "/data/setcode/delegation/".
Definition prefixSetCodeStats : bytes := lit "/data/setcode/stats/".
Definition prefixIdxSetCodeTarget : bytes := lit "/index/setcode/target/".
Definition prefixIdxSetCodeAuthority : bytes := lit "/index/setcode/authority/".
Definition prefixIdxSetCodeBlock : bytes := lit "/index/setcode/block/".
Definition prefixIdxSetCodeTx : bytes := lit "/index/setcode/tx/".
Definition prefixModule : bytes := lit "/data/module/".
Definition prefixModuleStats : bytes := lit "/data/module/stats/".
Definition prefixIdxModuleAccount : bytes := lit "/index/module/account/".
Definition prefixIdxModuleType : bytes := lit "/index/module/type/".
Definition prefixIdxModuleBlock : bytes := lit "/index/module/block/".
Definition prefixUserOp : bytes := lit "/data/userop/".
Definition prefixBundlerStats : bytes := lit "/data/bundler/stats/".
Definition prefixFactoryStats : bytes := lit "/data/factory/stats/".
Definition prefixPaymasterStats : bytes := lit "/data/paymaster/stats/".
Definition prefixSmartAccount : bytes := lit "/data/smartaccount/".
Definition prefixIdxUserOpSender : bytes := lit "/index/userop/sender/".
Definition prefixIdxUserOpBundler : bytes := lit "/index/userop/bundler/".
Definition prefixIdxUserOpPaymaster : bytes := lit "/index/userop/paymaster/".
Definition prefixIdxUserOpFactory : bytes := lit "/index/userop/factory/".
Definition prefixIdxUserOpBlock : bytes := lit "/index/userop/block/".
Definition prefixIdxUserOpTx : bytes := lit "/index/userop/tx/".
Definition keyLatestHeight : bytes := lit "/meta/lh".
Definition keyBlockCount : bytes := lit "/meta/bc".
Definition keyTransactionCount : bytes := lit "/meta/tc".
Definition keyLatestEpoch : bytes := lit "/meta/wbft/latest_epoch".
Definition prefixChain : bytes := lit "/chain/".

(** * Key functions *)

Section Keys.
Context {E : EthHex} {U : Unicode}.

Definition LatestHeightKey : bytes := keyLatestHeight.
Definition BlockKey (height : Z) : bytes := prefixBlocks ++ fmt_d height.
Definition TransactionKey (height txIndex : Z) : bytes :=
  prefixTxs ++ fmt_d height ++ lit "/" ++ fmt_d txIndex.
Definition ReceiptKey (txHash : Hash) : bytes := prefixReceipts ++ Hash_Hex txHash.
Definition ContractAddressKey (txHash : Hash) : bytes := prefixContractAddr ++ Hash_Hex txHash.
Definition TransactionHashIndexKey (txHash : Hash) : bytes := prefixTxHash ++ Hash_Hex txHash.
Definition BlockHashIndexKey (blockHash : Hash) : bytes :=
  prefixBlockHash ++ Hash_Hex blockHash.
Definition AddressTransactionKey (addr : Address) (seq : Z) : bytes :=
  prefixAddr ++ Address_Hex addr ++ lit "/" ++ fmt_0d 20 seq.
(** Parses a block key and returns the height. *)
Definition ParseBlockKey (key : bytes) : res Z :=
  if negb (HasPrefix key prefixBlocks) then Err (Errorf "invalid block key prefix")
  else
    let heightStr := TrimPrefix key prefixBlocks in
    if bool_decide (heightStr = []) then Err (Errorf "invalid block key: missing height")
    else height ← wrap_err "invalid block key" (ParseUint heightStr);
         mret height.

(** Parses a transaction key and returns height and index. *)
Definition ParseTransactionKey (key : bytes) : res (Z * Z) :=
  if negb (HasPrefix key prefixTxs) then Err (Errorf "invalid transaction key prefix")
  else
    match Split_slash (TrimPrefix key prefixTxs) with
    | [s0; s1] =>
        height ← wrap_err "invalid transaction key height" (ParseUint s0);
        txIndex ← wrap_err "invalid transaction key index" (ParseUint s1);
        mret (height, txIndex)
    | _ => Err (Errorf "invalid transaction key format")
    end.

Definition EncodeUint64 (n : Z) : bytes := be_put 8 n.

Definition DecodeUint64 (data : bytes) : res Z :=
  if negb (length data =? 8)%nat then Err (Errorf "invalid uint64 data length")
  else Ok (be_get data).

(** [endHeight + 1] wraps at 2^64. *)
Definition BlockKeyRange (startHeight endHeight : Z) : bytes * bytes :=
  (BlockKey startHeight, BlockKey (u64 (endHeight + 1))).

Definition AddressTransactionKeyPrefix (addr : Address) : bytes :=
  prefixAddr ++ Address_Hex addr ++ lit "/".
Definition BlockTimestampKey (timestamp height : Z) : bytes :=
  lit "/index/time/" ++ fmt_0d 20 timestamp ++ lit "/" ++ fmt_0d 20 height.
Definition BlockTimestampKeyPrefix : bytes := lit "/index/time/".
Definition AddressBalanceKey (addr : Address) (seq : Z) : bytes :=
  lit "/index/balance/" ++ Address_Hex addr ++ lit "/history/" ++ fmt_0d 20 seq.
Definition AddressBalanceLatestKey (addr : Address) : bytes :=
  lit "/index/balance/" ++ Address_Hex addr ++ lit "/latest".
Definition AddressBalanceKeyPrefix (addr : Address) : bytes :=
  lit "/index/balance/" ++ Address_Hex addr ++ lit "/history/".
Definition BlockCountKey : bytes := keyBlockCount.
Definition TransactionCountKey : bytes := keyTransactionCount.
Definition IsMetadataKey (key : bytes) : bool := HasPrefix key prefixMeta.

Definition IsDataKey (key : bytes) : bool := HasPrefix key prefixData.

Definition IsIndexKey (key : bytes) : bool := HasPrefix key prefixIndex.

Definition MintEventKey (blockNumber txIndex logIndex : Z) : bytes :=
  prefixSysMint ++ fmt_0d 20 blockNumber ++ lit "/" ++ fmt_d txIndex ++ lit "/"
    ++ fmt_d logIndex.
Definition BurnEventKey (blockNumber txIndex logIndex : Z) : bytes :=
  prefixSysBurn ++ fmt_0d 20 blockNumber ++ lit "/" ++ fmt_d txIndex ++ lit "/"
    ++ fmt_d logIndex.
Definition MinterConfigEventKey (minter : Address) (blockNumber : Z) : bytes :=
  prefixSysMinterConfig ++ Address_Hex minter ++ lit "/" ++ fmt_0d 20 blockNumber.
Definition ValidatorChangeEventKey (validator : Address) (blockNumber : Z) : bytes :=
  prefixSysValidator ++ Address_Hex validator ++ lit "/" ++ fmt_0d 20 blockNumber.
Definition ProposalKey (contract : Address) (proposalId : bytes) : bytes :=
  prefixSysProposal ++ Address_Hex contract ++ lit "/" ++ proposalId.
Definition ProposalVoteKey (contract : Address) (proposalId : bytes) (voter : Address) : bytes :=
  prefixSysVote ++ Address_Hex contract ++ lit "/" ++ proposalId ++ lit "/"
    ++ Address_Hex voter.
Definition BlacklistEventKey (address : Address) (blockNumber : Z) : bytes :=
  prefixSysBlacklist ++ Address_Hex address ++ lit "/" ++ fmt_0d 20 blockNumber.
Definition MemberChangeEventKey (contract : Address) (blockNumber txIndex : Z) : bytes :=
  prefixSysMember ++ Address_Hex contract ++ lit "/" ++ fmt_0d 20 blockNumber ++ lit "/"
    ++ fmt_d txIndex.
Definition GasTipUpdateEventKey (blockNumber txIndex : Z) : bytes :=
  prefixSysGasTip ++ fmt_0d 20 blockNumber ++ lit "/" ++ fmt_d txIndex.
Definition EmergencyPauseEventKey (contract : Address) (blockNumber txIndex : Z) : bytes :=
  prefixSysEmergency ++ Address_Hex contract ++ lit "/" ++ fmt_0d 20 blockNumber
    ++ lit "/" ++ fmt_d txIndex.
Definition DepositMintProposalKey (proposalId : bytes) : bytes :=
  prefixSysDepositMint ++ proposalId.
Definition MaxProposalsUpdateEventKey (contract : Address) (blockNumber txIndex : Z) : bytes :=
  prefixSysMaxProposals ++ Address_Hex contract ++ lit "/" ++ fmt_0d 20 blockNumber
    ++ lit "/" ++ fmt_d txIndex.
Definition MaxProposalsUpdateEventKeyPrefix (contract : Address) : bytes :=
  prefixSysMaxProposals ++ Address_Hex contract ++ lit "/".
Definition ProposalExecutionSkippedEventKey (contract : Address) (blockNumber txIndex : Z) : bytes :=
  prefixSysProposalSkipped ++ Address_Hex contract ++ lit "/" ++ fmt_0d 20 blockNumber
    ++ lit "/" ++ fmt_d txIndex.
Definition ProposalExecutionSkippedEventKeyPrefix (contract : Address) : bytes :=
  prefixSysProposalSkipped ++ Address_Hex contract ++ lit "/".
Definition AuthorizedAccountEventKey (contract : Address) (blockNumber txIndex : Z) : bytes :=
  prefixSysAuthorizedAccounts ++ Address_Hex contract ++ lit "/" ++ fmt_0d 20 blockNumber
    ++ lit "/" ++ fmt_d txIndex.
Definition AuthorizedAccountEventKeyPrefix (contract : Address) : bytes :=
  prefixSysAuthorizedAccounts ++ Address_Hex contract ++ lit "/".
Definition MintMinterIndexKey (minter : Address) (blockNumber : Z) : bytes :=
  prefixIdxMintMinter ++ Address_Hex minter ++ lit "/" ++ fmt_0d 20 blockNumber.
Definition BurnBurnerIndexKey (burner : Address) (blockNumber : Z) : bytes :=
  prefixIdxBurnBurner ++ Address_Hex burner ++ lit "/" ++ fmt_0d 20 blockNumber.
Definition ProposalStatusIndexKey (contract : Address) (status : Z) (proposalId : bytes) : bytes :=
  prefixIdxProposalStatus ++ Address_Hex contract ++ lit "/" ++ fmt_d status ++ lit "/"
    ++ proposalId.
Definition BlacklistActiveIndexKey (address : Address) : bytes :=
  prefixIdxBlacklistActive ++ Address_Hex address.
Definition MinterActiveIndexKey (address : Address) : bytes :=
  prefixIdxMinterActive ++ Address_Hex address.
Definition ValidatorActiveIndexKey (address : Address) : bytes :=
  prefixIdxValidatorActive ++ Address_Hex address.
Definition TotalSupplyKey : bytes := prefixIdxTotalSupply.
Definition MintEventKeyPrefix : bytes := prefixSysMint.
Definition BurnEventKeyPrefix : bytes := prefixSysBurn.
Definition MinterConfigEventKeyPrefix (minter : Address) : bytes :=
  prefixSysMinterConfig ++ Address_Hex minter ++ lit "/".
Definition ValidatorChangeEventKeyPrefix (validator : Address) : bytes :=
  prefixSysValidator ++ Address_Hex validator ++ lit "/".
Definition ProposalKeyPrefix (contract : Address) : bytes :=
  prefixSysProposal ++ Address_Hex contract ++ lit "/".
Definition ProposalVoteKeyPrefix (contract : Address) (proposalId : bytes) : bytes :=
  prefixSysVote ++ Address_Hex contract ++ lit "/" ++ proposalId ++ lit "/".
Definition BlacklistEventKeyPrefix (address : Address) : bytes :=
  prefixSysBlacklist ++ Address_Hex address ++ lit "/".
Definition MemberChangeEventKeyPrefix (contract : Address) : bytes :=
  prefixSysMember ++ Address_Hex contract ++ lit "/".
Definition GasTipUpdateEventKeyPrefix : bytes := prefixSysGasTip.
Definition EmergencyPauseEventKeyPrefix (contract : Address) : bytes :=
  prefixSysEmergency ++ Address_Hex contract ++ lit "/".
Definition MintMinterIndexKeyPrefix (minter : Address) : bytes :=
  prefixIdxMintMinter ++ Address_Hex minter ++ lit "/".
Definition BurnBurnerIndexKeyPrefix (burner : Address) : bytes :=
  prefixIdxBurnBurner ++ Address_Hex burner ++ lit "/".
Definition ProposalStatusIndexKeyPrefix (contract : Address) (status : Z) : bytes :=
  prefixIdxProposalStatus ++ Address_Hex contract ++ lit "/" ++ fmt_d status ++ lit "/".
Definition BlacklistActiveIndexKeyPrefix : bytes := prefixIdxBlacklistActive.
Definition MinterActiveIndexKeyPrefix : bytes := prefixIdxMinterActive.
Definition ValidatorActiveIndexKeyPrefix : bytes := prefixIdxValidatorActive.
Definition WBFTBlockExtraKey (blockNumber : Z) : bytes :=
  prefixWBFTExtra ++ fmt_0d 20 blockNumber.
Definition WBFTEpochKey (epochNumber : Z) : bytes := prefixWBFTEpoch ++ fmt_0d 20 epochNumber.
Definition LatestEpochKey : bytes := keyLatestEpoch.
Definition WBFTValidatorStatsKey (validator : Address) (fromBlock toBlock : Z) : bytes :=
  prefixWBFTValidatorStats ++ Address_Hex validator ++ lit "/" ++ fmt_0d 20 fromBlock
    ++ lit "_" ++ fmt_0d 20 toBlock.
Definition WBFTValidatorActivityKey (validator : Address) (blockNumber : Z) : bytes :=
  prefixWBFTValidatorActivity ++ Address_Hex validator ++ lit "/" ++ fmt_0d 20 blockNumber.
Definition WBFTSignerPrepareIndexKey (blockNumber : Z) (validator : Address) : bytes :=
  prefixIdxWBFTSignerPrepare ++ fmt_0d 20 blockNumber ++ lit "/" ++ Address_Hex validator.
Definition WBFTSignerCommitIndexKey (blockNumber : Z) (validator : Address) : bytes :=
  prefixIdxWBFTSignerCommit ++ fmt_0d 20 blockNumber ++ lit "/" ++ Address_Hex validator.
Definition WBFTBlockExtraKeyPrefix : bytes := prefixWBFTExtra.
Definition WBFTEpochKeyPrefix : bytes := prefixWBFTEpoch.
Definition WBFTValidatorStatsKeyPrefix (validator : Address) : bytes :=
  prefixWBFTValidatorStats ++ Address_Hex validator ++ lit "/".
Definition WBFTValidatorActivityKeyPrefix (validator : Address) : bytes :=
  prefixWBFTValidatorActivity ++ Address_Hex validator ++ lit "/".
Definition WBFTValidatorActivityAllKeyPrefix : bytes := prefixWBFTValidatorActivity.
Definition WBFTSignerPrepareIndexKeyPrefix (blockNumber : Z) : bytes :=
  prefixIdxWBFTSignerPrepare ++ fmt_0d 20 blockNumber ++ lit "/".
Definition WBFTSignerCommitIndexKeyPrefix (blockNumber : Z) : bytes :=
  prefixIdxWBFTSignerCommit ++ fmt_0d 20 blockNumber ++ lit "/".
Definition ContractCreationKey (contractAddress : Address) : bytes :=
  prefixContractCreation ++ Address_Hex contractAddress.
Definition ContractCreatorIndexKey (creator : Address) (blockNumber : Z) (txHash : Hash) : bytes :=
  prefixIdxContractCreator ++ Address_Hex creator ++ lit "/" ++ fmt_0d 20 blockNumber
    ++ lit "/" ++ Hash_Hex txHash.
Definition ContractBlockIndexKey (blockNumber : Z) (contractAddress : Address) : bytes :=
  prefixIdxContractBlock ++ fmt_0d 20 blockNumber ++ lit "/" ++ Address_Hex contractAddress.
Definition ContractCreatorIndexKeyPrefix (creator : Address) : bytes :=
  prefixIdxContractCreator ++ Address_Hex creator ++ lit "/".
Definition InternalTransactionKey (txHash : Hash) (index : Z) : bytes :=
  prefixInternalTx ++ Hash_Hex txHash ++ lit "/" ++ fmt_0d 6 index.
Definition InternalTransactionKeyPrefix (txHash : Hash) : bytes :=
  prefixInternalTx ++ Hash_Hex txHash ++ lit "/".
Definition InternalTxFromIndexKey (from : Address) (blockNumber : Z) (txHash : Hash) : bytes :=
  prefixIdxInternalFrom ++ Address_Hex from ++ lit "/" ++ fmt_0d 20 blockNumber ++ lit "/"
    ++ Hash_Hex txHash.
Definition InternalTxToIndexKey (to : Address) (blockNumber : Z) (txHash : Hash) : bytes :=
  prefixIdxInternalTo ++ Address_Hex to ++ lit "/" ++ fmt_0d 20 blockNumber ++ lit "/"
    ++ Hash_Hex txHash.
Definition InternalTxBlockIndexKey (blockNumber : Z) (txHash : Hash) : bytes :=
  prefixIdxInternalBlock ++ fmt_0d 20 blockNumber ++ lit "/" ++ Hash_Hex txHash.
Definition InternalTxFromIndexKeyPrefix (from : Address) : bytes :=
  prefixIdxInternalFrom ++ Address_Hex from ++ lit "/".
Definition InternalTxToIndexKeyPrefix (to : Address) : bytes :=
  prefixIdxInternalTo ++ Address_Hex to ++ lit "/".
Definition ERC20TransferKey (txHash : Hash) (logIndex : Z) : bytes :=
  prefixERC20Transfer ++ Hash_Hex txHash ++ lit "/" ++ fmt_0d 6 logIndex.
Definition ERC20TokenIndexKey (tokenAddress : Address) (blockNumber logIndex : Z) : bytes :=
  prefixIdxERC20Token ++ Address_Hex tokenAddress ++ lit "/" ++ fmt_0d 20 blockNumber
    ++ lit "/" ++ fmt_0d 6 logIndex.
Definition ERC20FromIndexKey (from : Address) (blockNumber logIndex : Z) : bytes :=
  prefixIdxERC20From ++ Address_Hex from ++ lit "/" ++ fmt_0d 20 blockNumber ++ lit "/"
    ++ fmt_0d 6 logIndex.
Definition ERC20ToIndexKey (to : Address) (blockNumber logIndex : Z) : bytes :=
  prefixIdxERC20To ++ Address_Hex to ++ lit "/" ++ fmt_0d 20 blockNumber ++ lit "/"
    ++ fmt_0d 6 logIndex.
Definition ERC20TokenIndexKeyPrefix (tokenAddress : Address) : bytes :=
  prefixIdxERC20Token ++ Address_Hex tokenAddress ++ lit "/".
Definition ERC20FromIndexKeyPrefix (from : Address) : bytes :=
  prefixIdxERC20From ++ Address_Hex from ++ lit "/".
Definition ERC20ToIndexKeyPrefix (to : Address) : bytes :=
  prefixIdxERC20To ++ Address_Hex to ++ lit "/".
Definition ERC721TransferKey (txHash : Hash) (logIndex : Z) : bytes :=
  prefixERC721Transfer ++ Hash_Hex txHash ++ lit "/" ++ fmt_0d 6 logIndex.
Definition ERC721TokenIndexKey (tokenAddress : Address) (blockNumber logIndex : Z) : bytes :=
  prefixIdxERC721Token ++ Address_Hex tokenAddress ++ lit "/" ++ fmt_0d 20 blockNumber
    ++ lit "/" ++ fmt_0d 6 logIndex.
Definition ERC721FromIndexKey (from : Address) (blockNumber logIndex : Z) : bytes :=
  prefixIdxERC721From ++ Address_Hex from ++ lit "/" ++ fmt_0d 20 blockNumber ++ lit "/"
    ++ fmt_0d 6 logIndex.
Definition ERC721ToIndexKey (to : Address) (blockNumber logIndex : Z) : bytes :=
  prefixIdxERC721To ++ Address_Hex to ++ lit "/" ++ fmt_0d 20 blockNumber ++ lit "/"
    ++ fmt_0d 6 logIndex.
Definition ERC721TokenOwnerKey (tokenAddress : Address) (tokenId : bytes) : bytes :=
  prefixIdxERC721TokenOwner ++ Address_Hex tokenAddress ++ lit "/" ++ tokenId.
Definition ERC721TokenIndexKeyPrefix (tokenAddress : Address) : bytes :=
  prefixIdxERC721Token ++ Address_Hex tokenAddress ++ lit "/".
Definition ERC721FromIndexKeyPrefix (from : Address) : bytes :=
  prefixIdxERC721From ++ Address_Hex from ++ lit "/".
Definition ERC721ToIndexKeyPrefix (to : Address) : bytes :=
  prefixIdxERC721To ++ Address_Hex to ++ lit "/".
Definition ERC721OwnerIndexKey (owner contractAddress : Address) (tokenId : bytes) : bytes :=
  prefixIdxERC721Owner ++ Address_Hex owner ++ lit "/" ++ Address_Hex contractAddress
    ++ lit "/" ++ tokenId.
Definition ERC721OwnerIndexKeyPrefix (owner : Address) : bytes :=
  prefixIdxERC721Owner ++ Address_Hex owner ++ lit "/".
Definition LogKey (blockNumber txIndex logIndex : Z) : bytes :=
  prefixLogs ++ fmt_0d 20 blockNumber ++ lit "/" ++ fmt_0d 6 txIndex ++ lit "/"
    ++ fmt_0d 6 logIndex.
Definition LogKeyPrefix : bytes := prefixLogs.
Definition LogBlockKeyPrefix (blockNumber : Z) : bytes :=
  prefixLogs ++ fmt_0d 20 blockNumber ++ lit "/".
Definition LogAddressIndexKey (address : Address) (blockNumber txIndex logIndex : Z) : bytes :=
  prefixIdxLogsAddr ++ Address_Hex address ++ lit "/" ++ fmt_0d 20 blockNumber ++ lit "/"
    ++ fmt_0d 6 txIndex ++ lit "/" ++ fmt_0d 6 logIndex.
Definition LogAddressIndexKeyPrefix (address : Address) : bytes :=
  prefixIdxLogsAddr ++ Address_Hex address ++ lit "/".
Definition LogTopic0IndexKey (topic : Hash) (blockNumber txIndex logIndex : Z) : bytes :=
  prefixIdxLogsTopic0 ++ Hash_Hex topic ++ lit "/" ++ fmt_0d 20 blockNumber ++ lit "/"
    ++ fmt_0d 6 txIndex ++ lit "/" ++ fmt_0d 6 logIndex.
Definition LogTopic0IndexKeyPrefix (topic : Hash) : bytes :=
  prefixIdxLogsTopic0 ++ Hash_Hex topic ++ lit "/".
Definition LogTopic1IndexKey (topic : Hash) (blockNumber txIndex logIndex : Z) : bytes :=
  prefixIdxLogsTopic1 ++ Hash_Hex topic ++ lit "/" ++ fmt_0d 20 blockNumber ++ lit "/"
    ++ fmt_0d 6 txIndex ++ lit "/" ++ fmt_0d 6 logIndex.
Definition LogTopic1IndexKeyPrefix (topic : Hash) : bytes :=
  prefixIdxLogsTopic1 ++ Hash_Hex topic ++ lit "/".
Definition LogTopic2IndexKey (topic : Hash) (blockNumber txIndex logIndex : Z) : bytes :=
  prefixIdxLogsTopic2 ++ Hash_Hex topic ++ lit "/" ++ fmt_0d 20 blockNumber ++ lit "/"
    ++ fmt_0d 6 txIndex ++ lit "/" ++ fmt_0d 6 logIndex.
Definition LogTopic2IndexKeyPrefix (topic : Hash) : bytes :=
  prefixIdxLogsTopic2 ++ Hash_Hex topic ++ lit "/".
Definition LogTopic3IndexKey (topic : Hash) (blockNumber txIndex logIndex : Z) : bytes :=
  prefixIdxLogsTopic3 ++ Hash_Hex topic ++ lit "/" ++ fmt_0d 20 blockNumber ++ lit "/"
    ++ fmt_0d 6 txIndex ++ lit "/" ++ fmt_0d 6 logIndex.
Definition LogTopic3IndexKeyPrefix (topic : Hash) : bytes :=
  prefixIdxLogsTopic3 ++ Hash_Hex topic ++ lit "/".
Definition LogBlockIndexKey (blockNumber txIndex logIndex : Z) : bytes :=
  prefixIdxLogsBlock ++ fmt_0d 20 blockNumber ++ lit "/" ++ fmt_0d 6 txIndex ++ lit "/"
    ++ fmt_0d 6 logIndex.
Definition LogBlockIndexKeyPrefix (blockNumber : Z) : bytes :=
  prefixIdxLogsBlock ++ fmt_0d 20 blockNumber ++ lit "/".
Definition LogBlockRangeIndexKeyPrefix (fromBlock : Z) : bytes :=
  prefixIdxLogsBlock ++ fmt_0d 20 fromBlock ++ lit "/".
Definition ABIKey (address : Address) : bytes := prefixABI ++ Address_Hex address.
Definition ABIKeyPrefix : bytes := prefixABI.
Definition ContractVerificationKey (address : Address) : bytes :=
  prefixContractVerification ++ Address_Hex address.
Definition ContractVerificationKeyPrefix : bytes := prefixContractVerification.
Definition VerifiedContractIndexKey (verifiedAt : Z) (address : Address) : bytes :=
  prefixIdxVerifiedContracts ++ fmt_0d 20 verifiedAt ++ lit "/" ++ Address_Hex address.
Definition VerifiedContractIndexKeyPrefix : bytes := prefixIdxVerifiedContracts.
Definition ChainPrefix (chainID : bytes) : bytes := prefixChain ++ chainID.
Definition ChainKeyPrefix (chainID : bytes) : bytes := ChainPrefix chainID ++ lit "/".

Definition ChainLatestHeightKey (chainID : bytes) : bytes :=
  prefixChain ++ chainID ++ lit "/meta/lh".
Definition ChainBlockKey (chainID : bytes) (height : Z) : bytes :=
  prefixChain ++ chainID ++ lit "/data/blocks/" ++ fmt_d height.
Definition ChainTransactionKey (chainID : bytes) (height txIndex : Z) : bytes :=
  prefixChain ++ chainID ++ lit "/data/txs/" ++ fmt_d height ++ lit "/" ++ fmt_d txIndex.
Definition ChainReceiptKey (chainID : bytes) (txHash : Hash) : bytes :=
  prefixChain ++ chainID ++ lit "/data/receipts/" ++ Hash_Hex txHash.
Definition ChainLogKey (chainID : bytes) (blockNumber txIndex logIndex : Z) : bytes :=
  prefixChain ++ chainID ++ lit "/data/logs/" ++ fmt_0d 20 blockNumber ++ lit "/"
    ++ fmt_0d 6 txIndex ++ lit "/" ++ fmt_0d 6 logIndex.
Definition ChainTxHashIndexKey (chainID : bytes) (txHash : Hash) : bytes :=
  prefixChain ++ chainID ++ lit "/index/txh/" ++ Hash_Hex txHash.
Definition ChainBlockHashIndexKey (chainID : bytes) (blockHash : Hash) : bytes :=
  prefixChain ++ chainID ++ lit "/index/blockh/" ++ Hash_Hex blockHash.
Definition ChainAddressTransactionKey (chainID : bytes) (addr : Address) (seq : Z) : bytes :=
  prefixChain ++ chainID ++ lit "/index/addr/" ++ Address_Hex addr ++ lit "/" ++ fmt_0d 20 seq.
Definition ChainBlockCountKey (chainID : bytes) : bytes :=
  prefixChain ++ chainID ++ lit "/meta/bc".
Definition ChainTransactionCountKey (chainID : bytes) : bytes :=
  prefixChain ++ chainID ++ lit "/meta/tc".
Definition ChainBlockKeyPrefix (chainID : bytes) : bytes :=
  prefixChain ++ chainID ++ lit "/data/blocks/".
Definition ChainLogKeyPrefix (chainID : bytes) : bytes :=
  prefixChain ++ chainID ++ lit "/data/logs/".
Definition ChainAddressIndexKeyPrefix (chainID : bytes) (addr : Address) : bytes :=
  prefixChain ++ chainID ++ lit "/index/addr/" ++ Address_Hex addr ++ lit "/".
Definition ChainLogAddressIndexKey (chainID : bytes) (address : Address) (blockNumber txIndex logIndex : Z) : bytes :=
  prefixChain ++ chainID ++ lit "/index/logs/addr/" ++ Address_Hex address ++ lit "/"
    ++ fmt_0d 20 blockNumber ++ lit "/" ++ fmt_0d 6 txIndex ++ lit "/"
    ++ fmt_0d 6 logIndex.
Definition ChainLogAddressIndexKeyPrefix (chainID : bytes) (address : Address) : bytes :=
  prefixChain ++ chainID ++ lit "/index/logs/addr/" ++ Address_Hex address ++ lit "/".
Definition ChainLogTopic0IndexKey (chainID : bytes) (topic : Hash) (blockNumber txIndex logIndex : Z) : bytes :=
  prefixChain ++ chainID ++ lit "/index/logs/topic0/" ++ Hash_Hex topic ++ lit "/"
    ++ fmt_0d 20 blockNumber ++ lit "/" ++ fmt_0d 6 txIndex ++ lit "/"
    ++ fmt_0d 6 logIndex.
Definition ChainLogTopic0IndexKeyPrefix (chainID : bytes) (topic : Hash) : bytes :=
  prefixChain ++ chainID ++ lit "/index/logs/topic0/" ++ Hash_Hex topic ++ lit "/".
Definition ChainERC20TransferKey (chainID : bytes) (txHash : Hash) (logIndex : Z) : bytes :=
  prefixChain ++ chainID ++ lit "/data/erc20/transfer/" ++ Hash_Hex txHash ++ lit "/"
    ++ fmt_0d 6 logIndex.
Definition ChainERC721TransferKey (chainID : bytes) (txHash : Hash) (logIndex : Z) : bytes :=
  prefixChain ++ chainID ++ lit "/data/erc721/transfer/" ++ Hash_Hex txHash ++ lit "/"
    ++ fmt_0d 6 logIndex.
(** Splits a chain-scoped key at the first slash after the chain id. *)
Definition ParseChainKey (key : bytes) : res (bytes * bytes) :=
  if negb (HasPrefix key prefixChain) then Err (Errorf "not a chain-scoped key")
  else
    let remaining := TrimPrefix key prefixChain in
    match Index_slash remaining with
    | None => Err (Errorf "invalid chain key format")
    | Some idx => Ok (take idx remaining, drop idx remaining)
    end.

Definition IsChainKey (key : bytes) : bool := HasPrefix key prefixChain.

Definition FeeDelegationMetaKey (txHash : Hash) : bytes :=
  prefixFeeDelegation ++ Hash_Hex txHash.
Definition FeeDelegationPayerIndexKey (feePayer : Address) (blockNumber : Z) (txHash : Hash) : bytes :=
  prefixIdxFeeDelegationPayer ++ Address_Hex feePayer ++ lit "/" ++ fmt_0x 16 blockNumber
    ++ lit "/" ++ Hash_Hex txHash.
Definition FeeDelegationPayerPrefix (feePayer : Address) : bytes :=
  prefixIdxFeeDelegationPayer ++ Address_Hex feePayer ++ lit "/".
Definition NotificationSettingKey (id : bytes) : bytes := prefixNotificationSetting ++ id.
Definition NotificationSettingKeyPrefix : bytes := prefixNotificationSetting.
Definition NotificationKey (id : bytes) : bytes := prefixNotification ++ id.
Definition NotificationKeyPrefix : bytes := prefixNotification.
Definition NotificationHistoryKey (notificationID : bytes) (attempt : Z) : bytes :=
  prefixNotificationHistory ++ notificationID ++ lit "/" ++ fmt_0d 6 attempt.
Definition NotificationHistoryKeyPrefix (notificationID : bytes) : bytes :=
  prefixNotificationHistory ++ notificationID ++ lit "/".
Definition NotificationStatsKey (settingID : bytes) : bytes :=
  prefixNotificationStats ++ settingID.
Definition NotificationStatusIndexKey (status : bytes) (createdAt : Z) (id : bytes) : bytes :=
  prefixIdxNotificationStatus ++ status ++ lit "/" ++ fmt_0d 20 createdAt ++ lit "/" ++ id.
Definition NotificationStatusIndexKeyPrefix (status : bytes) : bytes :=
  prefixIdxNotificationStatus ++ status ++ lit "/".
Definition NotificationSettingIndexKey (settingID : bytes) (createdAt : Z) (id : bytes) : bytes :=
  prefixIdxNotificationSetting ++ settingID ++ lit "/" ++ fmt_0d 20 createdAt ++ lit "/" ++ id.
Definition NotificationSettingIndexKeyPrefix (settingID : bytes) : bytes :=
  prefixIdxNotificationSetting ++ settingID ++ lit "/".
Definition NotificationPendingIndexKey (nextRetry : Z) (id : bytes) : bytes :=
  prefixIdxNotificationPending ++ fmt_0d 20 nextRetry ++ lit "/" ++ id.
Definition NotificationPendingIndexKeyPrefix : bytes := prefixIdxNotificationPending.
Definition TokenMetadataKey (address : Address) : bytes :=
  prefixTokenMetadata ++ Address_Hex address.
Definition TokenMetadataKeyPrefix : bytes := prefixTokenMetadata.
Definition TokenStandardIndexKey (standard : bytes) (address : Address) : bytes :=
  prefixIdxTokenStandard ++ standard ++ lit "/" ++ Address_Hex address.
Definition TokenStandardIndexKeyPrefix (standard : bytes) : bytes :=
  prefixIdxTokenStandard ++ standard ++ lit "/".
Definition TokenSymbolIndexKey (symbol : bytes) (address : Address) : bytes :=
  prefixIdxTokenSymbol ++ ToLower symbol ++ lit "/" ++ Address_Hex address.
Definition TokenSymbolIndexKeyPrefix (symbol : bytes) : bytes :=
  prefixIdxTokenSymbol ++ ToLower symbol ++ lit "/".
Definition TokenNameIndexKey (name : bytes) (address : Address) : bytes :=
  prefixIdxTokenName ++ ToLower name ++ lit "/" ++ Address_Hex address.
Definition TokenNameIndexKeyPrefix (name : bytes) : bytes :=
  prefixIdxTokenName ++ ToLower name ++ lit "/".
Definition TokenSearchIndexKeyPrefix : bytes := prefixIdxTokenName.
Definition SetCodeAuthorizationKey (txHash : Hash) (authIndex : Z) : bytes :=
  prefixSetCodeAuth ++ Hash_Hex txHash ++ lit "/" ++ fmt_0d 4 authIndex.
Definition SetCodeAuthorizationKeyPrefix (txHash : Hash) : bytes :=
  prefixSetCodeAuth ++ Hash_Hex txHash ++ lit "/".
Definition SetCodeAuthKeyPrefix : bytes := prefixSetCodeAuth.
Definition SetCodeDelegationStateKey (address : Address) : bytes :=
  prefixSetCodeDelegation ++ Address_Hex address.
Definition SetCodeDelegationStateKeyPrefix : bytes := prefixSetCodeDelegation.
Definition SetCodeStatsKey (address : Address) : bytes :=
  prefixSetCodeStats ++ Address_Hex address.
Definition SetCodeStatsKeyPrefix : bytes := prefixSetCodeStats.
Definition SetCodeTargetIndexKey (target : Address) (blockNumber txIndex authIndex : Z) : bytes :=
  prefixIdxSetCodeTarget ++ Address_Hex target ++ lit "/" ++ fmt_0x 16 blockNumber
    ++ lit "/" ++ fmt_0x 8 txIndex ++ lit "/" ++ fmt_0x 4 authIndex.
Definition SetCodeTargetIndexKeyPrefix (target : Address) : bytes :=
  prefixIdxSetCodeTarget ++ Address_Hex target ++ lit "/".
Definition SetCodeAuthorityIndexKey (authority : Address) (blockNumber txIndex authIndex : Z) : bytes :=
  prefixIdxSetCodeAuthority ++ Address_Hex authority ++ lit "/" ++ fmt_0x 16 blockNumber
    ++ lit "/" ++ fmt_0x 8 txIndex ++ lit "/" ++ fmt_0x 4 authIndex.
Definition SetCodeAuthorityIndexKeyPrefix (authority : Address) : bytes :=
  prefixIdxSetCodeAuthority ++ Address_Hex authority ++ lit "/".
Definition SetCodeBlockIndexKey (blockNumber txIndex authIndex : Z) : bytes :=
  prefixIdxSetCodeBlock ++ fmt_0x 16 blockNumber ++ lit "/" ++ fmt_0x 8 txIndex ++ lit "/"
    ++ fmt_0x 4 authIndex.
Definition SetCodeBlockIndexKeyPrefix (blockNumber : Z) : bytes :=
  prefixIdxSetCodeBlock ++ fmt_0x 16 blockNumber ++ lit "/".
Definition SetCodeBlockIndexAllPrefix : bytes := prefixIdxSetCodeBlock.
Definition SetCodeTxIndexKey (txHash : Hash) (authIndex : Z) : bytes :=
  prefixIdxSetCodeTx ++ Hash_Hex txHash ++ lit "/" ++ fmt_0x 4 authIndex.
Definition SetCodeTxIndexKeyPrefix (txHash : Hash) : bytes :=
  prefixIdxSetCodeTx ++ Hash_Hex txHash ++ lit "/".
Definition TokenHolderKey (token holder : Address) : bytes :=
  prefixTokenHolder ++ Address_Hex token ++ lit "/" ++ Address_Hex holder.
Definition TokenHolderKeyPrefix (token : Address) : bytes :=
  prefixTokenHolder ++ Address_Hex token ++ lit "/".
Definition TokenHolderStatsKey (token : Address) : bytes :=
  prefixTokenHolderStats ++ Address_Hex token.
(** The balance is inverted so that iteration is in descending order. *)
Definition TokenHolderByTokenIndexKey (token holder : Address) (balance : Z) : bytes :=
  let maxUint256 := Z.shiftl 1 256 - 1 in
  let invertedBalance := maxUint256 - balance in
  let balanceHex := fmt_0x 64 invertedBalance in
  prefixIdxTokenHolderByToken ++ Address_Hex token ++ lit "/" ++ balanceHex ++ lit "/"
    ++ Address_Hex holder.

Definition TokenHolderByTokenIndexPrefix (token : Address) : bytes :=
  prefixIdxTokenHolderByToken ++ Address_Hex token ++ lit "/".
Definition TokenHolderByHolderIndexKey (holder token : Address) : bytes :=
  prefixIdxTokenHolderByHolder ++ Address_Hex holder ++ lit "/" ++ Address_Hex token.
Definition TokenHolderByHolderIndexPrefix (holder : Address) : bytes :=
  prefixIdxTokenHolderByHolder ++ Address_Hex holder ++ lit "/".
Definition ModuleKey (account module : Address) : bytes :=
  prefixModule ++ Address_Hex account ++ lit "/" ++ Address_Hex module.
Definition ModuleKeyPrefix (account : Address) : bytes :=
  prefixModule ++ Address_Hex account ++ lit "/".
Definition ModuleAllPrefix : bytes := prefixModule.
Definition ModuleStatsKey (module : Address) : bytes :=
  prefixModuleStats ++ Address_Hex module.
Definition ModuleStatsKeyPrefix : bytes := prefixModuleStats.
Definition ModuleAccountIndexKey (account : Address) (blockNumber : Z) (module : Address) : bytes :=
  prefixIdxModuleAccount ++ Address_Hex account ++ lit "/" ++ fmt_0x 16 blockNumber
    ++ lit "/" ++ Address_Hex module.
Definition ModuleAccountIndexKeyPrefix (account : Address) : bytes :=
  prefixIdxModuleAccount ++ Address_Hex account ++ lit "/".
Definition ModuleTypeIndexKey (moduleType blockNumber : Z) (account module : Address) : bytes :=
  prefixIdxModuleType ++ fmt_0x 2 moduleType ++ lit "/" ++ fmt_0x 16 blockNumber
    ++ lit "/" ++ Address_Hex account ++ lit "/" ++ Address_Hex module.
Definition ModuleTypeIndexKeyPrefix (moduleType : Z) : bytes :=
  prefixIdxModuleType ++ fmt_0x 2 moduleType ++ lit "/".
Definition ModuleBlockIndexKey (blockNumber : Z) (account module : Address) : bytes :=
  prefixIdxModuleBlock ++ fmt_0x 16 blockNumber ++ lit "/" ++ Address_Hex account
    ++ lit "/" ++ Address_Hex module.
Definition ModuleBlockIndexKeyPrefix (blockNumber : Z) : bytes :=
  prefixIdxModuleBlock ++ fmt_0x 16 blockNumber ++ lit "/".
Definition ModuleBlockIndexAllPrefix : bytes := prefixIdxModuleBlock.
Definition UserOpKey (opHash : Hash) : bytes := prefixUserOp ++ Hash_Hex opHash.
Definition UserOpKeyPrefix : bytes := prefixUserOp.
Definition BundlerStatsKey (address : Address) : bytes :=
  prefixBundlerStats ++ Address_Hex address.
Definition BundlerStatsKeyPrefix : bytes := prefixBundlerStats.
Definition FactoryStatsKey (address : Address) : bytes :=
  prefixFactoryStats ++ Address_Hex address.
Definition FactoryStatsKeyPrefix : bytes := prefixFactoryStats.
Definition PaymasterStatsKey (address : Address) : bytes :=
  prefixPaymasterStats ++ Address_Hex address.
Definition PaymasterStatsKeyPrefix : bytes := prefixPaymasterStats.
Definition SmartAccountKey (address : Address) : bytes :=
  prefixSmartAccount ++ Address_Hex address.
Definition SmartAccountKeyPrefix : bytes := prefixSmartAccount.
Definition UserOpSenderIndexKey (sender : Address) (blockNumber bundleIndex : Z) : bytes :=
  prefixIdxUserOpSender ++ Address_Hex sender ++ lit "/" ++ fmt_0x 16 blockNumber
    ++ lit "/" ++ fmt_0x 8 bundleIndex.
Definition UserOpSenderIndexKeyPrefix (sender : Address) : bytes :=
  prefixIdxUserOpSender ++ Address_Hex sender ++ lit "/".
Definition UserOpBundlerIndexKey (bundler : Address) (blockNumber bundleIndex : Z) : bytes :=
  prefixIdxUserOpBundler ++ Address_Hex bundler ++ lit "/" ++ fmt_0x 16 blockNumber
    ++ lit "/" ++ fmt_0x 8 bundleIndex.
Definition UserOpBundlerIndexKeyPrefix (bundler : Address) : bytes :=
  prefixIdxUserOpBundler ++ Address_Hex bundler ++ lit "/".
Definition UserOpPaymasterIndexKey (paymaster : Address) (blockNumber bundleIndex : Z) : bytes :=
  prefixIdxUserOpPaymaster ++ Address_Hex paymaster ++ lit "/" ++ fmt_0x 16 blockNumber
    ++ lit "/" ++ fmt_0x 8 bundleIndex.
Definition UserOpPaymasterIndexKeyPrefix (paymaster : Address) : bytes :=
  prefixIdxUserOpPaymaster ++ Address_Hex paymaster ++ lit "/".
Definition UserOpFactoryIndexKey (factory : Address) (blockNumber bundleIndex : Z) : bytes :=
  prefixIdxUserOpFactory ++ Address_Hex factory ++ lit "/" ++ fmt_0x 16 blockNumber
    ++ lit "/" ++ fmt_0x 8 bundleIndex.
Definition UserOpFactoryIndexKeyPrefix (factory : Address) : bytes :=
  prefixIdxUserOpFactory ++ Address_Hex factory ++ lit "/".
Definition UserOpBlockIndexKey (blockNumber bundleIndex : Z) : bytes :=
  prefixIdxUserOpBlock ++ fmt_0x 16 blockNumber ++ lit "/" ++ fmt_0x 8 bundleIndex.
Definition UserOpBlockIndexKeyPrefix (blockNumber : Z) : bytes :=
  prefixIdxUserOpBlock ++ fmt_0x 16 blockNumber ++ lit "/".
Definition UserOpBlockIndexAllPrefix : bytes := prefixIdxUserOpBlock.
Definition UserOpTxIndexKey (txHash : Hash) (bundleIndex : Z) : bytes :=
  prefixIdxUserOpTx ++ Hash_Hex txHash ++ lit "/" ++ fmt_0x 8 bundleIndex.
Definition UserOpTxIndexKeyPrefix (txHash : Hash) : bytes :=
  prefixIdxUserOpTx ++ Hash_Hex txHash ++ lit "/".

End Keys.
