(* ===== verification/KeySpace.v ===== *)
(** KeySpace: the database key space as a whole.

    [dbkey] has one constructor per key function of pkg/storage/schema.go that
    names a record or an index entry of the (unscoped) database, and [encode]
    applies that function. The theorems state that the key space is unambiguous:
    two different logical keys never share bytes ([encode_inj]), a prefix scan of
    a family returns that family and nothing else, chain-scoped keys are the
    unscoped keys below their chain's prefix, and the fixed-width numbers make
    the byte order of index keys the numeric order the iterators rely on. *)
From S2P Require Import Prelude Eth Schema.

Section KeySpace.
Context {E : EthHex} {U : Unicode}.

Inductive dbkey : Type :=
| KLatestHeight
| KBlock (height : Z)
| KTransaction (height txIndex : Z)
| KReceipt (txHash : Hash)
| KContractAddress (txHash : Hash)
| KTransactionHashIndex (txHash : Hash)
| KBlockHashIndex (blockHash : Hash)
| KAddressTransaction (addr : Address) (seq : Z)
| KBlockTimestamp (timestamp height : Z)
| KAddressBalance (addr : Address) (seq : Z)
| KAddressBalanceLatest (addr : Address)
| KBlockCount
| KTransactionCount
| KMintEvent (blockNumber txIndex logIndex : Z)
| KBurnEvent (blockNumber txIndex logIndex : Z)
| KMinterConfigEvent (minter : Address) (blockNumber : Z)
| KValidatorChangeEvent (validator : Address) (blockNumber : Z)
| KProposal (contract : Address) (proposalId : bytes)
| KProposalVote (contract : Address) (proposalId : bytes) (voter : Address)
| KBlacklistEvent (address : Address) (blockNumber : Z)
| KMemberChangeEvent (contract : Address) (blockNumber txIndex : Z)
| KGasTipUpdateEvent (blockNumber txIndex : Z)
| KEmergencyPauseEvent (contract : Address) (blockNumber txIndex : Z)
| KDepositMintProposal (proposalId : bytes)
| KMaxProposalsUpdateEvent (contract : Address) (blockNumber txIndex : Z)
| KProposalExecutionSkippedEvent (contract : Address) (blockNumber txIndex : Z)
| KAuthorizedAccountEvent (contract : Address) (blockNumber txIndex : Z)
| KMintMinterIndex (minter : Address) (blockNumber : Z)
| KBurnBurnerIndex (burner : Address) (blockNumber : Z)
| KProposalStatusIndex (contract : Address) (status : Z) (proposalId : bytes)
| KBlacklistActiveIndex (address : Address)
| KMinterActiveIndex (address : Address)
| KValidatorActiveIndex (address : Address)
| KTotalSupply
| KWBFTBlockExtra (blockNumber : Z)
| KWBFTEpoch (epochNumber : Z)
| KLatestEpoch
| KWBFTValidatorStats (validator : Address) (fromBlock toBlock : Z)
| KWBFTValidatorActivity (validator : Address) (blockNumber : Z)
| KWBFTSignerPrepareIndex (blockNumber : Z) (validator : Address)
| KWBFTSignerCommitIndex (blockNumber : Z) (validator : Address)
| KContractCreation (contractAddress : Address)
| KContractCreatorIndex (creator : Address) (blockNumber : Z) (txHash : Hash)
| KContractBlockIndex (blockNumber : Z) (contractAddress : Address)
| KInternalTransaction (txHash : Hash) (index : Z)
| KInternalTxFromIndex (from : Address) (blockNumber : Z) (txHash : Hash)
| KInternalTxToIndex (to : Address) (blockNumber : Z) (txHash : Hash)
| KInternalTxBlockIndex (blockNumber : Z) (txHash : Hash)
| KERC20Transfer (txHash : Hash) (logIndex : Z)
| KERC20TokenIndex (tokenAddress : Address) (blockNumber logIndex : Z)
| KERC20FromIndex (from : Address) (blockNumber logIndex : Z)
| KERC20ToIndex (to : Address) (blockNumber logIndex : Z)
| KERC721Transfer (txHash : Hash) (logIndex : Z)
| KERC721TokenIndex (tokenAddress : Address) (blockNumber logIndex : Z)
| KERC721FromIndex (from : Address) (blockNumber logIndex : Z)
| KERC721ToIndex (to : Address) (blockNumber logIndex : Z)
| KERC721TokenOwner (tokenAddress : Address) (tokenId : bytes)
| KERC721OwnerIndex (owner contractAddress : Address) (tokenId : bytes)
| KLog (blockNumber txIndex logIndex : Z)
| KLogAddressIndex (address : Address) (blockNumber txIndex logIndex : Z)
| KLogTopic0Index (topic : Hash) (blockNumber txIndex logIndex : Z)
| KLogTopic1Index (topic : Hash) (blockNumber txIndex logIndex : Z)
| KLogTopic2Index (topic : Hash) (blockNumber txIndex logIndex : Z)
| KLogTopic3Index (topic : Hash) (blockNumber txIndex logIndex : Z)
| KLogBlockIndex (blockNumber txIndex logIndex : Z)
| KABI (address : Address)
| KContractVerification (address : Address)
| KVerifiedContractIndex (verifiedAt : Z) (address : Address)
| KFeeDelegationMeta (txHash : Hash)
| KFeeDelegationPayerIndex (feePayer : Address) (blockNumber : Z) (txHash : Hash)
| KNotificationSetting (id : bytes)
| KNotification (id : bytes)
| KNotificationHistory (notificationID : bytes) (attempt : Z)
| KNotificationStats (settingID : bytes)
| KNotificationStatusIndex (status : bytes) (createdAt : Z) (id : bytes)
| KNotificationSettingIndex (settingID : bytes) (createdAt : Z) (id : bytes)
| KNotificationPendingIndex (nextRetry : Z) (id : bytes)
| KTokenMetadata (address : Address)
| KTokenStandardIndex (standard : bytes) (address : Address)
| KTokenSymbolIndex (symbol : bytes) (address : Address)
| KTokenNameIndex (name : bytes) (address : Address)
| KSetCodeAuthorization (txHash : Hash) (authIndex : Z)
| KSetCodeDelegationState (address : Address)
| KSetCodeStats (address : Address)
| KSetCodeTargetIndex (target : Address) (blockNumber txIndex authIndex : Z)
| KSetCodeAuthorityIndex (authority : Address) (blockNumber txIndex authIndex : Z)
| KSetCodeBlockIndex (blockNumber txIndex authIndex : Z)
| KSetCodeTxIndex (txHash : Hash) (authIndex : Z)
| KTokenHolder (token holder : Address)
| KTokenHolderStats (token : Address)
| KTokenHolderByTokenIndex (token holder : Address) (balance : Z)
| KTokenHolderByHolderIndex (holder token : Address)
| KModule (account module : Address)
| KModuleStats (module : Address)
| KModuleAccountIndex (account : Address) (blockNumber : Z) (module : Address)
| KModuleTypeIndex (moduleType blockNumber : Z) (account module : Address)
| KModuleBlockIndex (blockNumber : Z) (account module : Address)
| KUserOp (opHash : Hash)
| KBundlerStats (address : Address)
| KFactoryStats (address : Address)
| KPaymasterStats (address : Address)
| KSmartAccount (address : Address)
| KUserOpSenderIndex (sender : Address) (blockNumber bundleIndex : Z)
| KUserOpBundlerIndex (bundler : Address) (blockNumber bundleIndex : Z)
| KUserOpPaymasterIndex (paymaster : Address) (blockNumber bundleIndex : Z)
| KUserOpFactoryIndex (factory : Address) (blockNumber bundleIndex : Z)
| KUserOpBlockIndex (blockNumber bundleIndex : Z)
| KUserOpTxIndex (txHash : Hash) (bundleIndex : Z).

(** The bytes of a key: the function of pkg/storage/schema.go for its family. *)
Definition encode (k : dbkey) : bytes :=
  match k with
  | KLatestHeight => LatestHeightKey
  | KBlock height => BlockKey height
  | KTransaction height txIndex => TransactionKey height txIndex
  | KReceipt txHash => ReceiptKey txHash
  | KContractAddress txHash => ContractAddressKey txHash
  | KTransactionHashIndex txHash => TransactionHashIndexKey txHash
  | KBlockHashIndex blockHash => BlockHashIndexKey blockHash
  | KAddressTransaction addr seq => AddressTransactionKey addr seq
  | KBlockTimestamp timestamp height => BlockTimestampKey timestamp height
  | KAddressBalance addr seq => AddressBalanceKey addr seq
  | KAddressBalanceLatest addr => AddressBalanceLatestKey addr
  | KBlockCount => BlockCountKey
  | KTransactionCount => TransactionCountKey
  | KMintEvent blockNumber txIndex logIndex => MintEventKey blockNumber txIndex logIndex
  | KBurnEvent blockNumber txIndex logIndex => BurnEventKey blockNumber txIndex logIndex
  | KMinterConfigEvent minter blockNumber => MinterConfigEventKey minter blockNumber
  | KValidatorChangeEvent validator blockNumber => ValidatorChangeEventKey validator blockNumber
  | KProposal contract proposalId => ProposalKey contract proposalId
  | KProposalVote contract proposalId voter => ProposalVoteKey contract proposalId voter
  | KBlacklistEvent address blockNumber => BlacklistEventKey address blockNumber
  | KMemberChangeEvent contract blockNumber txIndex => MemberChangeEventKey contract blockNumber txIndex
  | KGasTipUpdateEvent blockNumber txIndex => GasTipUpdateEventKey blockNumber txIndex
  | KEmergencyPauseEvent contract blockNumber txIndex => EmergencyPauseEventKey contract blockNumber txIndex
  | KDepositMintProposal proposalId => DepositMintProposalKey proposalId
  | KMaxProposalsUpdateEvent contract blockNumber txIndex => MaxProposalsUpdateEventKey contract blockNumber txIndex
  | KProposalExecutionSkippedEvent contract blockNumber txIndex => ProposalExecutionSkippedEventKey contract blockNumber txIndex
  | KAuthorizedAccountEvent contract blockNumber txIndex => AuthorizedAccountEventKey contract blockNumber txIndex
  | KMintMinterIndex minter blockNumber => MintMinterIndexKey minter blockNumber
  | KBurnBurnerIndex burner blockNumber => BurnBurnerIndexKey burner blockNumber
  | KProposalStatusIndex contract status proposalId => ProposalStatusIndexKey contract status proposalId
  | KBlacklistActiveIndex address => BlacklistActiveIndexKey address
  | KMinterActiveIndex address => MinterActiveIndexKey address
  | KValidatorActiveIndex address => ValidatorActiveIndexKey address
  | KTotalSupply => TotalSupplyKey
  | KWBFTBlockExtra blockNumber => WBFTBlockExtraKey blockNumber
  | KWBFTEpoch epochNumber => WBFTEpochKey epochNumber
  | KLatestEpoch => LatestEpochKey
  | KWBFTValidatorStats validator fromBlock toBlock => WBFTValidatorStatsKey validator fromBlock toBlock
  | KWBFTValidatorActivity validator blockNumber => WBFTValidatorActivityKey validator blockNumber
  | KWBFTSignerPrepareIndex blockNumber validator => WBFTSignerPrepareIndexKey blockNumber validator
  | KWBFTSignerCommitIndex blockNumber validator => WBFTSignerCommitIndexKey blockNumber validator
  | KContractCreation contractAddress => ContractCreationKey contractAddress
  | KContractCreatorIndex creator blockNumber txHash => ContractCreatorIndexKey creator blockNumber txHash
  | KContractBlockIndex blockNumber contractAddress => ContractBlockIndexKey blockNumber contractAddress
  | KInternalTransaction txHash index => InternalTransactionKey txHash index
  | KInternalTxFromIndex from blockNumber txHash => InternalTxFromIndexKey from blockNumber txHash
  | KInternalTxToIndex to blockNumber txHash => InternalTxToIndexKey to blockNumber txHash
  | KInternalTxBlockIndex blockNumber txHash => InternalTxBlockIndexKey blockNumber txHash
  | KERC20Transfer txHash logIndex => ERC20TransferKey txHash logIndex
  | KERC20TokenIndex tokenAddress blockNumber logIndex => ERC20TokenIndexKey tokenAddress blockNumber logIndex
  | KERC20FromIndex from blockNumber logIndex => ERC20FromIndexKey from blockNumber logIndex
  | KERC20ToIndex to blockNumber logIndex => ERC20ToIndexKey to blockNumber logIndex
  | KERC721Transfer txHash logIndex => ERC721TransferKey txHash logIndex
  | KERC721TokenIndex tokenAddress blockNumber logIndex => ERC721TokenIndexKey tokenAddress blockNumber logIndex
  | KERC721FromIndex from blockNumber logIndex => ERC721FromIndexKey from blockNumber logIndex
  | KERC721ToIndex to blockNumber logIndex => ERC721ToIndexKey to blockNumber logIndex
  | KERC721TokenOwner tokenAddress tokenId => ERC721TokenOwnerKey tokenAddress tokenId
  | KERC721OwnerIndex owner contractAddress tokenId => ERC721OwnerIndexKey owner contractAddress tokenId
  | KLog blockNumber txIndex logIndex => LogKey blockNumber txIndex logIndex
  | KLogAddressIndex address blockNumber txIndex logIndex => LogAddressIndexKey address blockNumber txIndex logIndex
  | KLogTopic0Index topic blockNumber txIndex logIndex => LogTopic0IndexKey topic blockNumber txIndex logIndex
  | KLogTopic1Index topic blockNumber txIndex logIndex => LogTopic1IndexKey topic blockNumber txIndex logIndex
  | KLogTopic2Index topic blockNumber txIndex logIndex => LogTopic2IndexKey topic blockNumber txIndex logIndex
  | KLogTopic3Index topic blockNumber txIndex logIndex => LogTopic3IndexKey topic blockNumber txIndex logIndex
  | KLogBlockIndex blockNumber txIndex logIndex => LogBlockIndexKey blockNumber txIndex logIndex
  | KABI address => ABIKey address
  | KContractVerification address => ContractVerificationKey address
  | KVerifiedContractIndex verifiedAt address => VerifiedContractIndexKey verifiedAt address
  | KFeeDelegationMeta txHash => FeeDelegationMetaKey txHash
  | KFeeDelegationPayerIndex feePayer blockNumber txHash => FeeDelegationPayerIndexKey feePayer blockNumber txHash
  | KNotificationSetting id => NotificationSettingKey id
  | KNotification id => NotificationKey id
  | KNotificationHistory notificationID attempt => NotificationHistoryKey notificationID attempt
  | KNotificationStats settingID => NotificationStatsKey settingID
  | KNotificationStatusIndex status createdAt id => NotificationStatusIndexKey status createdAt id
  | KNotificationSettingIndex settingID createdAt id => NotificationSettingIndexKey settingID createdAt id
  | KNotificationPendingIndex nextRetry id => NotificationPendingIndexKey nextRetry id
  | KTokenMetadata address => TokenMetadataKey address
  | KTokenStandardIndex standard address => TokenStandardIndexKey standard address
  | KTokenSymbolIndex symbol address => TokenSymbolIndexKey symbol address
  | KTokenNameIndex name address => TokenNameIndexKey name address
  | KSetCodeAuthorization txHash authIndex => SetCodeAuthorizationKey txHash authIndex
  | KSetCodeDelegationState address => SetCodeDelegationStateKey address
  | KSetCodeStats address => SetCodeStatsKey address
  | KSetCodeTargetIndex target blockNumber txIndex authIndex => SetCodeTargetIndexKey target blockNumber txIndex authIndex
  | KSetCodeAuthorityIndex authority blockNumber txIndex authIndex => SetCodeAuthorityIndexKey authority blockNumber txIndex authIndex
  | KSetCodeBlockIndex blockNumber txIndex authIndex => SetCodeBlockIndexKey blockNumber txIndex authIndex
  | KSetCodeTxIndex txHash authIndex => SetCodeTxIndexKey txHash authIndex
  | KTokenHolder token holder => TokenHolderKey token holder
  | KTokenHolderStats token => TokenHolderStatsKey token
  | KTokenHolderByTokenIndex token holder balance => TokenHolderByTokenIndexKey token holder balance
  | KTokenHolderByHolderIndex holder token => TokenHolderByHolderIndexKey holder token
  | KModule account module => ModuleKey account module
  | KModuleStats module => ModuleStatsKey module
  | KModuleAccountIndex account blockNumber module => ModuleAccountIndexKey account blockNumber module
  | KModuleTypeIndex moduleType blockNumber account module => ModuleTypeIndexKey moduleType blockNumber account module
  | KModuleBlockIndex blockNumber account module => ModuleBlockIndexKey blockNumber account module
  | KUserOp opHash => UserOpKey opHash
  | KBundlerStats address => BundlerStatsKey address
  | KFactoryStats address => FactoryStatsKey address
  | KPaymasterStats address => PaymasterStatsKey address
  | KSmartAccount address => SmartAccountKey address
  | KUserOpSenderIndex sender blockNumber bundleIndex => UserOpSenderIndexKey sender blockNumber bundleIndex
  | KUserOpBundlerIndex bundler blockNumber bundleIndex => UserOpBundlerIndexKey bundler blockNumber bundleIndex
  | KUserOpPaymasterIndex paymaster blockNumber bundleIndex => UserOpPaymasterIndexKey paymaster blockNumber bundleIndex
  | KUserOpFactoryIndex factory blockNumber bundleIndex => UserOpFactoryIndexKey factory blockNumber bundleIndex
  | KUserOpBlockIndex blockNumber bundleIndex => UserOpBlockIndexKey blockNumber bundleIndex
  | KUserOpTxIndex txHash bundleIndex => UserOpTxIndexKey txHash bundleIndex
  end.

(** The key as a path: the segments between its slashes. *)
Definition path (k : dbkey) : list bytes :=
  match k with
  | KLatestHeight => [lit "meta"; lit "lh"]
  | KBlock height => [lit "data"; lit "blocks"; fmt_d height]
  | KTransaction height txIndex => [lit "data"; lit "txs"; fmt_d height; fmt_d txIndex]
  | KReceipt txHash => [lit "data"; lit "receipts"; Hash_Hex txHash]
  | KContractAddress txHash => [lit "data"; lit "contractaddr"; Hash_Hex txHash]
  | KTransactionHashIndex txHash => [lit "index"; lit "txh"; Hash_Hex txHash]
  | KBlockHashIndex blockHash => [lit "index"; lit "blockh"; Hash_Hex blockHash]
| KAddressTransaction addr seq => [lit "index"; lit "addr"; Address_Hex addr; fmt_0d 20
      seq]
| KBlockTimestamp timestamp height => [lit "index"; lit "time"; fmt_0d 20 timestamp;
      fmt_0d 20 height]
| KAddressBalance addr seq => [lit "index"; lit "balance"; Address_Hex addr; lit
      "history"; fmt_0d 20 seq]
| KAddressBalanceLatest addr => [lit "index"; lit "balance"; Address_Hex addr; lit
      "latest"]
  | KBlockCount => [lit "meta"; lit "bc"]
  | KTransactionCount => [lit "meta"; lit "tc"]
| KMintEvent blockNumber txIndex logIndex => [lit "data"; lit "syscontracts"; lit "mint";
      fmt_0d 20 blockNumber; fmt_d txIndex; fmt_d logIndex]
| KBurnEvent blockNumber txIndex logIndex => [lit "data"; lit "syscontracts"; lit "burn";
      fmt_0d 20 blockNumber; fmt_d txIndex; fmt_d logIndex]
| KMinterConfigEvent minter blockNumber => [lit "data"; lit "syscontracts"; lit
      "minterconfig"; Address_Hex minter; fmt_0d 20 blockNumber]
| KValidatorChangeEvent validator blockNumber => [lit "data"; lit "syscontracts"; lit
      "validator"; Address_Hex validator; fmt_0d 20 blockNumber]
| KProposal contract proposalId => [lit "data"; lit "syscontracts"; lit "proposal";
      Address_Hex contract; proposalId]
| KProposalVote contract proposalId voter => [lit "data"; lit "syscontracts"; lit "vote";
      Address_Hex contract; proposalId; Address_Hex voter]
| KBlacklistEvent address blockNumber => [lit "data"; lit "syscontracts"; lit "blacklist";
      Address_Hex address; fmt_0d 20 blockNumber]
| KMemberChangeEvent contract blockNumber txIndex => [lit "data"; lit "syscontracts"; lit
      "member"; Address_Hex contract; fmt_0d 20 blockNumber; fmt_d txIndex]
| KGasTipUpdateEvent blockNumber txIndex => [lit "data"; lit "syscontracts"; lit "gastip";
      fmt_0d 20 blockNumber; fmt_d txIndex]
| KEmergencyPauseEvent contract blockNumber txIndex => [lit "data"; lit "syscontracts";
      lit "emergency"; Address_Hex contract; fmt_0d 20 blockNumber; fmt_d txIndex]
| KDepositMintProposal proposalId => [lit "data"; lit "syscontracts"; lit "depositmint";
      proposalId]
| KMaxProposalsUpdateEvent contract blockNumber txIndex => [lit "data"; lit
      "syscontracts"; lit "maxproposals"; Address_Hex contract; fmt_0d 20 blockNumber;
      fmt_d txIndex]
| KProposalExecutionSkippedEvent contract blockNumber txIndex => [lit "data"; lit
      "syscontracts"; lit "proposalskipped"; Address_Hex contract; fmt_0d 20 blockNumber;
      fmt_d txIndex]
| KAuthorizedAccountEvent contract blockNumber txIndex => [lit "data"; lit "syscontracts";
      lit "authorizedaccounts"; Address_Hex contract; fmt_0d 20 blockNumber; fmt_d
      txIndex]
| KMintMinterIndex minter blockNumber => [lit "index"; lit "syscontracts"; lit
      "mint_minter"; Address_Hex minter; fmt_0d 20 blockNumber]
| KBurnBurnerIndex burner blockNumber => [lit "index"; lit "syscontracts"; lit
      "burn_burner"; Address_Hex burner; fmt_0d 20 blockNumber]
| KProposalStatusIndex contract status proposalId => [lit "index"; lit "syscontracts"; lit
      "proposal_status"; Address_Hex contract; fmt_d status; proposalId]
| KBlacklistActiveIndex address => [lit "index"; lit "syscontracts"; lit
      "blacklist_active"; Address_Hex address]
| KMinterActiveIndex address => [lit "index"; lit "syscontracts"; lit "minter_active";
      Address_Hex address]
| KValidatorActiveIndex address => [lit "index"; lit "syscontracts"; lit
      "validator_active"; Address_Hex address]
  | KTotalSupply => [lit "index"; lit "syscontracts"; lit "total_supply"]
| KWBFTBlockExtra blockNumber => [lit "data"; lit "wbft"; lit "extra"; fmt_0d 20
      blockNumber]
  | KWBFTEpoch epochNumber => [lit "data"; lit "wbft"; lit "epoch"; fmt_0d 20 epochNumber]
  | KLatestEpoch => [lit "meta"; lit "wbft"; lit "latest_epoch"]
| KWBFTValidatorStats validator fromBlock toBlock => [lit "data"; lit "wbft"; lit
      "validator"; lit "stats"; Address_Hex validator; fmt_0d 20 fromBlock ++ lit "_" ++
      fmt_0d 20 toBlock]
| KWBFTValidatorActivity validator blockNumber => [lit "data"; lit "wbft"; lit
      "validator"; lit "activity"; Address_Hex validator; fmt_0d 20 blockNumber]
| KWBFTSignerPrepareIndex blockNumber validator => [lit "index"; lit "wbft"; lit
      "signers"; lit "prepare"; fmt_0d 20 blockNumber; Address_Hex validator]
| KWBFTSignerCommitIndex blockNumber validator => [lit "index"; lit "wbft"; lit "signers";
      lit "commit"; fmt_0d 20 blockNumber; Address_Hex validator]
| KContractCreation contractAddress => [lit "data"; lit "contract"; lit "creation";
      Address_Hex contractAddress]
| KContractCreatorIndex creator blockNumber txHash => [lit "index"; lit "contract"; lit
      "creator"; Address_Hex creator; fmt_0d 20 blockNumber; Hash_Hex txHash]
| KContractBlockIndex blockNumber contractAddress => [lit "index"; lit "contract"; lit
      "block"; fmt_0d 20 blockNumber; Address_Hex contractAddress]
| KInternalTransaction txHash index => [lit "data"; lit "internal"; Hash_Hex txHash;
      fmt_0d 6 index]
| KInternalTxFromIndex from blockNumber txHash => [lit "index"; lit "internal"; lit
      "from"; Address_Hex from; fmt_0d 20 blockNumber; Hash_Hex txHash]
| KInternalTxToIndex to blockNumber txHash => [lit "index"; lit "internal"; lit "to";
      Address_Hex to; fmt_0d 20 blockNumber; Hash_Hex txHash]
| KInternalTxBlockIndex blockNumber txHash => [lit "index"; lit "internal"; lit "block";
      fmt_0d 20 blockNumber; Hash_Hex txHash]
| KERC20Transfer txHash logIndex => [lit "data"; lit "erc20"; lit "transfer"; Hash_Hex
      txHash; fmt_0d 6 logIndex]
| KERC20TokenIndex tokenAddress blockNumber logIndex => [lit "index"; lit "erc20"; lit
      "token"; Address_Hex tokenAddress; fmt_0d 20 blockNumber; fmt_0d 6 logIndex]
| KERC20FromIndex from blockNumber logIndex => [lit "index"; lit "erc20"; lit "from";
      Address_Hex from; fmt_0d 20 blockNumber; fmt_0d 6 logIndex]
| KERC20ToIndex to blockNumber logIndex => [lit "index"; lit "erc20"; lit "to";
      Address_Hex to; fmt_0d 20 blockNumber; fmt_0d 6 logIndex]
| KERC721Transfer txHash logIndex => [lit "data"; lit "erc721"; lit "transfer"; Hash_Hex
      txHash; fmt_0d 6 logIndex]
| KERC721TokenIndex tokenAddress blockNumber logIndex => [lit "index"; lit "erc721"; lit
      "token"; Address_Hex tokenAddress; fmt_0d 20 blockNumber; fmt_0d 6 logIndex]
| KERC721FromIndex from blockNumber logIndex => [lit "index"; lit "erc721"; lit "from";
      Address_Hex from; fmt_0d 20 blockNumber; fmt_0d 6 logIndex]
| KERC721ToIndex to blockNumber logIndex => [lit "index"; lit "erc721"; lit "to";
      Address_Hex to; fmt_0d 20 blockNumber; fmt_0d 6 logIndex]
| KERC721TokenOwner tokenAddress tokenId => [lit "index"; lit "erc721"; lit "tokenowner";
      Address_Hex tokenAddress; tokenId]
| KERC721OwnerIndex owner contractAddress tokenId => [lit "index"; lit "erc721"; lit
      "owner"; Address_Hex owner; Address_Hex contractAddress; tokenId]
| KLog blockNumber txIndex logIndex => [lit "data"; lit "logs"; fmt_0d 20 blockNumber;
      fmt_0d 6 txIndex; fmt_0d 6 logIndex]
| KLogAddressIndex address blockNumber txIndex logIndex => [lit "index"; lit "logs"; lit
      "addr"; Address_Hex address; fmt_0d 20 blockNumber; fmt_0d 6 txIndex; fmt_0d 6
      logIndex]
| KLogTopic0Index topic blockNumber txIndex logIndex => [lit "index"; lit "logs"; lit
      "topic0"; Hash_Hex topic; fmt_0d 20 blockNumber; fmt_0d 6 txIndex; fmt_0d 6
      logIndex]
| KLogTopic1Index topic blockNumber txIndex logIndex => [lit "index"; lit "logs"; lit
      "topic1"; Hash_Hex topic; fmt_0d 20 blockNumber; fmt_0d 6 txIndex; fmt_0d 6
      logIndex]
| KLogTopic2Index topic blockNumber txIndex logIndex => [lit "index"; lit "logs"; lit
      "topic2"; Hash_Hex topic; fmt_0d 20 blockNumber; fmt_0d 6 txIndex; fmt_0d 6
      logIndex]
| KLogTopic3Index topic blockNumber txIndex logIndex => [lit "index"; lit "logs"; lit
      "topic3"; Hash_Hex topic; fmt_0d 20 blockNumber; fmt_0d 6 txIndex; fmt_0d 6
      logIndex]
| KLogBlockIndex blockNumber txIndex logIndex => [lit "index"; lit "logs"; lit "block";
      fmt_0d 20 blockNumber; fmt_0d 6 txIndex; fmt_0d 6 logIndex]
  | KABI address => [lit "data"; lit "abi"; Address_Hex address]
  | KContractVerification address => [lit "data"; lit "verification"; Address_Hex address]
| KVerifiedContractIndex verifiedAt address => [lit "index"; lit "verification"; lit
      "verified"; fmt_0d 20 verifiedAt; Address_Hex address]
  | KFeeDelegationMeta txHash => [lit "data"; lit "feedelegation"; Hash_Hex txHash]
| KFeeDelegationPayerIndex feePayer blockNumber txHash => [lit "index"; lit
      "feedelegation"; lit "payer"; Address_Hex feePayer; fmt_0x 16 blockNumber; Hash_Hex
      txHash]
  | KNotificationSetting id => [lit "data"; lit "notification"; lit "setting"; id]
  | KNotification id => [lit "data"; lit "notification"; lit "notif"; id]
| KNotificationHistory notificationID attempt => [lit "data"; lit "notification"; lit
      "history"; notificationID; fmt_0d 6 attempt]
  | KNotificationStats settingID => [lit "data"; lit "notification"; lit "stats"; settingID]
| KNotificationStatusIndex status createdAt id => [lit "index"; lit "notification"; lit
      "status"; status; fmt_0d 20 createdAt; id]
| KNotificationSettingIndex settingID createdAt id => [lit "index"; lit "notification";
      lit "setting"; settingID; fmt_0d 20 createdAt; id]
| KNotificationPendingIndex nextRetry id => [lit "index"; lit "notification"; lit
      "pending"; fmt_0d 20 nextRetry; id]
  | KTokenMetadata address => [lit "data"; lit "token"; lit "metadata"; Address_Hex address]
| KTokenStandardIndex standard address => [lit "index"; lit "token"; lit "standard";
      standard; Address_Hex address]
| KTokenSymbolIndex symbol address => [lit "index"; lit "token"; lit "symbol"; ToLower
      symbol; Address_Hex address]
| KTokenNameIndex name address => [lit "index"; lit "token"; lit "name"; ToLower name;
      Address_Hex address]
| KSetCodeAuthorization txHash authIndex => [lit "data"; lit "setcode"; lit "auth";
      Hash_Hex txHash; fmt_0d 4 authIndex]
| KSetCodeDelegationState address => [lit "data"; lit "setcode"; lit "delegation";
      Address_Hex address]
  | KSetCodeStats address => [lit "data"; lit "setcode"; lit "stats"; Address_Hex address]
| KSetCodeTargetIndex target blockNumber txIndex authIndex => [lit "index"; lit "setcode";
      lit "target"; Address_Hex target; fmt_0x 16 blockNumber; fmt_0x 8 txIndex; fmt_0x 4
      authIndex]
| KSetCodeAuthorityIndex authority blockNumber txIndex authIndex => [lit "index"; lit
      "setcode"; lit "authority"; Address_Hex authority; fmt_0x 16 blockNumber; fmt_0x 8
      txIndex; fmt_0x 4 authIndex]
| KSetCodeBlockIndex blockNumber txIndex authIndex => [lit "index"; lit "setcode"; lit
      "block"; fmt_0x 16 blockNumber; fmt_0x 8 txIndex; fmt_0x 4 authIndex]
| KSetCodeTxIndex txHash authIndex => [lit "index"; lit "setcode"; lit "tx"; Hash_Hex
      txHash; fmt_0x 4 authIndex]
| KTokenHolder token holder => [lit "data"; lit "token"; lit "holder"; Address_Hex token;
      Address_Hex holder]
| KTokenHolderStats token => [lit "data"; lit "token"; lit "holderstats"; Address_Hex
      token]
| KTokenHolderByTokenIndex token holder balance => [lit "index"; lit "token"; lit
      "holder"; lit "token"; Address_Hex token; fmt_0x 64 (Z.shiftl 1 256 - 1 - balance);
      Address_Hex holder]
| KTokenHolderByHolderIndex holder token => [lit "index"; lit "token"; lit "holder"; lit
      "holder"; Address_Hex holder; Address_Hex token]
| KModule account module => [lit "data"; lit "module"; Address_Hex account; Address_Hex
      module]
  | KModuleStats module => [lit "data"; lit "module"; lit "stats"; Address_Hex module]
| KModuleAccountIndex account blockNumber module => [lit "index"; lit "module"; lit
      "account"; Address_Hex account; fmt_0x 16 blockNumber; Address_Hex module]
| KModuleTypeIndex moduleType blockNumber account module => [lit "index"; lit "module";
      lit "type"; fmt_0x 2 moduleType; fmt_0x 16 blockNumber; Address_Hex account;
      Address_Hex module]
| KModuleBlockIndex blockNumber account module => [lit "index"; lit "module"; lit "block";
      fmt_0x 16 blockNumber; Address_Hex account; Address_Hex module]
  | KUserOp opHash => [lit "data"; lit "userop"; Hash_Hex opHash]
  | KBundlerStats address => [lit "data"; lit "bundler"; lit "stats"; Address_Hex address]
  | KFactoryStats address => [lit "data"; lit "factory"; lit "stats"; Address_Hex address]
| KPaymasterStats address => [lit "data"; lit "paymaster"; lit "stats"; Address_Hex
      address]
  | KSmartAccount address => [lit "data"; lit "smartaccount"; Address_Hex address]
| KUserOpSenderIndex sender blockNumber bundleIndex => [lit "index"; lit "userop"; lit
      "sender"; Address_Hex sender; fmt_0x 16 blockNumber; fmt_0x 8 bundleIndex]
| KUserOpBundlerIndex bundler blockNumber bundleIndex => [lit "index"; lit "userop"; lit
      "bundler"; Address_Hex bundler; fmt_0x 16 blockNumber; fmt_0x 8 bundleIndex]
| KUserOpPaymasterIndex paymaster blockNumber bundleIndex => [lit "index"; lit "userop";
      lit "paymaster"; Address_Hex paymaster; fmt_0x 16 blockNumber; fmt_0x 8 bundleIndex]
| KUserOpFactoryIndex factory blockNumber bundleIndex => [lit "index"; lit "userop"; lit
      "factory"; Address_Hex factory; fmt_0x 16 blockNumber; fmt_0x 8 bundleIndex]
| KUserOpBlockIndex blockNumber bundleIndex => [lit "index"; lit "userop"; lit "block";
      fmt_0x 16 blockNumber; fmt_0x 8 bundleIndex]
| KUserOpTxIndex txHash bundleIndex => [lit "index"; lit "userop"; lit "tx"; Hash_Hex
      txHash; fmt_0x 8 bundleIndex]
  end.

(** The free-text arguments hold no slash; symbols and names are case-folded. *)
Definition wf (k : dbkey) : Prop :=
  match k with
  | KProposal _ proposalId => no_slash proposalId
  | KProposalVote _ proposalId _ => no_slash proposalId
  | KDepositMintProposal proposalId => no_slash proposalId
  | KProposalStatusIndex _ _ proposalId => no_slash proposalId
  | KERC721TokenOwner _ tokenId => no_slash tokenId
  | KERC721OwnerIndex _ _ tokenId => no_slash tokenId
  | KNotificationSetting id => no_slash id
  | KNotification id => no_slash id
  | KNotificationHistory notificationID _ => no_slash notificationID
  | KNotificationStats settingID => no_slash settingID
  | KNotificationStatusIndex status _ id => no_slash status /\ no_slash id
  | KNotificationSettingIndex settingID _ id => no_slash settingID /\ no_slash id
  | KNotificationPendingIndex _ id => no_slash id
  | KTokenStandardIndex standard _ => no_slash standard
  | KTokenSymbolIndex symbol _ => no_slash symbol /\ ToLower symbol = symbol
  | KTokenNameIndex name _ => no_slash name /\ ToLower name = name
  | _ => True
  end.

(** What the literal segments of each family look like. [S0x] is a field that
    starts with 0x, the only thing that tells a module record from module
    statistics. *)
Inductive slot : Type := SLit (s : bytes) | SAny | S0x.

Definition slot_ok (sl : slot) (s : bytes) : bool :=
  match sl with
  | SLit l => bool_decide (s = l)
  | SAny => true
  | S0x => HasPrefix s (lit "0x")
  end.

Fixpoint slots_ok (sls : list slot) (p : list bytes) : bool :=
  match sls, p with
  | [], [] => true
  | sl :: sls, s :: p => slot_ok sl s && slots_ok sls p
  | _, _ => false
  end.

Definition skeletons : list (list slot) := [
  [SLit (lit "data"); SLit (lit "module"); S0x; SAny];
  [SLit (lit "meta"); SLit (lit "lh")];
  [SLit (lit "data"); SLit (lit "blocks"); SAny];
  [SLit (lit "data"); SLit (lit "txs"); SAny; SAny];
  [SLit (lit "data"); SLit (lit "receipts"); SAny];
  [SLit (lit "data"); SLit (lit "contractaddr"); SAny];
  [SLit (lit "index"); SLit (lit "txh"); SAny];
  [SLit (lit "index"); SLit (lit "blockh"); SAny];
  [SLit (lit "index"); SLit (lit "addr"); SAny; SAny];
  [SLit (lit "index"); SLit (lit "time"); SAny; SAny];
  [SLit (lit "index"); SLit (lit "balance"); SAny; SLit (lit "history"); SAny];
  [SLit (lit "index"); SLit (lit "balance"); SAny; SLit (lit "latest")];
  [SLit (lit "meta"); SLit (lit "bc")];
  [SLit (lit "meta"); SLit (lit "tc")];
  [SLit (lit "data"); SLit (lit "syscontracts"); SLit (lit "mint"); SAny; SAny; SAny];
  [SLit (lit "data"); SLit (lit "syscontracts"); SLit (lit "burn"); SAny; SAny; SAny];
  [SLit (lit "data"); SLit (lit "syscontracts"); SLit (lit "minterconfig"); SAny; SAny];
  [SLit (lit "data"); SLit (lit "syscontracts"); SLit (lit "validator"); SAny; SAny];
  [SLit (lit "data"); SLit (lit "syscontracts"); SLit (lit "proposal"); SAny; SAny];
  [SLit (lit "data"); SLit (lit "syscontracts"); SLit (lit "vote"); SAny; SAny; SAny];
  [SLit (lit "data"); SLit (lit "syscontracts"); SLit (lit "blacklist"); SAny; SAny];
  [SLit (lit "data"); SLit (lit "syscontracts"); SLit (lit "member"); SAny; SAny; SAny];
  [SLit (lit "data"); SLit (lit "syscontracts"); SLit (lit "gastip"); SAny; SAny];
  [SLit (lit "data"); SLit (lit "syscontracts"); SLit (lit "emergency"); SAny; SAny; SAny];
  [SLit (lit "data"); SLit (lit "syscontracts"); SLit (lit "depositmint"); SAny];
[SLit (lit "data"); SLit (lit "syscontracts"); SLit (lit "maxproposals"); SAny; SAny;
    SAny];
[SLit (lit "data"); SLit (lit "syscontracts"); SLit (lit "proposalskipped"); SAny; SAny;
    SAny];
[SLit (lit "data"); SLit (lit "syscontracts"); SLit (lit "authorizedaccounts"); SAny;
    SAny; SAny];
  [SLit (lit "index"); SLit (lit "syscontracts"); SLit (lit "mint_minter"); SAny; SAny];
  [SLit (lit "index"); SLit (lit "syscontracts"); SLit (lit "burn_burner"); SAny; SAny];
[SLit (lit "index"); SLit (lit "syscontracts"); SLit (lit "proposal_status"); SAny; SAny;
    SAny];
  [SLit (lit "index"); SLit (lit "syscontracts"); SLit (lit "blacklist_active"); SAny];
  [SLit (lit "index"); SLit (lit "syscontracts"); SLit (lit "minter_active"); SAny];
  [SLit (lit "index"); SLit (lit "syscontracts"); SLit (lit "validator_active"); SAny];
  [SLit (lit "index"); SLit (lit "syscontracts"); SLit (lit "total_supply")];
  [SLit (lit "data"); SLit (lit "wbft"); SLit (lit "extra"); SAny];
  [SLit (lit "data"); SLit (lit "wbft"); SLit (lit "epoch"); SAny];
  [SLit (lit "meta"); SLit (lit "wbft"); SLit (lit "latest_epoch")];
[SLit (lit "data"); SLit (lit "wbft"); SLit (lit "validator"); SLit (lit "stats"); SAny;
    SAny];
[SLit (lit "data"); SLit (lit "wbft"); SLit (lit "validator"); SLit (lit "activity");
    SAny; SAny];
[SLit (lit "index"); SLit (lit "wbft"); SLit (lit "signers"); SLit (lit "prepare"); SAny;
    SAny];
[SLit (lit "index"); SLit (lit "wbft"); SLit (lit "signers"); SLit (lit "commit"); SAny;
    SAny];
  [SLit (lit "data"); SLit (lit "contract"); SLit (lit "creation"); SAny];
  [SLit (lit "index"); SLit (lit "contract"); SLit (lit "creator"); SAny; SAny; SAny];
  [SLit (lit "index"); SLit (lit "contract"); SLit (lit "block"); SAny; SAny];
  [SLit (lit "data"); SLit (lit "internal"); SAny; SAny];
  [SLit (lit "index"); SLit (lit "internal"); SLit (lit "from"); SAny; SAny; SAny];
  [SLit (lit "index"); SLit (lit "internal"); SLit (lit "to"); SAny; SAny; SAny];
  [SLit (lit "index"); SLit (lit "internal"); SLit (lit "block"); SAny; SAny];
  [SLit (lit "data"); SLit (lit "erc20"); SLit (lit "transfer"); SAny; SAny];
  [SLit (lit "index"); SLit (lit "erc20"); SLit (lit "token"); SAny; SAny; SAny];
  [SLit (lit "index"); SLit (lit "erc20"); SLit (lit "from"); SAny; SAny; SAny];
  [SLit (lit "index"); SLit (lit "erc20"); SLit (lit "to"); SAny; SAny; SAny];
  [SLit (lit "data"); SLit (lit "erc721"); SLit (lit "transfer"); SAny; SAny];
  [SLit (lit "index"); SLit (lit "erc721"); SLit (lit "token"); SAny; SAny; SAny];
  [SLit (lit "index"); SLit (lit "erc721"); SLit (lit "from"); SAny; SAny; SAny];
  [SLit (lit "index"); SLit (lit "erc721"); SLit (lit "to"); SAny; SAny; SAny];
  [SLit (lit "index"); SLit (lit "erc721"); SLit (lit "tokenowner"); SAny; SAny];
  [SLit (lit "index"); SLit (lit "erc721"); SLit (lit "owner"); SAny; SAny; SAny];
  [SLit (lit "data"); SLit (lit "logs"); SAny; SAny; SAny];
  [SLit (lit "index"); SLit (lit "logs"); SLit (lit "addr"); SAny; SAny; SAny; SAny];
  [SLit (lit "index"); SLit (lit "logs"); SLit (lit "topic0"); SAny; SAny; SAny; SAny];
  [SLit (lit "index"); SLit (lit "logs"); SLit (lit "topic1"); SAny; SAny; SAny; SAny];
  [SLit (lit "index"); SLit (lit "logs"); SLit (lit "topic2"); SAny; SAny; SAny; SAny];
  [SLit (lit "index"); SLit (lit "logs"); SLit (lit "topic3"); SAny; SAny; SAny; SAny];
  [SLit (lit "index"); SLit (lit "logs"); SLit (lit "block"); SAny; SAny; SAny];
  [SLit (lit "data"); SLit (lit "abi"); SAny];
  [SLit (lit "data"); SLit (lit "verification"); SAny];
  [SLit (lit "index"); SLit (lit "verification"); SLit (lit "verified"); SAny; SAny];
  [SLit (lit "data"); SLit (lit "feedelegation"); SAny];
  [SLit (lit "index"); SLit (lit "feedelegation"); SLit (lit "payer"); SAny; SAny; SAny];
  [SLit (lit "data"); SLit (lit "notification"); SLit (lit "setting"); SAny];
  [SLit (lit "data"); SLit (lit "notification"); SLit (lit "notif"); SAny];
  [SLit (lit "data"); SLit (lit "notification"); SLit (lit "history"); SAny; SAny];
  [SLit (lit "data"); SLit (lit "notification"); SLit (lit "stats"); SAny];
  [SLit (lit "index"); SLit (lit "notification"); SLit (lit "status"); SAny; SAny; SAny];
  [SLit (lit "index"); SLit (lit "notification"); SLit (lit "setting"); SAny; SAny; SAny];
  [SLit (lit "index"); SLit (lit "notification"); SLit (lit "pending"); SAny; SAny];
  [SLit (lit "data"); SLit (lit "token"); SLit (lit "metadata"); SAny];
  [SLit (lit "index"); SLit (lit "token"); SLit (lit "standard"); SAny; SAny];
  [SLit (lit "index"); SLit (lit "token"); SLit (lit "symbol"); SAny; SAny];
  [SLit (lit "index"); SLit (lit "token"); SLit (lit "name"); SAny; SAny];
  [SLit (lit "data"); SLit (lit "setcode"); SLit (lit "auth"); SAny; SAny];
  [SLit (lit "data"); SLit (lit "setcode"); SLit (lit "delegation"); SAny];
  [SLit (lit "data"); SLit (lit "setcode"); SLit (lit "stats"); SAny];
  [SLit (lit "index"); SLit (lit "setcode"); SLit (lit "target"); SAny; SAny; SAny; SAny];
  [SLit (lit "index"); SLit (lit "setcode"); SLit (lit "authority"); SAny; SAny; SAny; SAny];
  [SLit (lit "index"); SLit (lit "setcode"); SLit (lit "block"); SAny; SAny; SAny];
  [SLit (lit "index"); SLit (lit "setcode"); SLit (lit "tx"); SAny; SAny];
  [SLit (lit "data"); SLit (lit "token"); SLit (lit "holder"); SAny; SAny];
  [SLit (lit "data"); SLit (lit "token"); SLit (lit "holderstats"); SAny];
[SLit (lit "index"); SLit (lit "token"); SLit (lit "holder"); SLit (lit "token"); SAny;
    SAny; SAny];
[SLit (lit "index"); SLit (lit "token"); SLit (lit "holder"); SLit (lit "holder"); SAny;
    SAny];
  [SLit (lit "data"); SLit (lit "module"); SLit (lit "stats"); SAny];
  [SLit (lit "index"); SLit (lit "module"); SLit (lit "account"); SAny; SAny; SAny];
  [SLit (lit "index"); SLit (lit "module"); SLit (lit "type"); SAny; SAny; SAny; SAny];
  [SLit (lit "index"); SLit (lit "module"); SLit (lit "block"); SAny; SAny; SAny];
  [SLit (lit "data"); SLit (lit "userop"); SAny];
  [SLit (lit "data"); SLit (lit "bundler"); SLit (lit "stats"); SAny];
  [SLit (lit "data"); SLit (lit "factory"); SLit (lit "stats"); SAny];
  [SLit (lit "data"); SLit (lit "paymaster"); SLit (lit "stats"); SAny];
  [SLit (lit "data"); SLit (lit "smartaccount"); SAny];
  [SLit (lit "index"); SLit (lit "userop"); SLit (lit "sender"); SAny; SAny; SAny];
  [SLit (lit "index"); SLit (lit "userop"); SLit (lit "bundler"); SAny; SAny; SAny];
  [SLit (lit "index"); SLit (lit "userop"); SLit (lit "paymaster"); SAny; SAny; SAny];
  [SLit (lit "index"); SLit (lit "userop"); SLit (lit "factory"); SAny; SAny; SAny];
  [SLit (lit "index"); SLit (lit "userop"); SLit (lit "block"); SAny; SAny];
  [SLit (lit "index"); SLit (lit "userop"); SLit (lit "tx"); SAny; SAny]
].

Fixpoint classify_in (sks : list (list slot)) (n : N) (p : list bytes) : option N :=
  match sks with
  | [] => None
  | sk :: sks => if slots_ok sk p then Some n else classify_in sks (N.succ n) p
  end.

Definition classify (p : list bytes) : option N := classify_in skeletons 0 p.

Definition family (k : dbkey) : N :=
  match k with
  | KLatestHeight => 1
  | KBlock _ => 2
  | KTransaction _ _ => 3
  | KReceipt _ => 4
  | KContractAddress _ => 5
  | KTransactionHashIndex _ => 6
  | KBlockHashIndex _ => 7
  | KAddressTransaction _ _ => 8
  | KBlockTimestamp _ _ => 9
  | KAddressBalance _ _ => 10
  | KAddressBalanceLatest _ => 11
  | KBlockCount => 12
  | KTransactionCount => 13
  | KMintEvent _ _ _ => 14
  | KBurnEvent _ _ _ => 15
  | KMinterConfigEvent _ _ => 16
  | KValidatorChangeEvent _ _ => 17
  | KProposal _ _ => 18
  | KProposalVote _ _ _ => 19
  | KBlacklistEvent _ _ => 20
  | KMemberChangeEvent _ _ _ => 21
  | KGasTipUpdateEvent _ _ => 22
  | KEmergencyPauseEvent _ _ _ => 23
  | KDepositMintProposal _ => 24
  | KMaxProposalsUpdateEvent _ _ _ => 25
  | KProposalExecutionSkippedEvent _ _ _ => 26
  | KAuthorizedAccountEvent _ _ _ => 27
  | KMintMinterIndex _ _ => 28
  | KBurnBurnerIndex _ _ => 29
  | KProposalStatusIndex _ _ _ => 30
  | KBlacklistActiveIndex _ => 31
  | KMinterActiveIndex _ => 32
  | KValidatorActiveIndex _ => 33
  | KTotalSupply => 34
  | KWBFTBlockExtra _ => 35
  | KWBFTEpoch _ => 36
  | KLatestEpoch => 37
  | KWBFTValidatorStats _ _ _ => 38
  | KWBFTValidatorActivity _ _ => 39
  | KWBFTSignerPrepareIndex _ _ => 40
  | KWBFTSignerCommitIndex _ _ => 41
  | KContractCreation _ => 42
  | KContractCreatorIndex _ _ _ => 43
  | KContractBlockIndex _ _ => 44
  | KInternalTransaction _ _ => 45
  | KInternalTxFromIndex _ _ _ => 46
  | KInternalTxToIndex _ _ _ => 47
  | KInternalTxBlockIndex _ _ => 48
  | KERC20Transfer _ _ => 49
  | KERC20TokenIndex _ _ _ => 50
  | KERC20FromIndex _ _ _ => 51
  | KERC20ToIndex _ _ _ => 52
  | KERC721Transfer _ _ => 53
  | KERC721TokenIndex _ _ _ => 54
  | KERC721FromIndex _ _ _ => 55
  | KERC721ToIndex _ _ _ => 56
  | KERC721TokenOwner _ _ => 57
  | KERC721OwnerIndex _ _ _ => 58
  | KLog _ _ _ => 59
  | KLogAddressIndex _ _ _ _ => 60
  | KLogTopic0Index _ _ _ _ => 61
  | KLogTopic1Index _ _ _ _ => 62
  | KLogTopic2Index _ _ _ _ => 63
  | KLogTopic3Index _ _ _ _ => 64
  | KLogBlockIndex _ _ _ => 65
  | KABI _ => 66
  | KContractVerification _ => 67
  | KVerifiedContractIndex _ _ => 68
  | KFeeDelegationMeta _ => 69
  | KFeeDelegationPayerIndex _ _ _ => 70
  | KNotificationSetting _ => 71
  | KNotification _ => 72
  | KNotificationHistory _ _ => 73
  | KNotificationStats _ => 74
  | KNotificationStatusIndex _ _ _ => 75
  | KNotificationSettingIndex _ _ _ => 76
  | KNotificationPendingIndex _ _ => 77
  | KTokenMetadata _ => 78
  | KTokenStandardIndex _ _ => 79
  | KTokenSymbolIndex _ _ => 80
  | KTokenNameIndex _ _ => 81
  | KSetCodeAuthorization _ _ => 82
  | KSetCodeDelegationState _ => 83
  | KSetCodeStats _ => 84
  | KSetCodeTargetIndex _ _ _ _ => 85
  | KSetCodeAuthorityIndex _ _ _ _ => 86
  | KSetCodeBlockIndex _ _ _ => 87
  | KSetCodeTxIndex _ _ => 88
  | KTokenHolder _ _ => 89
  | KTokenHolderStats _ => 90
  | KTokenHolderByTokenIndex _ _ _ => 91
  | KTokenHolderByHolderIndex _ _ => 92
  | KModule _ _ => 0
  | KModuleStats _ => 93
  | KModuleAccountIndex _ _ _ => 94
  | KModuleTypeIndex _ _ _ _ => 95
  | KModuleBlockIndex _ _ _ => 96
  | KUserOp _ => 97
  | KBundlerStats _ => 98
  | KFactoryStats _ => 99
  | KPaymasterStats _ => 100
  | KSmartAccount _ => 101
  | KUserOpSenderIndex _ _ _ => 102
  | KUserOpBundlerIndex _ _ _ => 103
  | KUserOpPaymasterIndex _ _ _ => 104
  | KUserOpFactoryIndex _ _ _ => 105
  | KUserOpBlockIndex _ _ => 106
  | KUserOpTxIndex _ _ => 107
  end.

(** Rendering a path: a slash before every segment. *)
Fixpoint render (p : list bytes) : bytes :=
  match p with
  | [] => []
  | [s] => slash :: s
  | s :: p' => slash :: s ++ render p'
  end.

Lemma render_inj p q : Forall no_slash p -> Forall no_slash q ->
  render p = render q -> p = q.
Proof.
  intros Hp. revert q. induction Hp as [|s p Hs Hp IH]; intros q Hq Eq.
  { destruct Hq as [|t [|? ?]]; done. }
  destruct Hq as [|t q Ht Hq]; [by destruct p|].
  destruct p as [|s' p], q as [|t' q]; cbn in Eq.
  - by simplify_eq.
  - destruct q; cbn in Eq; injection Eq as ->; destruct Hs; apply elem_of_app; right; left.
  - destruct p; cbn in Eq; injection Eq as <-; destruct Ht; apply elem_of_app; right; left.
  - assert (exists x y, render (s' :: p) = slash :: x /\ render (t' :: q) = slash :: y)
      as (x & y & E1 & E2) by (destruct p, q; cbn; eauto).
    change (slash :: s ++ render (s' :: p) = slash :: t ++ render (t' :: q)) in Eq.
    apply (f_equal (drop 1)) in Eq. rewrite E1, E2 in Eq. cbn [drop] in Eq.
    apply slash_app_inj in Eq as [-> ->]; [|done..]. f_equal. apply IH; [done|congruence].
Qed.

Lemma encode_path k : encode k = render (path k).
Proof. destruct k; reflexivity. Qed.

Lemma path_no_slash k : EthHexLaws E -> wf k -> Forall no_slash (path k).
Proof.
  intros HE Hwf. destruct k; cbn in Hwf; destruct_and?; cbn [path];
    repeat first [apply Forall_nil_2 | apply Forall_cons_2];
    try match goal with H : ToLower _ = _ |- _ => rewrite ?H end; auto with go.
Qed.

(** Fixed literals and the 0x of addresses tell the families apart. *)
Lemma classify_path k : EthHexLaws E -> classify (path k) = Some (family k).
Proof.
  intros HE. destruct k;
    try (unfold classify; cbn [path]; vm_compute; reflexivity).
  unfold classify, skeletons, classify_in at 1. cbn -[HasPrefix lit classify_in].
  rewrite Address_Hex_0x. reflexivity.
Qed.

Lemma family_inj_path k1 k2 : EthHexLaws E -> path k1 = path k2 -> family k1 = family k2.
Proof.
  intros HE Eq. apply (f_equal classify) in Eq.
  rewrite !classify_path in Eq by done. congruence.
Qed.

(** Undo one field of a path. *)
Ltac field_inj :=
  match goal with
  | H : Address_Hex _ = Address_Hex _ |- _ => apply Address_Hex_inj in H
  | H : Hash_Hex _ = Hash_Hex _ |- _ => apply Hash_Hex_inj in H
  | H : fmt_d _ = fmt_d _ |- _ => apply fmt_d_inj in H
  | H : fmt_0d ?w _ = fmt_0d ?w _ |- _ => apply fmt_0d_inj in H
  | H : fmt_0x ?w _ = fmt_0x ?w _ |- _ => apply fmt_0x_inj in H
  | H : fmt_0d _ _ ++ lit "_" ++ _ = fmt_0d _ _ ++ lit "_" ++ _ |- _ =>
      apply sep_app_inj in H as [? ?]; [|apply fmt_0d_underscore..]
  end.

Lemma path_inj k1 k2 : EthHexLaws E -> wf k1 -> wf k2 -> path k1 = path k2 -> k1 = k2.
Proof.
  intros HE H1 H2 Eq. pose proof (family_inj_path k1 k2 HE Eq) as Hf.
  destruct k1; destruct k2; try discriminate Hf; clear Hf;
    cbn [path] in Eq; cbn [wf] in H1, H2; destruct_and?;
    repeat match goal with H : ToLower _ = _ |- _ => rewrite ?H in Eq; clear H end;
    repeat (apply cons_eq_inv in Eq as [? Eq]); repeat field_inj;
    subst; first [reflexivity | f_equal; lia].
Qed.
(** * Prefix scans *)

(** One constructor per key-prefix function of pkg/storage/schema.go. *)
Inductive scan : Type :=
| SAddressTransaction (addr : Address)
| SBlockTimestamp
| SAddressBalance (addr : Address)
| SMaxProposalsUpdateEvent (contract : Address)
| SProposalExecutionSkippedEvent (contract : Address)
| SAuthorizedAccountEvent (contract : Address)
| SMintEvent
| SBurnEvent
| SMinterConfigEvent (minter : Address)
| SValidatorChangeEvent (validator : Address)
| SProposal (contract : Address)
| SProposalVote (contract : Address) (proposalId : bytes)
| SBlacklistEvent (address : Address)
| SMemberChangeEvent (contract : Address)
| SGasTipUpdateEvent
| SEmergencyPauseEvent (contract : Address)
| SMintMinterIndex (minter : Address)
| SBurnBurnerIndex (burner : Address)
| SProposalStatusIndex (contract : Address) (status : Z)
| SBlacklistActiveIndex
| SMinterActiveIndex
| SValidatorActiveIndex
| SWBFTBlockExtra
| SWBFTEpoch
| SWBFTValidatorStats (validator : Address)
| SWBFTValidatorActivity (validator : Address)
| SWBFTValidatorActivityAll
| SWBFTSignerPrepareIndex (blockNumber : Z)
| SWBFTSignerCommitIndex (blockNumber : Z)
| SContractCreatorIndex (creator : Address)
| SInternalTransaction (txHash : Hash)
| SInternalTxFromIndex (from : Address)
| SInternalTxToIndex (to : Address)
| SERC20TokenIndex (tokenAddress : Address)
| SERC20FromIndex (from : Address)
| SERC20ToIndex (to : Address)
| SERC721TokenIndex (tokenAddress : Address)
| SERC721FromIndex (from : Address)
| SERC721ToIndex (to : Address)
| SERC721OwnerIndex (owner : Address)
| SLog
| SLogBlock (blockNumber : Z)
| SLogAddressIndex (address : Address)
| SLogTopic0Index (topic : Hash)
| SLogTopic1Index (topic : Hash)
| SLogTopic2Index (topic : Hash)
| SLogTopic3Index (topic : Hash)
| SLogBlockIndex (blockNumber : Z)
| SLogBlockRangeIndex (fromBlock : Z)
| SABI
| SContractVerification
| SVerifiedContractIndex
| SFeeDelegationPayer (feePayer : Address)
| SNotificationSetting
| SNotification
| SNotificationHistory (notificationID : bytes)
| SNotificationStatusIndex (status : bytes)
| SNotificationSettingIndex (settingID : bytes)
| SNotificationPendingIndex
| STokenMetadata
| STokenStandardIndex (standard : bytes)
| STokenSymbolIndex (symbol : bytes)
| STokenNameIndex (name : bytes)
| STokenSearchIndex
| SSetCodeAuthorization (txHash : Hash)
| SSetCodeAuth
| SSetCodeDelegationState
| SSetCodeStats
| SSetCodeTargetIndex (target : Address)
| SSetCodeAuthorityIndex (authority : Address)
| SSetCodeBlockIndex (blockNumber : Z)
| SSetCodeBlockIndexAll
| SSetCodeTxIndex (txHash : Hash)
| STokenHolder (token : Address)
| STokenHolderByTokenIndex (token : Address)
| STokenHolderByHolderIndex (holder : Address)
| SModule (account : Address)
| SModuleAll
| SModuleStats
| SModuleAccountIndex (account : Address)
| SModuleTypeIndex (moduleType : Z)
| SModuleBlockIndex (blockNumber : Z)
| SModuleBlockIndexAll
| SUserOp
| SBundlerStats
| SFactoryStats
| SPaymasterStats
| SSmartAccount
| SUserOpSenderIndex (sender : Address)
| SUserOpBundlerIndex (bundler : Address)
| SUserOpPaymasterIndex (paymaster : Address)
| SUserOpFactoryIndex (factory : Address)
| SUserOpBlockIndex (blockNumber : Z)
| SUserOpBlockIndexAll
| SUserOpTxIndex (txHash : Hash).

Definition scan_prefix (s : scan) : bytes :=
  match s with
  | SAddressTransaction addr => AddressTransactionKeyPrefix addr
  | SBlockTimestamp => BlockTimestampKeyPrefix
  | SAddressBalance addr => AddressBalanceKeyPrefix addr
  | SMaxProposalsUpdateEvent contract => MaxProposalsUpdateEventKeyPrefix contract
  | SProposalExecutionSkippedEvent contract => ProposalExecutionSkippedEventKeyPrefix contract
  | SAuthorizedAccountEvent contract => AuthorizedAccountEventKeyPrefix contract
  | SMintEvent => MintEventKeyPrefix
  | SBurnEvent => BurnEventKeyPrefix
  | SMinterConfigEvent minter => MinterConfigEventKeyPrefix minter
  | SValidatorChangeEvent validator => ValidatorChangeEventKeyPrefix validator
  | SProposal contract => ProposalKeyPrefix contract
  | SProposalVote contract proposalId => ProposalVoteKeyPrefix contract proposalId
  | SBlacklistEvent address => BlacklistEventKeyPrefix address
  | SMemberChangeEvent contract => MemberChangeEventKeyPrefix contract
  | SGasTipUpdateEvent => GasTipUpdateEventKeyPrefix
  | SEmergencyPauseEvent contract => EmergencyPauseEventKeyPrefix contract
  | SMintMinterIndex minter => MintMinterIndexKeyPrefix minter
  | SBurnBurnerIndex burner => BurnBurnerIndexKeyPrefix burner
  | SProposalStatusIndex contract status => ProposalStatusIndexKeyPrefix contract status
  | SBlacklistActiveIndex => BlacklistActiveIndexKeyPrefix
  | SMinterActiveIndex => MinterActiveIndexKeyPrefix
  | SValidatorActiveIndex => ValidatorActiveIndexKeyPrefix
  | SWBFTBlockExtra => WBFTBlockExtraKeyPrefix
  | SWBFTEpoch => WBFTEpochKeyPrefix
  | SWBFTValidatorStats validator => WBFTValidatorStatsKeyPrefix validator
  | SWBFTValidatorActivity validator => WBFTValidatorActivityKeyPrefix validator
  | SWBFTValidatorActivityAll => WBFTValidatorActivityAllKeyPrefix
  | SWBFTSignerPrepareIndex blockNumber => WBFTSignerPrepareIndexKeyPrefix blockNumber
  | SWBFTSignerCommitIndex blockNumber => WBFTSignerCommitIndexKeyPrefix blockNumber
  | SContractCreatorIndex creator => ContractCreatorIndexKeyPrefix creator
  | SInternalTransaction txHash => InternalTransactionKeyPrefix txHash
  | SInternalTxFromIndex from => InternalTxFromIndexKeyPrefix from
  | SInternalTxToIndex to => InternalTxToIndexKeyPrefix to
  | SERC20TokenIndex tokenAddress => ERC20TokenIndexKeyPrefix tokenAddress
  | SERC20FromIndex from => ERC20FromIndexKeyPrefix from
  | SERC20ToIndex to => ERC20ToIndexKeyPrefix to
  | SERC721TokenIndex tokenAddress => ERC721TokenIndexKeyPrefix tokenAddress
  | SERC721FromIndex from => ERC721FromIndexKeyPrefix from
  | SERC721ToIndex to => ERC721ToIndexKeyPrefix to
  | SERC721OwnerIndex owner => ERC721OwnerIndexKeyPrefix owner
  | SLog => LogKeyPrefix
  | SLogBlock blockNumber => LogBlockKeyPrefix blockNumber
  | SLogAddressIndex address => LogAddressIndexKeyPrefix address
  | SLogTopic0Index topic => LogTopic0IndexKeyPrefix topic
  | SLogTopic1Index topic => LogTopic1IndexKeyPrefix topic
  | SLogTopic2Index topic => LogTopic2IndexKeyPrefix topic
  | SLogTopic3Index topic => LogTopic3IndexKeyPrefix topic
  | SLogBlockIndex blockNumber => LogBlockIndexKeyPrefix blockNumber
  | SLogBlockRangeIndex fromBlock => LogBlockRangeIndexKeyPrefix fromBlock
  | SABI => ABIKeyPrefix
  | SContractVerification => ContractVerificationKeyPrefix
  | SVerifiedContractIndex => VerifiedContractIndexKeyPrefix
  | SFeeDelegationPayer feePayer => FeeDelegationPayerPrefix feePayer
  | SNotificationSetting => NotificationSettingKeyPrefix
  | SNotification => NotificationKeyPrefix
  | SNotificationHistory notificationID => NotificationHistoryKeyPrefix notificationID
  | SNotificationStatusIndex status => NotificationStatusIndexKeyPrefix status
  | SNotificationSettingIndex settingID => NotificationSettingIndexKeyPrefix settingID
  | SNotificationPendingIndex => NotificationPendingIndexKeyPrefix
  | STokenMetadata => TokenMetadataKeyPrefix
  | STokenStandardIndex standard => TokenStandardIndexKeyPrefix standard
  | STokenSymbolIndex symbol => TokenSymbolIndexKeyPrefix symbol
  | STokenNameIndex name => TokenNameIndexKeyPrefix name
  | STokenSearchIndex => TokenSearchIndexKeyPrefix
  | SSetCodeAuthorization txHash => SetCodeAuthorizationKeyPrefix txHash
  | SSetCodeAuth => SetCodeAuthKeyPrefix
  | SSetCodeDelegationState => SetCodeDelegationStateKeyPrefix
  | SSetCodeStats => SetCodeStatsKeyPrefix
  | SSetCodeTargetIndex target => SetCodeTargetIndexKeyPrefix target
  | SSetCodeAuthorityIndex authority => SetCodeAuthorityIndexKeyPrefix authority
  | SSetCodeBlockIndex blockNumber => SetCodeBlockIndexKeyPrefix blockNumber
  | SSetCodeBlockIndexAll => SetCodeBlockIndexAllPrefix
  | SSetCodeTxIndex txHash => SetCodeTxIndexKeyPrefix txHash
  | STokenHolder token => TokenHolderKeyPrefix token
  | STokenHolderByTokenIndex token => TokenHolderByTokenIndexPrefix token
  | STokenHolderByHolderIndex holder => TokenHolderByHolderIndexPrefix holder
  | SModule account => ModuleKeyPrefix account
  | SModuleAll => ModuleAllPrefix
  | SModuleStats => ModuleStatsKeyPrefix
  | SModuleAccountIndex account => ModuleAccountIndexKeyPrefix account
  | SModuleTypeIndex moduleType => ModuleTypeIndexKeyPrefix moduleType
  | SModuleBlockIndex blockNumber => ModuleBlockIndexKeyPrefix blockNumber
  | SModuleBlockIndexAll => ModuleBlockIndexAllPrefix
  | SUserOp => UserOpKeyPrefix
  | SBundlerStats => BundlerStatsKeyPrefix
  | SFactoryStats => FactoryStatsKeyPrefix
  | SPaymasterStats => PaymasterStatsKeyPrefix
  | SSmartAccount => SmartAccountKeyPrefix
  | SUserOpSenderIndex sender => UserOpSenderIndexKeyPrefix sender
  | SUserOpBundlerIndex bundler => UserOpBundlerIndexKeyPrefix bundler
  | SUserOpPaymasterIndex paymaster => UserOpPaymasterIndexKeyPrefix paymaster
  | SUserOpFactoryIndex factory => UserOpFactoryIndexKeyPrefix factory
  | SUserOpBlockIndex blockNumber => UserOpBlockIndexKeyPrefix blockNumber
  | SUserOpBlockIndexAll => UserOpBlockIndexAllPrefix
  | SUserOpTxIndex txHash => UserOpTxIndexKeyPrefix txHash
  end.

Definition scan_path (s : scan) : list bytes :=
  match s with
  | SAddressTransaction addr => [lit "index"; lit "addr"; Address_Hex addr]
  | SBlockTimestamp => [lit "index"; lit "time"]
  | SAddressBalance addr => [lit "index"; lit "balance"; Address_Hex addr; lit "history"]
| SMaxProposalsUpdateEvent contract => [lit "data"; lit "syscontracts"; lit
      "maxproposals"; Address_Hex contract]
| SProposalExecutionSkippedEvent contract => [lit "data"; lit "syscontracts"; lit
      "proposalskipped"; Address_Hex contract]
| SAuthorizedAccountEvent contract => [lit "data"; lit "syscontracts"; lit
      "authorizedaccounts"; Address_Hex contract]
  | SMintEvent => [lit "data"; lit "syscontracts"; lit "mint"]
  | SBurnEvent => [lit "data"; lit "syscontracts"; lit "burn"]
| SMinterConfigEvent minter => [lit "data"; lit "syscontracts"; lit "minterconfig";
      Address_Hex minter]
| SValidatorChangeEvent validator => [lit "data"; lit "syscontracts"; lit "validator";
      Address_Hex validator]
| SProposal contract => [lit "data"; lit "syscontracts"; lit "proposal"; Address_Hex
      contract]
| SProposalVote contract proposalId => [lit "data"; lit "syscontracts"; lit "vote";
      Address_Hex contract; proposalId]
| SBlacklistEvent address => [lit "data"; lit "syscontracts"; lit "blacklist"; Address_Hex
      address]
| SMemberChangeEvent contract => [lit "data"; lit "syscontracts"; lit "member";
      Address_Hex contract]
  | SGasTipUpdateEvent => [lit "data"; lit "syscontracts"; lit "gastip"]
| SEmergencyPauseEvent contract => [lit "data"; lit "syscontracts"; lit "emergency";
      Address_Hex contract]
| SMintMinterIndex minter => [lit "index"; lit "syscontracts"; lit "mint_minter";
      Address_Hex minter]
| SBurnBurnerIndex burner => [lit "index"; lit "syscontracts"; lit "burn_burner";
      Address_Hex burner]
| SProposalStatusIndex contract status => [lit "index"; lit "syscontracts"; lit
      "proposal_status"; Address_Hex contract; fmt_d status]
  | SBlacklistActiveIndex => [lit "index"; lit "syscontracts"; lit "blacklist_active"]
  | SMinterActiveIndex => [lit "index"; lit "syscontracts"; lit "minter_active"]
  | SValidatorActiveIndex => [lit "index"; lit "syscontracts"; lit "validator_active"]
  | SWBFTBlockExtra => [lit "data"; lit "wbft"; lit "extra"]
  | SWBFTEpoch => [lit "data"; lit "wbft"; lit "epoch"]
| SWBFTValidatorStats validator => [lit "data"; lit "wbft"; lit "validator"; lit "stats";
      Address_Hex validator]
| SWBFTValidatorActivity validator => [lit "data"; lit "wbft"; lit "validator"; lit
      "activity"; Address_Hex validator]
  | SWBFTValidatorActivityAll => [lit "data"; lit "wbft"; lit "validator"; lit "activity"]
| SWBFTSignerPrepareIndex blockNumber => [lit "index"; lit "wbft"; lit "signers"; lit
      "prepare"; fmt_0d 20 blockNumber]
| SWBFTSignerCommitIndex blockNumber => [lit "index"; lit "wbft"; lit "signers"; lit
      "commit"; fmt_0d 20 blockNumber]
| SContractCreatorIndex creator => [lit "index"; lit "contract"; lit "creator";
      Address_Hex creator]
  | SInternalTransaction txHash => [lit "data"; lit "internal"; Hash_Hex txHash]
  | SInternalTxFromIndex from => [lit "index"; lit "internal"; lit "from"; Address_Hex from]
  | SInternalTxToIndex to => [lit "index"; lit "internal"; lit "to"; Address_Hex to]
| SERC20TokenIndex tokenAddress => [lit "index"; lit "erc20"; lit "token"; Address_Hex
      tokenAddress]
  | SERC20FromIndex from => [lit "index"; lit "erc20"; lit "from"; Address_Hex from]
  | SERC20ToIndex to => [lit "index"; lit "erc20"; lit "to"; Address_Hex to]
| SERC721TokenIndex tokenAddress => [lit "index"; lit "erc721"; lit "token"; Address_Hex
      tokenAddress]
  | SERC721FromIndex from => [lit "index"; lit "erc721"; lit "from"; Address_Hex from]
  | SERC721ToIndex to => [lit "index"; lit "erc721"; lit "to"; Address_Hex to]
  | SERC721OwnerIndex owner => [lit "index"; lit "erc721"; lit "owner"; Address_Hex owner]
  | SLog => [lit "data"; lit "logs"]
  | SLogBlock blockNumber => [lit "data"; lit "logs"; fmt_0d 20 blockNumber]
  | SLogAddressIndex address => [lit "index"; lit "logs"; lit "addr"; Address_Hex address]
  | SLogTopic0Index topic => [lit "index"; lit "logs"; lit "topic0"; Hash_Hex topic]
  | SLogTopic1Index topic => [lit "index"; lit "logs"; lit "topic1"; Hash_Hex topic]
  | SLogTopic2Index topic => [lit "index"; lit "logs"; lit "topic2"; Hash_Hex topic]
  | SLogTopic3Index topic => [lit "index"; lit "logs"; lit "topic3"; Hash_Hex topic]
| SLogBlockIndex blockNumber => [lit "index"; lit "logs"; lit "block"; fmt_0d 20
      blockNumber]
| SLogBlockRangeIndex fromBlock => [lit "index"; lit "logs"; lit "block"; fmt_0d 20
      fromBlock]
  | SABI => [lit "data"; lit "abi"]
  | SContractVerification => [lit "data"; lit "verification"]
  | SVerifiedContractIndex => [lit "index"; lit "verification"; lit "verified"]
| SFeeDelegationPayer feePayer => [lit "index"; lit "feedelegation"; lit "payer";
      Address_Hex feePayer]
  | SNotificationSetting => [lit "data"; lit "notification"; lit "setting"]
  | SNotification => [lit "data"; lit "notification"; lit "notif"]
| SNotificationHistory notificationID => [lit "data"; lit "notification"; lit "history";
      notificationID]
| SNotificationStatusIndex status => [lit "index"; lit "notification"; lit "status";
      status]
| SNotificationSettingIndex settingID => [lit "index"; lit "notification"; lit "setting";
      settingID]
  | SNotificationPendingIndex => [lit "index"; lit "notification"; lit "pending"]
  | STokenMetadata => [lit "data"; lit "token"; lit "metadata"]
  | STokenStandardIndex standard => [lit "index"; lit "token"; lit "standard"; standard]
  | STokenSymbolIndex symbol => [lit "index"; lit "token"; lit "symbol"; ToLower symbol]
  | STokenNameIndex name => [lit "index"; lit "token"; lit "name"; ToLower name]
  | STokenSearchIndex => [lit "index"; lit "token"; lit "name"]
  | SSetCodeAuthorization txHash => [lit "data"; lit "setcode"; lit "auth"; Hash_Hex txHash]
  | SSetCodeAuth => [lit "data"; lit "setcode"; lit "auth"]
  | SSetCodeDelegationState => [lit "data"; lit "setcode"; lit "delegation"]
  | SSetCodeStats => [lit "data"; lit "setcode"; lit "stats"]
| SSetCodeTargetIndex target => [lit "index"; lit "setcode"; lit "target"; Address_Hex
      target]
| SSetCodeAuthorityIndex authority => [lit "index"; lit "setcode"; lit "authority";
      Address_Hex authority]
| SSetCodeBlockIndex blockNumber => [lit "index"; lit "setcode"; lit "block"; fmt_0x 16
      blockNumber]
  | SSetCodeBlockIndexAll => [lit "index"; lit "setcode"; lit "block"]
  | SSetCodeTxIndex txHash => [lit "index"; lit "setcode"; lit "tx"; Hash_Hex txHash]
  | STokenHolder token => [lit "data"; lit "token"; lit "holder"; Address_Hex token]
| STokenHolderByTokenIndex token => [lit "index"; lit "token"; lit "holder"; lit "token";
      Address_Hex token]
| STokenHolderByHolderIndex holder => [lit "index"; lit "token"; lit "holder"; lit
      "holder"; Address_Hex holder]
  | SModule account => [lit "data"; lit "module"; Address_Hex account]
  | SModuleAll => [lit "data"; lit "module"]
  | SModuleStats => [lit "data"; lit "module"; lit "stats"]
| SModuleAccountIndex account => [lit "index"; lit "module"; lit "account"; Address_Hex
      account]
| SModuleTypeIndex moduleType => [lit "index"; lit "module"; lit "type"; fmt_0x 2
      moduleType]
| SModuleBlockIndex blockNumber => [lit "index"; lit "module"; lit "block"; fmt_0x 16
      blockNumber]
  | SModuleBlockIndexAll => [lit "index"; lit "module"; lit "block"]
  | SUserOp => [lit "data"; lit "userop"]
  | SBundlerStats => [lit "data"; lit "bundler"; lit "stats"]
  | SFactoryStats => [lit "data"; lit "factory"; lit "stats"]
  | SPaymasterStats => [lit "data"; lit "paymaster"; lit "stats"]
  | SSmartAccount => [lit "data"; lit "smartaccount"]
| SUserOpSenderIndex sender => [lit "index"; lit "userop"; lit "sender"; Address_Hex
      sender]
| SUserOpBundlerIndex bundler => [lit "index"; lit "userop"; lit "bundler"; Address_Hex
      bundler]
| SUserOpPaymasterIndex paymaster => [lit "index"; lit "userop"; lit "paymaster";
      Address_Hex paymaster]
| SUserOpFactoryIndex factory => [lit "index"; lit "userop"; lit "factory"; Address_Hex
      factory]
| SUserOpBlockIndex blockNumber => [lit "index"; lit "userop"; lit "block"; fmt_0x 16
      blockNumber]
  | SUserOpBlockIndexAll => [lit "index"; lit "userop"; lit "block"]
  | SUserOpTxIndex txHash => [lit "index"; lit "userop"; lit "tx"; Hash_Hex txHash]
  end.

Definition scan_wf (s : scan) : Prop :=
  match s with
  | SProposalVote _ proposalId => no_slash proposalId
  | SNotificationHistory notificationID => no_slash notificationID
  | SNotificationStatusIndex status => no_slash status
  | SNotificationSettingIndex settingID => no_slash settingID
  | STokenStandardIndex standard => no_slash standard
  | STokenSymbolIndex symbol => no_slash symbol /\ ToLower symbol = symbol
  | STokenNameIndex name => no_slash name /\ ToLower name = name
  | _ => True
  end.

(** The keys each scan returns: those of one family that have the arguments it is given.
    That is what the comments of schema.go promise but for three prefixes, of which the
    table records what they do ([misnamed_prefixes] states the difference):
    [ModuleAllPrefix], for "all module data", has the statistics too;
    [TokenSearchIndexKeyPrefix], for "name + symbol combined", has the names only; and
    [LogBlockRangeIndexKeyPrefix], for "logs in a block range", has one block only. *)
Definition selects (s : scan) (k : dbkey) : Prop :=
  match s with
  | SAddressTransaction addr =>
      match k with KAddressTransaction addr' _ => addr' = addr | _ => False end
  | SBlockTimestamp =>
      match k with KBlockTimestamp _ _ => True | _ => False end
  | SAddressBalance addr =>
      match k with KAddressBalance addr' _ => addr' = addr | _ => False end
  | SMaxProposalsUpdateEvent contract =>
      match k with KMaxProposalsUpdateEvent contract' _ _ => contract' = contract | _ => False end
  | SProposalExecutionSkippedEvent contract =>
      match k with KProposalExecutionSkippedEvent contract' _ _ => contract' = contract | _ => False end
  | SAuthorizedAccountEvent contract =>
      match k with KAuthorizedAccountEvent contract' _ _ => contract' = contract | _ => False end
  | SMintEvent =>
      match k with KMintEvent _ _ _ => True | _ => False end
  | SBurnEvent =>
      match k with KBurnEvent _ _ _ => True | _ => False end
  | SMinterConfigEvent minter =>
      match k with KMinterConfigEvent minter' _ => minter' = minter | _ => False end
  | SValidatorChangeEvent validator =>
      match k with KValidatorChangeEvent validator' _ => validator' = validator | _ => False end
  | SProposal contract =>
      match k with KProposal contract' _ => contract' = contract | _ => False end
  | SProposalVote contract proposalId =>
      match k with KProposalVote contract' proposalId' _ => contract' = contract /\ proposalId' = proposalId | _ => False end
  | SBlacklistEvent address =>
      match k with KBlacklistEvent address' _ => address' = address | _ => False end
  | SMemberChangeEvent contract =>
      match k with KMemberChangeEvent contract' _ _ => contract' = contract | _ => False end
  | SGasTipUpdateEvent =>
      match k with KGasTipUpdateEvent _ _ => True | _ => False end
  | SEmergencyPauseEvent contract =>
      match k with KEmergencyPauseEvent contract' _ _ => contract' = contract | _ => False end
  | SMintMinterIndex minter =>
      match k with KMintMinterIndex minter' _ => minter' = minter | _ => False end
  | SBurnBurnerIndex burner =>
      match k with KBurnBurnerIndex burner' _ => burner' = burner | _ => False end
  | SProposalStatusIndex contract status =>
      match k with KProposalStatusIndex contract' status' _ => contract' = contract /\ status' = status | _ => False end
  | SBlacklistActiveIndex =>
      match k with KBlacklistActiveIndex _ => True | _ => False end
  | SMinterActiveIndex =>
      match k with KMinterActiveIndex _ => True | _ => False end
  | SValidatorActiveIndex =>
      match k with KValidatorActiveIndex _ => True | _ => False end
  | SWBFTBlockExtra =>
      match k with KWBFTBlockExtra _ => True | _ => False end
  | SWBFTEpoch =>
      match k with KWBFTEpoch _ => True | _ => False end
  | SWBFTValidatorStats validator =>
      match k with KWBFTValidatorStats validator' _ _ => validator' = validator | _ => False end
  | SWBFTValidatorActivity validator =>
      match k with KWBFTValidatorActivity validator' _ => validator' = validator | _ => False end
  | SWBFTValidatorActivityAll =>
      match k with KWBFTValidatorActivity _ _ => True | _ => False end
  | SWBFTSignerPrepareIndex blockNumber =>
      match k with KWBFTSignerPrepareIndex blockNumber' _ => blockNumber' = blockNumber | _ => False end
  | SWBFTSignerCommitIndex blockNumber =>
      match k with KWBFTSignerCommitIndex blockNumber' _ => blockNumber' = blockNumber | _ => False end
  | SContractCreatorIndex creator =>
      match k with KContractCreatorIndex creator' _ _ => creator' = creator | _ => False end
  | SInternalTransaction txHash =>
      match k with KInternalTransaction txHash' _ => txHash' = txHash | _ => False end
  | SInternalTxFromIndex from =>
      match k with KInternalTxFromIndex from' _ _ => from' = from | _ => False end
  | SInternalTxToIndex to =>
      match k with KInternalTxToIndex to' _ _ => to' = to | _ => False end
  | SERC20TokenIndex tokenAddress =>
      match k with KERC20TokenIndex tokenAddress' _ _ => tokenAddress' = tokenAddress | _ => False end
  | SERC20FromIndex from =>
      match k with KERC20FromIndex from' _ _ => from' = from | _ => False end
  | SERC20ToIndex to =>
      match k with KERC20ToIndex to' _ _ => to' = to | _ => False end
  | SERC721TokenIndex tokenAddress =>
      match k with KERC721TokenIndex tokenAddress' _ _ => tokenAddress' = tokenAddress | _ => False end
  | SERC721FromIndex from =>
      match k with KERC721FromIndex from' _ _ => from' = from | _ => False end
  | SERC721ToIndex to =>
      match k with KERC721ToIndex to' _ _ => to' = to | _ => False end
  | SERC721OwnerIndex owner =>
      match k with KERC721OwnerIndex owner' _ _ => owner' = owner | _ => False end
  | SLog =>
      match k with KLog _ _ _ => True | _ => False end
  | SLogBlock blockNumber =>
      match k with KLog blockNumber' _ _ => blockNumber' = blockNumber | _ => False end
  | SLogAddressIndex address =>
      match k with KLogAddressIndex address' _ _ _ => address' = address | _ => False end
  | SLogTopic0Index topic =>
      match k with KLogTopic0Index topic' _ _ _ => topic' = topic | _ => False end
  | SLogTopic1Index topic =>
      match k with KLogTopic1Index topic' _ _ _ => topic' = topic | _ => False end
  | SLogTopic2Index topic =>
      match k with KLogTopic2Index topic' _ _ _ => topic' = topic | _ => False end
  | SLogTopic3Index topic =>
      match k with KLogTopic3Index topic' _ _ _ => topic' = topic | _ => False end
  | SLogBlockIndex blockNumber =>
      match k with KLogBlockIndex blockNumber' _ _ => blockNumber' = blockNumber | _ => False end
  | SLogBlockRangeIndex fromBlock =>
      match k with KLogBlockIndex blockNumber' _ _ => blockNumber' = fromBlock | _ => False end
  | SABI =>
      match k with KABI _ => True | _ => False end
  | SContractVerification =>
      match k with KContractVerification _ => True | _ => False end
  | SVerifiedContractIndex =>
      match k with KVerifiedContractIndex _ _ => True | _ => False end
  | SFeeDelegationPayer feePayer =>
      match k with KFeeDelegationPayerIndex feePayer' _ _ => feePayer' = feePayer | _ => False end
  | SNotificationSetting =>
      match k with KNotificationSetting _ => True | _ => False end
  | SNotification =>
      match k with KNotification _ => True | _ => False end
  | SNotificationHistory notificationID =>
      match k with KNotificationHistory notificationID' _ => notificationID' = notificationID | _ => False end
  | SNotificationStatusIndex status =>
      match k with KNotificationStatusIndex status' _ _ => status' = status | _ => False end
  | SNotificationSettingIndex settingID =>
      match k with KNotificationSettingIndex settingID' _ _ => settingID' = settingID | _ => False end
  | SNotificationPendingIndex =>
      match k with KNotificationPendingIndex _ _ => True | _ => False end
  | STokenMetadata =>
      match k with KTokenMetadata _ => True | _ => False end
  | STokenStandardIndex standard =>
      match k with KTokenStandardIndex standard' _ => standard' = standard | _ => False end
  | STokenSymbolIndex symbol =>
      match k with KTokenSymbolIndex symbol' _ => symbol' = symbol | _ => False end
  | STokenNameIndex name =>
      match k with KTokenNameIndex name' _ => name' = name | _ => False end
  | STokenSearchIndex =>
      match k with KTokenNameIndex _ _ => True | _ => False end
  | SSetCodeAuthorization txHash =>
      match k with KSetCodeAuthorization txHash' _ => txHash' = txHash | _ => False end
  | SSetCodeAuth =>
      match k with KSetCodeAuthorization _ _ => True | _ => False end
  | SSetCodeDelegationState =>
      match k with KSetCodeDelegationState _ => True | _ => False end
  | SSetCodeStats =>
      match k with KSetCodeStats _ => True | _ => False end
  | SSetCodeTargetIndex target =>
      match k with KSetCodeTargetIndex target' _ _ _ => target' = target | _ => False end
  | SSetCodeAuthorityIndex authority =>
      match k with KSetCodeAuthorityIndex authority' _ _ _ => authority' = authority | _ => False end
  | SSetCodeBlockIndex blockNumber =>
      match k with KSetCodeBlockIndex blockNumber' _ _ => blockNumber' = blockNumber | _ => False end
  | SSetCodeBlockIndexAll =>
      match k with KSetCodeBlockIndex _ _ _ => True | _ => False end
  | SSetCodeTxIndex txHash =>
      match k with KSetCodeTxIndex txHash' _ => txHash' = txHash | _ => False end
  | STokenHolder token =>
      match k with KTokenHolder token' _ => token' = token | _ => False end
  | STokenHolderByTokenIndex token =>
      match k with KTokenHolderByTokenIndex token' _ _ => token' = token | _ => False end
  | STokenHolderByHolderIndex holder =>
      match k with KTokenHolderByHolderIndex holder' _ => holder' = holder | _ => False end
  | SModule account =>
      match k with KModule account' _ => account' = account | _ => False end
  | SModuleAll =>
      match k with KModule _ _ => True | KModuleStats _ => True | _ => False end
  | SModuleStats =>
      match k with KModuleStats _ => True | _ => False end
  | SModuleAccountIndex account =>
      match k with KModuleAccountIndex account' _ _ => account' = account | _ => False end
  | SModuleTypeIndex moduleType =>
      match k with KModuleTypeIndex moduleType' _ _ _ => moduleType' = moduleType | _ => False end
  | SModuleBlockIndex blockNumber =>
      match k with KModuleBlockIndex blockNumber' _ _ => blockNumber' = blockNumber | _ => False end
  | SModuleBlockIndexAll =>
      match k with KModuleBlockIndex _ _ _ => True | _ => False end
  | SUserOp =>
      match k with KUserOp _ => True | _ => False end
  | SBundlerStats =>
      match k with KBundlerStats _ => True | _ => False end
  | SFactoryStats =>
      match k with KFactoryStats _ => True | _ => False end
  | SPaymasterStats =>
      match k with KPaymasterStats _ => True | _ => False end
  | SSmartAccount =>
      match k with KSmartAccount _ => True | _ => False end
  | SUserOpSenderIndex sender =>
      match k with KUserOpSenderIndex sender' _ _ => sender' = sender | _ => False end
  | SUserOpBundlerIndex bundler =>
      match k with KUserOpBundlerIndex bundler' _ _ => bundler' = bundler | _ => False end
  | SUserOpPaymasterIndex paymaster =>
      match k with KUserOpPaymasterIndex paymaster' _ _ => paymaster' = paymaster | _ => False end
  | SUserOpFactoryIndex factory =>
      match k with KUserOpFactoryIndex factory' _ _ => factory' = factory | _ => False end
  | SUserOpBlockIndex blockNumber =>
      match k with KUserOpBlockIndex blockNumber' _ => blockNumber' = blockNumber | _ => False end
  | SUserOpBlockIndexAll =>
      match k with KUserOpBlockIndex _ _ => True | _ => False end
  | SUserOpTxIndex txHash =>
      match k with KUserOpTxIndex txHash' _ => txHash' = txHash | _ => False end
  end.

(** A path followed by a slash. *)
Fixpoint render_dir (q : list bytes) : bytes :=
  slash :: match q with [] => [] | s :: q' => s ++ render_dir q' end.

Fixpoint strictly_below (q p : list bytes) : Prop :=
  match q, p with
  | [], _ :: _ => True
  | t :: q', s :: p' => s = t /\ strictly_below q' p'
  | _, [] => False
  end.

Lemma HasPrefix_render_dir p q : Forall no_slash p -> Forall no_slash q ->
  HasPrefix (render p) (render_dir q) = true <-> strictly_below q p.
Proof.
  intros Hp Hq. revert p Hp. induction Hq as [|t q Ht Hq IH]; intros p Hp.
  { rewrite HasPrefix_spec. destruct p as [|s [|s1 p]]; cbn.
    - split; [by intros [? ?] | done].
    - split; eauto.
    - split; eauto. }
  destruct Hp as [|s p Hs Hp]; [by cbn|].
  destruct p as [|s' p].
  - split; [|by destruct q; intros [_ []]].
    intros [r Er]%HasPrefix_spec. cbn in Er. injection Er as ->.
    destruct Hs. destruct q; rewrite <- app_assoc; apply elem_of_app; right; left.
  - change (render (s :: s' :: p)) with (slash :: s ++ render (s' :: p)).
    change (render_dir (t :: q)) with (slash :: t ++ render_dir q).
    change (strictly_below (t :: q) (s :: s' :: p))
      with (s = t /\ strictly_below q (s' :: p)).
    rewrite <- (IH (s' :: p)) by done. cbn [HasPrefix].
    rewrite bool_decide_eq_true_2 by done. cbn [andb]. rewrite !HasPrefix_spec.
    assert (exists x y, render (s' :: p) = slash :: x /\ render_dir q = slash :: y)
      as (x & y & -> & ->) by (destruct p, q; cbn; eauto).
    split.
    + intros [r Er]. rewrite <- app_assoc in Er. cbn in Er.
      apply slash_app_inj in Er as [-> ->]; [|done..]. eauto.
    + intros [-> [r Er]]. exists r. by rewrite Er, <- app_assoc.
Qed.

Lemma scan_prefix_path s : scan_prefix s = render_dir (scan_path s).
Proof. destruct s; reflexivity. Qed.

Lemma scan_path_no_slash s : EthHexLaws E -> scan_wf s -> Forall no_slash (scan_path s).
Proof.
  intros HE Hwf. destruct s; cbn in Hwf; destruct_and?; cbn [scan_path];
    repeat first [apply Forall_nil_2 | apply Forall_cons_2];
    try match goal with H : ToLower _ = _ |- _ => rewrite ?H end; auto with go.
Qed.

Lemma address_not_lit a t : EthHexLaws E -> HasPrefix t (lit "0x") = false ->
  Address_Hex a <> t.
Proof. intros HE Ht <-. by rewrite Address_Hex_0x in Ht. Qed.

Ltac refute_segment :=
  match goal with
  | H : lit _ = lit _ |- _ => discriminate H
  | HE : EthHexLaws _, H : Address_Hex _ = lit _ |- _ =>
      refine (address_not_lit _ _ HE _ H); reflexivity
  | HE : EthHexLaws _, H : lit _ = Address_Hex _ |- _ =>
      refine (address_not_lit _ _ HE _ (eq_sym H)); reflexivity
  end.

Lemma below_selects s k : EthHexLaws E -> scan_wf s -> wf k ->
  strictly_below (scan_path s) (path k) <-> selects s k.
Proof.
  intros HE Hs Hk. destruct s; destruct k;
    cbn [strictly_below scan_path path selects];
    first
      [ split; [|intros []]; intros H;
        repeat match type of H with _ /\ _ => destruct H as [? H] end;
        exfalso; first [exact H | refute_segment]
      | cbn [scan_wf wf] in Hs, Hk; destruct_and?;
        repeat match goal with
          | H : ToLower ?x = ?x |- context [ToLower ?x] => rewrite H; clear H
          end;
        split; intros Hsel; destruct_and?; repeat field_inj; subst; auto 10 ].
Qed.

(** * Byte order of the index keys *)

Lemma bytes_ltb_app_r p a b s t : p = a -> bytes_ltb b (s ++ t) = true ->
  bytes_ltb (p ++ b) (a ++ s ++ t) = true.
Proof. intros -> H. by rewrite bytes_ltb_app. Qed.

(** Numbers that fit six digits, the width of log and transaction indexes. *)
Definition fits6 (z : Z) : Prop := 0 <= z < 10 ^ 6.

Lemma u64_fits20 z : is_u64 z -> 0 <= z < 10 ^ Z.of_nat 20.
Proof. unfold is_u64, two64. intros H. change (10 ^ Z.of_nat 20) with 100000000000000000000. lia. Qed.

(** The order in which a chain produces logs. *)
Definition log_before (l1 l2 : Z * Z * Z) : Prop :=
  let '(b1, t1, i1) := l1 in let '(b2, t2, i2) := l2 in
  b1 < b2 \/ (b1 = b2 /\ (t1 < t2 \/ (t1 = t2 /\ i1 < i2))).

Lemma same_key (HE : EthHexLaws E) k1 k2 :
  wf k1 -> wf k2 -> encode k1 = encode k2 -> k1 = k2.
Proof.
  intros H1 H2 Eq. rewrite !encode_path in Eq.
  apply path_inj; [done..|]. apply render_inj; auto using path_no_slash.
Qed.

(** * Properties *)

(** C7: the key space is unambiguous. For every pair of distinct well-formed logical
    keys, across all 108 families, the bytes differ: no record or index entry can
    overwrite another or be read as another. *)
Theorem encode_inj (HE : EthHexLaws E) k1 k2 :
  wf k1 -> wf k2 -> k1 <> k2 -> encode k1 <> encode k2.
Proof. intros H1 H2 Hne Eq. by apply Hne, same_key. Qed.

(** C8: prefix scans are exact. A key lies in the range scanned with the prefix [s]
    exactly when the [selects] table lists it: the keys of one family with the arguments
    the prefix is given. Where that is not what the comment on a prefix function says the
    table follows the code: [ModuleAllPrefix] also returns the module statistics,
    [TokenSearchIndexKeyPrefix] returns names and no symbols, and
    [LogBlockRangeIndexKeyPrefix] returns one block and no range. *)
Theorem scan_exact (HE : EthHexLaws E) s k :
  scan_wf s -> wf k -> HasPrefix (encode k) (scan_prefix s) = true <-> selects s k.
Proof.
  intros Hs Hk. rewrite encode_path, scan_prefix_path, HasPrefix_render_dir
    by auto using path_no_slash, scan_path_no_slash.
  by apply below_selects.
Qed.

(** Three prefixes do not select what their comments say. Below [ModuleAllPrefix] lie the
    statistics of a module; no symbol of a token lies below [TokenSearchIndexKeyPrefix],
    "all token search indexes (name + symbol combined)"; and no log of a later block lies
    below [LogBlockRangeIndexKeyPrefix], "the prefix for logs in a block range". *)
Lemma misnamed_prefixes (HE : EthHexLaws E) module_ symbol token from b t i :
  HasPrefix (ModuleStatsKey module_) ModuleAllPrefix = true /\
  HasPrefix (TokenSymbolIndexKey symbol token) TokenSearchIndexKeyPrefix = false /\
  (b <> from -> HasPrefix (LogBlockIndexKey b t i) (LogBlockRangeIndexKeyPrefix from) = false).
Proof.
  split_and!; [reflexivity | reflexivity |]. intros Hne. apply not_true_iff_false.
  change (HasPrefix (encode (KLogBlockIndex b t i)) (scan_prefix (SLogBlockRangeIndex from))
            <> true).
  rewrite encode_path, scan_prefix_path, HasPrefix_render_dir
    by (apply path_no_slash || apply scan_path_no_slash; done).
  by rewrite below_selects.
Qed.

(** A block key parses back to its height and a transaction key to its height
    and index, for every pair of 64-bit numbers. *)
Theorem parse_keys height txIndex (Hh : is_u64 height) (Ht : is_u64 txIndex) :
  ParseBlockKey (BlockKey height) = Ok height /\
  ParseTransactionKey (TransactionKey height txIndex) = Ok (height, txIndex).
Proof.
  unfold ParseBlockKey, BlockKey, ParseTransactionKey, TransactionKey.
  rewrite !HasPrefix_app, !TrimPrefix_app. cbn [negb]. split.
  - rewrite ParseUint_fmt_d by done. rewrite bool_decide_eq_false_2; [done|].
    unfold fmt_d, fmt_int. case_match; [done|]. apply fmt_nat_nonempty.
  - change (lit "/" ++ fmt_d txIndex) with (slash :: fmt_d txIndex).
    rewrite Split_slash_app, Split_slash_seg by auto with go.
    by rewrite !ParseUint_fmt_d by done.
Qed.

(** C39: address-index entries iterate in sequence order, log keys (the primary record
    and the address and topic indexes) in the order of the chain, block, then
    transaction, then log, and the token-holder index lists the larger of two 256-bit
    balances first, whatever the holders are. *)
Theorem index_keys_ordered addr topic s1 s2 b1 t1 i1 b2 t2 i2 token h1 h2 v1 v2 :
  is_u64 s1 -> is_u64 s2 -> is_u64 b1 -> is_u64 b2 ->
  fits6 t1 -> fits6 t2 -> fits6 i1 -> fits6 i2 ->
  (s1 < s2 -> bytes_ltb (AddressTransactionKey addr s1) (AddressTransactionKey addr s2) = true) /\
  (log_before (b1, t1, i1) (b2, t2, i2) ->
     bytes_ltb (LogKey b1 t1 i1) (LogKey b2 t2 i2) = true /\
     bytes_ltb (LogAddressIndexKey addr b1 t1 i1) (LogAddressIndexKey addr b2 t2 i2) = true /\
     bytes_ltb (LogTopic0IndexKey topic b1 t1 i1) (LogTopic0IndexKey topic b2 t2 i2) = true) /\
  (0 <= v1 < v2 -> v2 < 2 ^ 256 ->
     bytes_ltb (TokenHolderByTokenIndexKey token h2 v2)
               (TokenHolderByTokenIndexKey token h1 v1) = true).
Proof.
  intros Hs1 Hs2 Hb1 Hb2 Ht1 Ht2 Hi1 Hi2.
  apply u64_fits20 in Hs1, Hs2, Hb1, Hb2. split; [|split].
  - intros Hlt. unfold AddressTransactionKey. rewrite !bytes_ltb_app.
    rewrite <- (app_nil_r (fmt_0d 20 s1)), <- (app_nil_r (fmt_0d 20 s2)).
    apply fmt_0d_ltb; lia.
  - intros Hbef.
    assert (Hcore : bytes_ltb
      (fmt_0d 20 b1 ++ lit "/" ++ fmt_0d 6 t1 ++ lit "/" ++ fmt_0d 6 i1)
      (fmt_0d 20 b2 ++ lit "/" ++ fmt_0d 6 t2 ++ lit "/" ++ fmt_0d 6 i2) = true).
    { unfold fits6 in *. destruct Hbef as [?|[-> [?|[-> ?]]]].
      - apply fmt_0d_ltb; lia.
      - rewrite !bytes_ltb_app. apply fmt_0d_ltb; lia.
      - rewrite !bytes_ltb_app.
        rewrite <- (app_nil_r (fmt_0d 6 i1)), <- (app_nil_r (fmt_0d 6 i2)).
        apply fmt_0d_ltb; lia. }
    unfold LogKey, LogAddressIndexKey, LogTopic0IndexKey.
    by rewrite !bytes_ltb_app.
  - intros H1 H2. unfold TokenHolderByTokenIndexKey. rewrite !bytes_ltb_app.
    change (Z.shiftl 1 256) with (2 ^ 256). apply fmt_0x_ltb; [lia|lia|].
    change (16 ^ Z.of_nat 64) with (2 ^ 256). lia.
Qed.

(** Every chain-scoped key is the unscoped key below its chain's prefix, and
    [ParseChainKey] splits it back into the chain id and that key. *)
Theorem chain_keys_scoped id addr topic hash h i seq b t l (Hid : no_slash id) :
  (forall k, In k
     [ (ChainLatestHeightKey id, LatestHeightKey);
       (ChainBlockKey id h, BlockKey h);
       (ChainTransactionKey id h i, TransactionKey h i);
       (ChainReceiptKey id hash, ReceiptKey hash);
       (ChainLogKey id b t l, LogKey b t l);
       (ChainTxHashIndexKey id hash, TransactionHashIndexKey hash);
       (ChainBlockHashIndexKey id hash, BlockHashIndexKey hash);
       (ChainAddressTransactionKey id addr seq, AddressTransactionKey addr seq);
       (ChainBlockCountKey id, BlockCountKey);
       (ChainTransactionCountKey id, TransactionCountKey);
       (ChainBlockKeyPrefix id, prefixBlocks);
       (ChainLogKeyPrefix id, LogKeyPrefix);
       (ChainAddressIndexKeyPrefix id addr, AddressTransactionKeyPrefix addr);
       (ChainLogAddressIndexKey id addr b t l, LogAddressIndexKey addr b t l);
       (ChainLogAddressIndexKeyPrefix id addr, LogAddressIndexKeyPrefix addr);
       (ChainLogTopic0IndexKey id topic b t l, LogTopic0IndexKey topic b t l);
       (ChainLogTopic0IndexKeyPrefix id topic, LogTopic0IndexKeyPrefix topic);
       (ChainERC20TransferKey id hash l, ERC20TransferKey hash l);
       (ChainERC721TransferKey id hash l, ERC721TransferKey hash l) ] ->
     fst k = ChainPrefix id ++ snd k /\ IsChainKey (fst k) = true /\
     HasPrefix (fst k) (ChainKeyPrefix id) = true /\
     ParseChainKey (fst k) = Ok (id, snd k)).
Proof.
  intros [ck k] Hin. cbn [fst snd].
  assert (exists r, k = slash :: r /\ ck = prefixChain ++ id ++ slash :: r) as (r & -> & ->).
  { cbn [In] in Hin.
    repeat (destruct Hin as [[= <- <-]|Hin]; [eexists; split; reflexivity|]). done. }
  unfold ChainPrefix, IsChainKey, ParseChainKey, ChainKeyPrefix.
  rewrite HasPrefix_app, TrimPrefix_app. cbn [negb].
  split_and!; [by rewrite <- app_assoc | done | |].
  - apply HasPrefix_spec. exists r. unfold ChainPrefix. by rewrite <- !app_assoc.
  - rewrite Index_slash_app by done. by rewrite take_app_length, drop_app_length.
Qed.

(** Block keys are not fixed-width, so the range [BlockKeyRange] returns as
    [start, end) is not a range of the database order: from height 9 to height 10
    its lower bound is above its upper bound, and the order of two block keys is
    not the order of their heights. *)
Theorem block_key_range_inverted :
  (let '(start, end_) := BlockKeyRange 9 10 in bytes_ltb end_ start = true) /\
  bytes_ltb (BlockKey 10) (BlockKey 9) = true /\
  (let '(start, end_) := BlockKeyRange 0 (two64 - 1) in start = end_).
Proof. vm_compute. auto. Qed.
End KeySpace.

(** * The theorems at concrete keys *)

(** Any folding will do for the storage, which never prints folded names. *)
#[export] Instance no_folding : Unicode := {| ToLower := fun s => s |}.

Section Witnesses.
#[local] Existing Instance lower_hex.

(** A module record and the statistics of a module share a prefix, not a key. *)
Lemma encode_inj_witness :
  encode (KModule (sample_address 1) (sample_address 2))
  <> encode (KModuleStats (sample_address 2)).
Proof. apply (encode_inj lower_hex_laws); [exact I | exact I | discriminate]. Defined.

Lemma scan_exact_witness :
  HasPrefix (encode (KLog 12 3 4)) (scan_prefix (SLogBlock 12)) = true
  <-> selects (SLogBlock 12) (KLog 12 3 4).
Proof. apply (scan_exact lower_hex_laws); exact I. Defined.

Lemma parse_keys_witness :
  ParseBlockKey (BlockKey (two64 - 1)) = Ok (two64 - 1) /\
  ParseTransactionKey (TransactionKey (two64 - 1) 7) = Ok (two64 - 1, 7).
Proof. apply parse_keys; split; vm_compute; (reflexivity || discriminate). Defined.

Lemma index_keys_ordered_witness :
  bytes_ltb (AddressTransactionKey (sample_address 1) 9)
            (AddressTransactionKey (sample_address 1) 10) = true /\
  bytes_ltb (LogKey 9 5 5) (LogKey 10 0 0) = true /\
  bytes_ltb (TokenHolderByTokenIndexKey (sample_address 1) (sample_address 3) 1000)
            (TokenHolderByTokenIndexKey (sample_address 1) (sample_address 2) 999) = true.
Proof.
  destruct (index_keys_ordered (sample_address 1) (sample_hash 1) 9 10 9 5 5 10 0 0
              (sample_address 1) (sample_address 2) (sample_address 3) 999 1000) as (H1 & H2 & H3);
    [split; vm_compute; (reflexivity || discriminate)..|].
  split; [apply H1; reflexivity|]. split; [apply H2; left; reflexivity|].
  apply H3; [split; [discriminate | reflexivity] | reflexivity].
Defined.

Lemma chain_keys_scoped_witness :
  ChainBlockKey (lit "1") 5 = ChainPrefix (lit "1") ++ BlockKey 5 /\
  IsChainKey (ChainBlockKey (lit "1") 5) = true /\
  HasPrefix (ChainBlockKey (lit "1") 5) (ChainKeyPrefix (lit "1")) = true /\
  ParseChainKey (ChainBlockKey (lit "1") 5) = Ok (lit "1", BlockKey 5).
Proof.
  apply (chain_keys_scoped (lit "1") (sample_address 1) (sample_hash 2) (sample_hash 3)
           5 0 0 0 0 0) with (k := (ChainBlockKey (lit "1") 5, BlockKey 5)).
  - refine (bool_decide_unpack (no_slash _) _). vm_compute. exact I.
  - right. left. reflexivity.
Defined.

End Witnesses.
