(* ===== verification/KV.v ===== *)
(** KV: the services pkg/storage is built on, as interfaces.

    [Pebble] is what the code uses of github.com/cockroachdb/pebble: point reads,
    atomic writes (a single [Set] or [Delete] is a write of one operation, a
    committed [Batch] one of several) and bounded iteration in byte order, which can
    fail when the iterator is made or midway, in [iter.Error()].
    [PebbleLaws] is its documented behaviour. [RLP] is the encoder of go-ethereum
    for one type; [RLPLaws] says what decoding gives back, [rlp_image], since some
    fields are not part of the encoding. [mem_pebble] is a concrete in-memory
    database that satisfies the laws. *)
From stdpp Require Import sorting.
From S2P Require Import Prelude.

(** * Pebble *)

(** One operation of a batch: [Some v] sets the key, [None] deletes it. *)
Definition bop : Type := bytes * option bytes.

(** [db_get], [db_write] and [batch_add_err] are [Get], the commit of a batch, and what
    [batch.Set] and [batch.Delete] return. [db_iter] is [NewIter] and the loop [First],
    [Valid], [Next] over the iterator: the error of [NewIter], or the entries the loop
    visits, with the [iter.Error()] it ends in. *)
Class Pebble := {
  DB : Type;
  db_get : DB -> bytes -> res (option bytes);
  db_write : DB -> list bop -> DB * option error;
  db_iter : DB -> bytes -> option bytes -> res (list (bytes * bytes) * option error);
  batch_add_err : list bop -> bop -> option error;
}.

(** The last write to [k] in a sequence of operations, if any. *)
Fixpoint last_write (ops : list bop) (k : bytes) : option (option bytes) :=
  match ops with
  | [] => None
  | (k', v) :: ops' =>
      match last_write ops' k with
      | Some o => Some o
      | None => if decide (k = k') then Some v else None
      end
  end.

Definition in_range (lo : bytes) (hi : option bytes) (k : bytes) : Prop :=
  bytes_leb lo k = true /\ match hi with None => True | Some h => bytes_ltb k h = true end.

Definition key_lt (p q : bytes * bytes) : Prop := bytes_ltb (fst p) (fst q) = true.

Class PebbleLaws {P : Pebble} : Prop := {
  db_write_get : forall db ops db' k, db_write db ops = (db', None) ->
    db_get db' k = match last_write ops k with Some o => Ok o | None => db_get db k end;
  db_write_atomic : forall db ops db' e k, db_write db ops = (db', Some e) ->
    db_get db' k = db_get db k;
  db_iter_sorted : forall db lo hi l e, db_iter db lo hi = Ok (l, e) ->
    StronglySorted key_lt l;
  db_iter_sound : forall db lo hi l e k v, db_iter db lo hi = Ok (l, e) ->
    (k, v) ∈ l -> in_range lo hi k /\ db_get db k = Ok (Some v);
  db_iter_complete : forall db lo hi l k v, db_iter db lo hi = Ok (l, None) ->
    in_range lo hi k -> db_get db k = Ok (Some v) -> (k, v) ∈ l;
}.
Arguments PebbleLaws : clear implicits.

(** The entries of a range for a loop that checks [iter.Error()] after its last entry. *)
Definition db_scan {P : Pebble} (db : DB) (lo : bytes) (hi : option bytes)
  : res (list (bytes * bytes)) :=
  match db_iter db lo hi with
  | Ok (l, None) => Ok l
  | Ok (_, Some e) => Err e
  | Err e => Err e
  end.

Lemma db_scan_iter {P : Pebble} db lo hi l :
  db_scan db lo hi = Ok l <-> db_iter db lo hi = Ok (l, None).
Proof.
  unfold db_scan. destruct (db_iter db lo hi) as [[l' [e|]]|e]; split; intros H; congruence.
Qed.

Lemma db_scan_sorted {P : Pebble} {L : PebbleLaws P} db lo hi l :
  db_scan db lo hi = Ok l -> StronglySorted key_lt l.
Proof. intros H%db_scan_iter. by eapply db_iter_sorted. Qed.

Lemma db_scan_elem {P : Pebble} {L : PebbleLaws P} db lo hi l k v :
  db_scan db lo hi = Ok l -> (k, v) ∈ l <-> in_range lo hi k /\ db_get db k = Ok (Some v).
Proof.
  intros H%db_scan_iter. split; [by eapply db_iter_sound|].
  intros [H1 H2]. by eapply db_iter_complete.
Qed.

Lemma last_write_app ops1 ops2 k :
  last_write (ops1 ++ ops2) k =
  match last_write ops2 k with Some o => Some o | None => last_write ops1 k end.
Proof.
  induction ops1 as [|[k' v] ops1 IH]; cbn; [by destruct (last_write ops2 k)|].
  rewrite IH. by destruct (last_write ops2 k).
Qed.

Lemma last_write_none ops k : k ∉ ops.*1 -> last_write ops k = None.
Proof.
  induction ops as [|[k' v] ops IH]; cbn; [done|].
  intros [H1 H2]%not_elem_of_cons. rewrite IH by done. by rewrite decide_False.
Qed.

(** * RLP *)

Class RLP (A : Type) := {
  rlp_Encode : A -> res bytes;
  rlp_DecodeBytes : bytes -> res A;
  rlp_image : A -> A;
}.

Class RLPLaws (A : Type) {R : RLP A} : Prop := {
  rlp_encode_nonempty : forall a b, rlp_Encode a = Ok b -> b <> [];
  rlp_decode_encode : forall a b, rlp_Encode a = Ok b -> rlp_DecodeBytes b = Ok (rlp_image a);
}.
Arguments RLPLaws A R : clear implicits.

(** * An in-memory database *)

Definition apply_bop (m : gmap bytes bytes) (op : bop) : gmap bytes bytes :=
  match snd op with Some v => <[fst op := v]> m | None => delete (fst op) m end.

Definition apply_bops (m : gmap bytes bytes) (ops : list bop) : gmap bytes bytes :=
  fold_left apply_bop ops m.

Definition key_le (p q : bytes * bytes) : Prop := bytes_leb (fst p) (fst q) = true.

#[global] Instance key_le_dec : RelDecision key_le.
Proof. intros p q. unfold key_le. apply _. Defined.

#[global] Instance in_range_dec lo hi k : Decision (in_range lo hi k).
Proof. unfold in_range. destruct hi; apply _. Defined.

Definition mem_scan (m : gmap bytes bytes) (lo : bytes) (hi : option bytes)
  : list (bytes * bytes) :=
  merge_sort key_le
    (filter (fun p : bytes * bytes => in_range lo hi (fst p)) (map_to_list m)).

Definition mem_pebble : Pebble :=
  {| DB := gmap bytes bytes;
     db_get := fun m k => Ok (m !! k);
     db_write := fun m ops => (apply_bops m ops, None);
     db_iter := fun m lo hi => Ok (mem_scan m lo hi, None);
     batch_add_err := fun _ _ => None |}.

Lemma apply_bops_lookup m ops k :
  apply_bops m ops !! k = match last_write ops k with Some o => o | None => m !! k end.
Proof.
  unfold apply_bops. revert m. induction ops as [|[k' v] ops IH]; intros m; cbn; [done|].
  rewrite IH. destruct (last_write ops k); [done|]. unfold apply_bop. cbn.
  destruct v; destruct (decide (k = k')) as [->|]; by simplify_map_eq.
Qed.

#[global] Instance key_le_trans : Transitive key_le.
Proof.
  intros p q r. unfold key_le, bytes_leb. rewrite !negb_true_iff.
  intros H1 H2. destruct (bytes_ltb (fst r) (fst p)) eqn:E; [|done].
  destruct (bytes_ltb (fst p) (fst q)) eqn:E2.
  - by rewrite (bytes_ltb_trans (fst r) (fst p) (fst q)) in H2.
  - assert (fst p = fst q) as Heq by by apply bytes_ltb_total. by rewrite Heq, H2 in E.
Qed.

#[global] Instance key_le_total : Total key_le.
Proof.
  intros p q. unfold key_le, bytes_leb.
  destruct (bytes_ltb (fst q) (fst p)) eqn:E; [|by left].
  right. destruct (bytes_ltb (fst p) (fst q)) eqn:E2; [|done].
  pose proof (bytes_ltb_trans _ _ _ E2 E) as H. by rewrite bytes_ltb_irrefl in H.
Qed.

Lemma sorted_nodup_lt (l : list (bytes * bytes)) :
  StronglySorted key_le l -> NoDup (l.*1) -> StronglySorted key_lt l.
Proof.
  induction 1 as [|p l Hs IH Hf]; cbn; [constructor|].
  intros [Hn Hnd]%NoDup_cons. constructor; [auto|].
  rewrite Forall_forall in Hf |- *. intros q Hq. specialize (Hf q Hq).
  unfold key_le, bytes_leb, key_lt in *. rewrite negb_true_iff in Hf.
  destruct (bytes_ltb (fst p) (fst q)) eqn:E; [done|].
  destruct Hn. rewrite (bytes_ltb_total _ _ E Hf). by apply list_elem_of_fmap_2.
Qed.

Lemma mem_scan_elem m lo hi k v :
  (k, v) ∈ mem_scan m lo hi <-> in_range lo hi k /\ m !! k = Some v.
Proof.
  unfold mem_scan. rewrite merge_sort_Permutation, list_elem_of_filter. cbn.
  by rewrite elem_of_map_to_list.
Qed.

Lemma mem_pebble_laws : PebbleLaws mem_pebble.
Proof.
  split; cbn.
  - intros m ops m' k [= <-]. rewrite apply_bops_lookup.
    by destruct (last_write ops k).
  - done.
  - intros m lo hi l e [= <- _]. apply sorted_nodup_lt.
    + apply StronglySorted_merge_sort; apply _.
    + unfold mem_scan. rewrite merge_sort_Permutation.
      apply NoDup_fmap_fst; [|apply NoDup_filter, NoDup_map_to_list].
      intros k v1 v2 [_ H1]%list_elem_of_filter [_ H2]%list_elem_of_filter.
      apply elem_of_map_to_list in H1, H2. congruence.
  - intros m lo hi l e k v [= <- _]. rewrite mem_scan_elem. intros [? ->]. done.
  - intros m lo hi l k v [= <-] Hr [= Hk]. by rewrite mem_scan_elem.
Qed.
