(* ===== verification/Chain.v ===== *)
(** Chain: the blocks, transactions and receipts the storage is given.

    [types.Block] and [types.Transaction] belong to go-ethereum: the class
    [ChainTypes] holds the accessors the code calls. A receipt is a Go struct whose
    fields the code reads and assigns, so it is a record with the fields of go-ethereum's;
    [Rest] stands for the type, the bloom filter and the addresses, topics and data of the
    logs, which the storage never looks at and the encoding keeps. The encoders of
    pkg/storage/encoder.go wrap RLP, the interface of KV.v; [ChainLaws] says which parts RLP
    preserves: of a receipt only what the consensus encoding has. *)
From S2P Require Import Prelude Eth KV.

Class ChainTypes := {
  Block : Type;
  Tx : Type;
  ReceiptRest : Type;
  block_Number : Block -> Z;
  block_Hash : Block -> Hash;
  block_Transactions : Block -> list Tx;
  tx_Hash : Tx -> Hash;
}.

(** What a log knows about where it is: not part of the encoding of a receipt. *)
Record LogMeta := mkLogMeta {
  lm_BlockNumber : Z;
  lm_TxHash : Hash;
  lm_TxIndex : Z;
  lm_BlockHash : Hash;
  lm_Index : Z;
  lm_Removed : bool;
}.

Definition zero_meta : LogMeta := mkLogMeta 0 (zero_array 32) 0 (zero_array 32) 0 false.

(** [PostState] is nil or the root of a state, the two cases the encoding has. *)
Record Receipt {C : ChainTypes} := mkReceipt {
  TxHash : Hash;
  PostState : option Hash;
  Status : Z;
  CumulativeGasUsed : Z;
  GasUsed : Z;
  ContractAddress : Address;
  EffectiveGasPrice : option Z;
  BlobGasUsed : Z;
  BlobGasPrice : option Z;
  ReceiptBlockHash : Hash;
  ReceiptBlockNumber : option Z;
  TransactionIndex : Z;
  LogsMeta : list LogMeta;
  Rest : ReceiptRest;
}.
Arguments Receipt : clear implicits.
Arguments Receipt {C}.

(** The location of a transaction in the blockchain. *)
Record TxLocation := mkTxLocation {
  BlockHeight : Z;
  TxIndex : Z;
  LocBlockHash : Hash;
}.

Section Encoders.
Context {C : ChainTypes} {RB : RLP Block} {RT : RLP Tx} {RR : RLP Receipt}
  {RL : RLP TxLocation}.

(** Pointers that may be nil are options. *)
Definition EncodeBlock (block : option Block) : res bytes :=
  match block with
  | None => Err (Errorf "block cannot be nil")
  | Some b => wrap_err "failed to encode block" (rlp_Encode b)
  end.

Definition DecodeBlock (data : bytes) : res Block :=
  if (length data =? 0)%nat then Err (Errorf "data cannot be empty")
  else wrap_err "failed to decode block" (rlp_DecodeBytes data).

Definition EncodeTransaction (tx : option Tx) : res bytes :=
  match tx with
  | None => Err (Errorf "transaction cannot be nil")
  | Some t => wrap_err "failed to encode transaction" (rlp_Encode t)
  end.

Definition DecodeTransaction (data : bytes) : res Tx :=
  if (length data =? 0)%nat then Err (Errorf "data cannot be empty")
  else wrap_err "failed to decode transaction" (rlp_DecodeBytes data).

Definition EncodeReceipt (receipt : option Receipt) : res bytes :=
  match receipt with
  | None => Err (Errorf "receipt cannot be nil")
  | Some r => wrap_err "failed to encode receipt" (rlp_Encode r)
  end.

Definition DecodeReceipt (data : bytes) : res Receipt :=
  if (length data =? 0)%nat then Err (Errorf "data cannot be empty")
  else wrap_err "failed to decode receipt" (rlp_DecodeBytes data).

Definition EncodeTxLocation (loc : option TxLocation) : res bytes :=
  match loc with
  | None => Err (Errorf "location cannot be nil")
  | Some l => wrap_err "failed to encode location" (rlp_Encode l)
  end.

Definition DecodeTxLocation (data : bytes) : res TxLocation :=
  if (length data =? 0)%nat then Err (Errorf "data cannot be empty")
  else wrap_err "failed to decode location" (rlp_DecodeBytes data).

(** The status is one byte, or not there when there is a state root in its place. *)
Definition consensus_status (r : Receipt) : Z :=
  match PostState r with
  | Some _ => 0
  | None => if Status r =? 0 then 0 else 1
  end.

(** The consensus encoding of a receipt leaves out the fields a node derives from the block
    and the transaction, its own and those of its logs: decoding yields their zero values.
    The receipts are of the types go-ethereum knows, which is part of [Rest]. *)
Definition consensus_receipt (r : Receipt) : Receipt :=
  {| TxHash := zero_array 32; PostState := PostState r; Status := consensus_status r;
     CumulativeGasUsed := CumulativeGasUsed r; GasUsed := 0; ContractAddress := zero_array 20;
     EffectiveGasPrice := None; BlobGasUsed := 0; BlobGasPrice := None;
     ReceiptBlockHash := zero_array 32; ReceiptBlockNumber := None; TransactionIndex := 0;
     LogsMeta := (fun _ => zero_meta) <$> LogsMeta r; Rest := Rest r |}.

Class ChainLaws : Prop := {
  block_rlp :: RLPLaws Block RB;
  tx_rlp :: RLPLaws Tx RT;
  receipt_rlp :: RLPLaws Receipt RR;
  loc_rlp :: RLPLaws TxLocation RL;
  block_image : forall b : Block, rlp_image b = b;
  tx_image : forall t : Tx, rlp_image t = t;
  loc_image : forall l : TxLocation, rlp_image l = l;
  receipt_image : forall r : Receipt, rlp_image r = consensus_receipt r;
}.

Lemma decode_guard {A} {R : RLP A} msg a b : RLPLaws A R -> rlp_Encode a = Ok b ->
  (if (length b =? 0)%nat then Err (Errorf "data cannot be empty")
   else wrap_err msg (rlp_DecodeBytes b)) = Ok (rlp_image a).
Proof.
  intros HR Hb. pose proof (rlp_encode_nonempty _ _ Hb).
  destruct b; [done|]. cbn [length Nat.eqb]. by rewrite (rlp_decode_encode _ _ Hb).
Qed.

Context {L : ChainLaws}.

Lemma DecodeBlock_Encode b data : EncodeBlock (Some b) = Ok data -> DecodeBlock data = Ok b.
Proof.
  unfold EncodeBlock, DecodeBlock. rewrite wrap_err_ok. intros H.
  rewrite (decode_guard _ b) by (done || apply _). by rewrite block_image.
Qed.

Lemma DecodeTransaction_Encode t data :
  EncodeTransaction (Some t) = Ok data -> DecodeTransaction data = Ok t.
Proof.
  unfold EncodeTransaction, DecodeTransaction. rewrite wrap_err_ok. intros H.
  rewrite (decode_guard _ t) by (done || apply _). by rewrite tx_image.
Qed.

Lemma DecodeReceipt_Encode r data :
  EncodeReceipt (Some r) = Ok data -> DecodeReceipt data = Ok (consensus_receipt r).
Proof.
  unfold EncodeReceipt, DecodeReceipt. rewrite wrap_err_ok. intros H.
  rewrite (decode_guard _ r) by (done || apply _). by rewrite receipt_image.
Qed.

Lemma DecodeTxLocation_Encode l data :
  EncodeTxLocation (Some l) = Ok data -> DecodeTxLocation data = Ok l.
Proof.
  unfold EncodeTxLocation, DecodeTxLocation. rewrite wrap_err_ok. intros H.
  rewrite (decode_guard _ l) by (done || apply _). by rewrite loc_image.
Qed.

End Encoders.
Arguments ChainLaws C {RB RT RR RL}.
