(* ===== verification/Storage.v ===== *)
(** Storage: PebbleStorage, the database of the indexer.

    Models the state of [PebbleStorage], opening and closing it (pkg/storage/pebble.go)
    and the reads and direct writes of blocks, transactions, the address index and
    receipts (pebble_blocks.go, pebble_transactions.go, pebble_receipts.go). What goes
    through a batch is in Batch.v, the key-value interface in PrefixOps.v. The effects
    run in the state-and-error computations of Prelude.v; the database, RLP and the
    chain's data types are the interfaces of KV.v and Chain.v. Sync options, locks
    and log messages have no counterpart; contexts are never cancelled. *)
From S2P Require Import Prelude Eth Schema KV Chain.

Section Storage.
Context {E : EthHex} {P : Pebble} {C : ChainTypes}
  {RB : RLP Block} {RT : RLP Tx} {RR : RLP Receipt} {RL : RLP TxLocation}.

(** The fields of [PebbleStorage] that the operations below use. *)
Record PebbleStorage := mkStorage {
  db : DB;
  readOnly : bool;
  closed : bool;
  addrSeq : gmap Address Z;
  txCount : Z;
}.

Definition set_db (d : DB) (s : PebbleStorage) : PebbleStorage :=
  mkStorage d (readOnly s) (closed s) (addrSeq s) (txCount s).
Definition set_closed (b : bool) (s : PebbleStorage) : PebbleStorage :=
  mkStorage (db s) (readOnly s) b (addrSeq s) (txCount s).
Definition set_addrSeq (m : gmap Address Z) (s : PebbleStorage) : PebbleStorage :=
  mkStorage (db s) (readOnly s) (closed s) m (txCount s).
Definition set_txCount (n : Z) (s : PebbleStorage) : PebbleStorage :=
  mkStorage (db s) (readOnly s) (closed s) (addrSeq s) n.

Definition op (A : Type) : Type := ST PebbleStorage A.

(** Calls on [s.db]. *)
Definition dbGet (key : bytes) : op (option bytes) := fun s => (db_get (db s) key, s).

Definition dbWrite (ops : list bop) : op unit := fun s =>
  let '(d, e) := db_write (db s) ops in
  (match e with None => Ok tt | Some e => Err e end, set_db d s).

Definition dbSet (key value : bytes) : op unit := dbWrite [(key, Some value)].
Definition dbDelete (key : bytes) : op unit := dbWrite [(key, None)].

(** [NewIter] and a loop that does not look at [iter.Error()] before its end. *)
Definition dbIter (lo : bytes) (hi : option bytes)
  : op (list (bytes * bytes) * option error) :=
  fun s => (db_iter (db s) lo hi, s).

(** [NewIter] and a loop that returns [iter.Error()] when it ends with one. *)
Definition dbScan (lo : bytes) (hi : option bytes) : op (list (bytes * bytes)) :=
  fun s => (db_scan (db s) lo hi, s).

(** [s.txCount.Add(n)]: the counter is unsigned and wraps. *)
Definition txCountAdd (n : Z) : op Z := fun s =>
  let c := u64 (txCount s + n) in (Ok c, set_txCount c s).

Definition ensureNotClosed : op unit :=
  fun s => (if closed s then Err ErrClosed else Ok tt, s).

Definition ensureNotReadOnly : op unit :=
  fun s => (if readOnly s then Err ErrReadOnly else Ok tt, s).

(** * Opening and closing (pebble.go) *)

(** [loadAddressSequences] leaves the counters at zero. *)
Definition loadAddressSequences : op unit := mret tt.

Definition loadTransactionCount : op unit :=
  o ← wrapST "failed to get transaction count" (dbGet TransactionCountKey);
  match o with
  | None => modify (set_txCount 0)
  | Some value =>
      count ← lift (wrap_err "failed to decode transaction count" (DecodeUint64 value));
      modify (set_txCount count)
  end.

(** Opening the database [d]: [NewPebbleStorage] once the files are open. *)
Definition NewPebbleStorage (d : DB) (ro : bool) : res PebbleStorage :=
  let storage := mkStorage d ro false ∅ 0 in
  match (_ ← wrapST "failed to load address sequences" loadAddressSequences;
         wrapST "failed to load transaction count" loadTransactionCount) storage with
  | (Ok _, s) => Ok s
  | (Err e, _) => Err e
  end.

Definition Close : op unit := modify (set_closed true).

(** * Blocks (pebble_blocks.go) *)

Definition GetLatestHeight : op Z :=
  _ ← ensureNotClosed;
  o ← wrapST "failed to get latest height" (dbGet LatestHeightKey);
  match o with
  | None => fail ErrNotFound
  | Some value => lift (wrap_err "failed to decode height" (DecodeUint64 value))
  end.

Definition SetLatestHeight (height : Z) : op unit :=
  _ ← ensureNotClosed;
  _ ← ensureNotReadOnly;
  dbSet LatestHeightKey (EncodeUint64 height).

Definition GetBlock (height : Z) : op Block :=
  _ ← ensureNotClosed;
  o ← wrapST "failed to get block" (dbGet (BlockKey height));
  match o with
  | None => fail ErrNotFound
  | Some value => lift (wrap_err "failed to decode block" (DecodeBlock value))
  end.

Definition GetBlockByHash (hash : Hash) : op Block :=
  _ ← ensureNotClosed;
  o ← wrapST "failed to get block hash index" (dbGet (BlockHashIndexKey hash));
  match o with
  | None => fail ErrNotFound
  | Some value =>
      height ← lift (wrap_err "failed to decode block height" (DecodeUint64 value));
      GetBlock height
  end.

Definition SetTransaction (tx : option Tx) (location : option TxLocation) : op unit :=
  _ ← ensureNotClosed;
  _ ← ensureNotReadOnly;
  match tx, location with
  | None, _ => fail (Errorf "transaction cannot be nil")
  | _, None => fail (Errorf "location cannot be nil")
  | Some t, Some loc =>
      encoded ← lift (wrap_err "failed to encode transaction" (EncodeTransaction tx));
      locEncoded ← lift (wrap_err "failed to encode location" (EncodeTxLocation location));
      _ ← wrapST "failed to set transaction"
            (dbSet (TransactionKey (BlockHeight loc) (TxIndex loc)) encoded);
      _ ← wrapST "failed to set transaction index"
            (dbSet (TransactionHashIndexKey (tx_Hash t)) locEncoded);
      newCount ← txCountAdd 1;
      wrapST "failed to update transaction count"
        (dbSet TransactionCountKey (EncodeUint64 newCount))
  end.

(** The transactions of a block with their indexes: [range transactions]. *)
Definition indexed {A} (l : list A) : list (Z * A) :=
  zip (Z.of_nat <$> seq 0 (length l)) l.

Definition block_height (block : Block) : Z := u64 (block_Number block).

Definition tx_location (block : Block) (txIndex : Z) : TxLocation :=
  mkTxLocation (block_height block) txIndex (block_Hash block).

Definition SetBlock (block : option Block) : op unit :=
  _ ← ensureNotClosed;
  _ ← ensureNotReadOnly;
  match block with
  | None => fail (Errorf "block cannot be nil")
  | Some b =>
      encoded ← lift (wrap_err "failed to encode block" (EncodeBlock block));
      let height := block_height b in
      _ ← wrapST "failed to set block" (dbSet (BlockKey height) encoded);
      _ ← wrapST "failed to set block hash index"
            (dbSet (BlockHashIndexKey (block_Hash b)) (EncodeUint64 height));
      forST (fun '(txIndex, tx) =>
               wrapST "failed to store transaction in block"
                 (SetTransaction (Some tx) (Some (tx_location b txIndex))))
            (indexed (block_Transactions b))
  end.

Definition DeleteBlock (height : Z) : op unit :=
  _ ← ensureNotClosed;
  _ ← ensureNotReadOnly;
  tryST (GetBlock height) (fun r =>
    match r with
    | Err ErrNotFound => mret tt
    | Err e => fail (Wrap "failed to get block for deletion" e)
    | Ok block =>
        _ ← wrapST "failed to delete block hash index"
              (dbDelete (BlockHashIndexKey (block_Hash block)));
        dbDelete (BlockKey height)
    end).

Definition HasBlock (height : Z) : op bool :=
  _ ← ensureNotClosed;
  o ← dbGet (BlockKey height);
  mret (bool_decide (is_Some o)).

(** [make([]*types.Block, 0, n)] panics when the allocation exceeds the address
    space (2^48 bytes on 64-bit platforms, 8 bytes per pointer). *)
Definition make_cap_ok (n : Z) : bool := n * 8 <=? 2 ^ 48.

(** The loop of [GetBlocks]; [None] when [fuel] runs out before it ends. *)
Fixpoint GetBlocks_loop (fuel : nat) (height endHeight : Z) (blocks : list Block)
  : PebbleStorage -> option (res (list Block) * PebbleStorage) := fun s =>
  match fuel with
  | O => None
  | S fuel' =>
      if endHeight <? height then Some (Ok blocks, s)
      else match GetBlock height s with
           | (Ok block, s1) =>
               GetBlocks_loop fuel' (u64 (height + 1)) endHeight (blocks ++ [block]) s1
           | (Err ErrNotFound, s1) =>
               GetBlocks_loop fuel' (u64 (height + 1)) endHeight blocks s1
           | (Err e, s1) => Some (Err (Wrap "failed to get block" e), s1)
           end
  end.

Definition GetBlocks (fuel : nat) (startHeight endHeight : Z)
  : PebbleStorage -> option (res (list Block) * PebbleStorage) := fun s =>
  match ensureNotClosed s with
  | (Err e, s1) => Some (Err e, s1)
  | (Ok _, s1) =>
      if make_cap_ok (u64 (u64 (endHeight - startHeight) + 1))
      then GetBlocks_loop fuel startHeight endHeight [] s1
      else Some (Err (Panic "makeslice: cap out of range"), s1)
  end.

(** * Transactions (pebble_transactions.go) *)

Definition GetTransaction (hash : Hash) : op (Tx * TxLocation) :=
  _ ← ensureNotClosed;
  o ← wrapST "failed to get transaction location" (dbGet (TransactionHashIndexKey hash));
  match o with
  | None => fail ErrNotFound
  | Some locValue =>
      location ← lift (wrap_err "failed to decode location" (DecodeTxLocation locValue));
      o' ← wrapST "failed to get transaction"
             (dbGet (TransactionKey (BlockHeight location) (TxIndex location)));
      match o' with
      | None => fail ErrNotFound
      | Some txValue =>
          tx ← lift (wrap_err "failed to decode transaction" (DecodeTransaction txValue));
          mret (tx, location)
      end
  end.

(** Batch reads keep a slot per hash, empty where the read failed, and return the
    first error beside them. *)
Fixpoint getMany {A} (get : Hash -> op A) (hashes : list Hash) (s : PebbleStorage)
  : list (option A) * option error :=
  match hashes with
  | [] => ([], None)
  | hash :: hashes' =>
      let '(rest, e') := getMany get hashes' s in
      match fst (get hash s) with
      | Ok a => (Some a :: rest, e')
      | Err e => (None :: rest, Some e)
      end
  end.

Definition GetTransactions (hashes : list Hash) (s : PebbleStorage)
  : list (option (Tx * TxLocation)) * option error :=
  match fst (ensureNotClosed s) with
  | Err e => ([], Some e)
  | Ok _ => getMany GetTransaction hashes s
  end.

Definition HasTransaction (hash : Hash) : op bool :=
  _ ← ensureNotClosed;
  o ← dbGet (TransactionHashIndexKey hash);
  mret (bool_decide (is_Some o)).

Definition AddTransactionToAddressIndex (addr : Address) (txHash : Hash) : op unit :=
  _ ← ensureNotClosed;
  _ ← ensureNotReadOnly;
  seq ← gets (fun s => default 0 (addrSeq s !! addr));
  _ ← modify (fun s => set_addrSeq (<[addr := u64 (seq + 1)]> (addrSeq s)) s);
  dbSet (AddressTransactionKey addr seq) (`txHash).

(** The pagination loop: skip [offset] entries, then take entries while there are
    fewer than [limit]. *)
Fixpoint page_loop (limit offset : Z) (count : Z) (hashes : list Hash)
  (entries : list (bytes * bytes)) : list Hash :=
  match entries with
  | [] => hashes
  | (_, value) :: entries' =>
      if count <? offset then page_loop limit offset (count + 1) hashes entries'
      else if limit <=? Z.of_nat (length hashes) then hashes
      else page_loop limit offset (count + 1) (hashes ++ [array_copy 32 value]) entries'
  end.

Definition xff : ascii := byte_of 255.

Definition GetTransactionsByAddress (addr : Address) (limit offset : Z) : op (list Hash) :=
  _ ← ensureNotClosed;
  let prefix := AddressTransactionKeyPrefix addr in
  let upperBound := prefix ++ [xff] in
  entries ← wrapST "failed to create iterator" (dbScan prefix (Some upperBound));
  mret (page_loop limit offset 0 [] entries).

(** * Receipts (pebble_receipts.go) *)

Definition validateReceipt (receipt : option Receipt) : res unit :=
  match receipt with
  | None => Err (Wrap "receipt cannot be nil" ErrInvalidReceipt)
  | Some r =>
      if bool_decide (TxHash r = zero_array 32)
      then Err (Wrap "transaction hash is not set" ErrInvalidReceipt)
      else if 1 <? Status r then Err (Wrap "invalid status" ErrInvalidReceipt)
      else if CumulativeGasUsed r <? GasUsed r
      then Err (Wrap "cumulative gas used is less than gas used" ErrInvalidReceipt)
      else Ok tt
  end.

Definition set_TxHash (h : Hash) (r : Receipt) : Receipt :=
  {| TxHash := h; PostState := PostState r; Status := Status r; CumulativeGasUsed := CumulativeGasUsed r;
     GasUsed := GasUsed r; ContractAddress := ContractAddress r; EffectiveGasPrice := EffectiveGasPrice r;
     BlobGasUsed := BlobGasUsed r; BlobGasPrice := BlobGasPrice r; ReceiptBlockHash := ReceiptBlockHash r;
     ReceiptBlockNumber := ReceiptBlockNumber r; TransactionIndex := TransactionIndex r;
     LogsMeta := LogsMeta r; Rest := Rest r |}.

Definition set_ContractAddress (a : Address) (r : Receipt) : Receipt :=
  {| TxHash := TxHash r; PostState := PostState r; Status := Status r; CumulativeGasUsed := CumulativeGasUsed r;
     GasUsed := GasUsed r; ContractAddress := a; EffectiveGasPrice := EffectiveGasPrice r;
     BlobGasUsed := BlobGasUsed r; BlobGasPrice := BlobGasPrice r; ReceiptBlockHash := ReceiptBlockHash r;
     ReceiptBlockNumber := ReceiptBlockNumber r; TransactionIndex := TransactionIndex r;
     LogsMeta := LogsMeta r; Rest := Rest r |}.

Definition GetReceipt (hash : Hash) : op Receipt :=
  _ ← ensureNotClosed;
  o ← wrapST "failed to get receipt" (dbGet (ReceiptKey hash));
  match o with
  | None => fail ErrNotFound
  | Some value =>
      r ← lift (wrap_err "failed to decode receipt" (DecodeReceipt value));
      let receipt := set_TxHash hash r in
      tryST (dbGet (ContractAddressKey hash)) (fun r =>
        match r with
        | Ok (Some v) =>
            mret (if (length v =? 20)%nat
                  then set_ContractAddress (array_copy 20 v) receipt else receipt)
        | _ => mret receipt
        end)
  end.

(** The writes of one receipt, shared by the operations that store receipts. *)
Definition has_contract (r : Receipt) : bool :=
  negb (bool_decide (ContractAddress r = zero_array 20)).

Definition SetReceipt (receipt : option Receipt) : op unit :=
  _ ← ensureNotClosed;
  _ ← ensureNotReadOnly;
  _ ← lift (validateReceipt receipt);
  encoded ← lift (wrap_err "failed to encode receipt" (EncodeReceipt receipt));
  match receipt with
  | None => mret tt
  | Some r =>
      _ ← dbSet (ReceiptKey (TxHash r)) encoded;
      if has_contract r
      then wrapST "failed to store contract address"
             (dbSet (ContractAddressKey (TxHash r)) (proj1_sig (ContractAddress r)))
      else mret tt
  end.

Definition GetReceipts (hashes : list Hash) (s : PebbleStorage)
  : list (option Receipt) * option error :=
  match fst (ensureNotClosed s) with
  | Err e => ([], Some e)
  | Ok _ => getMany GetReceipt hashes s
  end.

Definition HasReceipt (hash : Hash) : op bool :=
  _ ← ensureNotClosed;
  o ← wrapST "failed to check receipt" (dbGet (ReceiptKey hash));
  mret (bool_decide (is_Some o)).

(** The loop over a block's transactions; a missing receipt is skipped. *)
Fixpoint collectReceipts (txs : list Tx) : op (list Receipt) :=
  match txs with
  | [] => mret []
  | tx :: txs' =>
      tryST (GetReceipt (tx_Hash tx)) (fun r =>
        match r with
        | Err ErrNotFound => collectReceipts txs'
        | Err e => fail (Wrap "failed to get receipt for tx" e)
        | Ok receipt => rs ← collectReceipts txs'; mret (receipt :: rs)
        end)
  end.

Definition GetReceiptsByBlockNumber (blockNumber : Z) : op (list Receipt) :=
  _ ← ensureNotClosed;
  block ← wrapST "failed to get block" (GetBlock blockNumber);
  collectReceipts (block_Transactions block).

Definition GetReceiptsByBlockHash (blockHash : Hash) : op (list Receipt) :=
  _ ← ensureNotClosed;
  block ← wrapST "failed to get block" (GetBlockByHash blockHash);
  GetReceiptsByBlockNumber (block_height block).

Fixpoint missingReceipts (txs : list Tx) : op (list Hash) :=
  match txs with
  | [] => mret []
  | tx :: txs' =>
      exists_ ← wrapST "failed to check receipt for tx" (HasReceipt (tx_Hash tx));
      rest ← missingReceipts txs';
      mret (if (exists_ : bool) then rest else tx_Hash tx :: rest)
  end.

Definition GetMissingReceipts (blockNumber : Z) : op (list Hash) :=
  _ ← ensureNotClosed;
  block ← wrapST "failed to get block" (GetBlock blockNumber);
  missingReceipts (block_Transactions block).

(** * Inversion lemmas for successful steps *)

Lemma ensureNotClosed_ok s r s' :
  ensureNotClosed s = (Ok r, s') -> closed s = false /\ s' = s.
Proof. unfold ensureNotClosed. by destruct (closed s); intros [= <- <-]. Qed.

Lemma ensureNotReadOnly_ok s r s' :
  ensureNotReadOnly s = (Ok r, s') -> readOnly s = false /\ s' = s.
Proof. unfold ensureNotReadOnly. by destruct (readOnly s); intros [= <- <-]. Qed.

Lemma dbGet_ok key s o s' : dbGet key s = (Ok o, s') -> db_get (db s) key = Ok o /\ s' = s.
Proof. by intros [= <- <-]. Qed.

Lemma dbScan_ok lo hi s l s' :
  dbScan lo hi s = (Ok l, s') -> db_scan (db s) lo hi = Ok l /\ s' = s.
Proof. by intros [= <- <-]. Qed.

Lemma dbIter_ok lo hi s r s' :
  dbIter lo hi s = (Ok r, s') -> db_iter (db s) lo hi = Ok r /\ s' = s.
Proof. by intros [= <- <-]. Qed.

Lemma lift_ok {S A} (r : res A) (s : S) a s' :
  lift r s = (Ok a, s') -> r = Ok a /\ s' = s.
Proof. by intros [= <- <-]. Qed.

Lemma txCountAdd_ok n s c s' :
  txCountAdd n s = (Ok c, s') -> c = u64 (txCount s + n) /\ s' = set_txCount c s.
Proof. by intros [= <- <-]. Qed.

End Storage.

(** Peel successful storage steps off the hypotheses. *)
Ltac inv_op :=
  repeat first
    [ progress inv_ST
    | match goal with
      | H : ensureNotClosed _ = (Ok _, _) |- _ => apply ensureNotClosed_ok in H as [? ->]
      | H : ensureNotReadOnly _ = (Ok _, _) |- _ =>
          apply ensureNotReadOnly_ok in H as [? ->]
      | H : dbGet _ _ = (Ok _, _) |- _ => apply dbGet_ok in H as [? ->]
      | H : dbScan _ _ _ = (Ok _, _) |- _ => apply dbScan_ok in H as [? ->]
      | H : dbIter _ _ _ = (Ok _, _) |- _ => apply dbIter_ok in H as [? ->]
      | H : txCountAdd _ _ = (Ok _, _) |- _ => apply txCountAdd_ok in H as [-> ->]
      | H : lift _ _ = (Ok _, _) |- _ => apply lift_ok in H as [? ->]
      | H : wrap_err _ _ = Ok _ |- _ => apply wrap_err_ok in H
      end ].
