(* ===== verification/Batch.v ===== *)
(** Batch: the atomic writes of pkg/storage.

    Models pkg/storage/pebble_batch.go ([pebbleBatch] and its methods) and the
    operations of [PebbleStorage] that go through one batch: [SetBlockWithReceipts],
    [SetBlocks] and [SetReceipts]. A batch collects operations and touches the
    database only in [Commit], except for the two counters of the storage it shares:
    the address sequences and the transaction count. *)
From S2P Require Import Prelude Eth Schema KV Chain Storage.

Section Batch.
Context {E : EthHex} {P : Pebble} {C : ChainTypes}
  {RB : RLP Block} {RT : RLP Tx} {RR : RLP Receipt} {RL : RLP TxLocation}.

Record pebbleBatch := mkBatch {
  b_ops : list bop;
  b_count : Z;
  b_txCount : Z;
  b_closed : bool;
}.

Definition NewBatch : pebbleBatch := mkBatch [] 0 0 false.

(** A method of a batch acts on the batch and on the storage behind it. *)
Definition bop_st (A : Type) : Type := ST (PebbleStorage * pebbleBatch) A.

Definition on_storage {A} (m : op A) : bop_st A := fun '(s, b) =>
  let '(r, s') := m s in (r, (s', b)).

Definition on_batch (f : pebbleBatch -> pebbleBatch) : bop_st unit := fun '(s, b) =>
  (Ok tt, (s, f b)).

Definition count_add (n : Z) (b : pebbleBatch) : pebbleBatch :=
  mkBatch (b_ops b) (b_count b + n) (b_txCount b) (b_closed b).
Definition txCount_incr (b : pebbleBatch) : pebbleBatch :=
  mkBatch (b_ops b) (b_count b) (u64 (b_txCount b + 1)) (b_closed b).
Definition ops_add (o : bop) (b : pebbleBatch) : pebbleBatch :=
  mkBatch (b_ops b ++ [o]) (b_count b) (b_txCount b) (b_closed b).

(** [batch.Set] and [batch.Delete] of the underlying pebble batch. *)
Definition batchWrite (o : bop) : bop_st unit := fun '(s, b) =>
  match batch_add_err (b_ops b) o with
  | Some e => (Err e, (s, b))
  | None => (Ok tt, (s, ops_add o b))
  end.
Definition batchSet (key value : bytes) : bop_st unit := batchWrite (key, Some value).
Definition batchDelete (key : bytes) : bop_st unit := batchWrite (key, None).

Definition ensureOpen : bop_st unit := fun '(s, b) =>
  (if b_closed b then Err ErrClosed else Ok tt, (s, b)).

Definition b_SetLatestHeight (height : Z) : bop_st unit :=
  _ ← ensureOpen;
  _ ← batchSet LatestHeightKey (EncodeUint64 height);
  on_batch (count_add 1).

Definition b_SetTransaction (tx : option Tx) (location : option TxLocation) : bop_st unit :=
  _ ← ensureOpen;
  encoded ← lift (wrap_err "failed to encode transaction" (EncodeTransaction tx));
  locEncoded ← lift (wrap_err "failed to encode location" (EncodeTxLocation location));
  match tx, location with
  | Some t, Some loc =>
      _ ← batchSet (TransactionKey (BlockHeight loc) (TxIndex loc)) encoded;
      _ ← batchSet (TransactionHashIndexKey (tx_Hash t)) locEncoded;
      _ ← on_batch (count_add 2);
      on_batch txCount_incr
  | _, _ => mret tt
  end.

Definition b_SetBlock (block : option Block) : bop_st unit :=
  _ ← ensureOpen;
  encoded ← lift (wrap_err "failed to encode block" (EncodeBlock block));
  match block with
  | None => mret tt
  | Some b =>
      let height := block_height b in
      _ ← batchSet (BlockKey height) encoded;
      _ ← batchSet (BlockHashIndexKey (block_Hash b)) (EncodeUint64 height);
      _ ← on_batch (count_add 2);
      forST (fun '(txIndex, tx) =>
               wrapST "failed to store transaction in block"
                 (b_SetTransaction (Some tx) (Some (tx_location b txIndex))))
            (indexed (block_Transactions b))
  end.

(** The two writes of a receipt: its encoding and the created contract. *)
Definition batchReceipt (txHash : Hash) (r : Receipt) (encoded : bytes) : bop_st unit :=
  _ ← batchSet (ReceiptKey txHash) encoded;
  if has_contract r
  then batchSet (ContractAddressKey txHash) (proj1_sig (ContractAddress r))
  else mret tt.

Definition b_SetReceipt (receipt : option Receipt) : bop_st unit :=
  _ ← ensureOpen;
  _ ← lift (validateReceipt receipt);
  encoded ← lift (wrap_err "failed to encode receipt" (EncodeReceipt receipt));
  match receipt with
  | None => mret tt
  | Some r =>
      _ ← batchReceipt (TxHash r) r encoded;
      on_batch (count_add 1)
  end.

Definition b_SetReceipts (receipts : list (option Receipt)) : bop_st unit :=
  forST b_SetReceipt receipts.

(** The sequence number is taken from the storage when the entry is added. *)
Definition b_AddTransactionToAddressIndex (addr : Address) (txHash : Hash) : bop_st unit :=
  _ ← ensureOpen;
  seq ← on_storage (gets (fun s => default 0 (addrSeq s !! addr)));
  _ ← on_storage
        (modify (fun s => set_addrSeq (<[addr := u64 (seq + 1)]> (addrSeq s)) s));
  _ ← batchSet (AddressTransactionKey addr seq) (`txHash);
  on_batch (count_add 1).

Definition b_SetBlocks (blocks : list (option Block)) : bop_st unit :=
  forST b_SetBlock blocks.

Definition b_DeleteBlock (height : Z) : bop_st unit :=
  _ ← ensureOpen;
  tryST (on_storage (GetBlock height)) (fun r =>
    match r with
    | Err ErrNotFound => mret tt
    | Err e => fail (Wrap "failed to get block for deletion" e)
    | Ok block =>
        _ ← batchDelete (BlockHashIndexKey (block_Hash block));
        _ ← batchDelete (BlockKey height);
        on_batch (count_add 2)
    end).

(** Hand the collected operations to the database, atomically. *)
Definition batchCommit : bop_st unit := fun '(s, b) =>
  let '(r, s') := dbWrite (b_ops b) s in (r, (s', b)).

Definition b_Commit : bop_st unit :=
  _ ← ensureOpen;
  n ← gets (fun sb : PebbleStorage * pebbleBatch => b_txCount (snd sb));
  _ ← (if 0 <? n then
         newCount ← on_storage (txCountAdd n);
         tryST (batchSet TransactionCountKey (EncodeUint64 newCount)) (fun r =>
           match r with
           | Ok _ => mret tt
           | Err e =>
               _ ← on_storage (txCountAdd (two64 - n));
               fail (Wrap "failed to update transaction count" e)
           end)
       else mret tt);
  batchCommit.

Definition b_Reset : bop_st unit :=
  on_batch (fun b => mkBatch [] 0 0 (b_closed b)).

Definition b_Count (sb : PebbleStorage * pebbleBatch) : Z := b_count (snd sb).

Definition b_Close : bop_st unit :=
  on_batch (fun b => mkBatch (b_ops b) (b_count b) (b_txCount b) true).

(** * Operations of the storage that use one batch *)

(** [batch := s.NewBatch(); defer batch.Close()] around the body [m]. *)
Definition with_batch {A} (m : bop_st A) : op A := fun s =>
  let '(r, (s', _)) := m (s, NewBatch) in (r, s').

Definition SetBlocks (blocks : list (option Block)) : op unit :=
  _ ← ensureNotClosed;
  _ ← ensureNotReadOnly;
  with_batch
    (_ ← forST (fun block => wrapST "failed to add block to batch" (b_SetBlock block)) blocks;
     b_Commit).

Definition SetReceipts (receipts : list (option Receipt)) : op unit :=
  _ ← ensureNotClosed;
  _ ← ensureNotReadOnly;
  with_batch
    (_ ← forST (fun r => wrapST "failed to add receipt to batch" (b_SetReceipt r)) receipts;
     b_Commit).

(** Receipts by transaction hash; a later receipt replaces an earlier one. *)
Definition receipt_map (receipts : list (option Receipt)) : gmap Hash Receipt :=
  fold_left (fun m r => match r with Some r => <[TxHash r := r]> m | None => m end)
    receipts ∅.

(** One transaction of [SetBlockWithReceipts] with its receipt, if there is one. *)
Definition swr_tx (b : Block) (receiptMap : gmap Hash Receipt) (itx : Z * Tx) : bop_st unit :=
  let '(txIndex, tx) := itx in
  txEncoded ← lift (wrap_err "failed to encode transaction" (EncodeTransaction (Some tx)));
  locEncoded ← lift (wrap_err "failed to encode location"
                       (EncodeTxLocation (Some (tx_location b txIndex))));
  _ ← wrapST "failed to set transaction"
        (batchSet (TransactionKey (block_height b) txIndex) txEncoded);
  _ ← wrapST "failed to set transaction index"
        (batchSet (TransactionHashIndexKey (tx_Hash tx)) locEncoded);
  match receiptMap !! tx_Hash tx with
  | None => mret tt
  | Some receipt =>
      _ ← lift (wrap_err "invalid receipt for tx" (validateReceipt (Some receipt)));
      receiptEncoded ← lift (wrap_err "failed to encode receipt"
                               (EncodeReceipt (Some receipt)));
      _ ← wrapST "failed to set receipt" (batchSet (ReceiptKey (tx_Hash tx)) receiptEncoded);
      if has_contract receipt
      then wrapST "failed to set contract address"
             (batchSet (ContractAddressKey (tx_Hash tx))
                (proj1_sig (ContractAddress receipt)))
      else mret tt
  end.

Definition swr_body (b : Block) (encoded : bytes) (receipts : list (option Receipt))
  : bop_st unit :=
  let height := block_height b in
  let heightBytes := EncodeUint64 height in
  let txCountDelta := Z.of_nat (length (block_Transactions b)) in
  _ ← wrapST "failed to set block" (batchSet (BlockKey height) encoded);
  _ ← wrapST "failed to set block hash index"
        (batchSet (BlockHashIndexKey (block_Hash b)) heightBytes);
  _ ← forST (swr_tx b (receipt_map receipts)) (indexed (block_Transactions b));
  newCount ← on_storage (txCountAdd txCountDelta);
  _ ← wrapST "failed to update transaction count"
        (batchSet TransactionCountKey (EncodeUint64 newCount));
  _ ← wrapST "failed to set latest height" (batchSet LatestHeightKey heightBytes);
  batchCommit.

Definition SetBlockWithReceipts (block : option Block) (receipts : list (option Receipt))
  : op unit :=
  _ ← ensureNotClosed;
  _ ← ensureNotReadOnly;
  match block with
  | None => fail (Errorf "block cannot be nil")
  | Some b =>
      encoded ← lift (wrap_err "failed to encode block" (EncodeBlock block));
      with_batch (swr_body b encoded receipts)
  end.

End Batch.
