(* ===== verification/PrefixOps.v ===== *)
(** PrefixOps: the raw key-value interface of PebbleStorage and its prefix scans.

    Models the [KVStore] methods of pkg/storage/pebble.go and its prefix
    operations. [Iterate] bounds its scan with [prefixUpperBound]; [DeleteByPrefix]
    and [CountByPrefix] use [incrementPrefix]. The theorems say which keys the two
    bounds enclose. *)
From stdpp Require Import sorting.
From S2P Require Import Prelude Eth Schema KV Chain Storage.

(** * The two upper bounds *)

(** The loop of [prefixUpperBound] from the last byte backwards, on the reversed
    prefix: the first byte below 0xff is incremented and ends the bound. *)
Fixpoint upper_loop (rev_upper : bytes) : option bytes :=
  match rev_upper with
  | [] => None
  | c :: r =>
      if byte_val c <? 255 then Some (rev r ++ [byte_of (byte_val c + 1)])
      else upper_loop r
  end.

Definition prefixUpperBound (prefix : bytes) : option bytes :=
  if (length prefix =? 0)%nat then None else upper_loop (rev prefix).

(** The loop of [incrementPrefix]: the bytes it passes over are set to zero and
    stay in the result. *)
Fixpoint increment_loop (rev_result : bytes) (zeroed : nat) : option bytes :=
  match rev_result with
  | [] => None
  | c :: r =>
      if byte_val c <? 255
      then Some (rev r ++ [byte_of (byte_val c + 1)] ++ replicate zeroed zero)
      else increment_loop r (S zeroed)
  end.

Definition incrementPrefix (prefix : bytes) : option bytes :=
  if (length prefix =? 0)%nat then None
  else match increment_loop (rev prefix) 0 with
       | Some result => Some result
       | None => Some (replicate (length prefix) zero ++ [zero])
       end.

Section PrefixOps.
Context {E : EthHex} {P : Pebble}.

(** * The key-value interface *)

Definition Put (key value : bytes) : op unit :=
  _ ← ensureNotClosed;
  _ ← ensureNotReadOnly;
  dbSet key value.

Definition Get (key : bytes) : op bytes :=
  _ ← ensureNotClosed;
  o ← dbGet key;
  match o with None => fail ErrNotFound | Some value => mret value end.

Definition Delete (key : bytes) : op unit :=
  _ ← ensureNotClosed;
  _ ← ensureNotReadOnly;
  dbDelete key.

Definition Has (key : bytes) : op bool :=
  _ ← ensureNotClosed;
  o ← dbGet key;
  mret (bool_decide (is_Some o)).

(** The callback [fn] threads a state of its own and says whether to go on; the second
    result says whether the loop was left by its [break]. *)
Fixpoint iterate_loop {A} (fn : A -> bytes -> bytes -> A * bool) (a : A)
  (entries : list (bytes * bytes)) : A * bool :=
  match entries with
  | [] => (a, false)
  | (key, value) :: entries' =>
      let '(a', continue_) := fn a key value in
      if (continue_ : bool) then iterate_loop fn a' entries' else (a', true)
  end.

Definition Iterate {A} (prefix : bytes) (fn : A -> bytes -> bytes -> A * bool) (a : A) : op A :=
  _ ← ensureNotClosed;
  it ← dbIter prefix (prefixUpperBound prefix);
  let '(a', stopped) := iterate_loop fn a it.1 in
  match it.2 with
  | Some e => if (stopped : bool) then mret a' else fail e
  | None => mret a'
  end.

(** * Operations on a whole prefix *)

(** One key per step; the batch is committed every 10000 deletions. Neither loop below
    looks at [iter.Error()]: an iteration that fails midway ends the loop like the end of
    the range. *)
Fixpoint delete_loop (entries : list (bytes * bytes)) (batch : list bop) (count : Z)
  : op (Z * list bop) :=
  match entries with
  | [] => mret (count, batch)
  | (key, _) :: entries' =>
      match batch_add_err batch (key, None) with
      | Some e => fail (Wrap "failed to delete key" e)
      | None =>
          let batch1 := batch ++ [(key, None)] in
          let count1 := count + 1 in
          if count1 mod 10000 =? 0
          then _ ← wrapST "failed to commit batch" (dbWrite batch1);
               delete_loop entries' [] count1
          else delete_loop entries' batch1 count1
      end
  end.

Definition DeleteByPrefix (prefix : bytes) : op Z :=
  _ ← ensureNotClosed;
  _ ← ensureNotReadOnly;
  it ← wrapST "failed to create iterator" (dbIter prefix (incrementPrefix prefix));
  r ← delete_loop it.1 [] 0;
  _ ← (if (0 <? length r.2)%nat
       then wrapST "failed to commit final batch" (dbWrite r.2) else mret tt);
  mret r.1.

Definition CountByPrefix (prefix : bytes) : op Z :=
  _ ← ensureNotClosed;
  it ← wrapST "failed to create iterator" (dbIter prefix (incrementPrefix prefix));
  mret (Z.of_nat (length it.1)).

(** * Facts about the bounds *)

Lemma upper_loop_snoc r c :
  upper_loop (r ++ [c]) =
  match upper_loop r with
  | Some u => Some (c :: u)
  | None => if byte_val c <? 255 then Some [byte_of (byte_val c + 1)] else None
  end.
Proof.
  induction r as [|d r IH]; cbn; [done|].
  destruct (byte_val d <? 255); [by rewrite rev_app_distr | done].
Qed.

Lemma byte_val_succ c : byte_val c < 255 -> byte_val (byte_of (byte_val c + 1)) = byte_val c + 1.
Proof. intros H. rewrite byte_val_of. pose proof (byte_val_range c). apply Z.mod_small. lia. Qed.

Lemma byte_val_neq c d : c <> d -> byte_val c <> byte_val d.
Proof. intros H Heq. by apply H, byte_val_inj. Qed.

(** The range from a prefix to its upper bound is the set of keys below it. *)
Lemma upper_loop_exact prefix key :
  in_range prefix (upper_loop (rev prefix)) key <-> HasPrefix key prefix = true.
Proof.
  revert key. induction prefix as [|c s IH]; intros key; cbn [rev].
  { unfold in_range, bytes_leb. cbn. destruct key; cbn; tauto. }
  rewrite upper_loop_snoc. destruct key as [|d k].
  { unfold in_range, bytes_leb. cbn. split; [intros [? _]; done | done]. }
  specialize (IH k). pose proof (byte_val_range d) as Hd.
  assert (Hp : HasPrefix (d :: k) (c :: s) = true <-> d = c /\ HasPrefix k s = true).
  { cbn. rewrite andb_true_iff, bool_decide_eq_true. split; intros [-> ?]; done. }
  rewrite Hp, <- IH. unfold in_range, bytes_leb.
  destruct (decide (d = c)) as [->|Hne].
  - destruct (upper_loop (rev s)) as [u|].
    + cbn. rewrite Z.ltb_irrefl. tauto.
    + destruct (Z.ltb_spec (byte_val c) 255); cbn;
        rewrite ?Z.ltb_irrefl, ?byte_val_succ by done; [|tauto].
      destruct (Z.ltb_spec (byte_val c) (byte_val c + 1)); [|lia]. tauto.
  - apply byte_val_neq in Hne as Hv.
    split; [|tauto]. intros [H1 H2]. exfalso. cbn in H1.
    destruct (Z.ltb_spec (byte_val d) (byte_val c)); [done|].
    destruct (upper_loop (rev s)) as [u|].
    + cbn in H2. destruct (Z.ltb_spec (byte_val d) (byte_val c)); [lia|].
      destruct (Z.ltb_spec (byte_val c) (byte_val d)); [done|lia].
    + destruct (Z.ltb_spec (byte_val c) 255); [|lia].
      cbn in H2. rewrite byte_val_succ in H2 by done.
      destruct (Z.ltb_spec (byte_val d) (byte_val c + 1)); [lia|].
      destruct (Z.ltb_spec (byte_val c + 1) (byte_val d)); [done|]. by destruct k.
Qed.

Lemma prefixUpperBound_exact prefix key :
  in_range prefix (prefixUpperBound prefix) key <-> HasPrefix key prefix = true.
Proof.
  rewrite <- upper_loop_exact. unfold prefixUpperBound. by destruct prefix.
Qed.

(** Unless the prefix ends in 0xff the two bounds are the same. *)
Lemma incrementPrefix_eq prefix c :
  byte_val c < 255 -> incrementPrefix (prefix ++ [c]) = prefixUpperBound (prefix ++ [c]).
Proof.
  intros Hc. unfold incrementPrefix, prefixUpperBound.
  rewrite length_app, rev_app_distr. cbn [length rev app].
  rewrite Nat.add_1_r. cbn [Nat.eqb increment_loop upper_loop].
  apply Z.ltb_lt in Hc. by rewrite Hc, app_nil_r.
Qed.

(** What a read returns once the pending operations [ops] are applied. *)
Definition pending (s : PebbleStorage) (ops : list bop) (k : bytes) : res (option bytes) :=
  match last_write ops k with Some o => Ok o | None => db_get (db s) k end.

Lemma dbWrite_pending (HP : PebbleLaws P) ops s s' :
  dbWrite ops s = (Ok tt, s') -> forall k, pending s' [] k = pending s ops k.
Proof.
  unfold dbWrite. destruct (db_write (db s) ops) as [d [e|]] eqn:Hw; [done|].
  intros [= <-] k. unfold pending. cbn. by apply db_write_get.
Qed.

Lemma dbWrite_frame ops s r s' : dbWrite ops s = (r, s') -> s' = set_db (db s') s.
Proof.
  unfold dbWrite. destruct (db_write (db s) ops) as [d [e|]]; intros [= <- <-]; done.
Qed.

Lemma pending_snoc_delete s ops k k' :
  pending s (ops ++ [(k', None)]) k = if decide (k = k') then Ok None else pending s ops k.
Proof. unfold pending. rewrite last_write_app. cbn. by case_decide. Qed.

Lemma delete_loop_spec (HP : PebbleLaws P) entries batch count s n batch' s' :
  delete_loop entries batch count s = (Ok (n, batch'), s') ->
  n = count + Z.of_nat (length entries) /\ s' = set_db (db s') s /\
  forall k, pending s' batch' k =
    if decide (k ∈ entries.*1) then Ok None else pending s batch k.
Proof.
  revert batch count s. induction entries as [|[key v] entries IH]; intros batch count s H.
  { cbn in H. injection H as <- <- <-. split_and!; [cbn; lia | by destruct s |].
    intros k. rewrite decide_False; [done | apply not_elem_of_nil]. }
  cbn [delete_loop] in H. cbn [length fmap list_fmap fst].
  destruct (batch_add_err batch (key, None)); [discriminate H|].
  assert (exists batch1 s1, delete_loop entries batch1 (count + 1) s1 = (Ok (n, batch'), s') /\
            s1 = set_db (db s1) s /\
            forall k, pending s1 batch1 k = pending s (batch ++ [(key, None)]) k)
    as (batch1 & s1 & H1 & Hf & Hp).
  { destruct ((count + 1) mod 10000 =? 0).
    - inv_ST. exists [], s0. split_and!; [done | by eapply dbWrite_frame |].
      destruct r. by apply dbWrite_pending.
    - exists (batch ++ [(key, None)]), s. split_and!; [done | by destruct s | done]. }
  apply IH in H1 as (-> & -> & Hk). split_and!; [lia | by rewrite Hf |].
  intros k. rewrite Hk, Hp, pending_snoc_delete.
  repeat case_decide; rewrite ?elem_of_cons in *; tauto.
Qed.

Lemma collect_loop es acc :
  iterate_loop (fun acc k v => (acc ++ [(k, v)], true)) acc es = (acc ++ es, false).
Proof.
  revert acc. induction es as [|[k v] es IH]; intros acc; cbn; [by rewrite app_nil_r|].
  by rewrite IH, <- app_assoc.
Qed.

(** * Properties *)

(** C30: [Iterate] visits exactly the keys that start with the prefix, each with
    its stored value, in byte order: a callback that collects what it sees ends
    with the sorted list of those entries. *)
Theorem Iterate_exact (HP : PebbleLaws P) prefix s l s' :
  Iterate prefix (fun acc k v => (acc ++ [(k, v)], true)) [] s = (Ok l, s') ->
  s' = s /\ StronglySorted key_lt l /\
  forall k v, (k, v) ∈ l <-> HasPrefix k prefix = true /\ db_get (db s) k = Ok (Some v).
Proof.
  unfold Iterate. intros H. inv_op. destruct r0 as [es e]. rewrite collect_loop in H.
  cbn in H.
  destruct e as [e|]; [done|]. injection H as <- <-. apply db_scan_iter in H1.
  split_and!; [done | by eapply db_scan_sorted |].
  intros k v. rewrite (db_scan_elem _ _ _ _ _ _ H1). by rewrite prefixUpperBound_exact.
Qed.

(** C29: a [DeleteByPrefix] that returns without an error has removed exactly the keys its
    iterator visited, each of which starts with the prefix, left every other key as it was,
    and reports how many it removed, across the intermediate commits of its batch. When the
    iterator visited its whole range, no key with the prefix is left; the function does not
    ask, so after an iteration that failed midway it returns the same success with the rest
    of the keys in place ([DeleteByPrefix_partial]). The prefix does not end in 0xff
    ([DeleteByPrefix_overreach] has one that does). *)
Theorem DeleteByPrefix_exact (HP : PebbleLaws P) prefix c s n s' (Hc : byte_val c < 255) :
  DeleteByPrefix (prefix ++ [c]) s = (Ok n, s') ->
  exists l e, db_iter (db s) (prefix ++ [c]) (incrementPrefix (prefix ++ [c])) = Ok (l, e) /\
    n = Z.of_nat (length l) /\
    (forall k v, (k, v) ∈ l ->
       HasPrefix k (prefix ++ [c]) = true /\ db_get (db s) k = Ok (Some v)) /\
    (forall k, db_get (db s') k = if decide (k ∈ l.*1) then Ok None else db_get (db s) k) /\
    (e = None -> forall k v, HasPrefix k (prefix ++ [c]) = true -> db_get (db s') k <> Ok (Some v)).
Proof.
  unfold DeleteByPrefix. intros H. inv_op. rename H1 into Hs. destruct r1 as [l e].
  destruct r2 as [m batch]. cbn [fst snd] in *.
  apply delete_loop_spec in H3 as (-> & _ & Hp); [|done].
  assert (Hk : forall k, db_get (db s') k = if decide (k ∈ l.*1) then Ok None
                                            else db_get (db s) k).
  { intros k. etrans; [|exact (Hp k)]. destruct batch as [|o batch]; cbn in H4.
    - by injection H4 as <- <-.
    - inv_ST. destruct r3. by rewrite <- (dbWrite_pending HP _ _ _ H4). }
  exists l, e. split_and!; [exact Hs | done | | exact Hk |]; rewrite incrementPrefix_eq in Hs by done.
  - intros k v Hkv. rewrite <- prefixUpperBound_exact. by eapply db_iter_sound.
  - intros -> k v Hpre Hg. rewrite Hk in Hg. case_decide as Hd; [done|].
    apply Hd. apply (list_elem_of_fmap_2 fst l (k, v)). eapply db_iter_complete; [done | | exact Hg].
    by rewrite prefixUpperBound_exact.
Qed.

End PrefixOps.

(** On a prefix that ends in 0xff the bound of [incrementPrefix] is too large,
    so [DeleteByPrefix] and [CountByPrefix] reach keys outside the prefix: asked
    for the keys under 61ff, they count and delete the key 62. The bound that
    [Iterate] uses does not have the defect. *)
Theorem DeleteByPrefix_overreach :
  let d : gmap bytes bytes := {[ lit "b" := lit "v" ]} in
  let prefix := [ "a"%char; byte_of 255 ] in
  let s := @mkStorage mem_pebble d false false ∅ 0 in
  HasPrefix (lit "b") prefix = false /\
  fst (@CountByPrefix mem_pebble prefix s) = Ok 1 /\
  fst (@DeleteByPrefix mem_pebble prefix s) = Ok 1 /\
  @db_get mem_pebble (db (snd (@DeleteByPrefix mem_pebble prefix s))) (lit "b") = Ok None /\
  fst (@Iterate mem_pebble _ prefix (fun n _ _ => (n + 1, true)) 0 s) = Ok 0.
Proof. vm_compute. auto 10. Qed.

(** The in-memory database with a corrupt block: an iterator ends in an error after its
    first entry. It is a database that satisfies the laws. *)
Definition corrupt_pebble : Pebble :=
  {| DB := gmap bytes bytes; db_get := @db_get mem_pebble; db_write := @db_write mem_pebble;
     db_iter := fun m lo hi => Ok (take 1 (mem_scan m lo hi), Some (External 5));
     batch_add_err := fun _ _ => None |}.

Lemma corrupt_pebble_laws : PebbleLaws corrupt_pebble.
Proof.
  split; [apply (@db_write_get _ mem_pebble_laws) | apply (@db_write_atomic _ mem_pebble_laws) | | |].
  - intros m lo hi l e [= <- _].
    pose proof (@db_iter_sorted _ mem_pebble_laws m lo hi _ None eq_refl) as Hl.
    destruct Hl; cbn; constructor; by rewrite ?take_0; constructor.
  - intros m lo hi l e k v [= <- _] Hkv%elem_of_take.
    destruct Hkv as (i & Hi & _). apply list_elem_of_lookup_2 in Hi.
    exact (@db_iter_sound _ mem_pebble_laws m lo hi _ None k v eq_refl Hi).
  - discriminate.
Qed.

(** There [DeleteByPrefix] and [CountByPrefix] report success after one of the two keys
    below "a": the second key is still stored, and was not counted. [Iterate] over the same
    prefix returns the error. *)
Theorem DeleteByPrefix_partial :
  let d : gmap bytes bytes := {[ lit "a1" := lit "v"; lit "a2" := lit "w" ]} in
  let s := @mkStorage corrupt_pebble d false false ∅ 0 in
  fst (@CountByPrefix corrupt_pebble (lit "a") s) = Ok 1 /\
  fst (@DeleteByPrefix corrupt_pebble (lit "a") s) = Ok 1 /\
  @db_get corrupt_pebble (db (snd (@DeleteByPrefix corrupt_pebble (lit "a") s))) (lit "a2")
    = Ok (Some (lit "w")) /\
  fst (@Iterate corrupt_pebble _ (lit "a") (fun n _ _ => (n + 1, true)) 0 s) = Err (External 5).
Proof. vm_compute. auto 10. Qed.
