(* ===== verification/StorageFacts.v ===== *)
(** StorageFacts: what the operations of PebbleStorage write.

    Lemmas shared by the properties of Storage.v and Batch.v. The effect of an
    operation that succeeds is described once, as a list of database operations
    and an increment of the transaction counter ([applied]); the key space of
    KeySpace.v then tells which reads they change. *)
From S2P Require Import Prelude Eth Schema KeySpace KV Chain Storage Batch PrefixOps.

(** * Distinct keys *)

(** The logical key of a key function. *)
Ltac reify_key t :=
  lazymatch t with
  | LatestHeightKey => constr:(KLatestHeight)
  | TransactionCountKey => constr:(KTransactionCount)
  | BlockKey ?h => constr:(KBlock h)
  | TransactionKey ?h ?i => constr:(KTransaction h i)
  | ReceiptKey ?h => constr:(KReceipt h)
  | ContractAddressKey ?h => constr:(KContractAddress h)
  | TransactionHashIndexKey ?h => constr:(KTransactionHashIndex h)
  | BlockHashIndexKey ?h => constr:(KBlockHashIndex h)
  | AddressTransactionKey ?a ?i => constr:(KAddressTransaction a i)
  end.

(** Turn an equation between key functions into one between their arguments, and
    close the goal when the families differ. *)
Ltac key_eq H :=
  lazymatch type of H with
  | ?a = ?b =>
      let k1 := reify_key a in let k2 := reify_key b in
      let HE := lazymatch goal with HE : EthHexLaws _ |- _ => HE end in
      apply (same_key HE k1 k2 I I) in H;
      first [discriminate H | injection H as H | clear H]
  end.

(** A goal that says two key functions give different keys. *)
Ltac key_ne :=
  let H := fresh in intros H; key_eq H; subst; try congruence; try contradiction.

#[global] Arguments LatestHeightKey : simpl never.
#[global] Arguments TransactionCountKey : simpl never.
#[global] Arguments BlockKey : simpl never.
#[global] Arguments TransactionKey : simpl never.
#[global] Arguments ReceiptKey {_} : simpl never.
#[global] Arguments ContractAddressKey {_} : simpl never.
#[global] Arguments TransactionHashIndexKey {_} : simpl never.
#[global] Arguments BlockHashIndexKey {_} : simpl never.
#[global] Arguments AddressTransactionKey : simpl never.
#[global] Arguments EncodeUint64 : simpl never.

Section Facts.
Context {E : EthHex} {P : Pebble} {C : ChainTypes}
  {RB : RLP Block} {RT : RLP Tx} {RR : RLP Receipt} {RL : RLP TxLocation}.
Context (HE : EthHexLaws E) (HP : PebbleLaws P) (HC : ChainLaws C).

(** * Writes *)

Lemma last_write_unique ops k v :
  (k, v) ∈ ops -> (forall v', (k, v') ∈ ops -> v' = v) -> last_write ops k = Some v.
Proof.
  induction ops as [|[k' v'] ops IH]; intros Hin Hu; [by apply not_elem_of_nil in Hin|].
  cbn. destruct (decide (k ∈ ops.*1)) as [Hk|Hk].
  - apply list_elem_of_fmap in Hk as ([k1 v1] & -> & Hk). cbn in *.
    assert (v1 = v) as -> by (apply Hu; by right).
    rewrite IH; [done | done | intros; apply Hu; by right].
  - rewrite last_write_none by done. apply elem_of_cons in Hin as [[= -> ->]|Hin].
    + by rewrite decide_True.
    + destruct Hk. apply list_elem_of_fmap. by exists (k, v).
Qed.

Definition enc {A} {R : RLP A} (a : A) : bytes :=
  match rlp_Encode a with Ok b => b | Err _ => [] end.

Definition block_ops (b : Block) : list bop :=
  [ (BlockKey (block_height b), Some (enc b));
    (BlockHashIndexKey (block_Hash b), Some (EncodeUint64 (block_height b))) ].

Definition tx_ops (b : Block) (itx : Z * Tx) : list bop :=
  [ (TransactionKey (block_height b) (fst itx), Some (enc (snd itx)));
    (TransactionHashIndexKey (tx_Hash (snd itx)), Some (enc (tx_location b (fst itx)))) ].

Definition count_op (c : Z) : bop := (TransactionCountKey, Some (EncodeUint64 c)).

(** One transaction after another, each with its update of the counter. *)
Fixpoint seq_tx_ops (b : Block) (c : Z) (l : list (Z * Tx)) : list bop :=
  match l with
  | [] => []
  | itx :: l' =>
      tx_ops b itx ++ [count_op (u64 (c + 1))] ++ seq_tx_ops b (u64 (c + 1)) l'
  end.

(** [s'] is [s] after the operations [ops], with [n] more transactions counted. *)
Definition applied (s : PebbleStorage) (ops : list bop) (n : Z) (s' : PebbleStorage) : Prop :=
  s' = mkStorage (db s') (readOnly s) (closed s) (addrSeq s) (u64 (txCount s + n)) /\
  forall k, db_get (db s') k = pending s ops k.

Lemma u64_add_l a n : u64 (u64 a + n) = u64 (a + n).
Proof. unfold u64. by rewrite Zplus_mod_idemp_l. Qed.

Lemma applied_trans s1 ops1 n1 s2 ops2 n2 s3 :
  applied s1 ops1 n1 s2 -> applied s2 ops2 n2 s3 -> applied s1 (ops1 ++ ops2) (n1 + n2) s3.
Proof.
  intros [F1 G1] [F2 G2]. split.
  - rewrite F2, F1. cbn. by rewrite u64_add_l, Z.add_assoc.
  - intros k. rewrite G2. unfold pending. rewrite last_write_app.
    destruct (last_write ops2 k); [done|]. apply G1.
Qed.

Lemma applied_refl s : is_u64 (txCount s) -> applied s [] 0 s.
Proof. intros H. split; [|done]. rewrite Z.add_0_r, u64_id by done. by destruct s. Qed.

Lemma applied_dbWrite ops s r s' : is_u64 (txCount s) ->
  dbWrite ops s = (Ok r, s') -> applied s ops 0 s'.
Proof.
  intros Hu H. destruct r. split.
  - apply dbWrite_frame in H. rewrite H. cbn. by rewrite Z.add_0_r, u64_id by done.
  - intros k. by apply (dbWrite_pending HP) with (k := k) in H.
Qed.

Lemma applied_txCountAdd s n : applied s [] n (set_txCount (u64 (txCount s + n)) s).
Proof. by split. Qed.

Lemma applied_u64 s ops n s' : applied s ops n s' -> is_u64 (txCount s').
Proof. intros [-> _]. cbn. apply u64_range. Qed.

Lemma rlp_enc {A} {R : RLP A} (a : A) b : rlp_Encode a = Ok b -> enc a = b.
Proof. unfold enc. by intros ->. Qed.

Lemma SetTransaction_applied t loc s r s' : is_u64 (txCount s) ->
  SetTransaction (Some t) (Some loc) s = (Ok r, s') ->
  applied s [ (TransactionKey (BlockHeight loc) (TxIndex loc), Some (enc t));
              (TransactionHashIndexKey (tx_Hash t), Some (enc loc));
              count_op (u64 (txCount s + 1)) ] 1 s'.
Proof.
  intros Hu H. unfold SetTransaction, EncodeTransaction, EncodeTxLocation, dbSet in H.
  inv_op. repeat match goal with Hr : rlp_Encode _ = Ok _ |- _ => apply rlp_enc in Hr end.
  subst.
  repeat match goal with
    | Hw : dbWrite _ ?st = (Ok _, _) |- _ =>
        apply applied_dbWrite in Hw; [|first [done | by eapply applied_u64 | apply u64_range]]
    end.
  match goal with
  | H1 : applied s ?o1 0 ?s1, H2 : applied ?s1 ?o2 0 ?s2, H3 : applied _ ?o3 0 s' |- _ =>
      pose proof (applied_trans _ _ _ _ _ _ _
        (applied_trans _ _ _ _ _ _ _ (applied_trans _ _ _ _ _ _ _ H1 H2)
           (applied_txCountAdd s2 1)) H3) as Hall;
      destruct H1 as [F1 _], H2 as [F2 _]
  end.
  rewrite F2 in Hall. cbn [txCount app] in Hall. rewrite F1 in Hall. cbn [txCount app] in Hall.
  rewrite !Z.add_0_r, !(u64_id (txCount s)) in Hall by done.
  apply Hall.
Qed.

Lemma SetTransactions_applied b l s r s' : is_u64 (txCount s) ->
  forST (fun '(txIndex, tx) =>
           wrapST "failed to store transaction in block"
             (SetTransaction (Some tx) (Some (tx_location b txIndex)))) l s = (Ok r, s') ->
  applied s (seq_tx_ops b (txCount s) l) (Z.of_nat (length l)) s'.
Proof.
  revert s. induction l as [|[i t] l IH]; intros s Hu H; cbn [forST] in H.
  { inv_op. by apply applied_refl. }
  inv_op. apply SetTransaction_applied in H0; [|done].
  pose proof (applied_u64 _ _ _ _ H0) as Hu0. apply IH in H; [|done].
  pose proof (applied_trans _ _ _ _ _ _ _ H0 H) as Hall.
  assert (txCount s0 = u64 (txCount s + 1)) as Hc by (by destruct H0 as [-> _]).
  rewrite Hc in Hall. cbn [length seq_tx_ops].
  replace (Z.of_nat (S (length l))) with (1 + Z.of_nat (length l)) by lia.
  exact Hall.
Qed.

Definition set_block_ops (b : Block) (c : Z) : list bop :=
  block_ops b ++ seq_tx_ops b c (indexed (block_Transactions b)).

Definition tx_total (b : Block) : Z := Z.of_nat (length (block_Transactions b)).

Lemma length_indexed {A} (l : list A) : length (indexed l) = length l.
Proof. unfold indexed. rewrite length_zip_with, length_fmap, length_seq. lia. Qed.

Lemma elem_of_indexed {A} (l : list A) i x :
  (i, x) ∈ indexed l <-> exists n, i = Z.of_nat n /\ l !! n = Some x.
Proof.
  unfold indexed. rewrite list_elem_of_lookup. split.
  - intros [n Hn]. apply lookup_zip_with_Some in Hn as (j & y & [= -> ->] & Hj & Hy).
    rewrite list_lookup_fmap in Hj. destruct (seq 0 (length l) !! n) eqn:Es; [|done].
    apply lookup_seq in Es as [-> _]. injection Hj as <-. exists n. done.
  - intros (n & -> & Hn). exists n. apply lookup_zip_with_Some.
    exists (Z.of_nat n), x. split_and!; [done| |done].
    rewrite list_lookup_fmap, lookup_seq_lt; [done|]. by eapply lookup_lt_Some.
Qed.

Lemma SetBlock_applied b s r s' : is_u64 (txCount s) ->
  SetBlock (Some b) s = (Ok r, s') ->
  closed s = false /\ readOnly s = false /\ rlp_Encode b = Ok (enc b) /\
  applied s (set_block_ops b (txCount s)) (tx_total b) s'.
Proof.
  intros Hu H. unfold SetBlock, EncodeBlock, dbSet in H. inv_op.
  pose proof (rlp_enc _ _ H2) as He. subst.
  apply applied_dbWrite in H3; [|done].
  pose proof (applied_u64 _ _ _ _ H3) as Hu1. apply applied_dbWrite in H4; [|done].
  pose proof (applied_trans _ _ _ _ _ _ _ H3 H4) as H34.
  pose proof (applied_u64 _ _ _ _ H34) as Hu2.
  apply SetTransactions_applied in H; [|done].
  pose proof (applied_trans _ _ _ _ _ _ _ H34 H) as Hall.
  assert (txCount s4 = txCount s) as Hc.
  { destruct H34 as [-> _]. cbn [txCount]. by rewrite !Z.add_0_r, u64_id. }
  rewrite Hc, length_indexed in Hall. split_and!; [done..|]. exact Hall.
Qed.

(** * Batches *)

(** The batch collected [ops], counting [c] operations and [n] transactions; the
    storage is as before. *)
Definition batched (sb : PebbleStorage * pebbleBatch) (ops : list bop) (c n : Z)
  (sb' : PebbleStorage * pebbleBatch) : Prop :=
  sb' = (fst sb, mkBatch (b_ops (snd sb) ++ ops) (b_count (snd sb) + c)
                   (u64 (b_txCount (snd sb) + n)) (b_closed (snd sb))).

Lemma batched_trans sb1 o1 c1 n1 sb2 o2 c2 n2 sb3 :
  batched sb1 o1 c1 n1 sb2 -> batched sb2 o2 c2 n2 sb3 ->
  batched sb1 (o1 ++ o2) (c1 + c2) (n1 + n2) sb3.
Proof.
  unfold batched. intros -> ->. cbn. by rewrite app_assoc, u64_add_l, !Z.add_assoc.
Qed.

Lemma batchSet_ok k v sb r sb' : is_u64 (b_txCount (snd sb)) ->
  batchSet k v sb = (Ok r, sb') -> batched sb [(k, Some v)] 0 0 sb'.
Proof.
  destruct sb as [s b]. unfold batchSet, batchWrite, batched. cbn. intros Hu.
  destruct (batch_add_err _ _); [done|]. intros [= <- <-].
  by rewrite !Z.add_0_r, u64_id.
Qed.

Lemma count_add_ok n sb r sb' : is_u64 (b_txCount (snd sb)) ->
  on_batch (count_add n) sb = (Ok r, sb') -> batched sb [] n 0 sb'.
Proof.
  destruct sb as [s b]. unfold batched. cbn. intros Hu [= <- <-].
  by rewrite app_nil_r, Z.add_0_r, u64_id.
Qed.

Lemma txCount_incr_ok sb r sb' :
  on_batch txCount_incr sb = (Ok r, sb') -> batched sb [] 0 1 sb'.
Proof.
  destruct sb as [s b]. unfold batched. cbn. intros [= <- <-].
  by rewrite app_nil_r, Z.add_0_r.
Qed.

Lemma batched_u64 sb o c n sb' : batched sb o c n sb' -> is_u64 (b_txCount (snd sb')).
Proof. intros ->. apply u64_range. Qed.

Lemma ensureOpen_ok sb r sb' :
  ensureOpen sb = (Ok r, sb') -> b_closed (snd sb) = false /\ sb' = sb.
Proof. destruct sb as [s b]. cbn. by destruct (b_closed b); intros [= <- <-]. Qed.

Lemma b_SetTransaction_batched b i t sb r sb' : is_u64 (b_txCount (snd sb)) ->
  b_SetTransaction (Some t) (Some (tx_location b i)) sb = (Ok r, sb') ->
  batched sb (tx_ops b (i, t)) 2 1 sb'.
Proof.
  intros Hu H. unfold b_SetTransaction, EncodeTransaction, EncodeTxLocation in H. inv_op.
  apply ensureOpen_ok in H0 as [_ ->].
  repeat match goal with Hr : rlp_Encode _ = Ok _ |- _ => apply rlp_enc in Hr end. subst.
  apply batchSet_ok in H3; [|done]. pose proof (batched_u64 _ _ _ _ _ H3).
  apply batchSet_ok in H4; [|done]. pose proof (batched_trans _ _ _ _ _ _ _ _ _ H3 H4) as H34.
  apply count_add_ok in H5; [|by eapply batched_u64].
  apply txCount_incr_ok in H.
  exact (batched_trans _ _ _ _ _ _ _ _ _ (batched_trans _ _ _ _ _ _ _ _ _ H34 H5) H).
Qed.

Lemma b_SetTransactions_batched b l sb r sb' : is_u64 (b_txCount (snd sb)) ->
  forST (fun '(txIndex, tx) =>
           wrapST "failed to store transaction in block"
             (b_SetTransaction (Some tx) (Some (tx_location b txIndex)))) l sb = (Ok r, sb') ->
  batched sb (flat_map (tx_ops b) l) (2 * Z.of_nat (length l)) (Z.of_nat (length l)) sb'.
Proof.
  revert sb. induction l as [|[i t] l IH]; intros sb Hu H; cbn [forST] in H.
  { inv_op. destruct sb' as [s [ops cnt tc cl]]. unfold batched. cbn in *.
    by rewrite app_nil_r, !Z.add_0_r, u64_id by done. }
  inv_op. apply b_SetTransaction_batched in H0; [|done].
  apply IH in H; [|by eapply batched_u64].
  pose proof (batched_trans _ _ _ _ _ _ _ _ _ H0 H) as Hall.
  cbn [length flat_map].
  replace (2 * Z.of_nat (S (length l))) with (2 + 2 * Z.of_nat (length l)) by lia.
  replace (Z.of_nat (S (length l))) with (1 + Z.of_nat (length l)) by lia.
  exact Hall.
Qed.

Definition batch_block_ops (b : Block) : list bop :=
  block_ops b ++ flat_map (tx_ops b) (indexed (block_Transactions b)).

Lemma b_SetBlock_batched b sb r sb' : is_u64 (b_txCount (snd sb)) ->
  b_SetBlock (Some b) sb = (Ok r, sb') ->
  batched sb (batch_block_ops b) (2 + 2 * tx_total b) (tx_total b) sb'.
Proof.
  intros Hu H. unfold b_SetBlock, EncodeBlock in H. inv_op.
  apply ensureOpen_ok in H0 as [_ ->]. pose proof (rlp_enc _ _ H1). subst.
  apply batchSet_ok in H2; [|done]. pose proof (batched_u64 _ _ _ _ _ H2).
  apply batchSet_ok in H3; [|done]. pose proof (batched_trans _ _ _ _ _ _ _ _ _ H2 H3) as H23.
  apply count_add_ok in H4; [|by eapply batched_u64].
  pose proof (batched_trans _ _ _ _ _ _ _ _ _ H23 H4) as H24.
  apply b_SetTransactions_batched in H; [|by eapply batched_u64].
  rewrite length_indexed in H.
  exact (batched_trans _ _ _ _ _ _ _ _ _ H24 H).
Qed.

(** The counter updates between transactions only matter for the counter. *)
Lemma seq_tx_ops_other b l c k : k <> TransactionCountKey ->
  last_write (seq_tx_ops b c l) k = last_write (flat_map (tx_ops b) l) k.
Proof.
  intros Hk. revert c. induction l as [|itx l IH]; intros c; [done|].
  cbn [seq_tx_ops flat_map]. unfold count_op. rewrite !last_write_app, IH.
  cbn [last_write]. rewrite decide_False by done.
  by destruct (last_write (flat_map (tx_ops b) l) k).
Qed.

Lemma seq_tx_ops_count b l c : l <> [] ->
  last_write (seq_tx_ops b c l) TransactionCountKey =
  Some (Some (EncodeUint64 (u64 (c + Z.of_nat (length l))))).
Proof.
  revert c. induction l as [|itx l IH]; intros c Hl; [done|].
  cbn [seq_tx_ops]. unfold count_op. rewrite !last_write_app. destruct l as [|itx' l].
  { cbn [seq_tx_ops last_write length]. by rewrite decide_True. }
  rewrite IH by done. rewrite u64_add_l. do 4 f_equal. cbn [length]. lia.
Qed.

End Facts.
