(* ===== verification/StorageProps.v ===== *)
(** StorageProps: from writes to reads.

    The lemmas that the properties of the store share: which keys the writes of a
    block set, what the readers return when those writes are the last ones, and the
    writes of every batch operation. *)
From stdpp Require Import sorting.
From S2P Require Import Prelude Eth Schema KeySpace KV Chain Storage Batch PrefixOps.
From S2P Require Import StorageFacts.

Lemma DecodeUint64_Encode n : is_u64 n -> DecodeUint64 (EncodeUint64 n) = Ok n.
Proof.
  intros H. unfold DecodeUint64, EncodeUint64. rewrite length_be_put. cbn [Nat.eqb negb].
  rewrite be_get_put. by rewrite Z.mod_small.
Qed.

Section Props.
Context {E : EthHex} {P : Pebble} {C : ChainTypes}
  {RB : RLP Block} {RT : RLP Tx} {RR : RLP Receipt} {RL : RLP TxLocation}.
Context (HE : EthHexLaws E) (HP : PebbleLaws P) (HC : ChainLaws C).

(** * What the writes of a block contain *)

Abbreviation tx_writes b := (flat_map (tx_ops b) (indexed (block_Transactions b))).

Lemma elem_of_tx_writes b k v :
  (k, v) ∈ tx_writes b <->
  exists i t, (i, t) ∈ indexed (block_Transactions b) /\ (k, v) ∈ tx_ops b (i, t).
Proof.
  rewrite list_elem_of_In, in_flat_map. split.
  - intros ([i t] & H1 & H2). exists i, t. by rewrite !list_elem_of_In.
  - intros (i & t & H1 & H2). exists (i, t). by rewrite <- !list_elem_of_In.
Qed.

Lemma tx_writes_none b k :
  (forall i t, (i, t) ∈ indexed (block_Transactions b) ->
     k <> TransactionKey (block_height b) i /\ k <> TransactionHashIndexKey (tx_Hash t)) ->
  last_write (tx_writes b) k = None.
Proof.
  intros Hk. apply last_write_none. intros ([k' v] & -> & Hin)%list_elem_of_fmap.
  apply elem_of_tx_writes in Hin as (i & t & Hi & Ho). destruct (Hk i t Hi) as [H1 H2].
  unfold tx_ops in Ho. rewrite !elem_of_cons, elem_of_nil in Ho. cbn in *.
  destruct Ho as [Ho|[Ho|[]]]; apply pair_equal_spec in Ho as [? ?]; congruence.
Qed.

Lemma writes_block b h :
  last_write (batch_block_ops b) (BlockKey h) =
  if decide (h = block_height b) then Some (Some (enc b)) else None.
Proof.
  unfold batch_block_ops, block_ops. rewrite last_write_app, tx_writes_none
    by (intros; split; key_ne).
  cbn [last_write].
  rewrite (decide_False (P := BlockKey h = BlockHashIndexKey _)) by key_ne.
  case_decide as H1; case_decide as H2; try done.
  - key_eq H1. congruence.
  - subst. congruence.
Qed.

Lemma writes_hash b x :
  last_write (batch_block_ops b) (BlockHashIndexKey x) =
  if decide (x = block_Hash b) then Some (Some (EncodeUint64 (block_height b))) else None.
Proof.
  unfold batch_block_ops, block_ops. rewrite last_write_app, tx_writes_none
    by (intros; split; key_ne).
  cbn [last_write].
  rewrite (decide_False (P := BlockHashIndexKey x = BlockKey _)) by key_ne.
  case_decide as H1; case_decide as H2; try done.
  - key_eq H1. congruence.
  - subst. congruence.
Qed.

Lemma indexed_inj {A} (l : list A) i x y :
  (i, x) ∈ indexed l -> (i, y) ∈ indexed l -> x = y.
Proof.
  rewrite !elem_of_indexed. intros (n & -> & Hx) (m & Hm & Hy).
  apply Nat2Z.inj in Hm. congruence.
Qed.

Lemma writes_tx b i t : (i, t) ∈ indexed (block_Transactions b) ->
  last_write (batch_block_ops b) (TransactionKey (block_height b) i) = Some (Some (enc t)).
Proof.
  intros Hi. unfold batch_block_ops. rewrite last_write_app.
  rewrite (last_write_unique _ _ (Some (enc t))); [done| |].
  - apply elem_of_tx_writes. exists i, t. split; [done|]. by left.
  - intros v Hv. apply elem_of_tx_writes in Hv as (j & t' & Hj & Ho).
    unfold tx_ops in Ho. rewrite !elem_of_cons, elem_of_nil in Ho. cbn in Ho.
    destruct Ho as [Ho|[Ho|[]]]; apply pair_equal_spec in Ho as [Hk Hv]; key_eq Hk; subst.
    by rewrite (indexed_inj _ _ _ _ Hi Hj).
Qed.

Lemma writes_txhash b i t : NoDup (tx_Hash <$> block_Transactions b) ->
  (i, t) ∈ indexed (block_Transactions b) ->
  last_write (batch_block_ops b) (TransactionHashIndexKey (tx_Hash t)) =
  Some (Some (enc (tx_location b i))).
Proof.
  intros Hnd Hi. unfold batch_block_ops. rewrite last_write_app.
  rewrite (last_write_unique _ _ (Some (enc (tx_location b i)))); [done| |].
  - apply elem_of_tx_writes. exists i, t. split; [done|]. right. by left.
  - intros v Hv. apply elem_of_tx_writes in Hv as (j & t' & Hj & Ho).
    unfold tx_ops in Ho. rewrite !elem_of_cons, elem_of_nil in Ho. cbn in Ho.
    destruct Ho as [Ho|[Ho|[]]]; apply pair_equal_spec in Ho as [Hk ->]; key_eq Hk.
    apply elem_of_indexed in Hi as (n & -> & Hn), Hj as (m & -> & Hm).
    do 3 f_equal. apply Nat2Z.inj_iff.
    apply (NoDup_lookup _ _ _ (tx_Hash t) Hnd); rewrite list_lookup_fmap.
    + rewrite Hm. cbn. by rewrite Hk.
    + by rewrite Hn.
Qed.

Lemma set_block_other b c k : k <> TransactionCountKey ->
  last_write (set_block_ops b c) k = last_write (batch_block_ops b) k.
Proof.
  intros Hk. unfold set_block_ops, batch_block_ops.
  by rewrite !last_write_app, seq_tx_ops_other.
Qed.

(** * Reading *)

Definition open (s : PebbleStorage) : Prop := closed s = false.

Lemma GetBlock_eval s h : open s ->
  GetBlock h s =
  (match db_get (db s) (BlockKey h) with
   | Err e => Err (Wrap "failed to get block" e)
   | Ok None => Err ErrNotFound
   | Ok (Some v) => wrap_err "failed to decode block" (DecodeBlock v)
   end, s).
Proof.
  intros H. unfold GetBlock, ensureNotClosed, mbind, ST_bind, wrapST, dbGet.
  rewrite H. by destruct (db_get _ _) as [[v|]|e].
Qed.

Lemma GetBlockByHash_eval s x : open s ->
  GetBlockByHash x s =
  match db_get (db s) (BlockHashIndexKey x) with
  | Err e => (Err (Wrap "failed to get block hash index" e), s)
  | Ok None => (Err ErrNotFound, s)
  | Ok (Some v) =>
      match wrap_err "failed to decode block height" (DecodeUint64 v) with
      | Ok h => GetBlock h s
      | Err e => (Err e, s)
      end
  end.
Proof.
  intros H. unfold GetBlockByHash, ensureNotClosed, mbind, ST_bind, wrapST, dbGet, lift.
  rewrite H. destruct (db_get _ _) as [[v|]|e]; cbn; [|done..].
  by destruct (DecodeUint64 v).
Qed.

Lemma GetTransaction_stored s x loc t : open s ->
  db_get (db s) (TransactionHashIndexKey x) = Ok (Some (enc loc)) ->
  db_get (db s) (TransactionKey (BlockHeight loc) (TxIndex loc)) = Ok (Some (enc t)) ->
  rlp_Encode loc = Ok (enc loc) -> rlp_Encode t = Ok (enc t) ->
  GetTransaction x s = (Ok (t, loc), s).
Proof.
  intros Ho H1 H2 El Et. unfold GetTransaction, ensureNotClosed, mbind, ST_bind, wrapST, dbGet.
  rewrite Ho, H1. cbn. rewrite (DecodeTxLocation_Encode loc) by (cbn; by rewrite El).
  cbn. rewrite H2. cbn. rewrite (DecodeTransaction_Encode t) by (cbn; by rewrite Et).
  done.
Qed.

Lemma pending_some s ops k v : last_write ops k = Some v -> pending s ops k = Ok v.
Proof. unfold pending. by intros ->. Qed.

Lemma pending_none s ops k : last_write ops k = None -> pending s ops k = db_get (db s) k.
Proof. unfold pending. by intros ->. Qed.

(** A storage whose database reads as if the block had just been written. *)
Definition reads_block (b : Block) (s : PebbleStorage) : Prop :=
  db_get (db s) (BlockKey (block_height b)) = Ok (Some (enc b)) /\
  db_get (db s) (BlockHashIndexKey (block_Hash b)) = Ok (Some (EncodeUint64 (block_height b))) /\
  forall i t, (i, t) ∈ indexed (block_Transactions b) ->
    db_get (db s) (TransactionKey (block_height b) i) = Ok (Some (enc t)) /\
    db_get (db s) (TransactionHashIndexKey (tx_Hash t)) = Ok (Some (enc (tx_location b i))).

(** All of the block's parts encode. *)
Definition encodable (b : Block) : Prop :=
  rlp_Encode b = Ok (enc b) /\
  forall i t, (i, t) ∈ indexed (block_Transactions b) ->
    rlp_Encode t = Ok (enc t) /\ rlp_Encode (tx_location b i) = Ok (enc (tx_location b i)).

Lemma reads_block_get b s : open s -> reads_block b s -> encodable b ->
  GetBlock (block_height b) s = (Ok b, s) /\
  GetBlockByHash (block_Hash b) s = (Ok b, s) /\
  forall i t, (i, t) ∈ indexed (block_Transactions b) ->
    GetTransaction (tx_Hash t) s = (Ok (t, tx_location b i), s).
Proof.
  intros Ho (H1 & H2 & H3) (E1 & E2).
  assert (Hb : GetBlock (block_height b) s = (Ok b, s)).
  { rewrite GetBlock_eval, H1, (DecodeBlock_Encode b) by (done || (cbn; by rewrite E1)). done. }
  split_and!; [done | |].
  - rewrite GetBlockByHash_eval, H2, DecodeUint64_Encode by (done || apply u64_range). done.
  - intros i t Hi. destruct (H3 i t Hi), (E2 i t Hi).
    by eapply GetTransaction_stored.
Qed.

Lemma SetTransactions_encodable b l s r s' :
  forST (fun '(txIndex, tx) =>
           wrapST "failed to store transaction in block"
             (SetTransaction (Some tx) (Some (tx_location b txIndex)))) l s = (Ok r, s') ->
  forall i t, (i, t) ∈ l ->
    rlp_Encode t = Ok (enc t) /\ rlp_Encode (tx_location b i) = Ok (enc (tx_location b i)).
Proof.
  revert s. induction l as [|[j u] l IH]; intros s H i t Hi; [by apply not_elem_of_nil in Hi|].
  cbn [forST] in H. inv_op.
  apply elem_of_cons in Hi as [[= -> ->]|Hi]; [|by eapply IH].
  unfold SetTransaction, EncodeTransaction, EncodeTxLocation in H0. inv_op.
  by erewrite !rlp_enc by eassumption.
Qed.

Lemma SetBlock_encodable b s r s' : SetBlock (Some b) s = (Ok r, s') -> encodable b.
Proof.
  intros H. unfold SetBlock, EncodeBlock in H. inv_op. split.
  - by erewrite rlp_enc by eassumption.
  - intros i t Hi. eapply SetTransactions_encodable; eassumption.
Qed.

(** * Batches against one-by-one writes *)

Fixpoint seq_blocks_ops (c : Z) (bs : list Block) : list bop :=
  match bs with
  | [] => []
  | b :: bs' => set_block_ops b c ++ seq_blocks_ops (u64 (c + tx_total b)) bs'
  end.

Definition total (bs : list Block) : Z :=
  Z.of_nat (length (mjoin (block_Transactions <$> bs))).

Lemma total_cons b bs : total (b :: bs) = tx_total b + total bs.
Proof.
  unfold total, tx_total. cbn [fmap list_fmap mjoin list_join].
  rewrite length_app, Nat2Z.inj_add. done.
Qed.

Lemma SetBlocks_seq_applied bs s r s' : is_u64 (txCount s) ->
  forST SetBlock (Some <$> bs) s = (Ok r, s') ->
  applied s (seq_blocks_ops (txCount s) bs) (total bs) s'.
Proof.
  revert s. induction bs as [|b bs IH]; intros s Hu H; cbn [fmap list_fmap forST] in H.
  { inv_op. by apply applied_refl. }
  inv_op. apply (SetBlock_applied HP) in H0 as (_ & _ & _ & H0); [|done].
  pose proof (applied_u64 _ _ _ _ H0). apply IH in H; [|done].
  pose proof (applied_trans _ _ _ _ _ _ _ H0 H) as Hall. rewrite total_cons.
  assert (txCount s0 = u64 (txCount s + tx_total b)) as Hc by by destruct H0 as [-> _].
  rewrite Hc in Hall. exact Hall.
Qed.

Lemma seq_blocks_other bs c k : k <> TransactionCountKey ->
  last_write (seq_blocks_ops c bs) k = last_write (flat_map batch_block_ops bs) k.
Proof.
  intros Hk. revert c. induction bs as [|b bs IH]; intros c; [done|].
  cbn [seq_blocks_ops flat_map]. by rewrite !last_write_app, IH, set_block_other.
Qed.

Lemma block_ops_count b : last_write (block_ops b) TransactionCountKey = None.
Proof.
  apply last_write_none. unfold block_ops. cbn.
  rewrite !not_elem_of_cons. split_and!; [key_ne..|apply not_elem_of_nil].
Qed.

Lemma batch_block_count b : last_write (batch_block_ops b) TransactionCountKey = None.
Proof.
  unfold batch_block_ops. rewrite last_write_app, tx_writes_none, block_ops_count; [done|].
  intros; split; key_ne.
Qed.

Lemma seq_blocks_count bs c : is_u64 c ->
  last_write (seq_blocks_ops c bs) TransactionCountKey =
  if total bs =? 0 then None else Some (Some (EncodeUint64 (u64 (c + total bs)))).
Proof.
  revert c. induction bs as [|b bs IH]; intros c Hc; [done|].
  cbn [seq_blocks_ops]. rewrite last_write_app, IH, total_cons by apply u64_range.
  unfold set_block_ops. rewrite last_write_app.
  assert (0 <= total bs) by (unfold total; lia). unfold tx_total.
  destruct (Z.eqb_spec (total bs) 0) as [->|Hn].
  - destruct (block_Transactions b) as [|t l] eqn:Et.
    + cbn [indexed length seq zip zip_with fmap list_fmap seq_tx_ops last_write].
      by rewrite block_ops_count.
    + rewrite seq_tx_ops_count by done. rewrite length_indexed, Z.add_0_r.
      destruct (Z.eqb_spec (Z.of_nat (length (t :: l))) 0); [cbn in *; lia|done].
  - destruct (Z.eqb_spec (Z.of_nat (length (block_Transactions b)) + total bs) 0); [lia|].
    by rewrite u64_add_l, Z.add_assoc.
Qed.

Lemma b_SetBlocks_batched bs sb r sb' : is_u64 (b_txCount (snd sb)) ->
  forST (fun block => wrapST "failed to add block to batch" (b_SetBlock block))
    (Some <$> bs) sb = (Ok r, sb') ->
  exists c, batched sb (flat_map batch_block_ops bs) c (total bs) sb'.
Proof.
  revert sb. induction bs as [|b bs IH]; intros sb Hu H; cbn [fmap list_fmap forST] in H.
  { inv_op. exists 0. destruct sb' as [s [ops cnt tc cl]]. unfold batched. cbn in *.
    by rewrite app_nil_r, !Z.add_0_r, u64_id. }
  inv_op. apply b_SetBlock_batched in H0; [|done].
  apply IH in H as [c H]; [|by eapply batched_u64]. rewrite total_cons.
  eexists. exact (batched_trans _ _ _ _ _ _ _ _ _ H0 H).
Qed.

Lemma batchCommit_applied sb r sb' : is_u64 (txCount (fst sb)) ->
  batchCommit sb = (Ok r, sb') ->
  applied (fst sb) (b_ops (snd sb)) 0 (fst sb') /\ snd sb' = snd sb.
Proof.
  destruct sb as [s b]. unfold batchCommit. intros Hu.
  destruct (dbWrite (b_ops b) s) as [[u|e] s1] eqn:Hw; intros [= <- <-].
  split; [|done]. by apply (applied_dbWrite HP) in Hw.
Qed.

Lemma on_storage_ok {A} (m : op A) sb a sb' :
  on_storage m sb = (Ok a, sb') -> m (fst sb) = (Ok a, fst sb') /\ snd sb' = snd sb.
Proof.
  destruct sb as [s b]. unfold on_storage. cbn.
  destruct (m s) as [r s1]. by intros [= -> <-].
Qed.

Lemma b_Commit_applied sb r sb' :
  is_u64 (txCount (fst sb)) -> is_u64 (b_txCount (snd sb)) ->
  b_Commit sb = (Ok r, sb') ->
  let n := b_txCount (snd sb) in
  applied (fst sb)
    (b_ops (snd sb) ++ (if 0 <? n then [count_op (u64 (txCount (fst sb) + n))] else []))
    n (fst sb').
Proof.
  intros Hu Hn H n. unfold b_Commit in H. inv_op. apply ensureOpen_ok in H0 as [_ ->].
  fold n in H2. destruct (Z.ltb_spec 0 n) as [Hpos|Hz].
  - inv_op. apply on_storage_ok in H0 as [H0 Hb]. inv_op.
    apply txCountAdd_ok in H0 as [-> Hs].
    unfold tryST in H2. destruct (batchSet _ _ s) as [[v|e] s3] eqn:Hset; inv_op.
    apply batchSet_ok in Hset; [|by rewrite Hb].
    unfold batched in Hset. subst s1. apply batchCommit_applied in H as [H _].
    + cbn [fst snd b_ops] in H. rewrite Hb, Hs in H.
      pose proof (applied_trans _ _ _ _ _ _ _ (applied_txCountAdd (fst sb) n) H) as Hall.
      rewrite Z.add_0_r in Hall. exact Hall.
    + cbn [fst]. rewrite Hs. apply u64_range.
  - inv_op. apply batchCommit_applied in H as [H _]; [|done].
    rewrite app_nil_r. assert (n = 0) as -> by (destruct Hn; lia). done.
Qed.

Lemma with_batch_ok {A} (m : bop_st A) s a s' :
  with_batch m s = (Ok a, s') -> exists b', m (s, NewBatch) = (Ok a, (s', b')).
Proof.
  unfold with_batch. destruct (m (s, NewBatch)) as [r [s1 b]]. intros [= -> <-]. eauto.
Qed.

(** * Receipts in a batch *)

Definition receipt_ops (h : Hash) (r : Receipt) : list bop :=
  (ReceiptKey h, Some (enc r)) ::
  (if has_contract r then [(ContractAddressKey h, Some (proj1_sig (ContractAddress r)))]
   else []).

Definition swr_ops (b : Block) (m : gmap Hash Receipt) (itx : Z * Tx) : list bop :=
  tx_ops b itx ++
  match m !! tx_Hash (snd itx) with
  | Some r => receipt_ops (tx_Hash (snd itx)) r
  | None => []
  end.

Lemma swr_tx_batched b m itx sb r sb' : is_u64 (b_txCount (snd sb)) ->
  swr_tx b m itx sb = (Ok r, sb') ->
  batched sb (swr_ops b m itx) 0 0 sb' /\
  rlp_Encode (snd itx) = Ok (enc (snd itx)) /\
  rlp_Encode (tx_location b (fst itx)) = Ok (enc (tx_location b (fst itx))) /\
  forall rc, m !! tx_Hash (snd itx) = Some rc ->
    validateReceipt (Some rc) = Ok tt /\ rlp_Encode rc = Ok (enc rc).
Proof.
  intros Hu H. destruct itx as [i t]. unfold swr_tx, EncodeTransaction, EncodeTxLocation in H.
  inv_op. pose proof (rlp_enc _ _ H0). pose proof (rlp_enc _ _ H1). subst. cbn [fst snd].
  apply batchSet_ok in H2; [|done]. pose proof (batched_u64 _ _ _ _ _ H2).
  apply batchSet_ok in H3; [|done]. pose proof (batched_trans _ _ _ _ _ _ _ _ _ H2 H3) as H23.
  unfold swr_ops. cbn [fst snd]. destruct (m !! tx_Hash t) as [rc|] eqn:Hm.
  - unfold EncodeReceipt in H. inv_op. destruct r0. pose proof (rlp_enc _ _ H6). subst.
    apply batchSet_ok in H7; [|by eapply batched_u64].
    pose proof (batched_trans _ _ _ _ _ _ _ _ _ H23 H7) as H27.
    split_and!; [|done|done|by intros ? [= <-]].
    unfold receipt_ops. destruct (has_contract rc).
    + apply wrapST_ok, batchSet_ok in H; [|by eapply batched_u64].
      exact (batched_trans _ _ _ _ _ _ _ _ _ H27 H).
    + inv_op. exact H27.
  - inv_op. split_and!; [|done..]. by rewrite app_nil_r.
Qed.

Lemma swr_txs_batched b m l sb r sb' : is_u64 (b_txCount (snd sb)) ->
  forST (swr_tx b m) l sb = (Ok r, sb') ->
  batched sb (flat_map (swr_ops b m) l) 0 0 sb' /\
  forall itx, itx ∈ l ->
    rlp_Encode (snd itx) = Ok (enc (snd itx)) /\
    rlp_Encode (tx_location b (fst itx)) = Ok (enc (tx_location b (fst itx))) /\
    forall rc, m !! tx_Hash (snd itx) = Some rc ->
      validateReceipt (Some rc) = Ok tt /\ rlp_Encode rc = Ok (enc rc).
Proof.
  revert sb. induction l as [|itx l IH]; intros sb Hu H; cbn [forST] in H.
  { inv_op. split; [|by intros ? ?%not_elem_of_nil].
    destruct sb' as [s [ops cnt tc cl]]. unfold batched. cbn in *.
    by rewrite app_nil_r, !Z.add_0_r, u64_id. }
  inv_op. apply swr_tx_batched in H0 as [H0 He]; [|done].
  apply IH in H as [H Hl]; [|by eapply batched_u64]. split.
  - exact (batched_trans _ _ _ _ _ _ _ _ _ H0 H).
  - intros itx' [->|Hin]%elem_of_cons; [exact He | auto].
Qed.

Definition swr_all_ops (b : Block) (m : gmap Hash Receipt) (c : Z) : list bop :=
  block_ops b ++ flat_map (swr_ops b m) (indexed (block_Transactions b)) ++
  [count_op c; (LatestHeightKey, Some (EncodeUint64 (block_height b)))].

Lemma SetBlockWithReceipts_applied b rs s r s' : is_u64 (txCount s) ->
  SetBlockWithReceipts (Some b) rs s = (Ok r, s') ->
  open s /\ encodable b /\
  (forall i t rc, (i, t) ∈ indexed (block_Transactions b) ->
     receipt_map rs !! tx_Hash t = Some rc ->
     validateReceipt (Some rc) = Ok tt /\ rlp_Encode rc = Ok (enc rc)) /\
  applied s (swr_all_ops b (receipt_map rs) (u64 (txCount s + tx_total b))) (tx_total b) s'.
Proof.
  intros Hu H. unfold SetBlockWithReceipts, EncodeBlock in H. inv_op.
  apply with_batch_ok in H as [b' H]. pose proof (rlp_enc _ _ H2) as He. subst.
  unfold swr_body in H. inv_op.
  apply batchSet_ok in H3; [|done]. pose proof (batched_u64 _ _ _ _ _ H3).
  apply batchSet_ok in H4; [|done]. pose proof (batched_trans _ _ _ _ _ _ _ _ _ H3 H4) as H34.
  apply swr_txs_batched in H5 as [H5 Henc]; [|by eapply batched_u64].
  pose proof (batched_trans _ _ _ _ _ _ _ _ _ H34 H5) as H35.
  apply on_storage_ok in H6 as [H6 Hb6]. inv_op.
  apply txCountAdd_ok in H6 as [-> Hs6].
  pose proof (batched_u64 _ _ _ _ _ H35) as Hu6. rewrite <- Hb6 in Hu6.
  apply batchSet_ok in H7; [|done]. pose proof (batched_u64 _ _ _ _ _ H7).
  apply batchSet_ok in H8; [|done].
  pose proof (batched_trans _ _ _ _ _ _ _ _ _ H7 H8) as H78.
  apply batchCommit_applied in H as [H _]; cycle 1.
  { rewrite H78. cbn [fst]. rewrite Hs6. apply u64_range. }
  rewrite H78 in H. cbn [fst snd b_ops] in H. rewrite Hb6, Hs6 in H.
  rewrite H35 in H. cbn [fst snd b_ops NewBatch] in H.
  split_and!; [done| | |].
  - split; [done|]. intros i t Hi. by destruct (Henc _ Hi) as (? & ? & _).
  - intros i t rc Hi Hm. destruct (Henc _ Hi) as (_ & _ & Hr). by apply Hr.
  - pose proof (applied_trans _ _ _ _ _ _ _ (applied_txCountAdd s (tx_total b)) H) as Hall.
    rewrite Z.add_0_r in Hall. unfold swr_all_ops. rewrite app_assoc. exact Hall.
Qed.

End Props.
