(* ===== verification/StorageReads.v ===== *)
(** StorageReads: reading after writing.

    Which reads an effect can change (frames), what a block with receipts writes
    key by key, the operations on a database that does not fail, and how a stored
    receipt is read. Shared by the properties of StorageThms.v. *)
From S2P Require Import Prelude Eth Schema KeySpace KV Chain Storage Batch PrefixOps.
From S2P Require Import StorageFacts StorageProps.

Section Reads.
Context {E : EthHex} {P : Pebble} {C : ChainTypes}
  {RB : RLP Block} {RT : RLP Tx} {RR : RLP Receipt} {RL : RLP TxLocation}.
Context (HE : EthHexLaws E) (HP : PebbleLaws P) (HC : ChainLaws C).

(** * Frames: which reads an effect can change *)

Lemma applied_open s ops n s' : applied s ops n s' -> closed s' = closed s.
Proof. by intros [-> _]. Qed.

Lemma applied_get s ops n s' k : applied s ops n s' -> last_write ops k = None ->
  db_get (db s') k = db_get (db s) k.
Proof. intros [_ H] Hn. by rewrite H, pending_none. Qed.

Lemma applied_hit s ops n s' k v : applied s ops n s' -> last_write ops k = Some v ->
  db_get (db s') k = Ok v.
Proof. intros [_ H] Hn. rewrite H. by apply pending_some. Qed.

Lemma GetBlock_frame s s' h : closed s' = closed s ->
  db_get (db s') (BlockKey h) = db_get (db s) (BlockKey h) ->
  fst (GetBlock h s') = fst (GetBlock h s).
Proof.
  intros Hc Hk. unfold GetBlock, ensureNotClosed, mbind, ST_bind, wrapST, dbGet.
  rewrite Hc, Hk. clear. destruct (closed s); [done|]. by destruct (db_get _ _) as [[v|]|e].
Qed.

Lemma GetReceipt_frame s s' x : closed s' = closed s ->
  db_get (db s') (ReceiptKey x) = db_get (db s) (ReceiptKey x) ->
  db_get (db s') (ContractAddressKey x) = db_get (db s) (ContractAddressKey x) ->
  fst (GetReceipt x s') = fst (GetReceipt x s).
Proof.
  intros Hc Hk Ha. unfold GetReceipt, ensureNotClosed, tryST, mbind, ST_bind, wrapST, dbGet, lift.
  rewrite Hc, Hk. clear -Ha. destruct (closed s); [done|].
  destruct (db_get _ (ReceiptKey x)) as [[v|]|e]; cbn; try done.
  destruct (DecodeReceipt v); cbn; [|done]. rewrite Ha. clear.
  by destruct (db_get _ (ContractAddressKey x)) as [[w|]|e].
Qed.

Lemma GetLatestHeight_frame s s' : closed s' = closed s ->
  db_get (db s') LatestHeightKey = db_get (db s) LatestHeightKey ->
  fst (GetLatestHeight s') = fst (GetLatestHeight s).
Proof.
  intros Hc Hk. unfold GetLatestHeight, ensureNotClosed, mbind, ST_bind, wrapST, dbGet.
  rewrite Hc, Hk. clear. destruct (closed s); [done|]. by destruct (db_get _ _) as [[v|]|e].
Qed.

Lemma elem_of_set_block_ops b k v : (k, v) ∈ batch_block_ops b ->
  (k = BlockKey (block_height b)) \/ (k = BlockHashIndexKey (block_Hash b)) \/
  exists i t, (i, t) ∈ indexed (block_Transactions b) /\
    (k = TransactionKey (block_height b) i \/ k = TransactionHashIndexKey (tx_Hash t)).
Proof.
  unfold batch_block_ops, block_ops. rewrite elem_of_app, !elem_of_cons, elem_of_nil.
  intros [[H|[H|[]]]|H]; [apply pair_equal_spec in H; tauto..|].
  apply elem_of_tx_writes in H as (i & t & Hi & Ho). right. right. exists i, t.
  unfold tx_ops in Ho. rewrite !elem_of_cons, elem_of_nil in Ho.
  destruct Ho as [H|[H|[]]]; apply pair_equal_spec in H; cbn in H; tauto.
Qed.

(** Keys outside the four families a block is written to. *)
Lemma block_ops_none b k :
  k <> BlockKey (block_height b) -> k <> BlockHashIndexKey (block_Hash b) ->
  (forall i, k <> TransactionKey (block_height b) i) ->
  (forall x, k <> TransactionHashIndexKey x) ->
  last_write (batch_block_ops b) k = None.
Proof.
  intros H1 H2 H3 H4. apply last_write_none. intros ([k' v] & -> & Hin)%list_elem_of_fmap.
  apply elem_of_set_block_ops in Hin as [?|[?|(i & t & _ & [?|?])]]; cbn in *.
  - by apply H1.
  - by apply H2.
  - by apply (H3 i).
  - by apply (H4 (tx_Hash t)).
Qed.

Lemma set_block_ops_none b c k : k <> TransactionCountKey ->
  k <> BlockKey (block_height b) -> k <> BlockHashIndexKey (block_Hash b) ->
  (forall i, k <> TransactionKey (block_height b) i) ->
  (forall x, k <> TransactionHashIndexKey x) ->
  last_write (set_block_ops b c) k = None.
Proof. intros H0 H1 H2 H3 H4. rewrite set_block_other by done. by apply block_ops_none. Qed.

Lemma set_block_reads b c s n s' : NoDup (tx_Hash <$> block_Transactions b) ->
  applied s (set_block_ops b c) n s' -> reads_block b s'.
Proof.
  intros Hnd Ha.
  assert (Hk : forall k v, k <> TransactionCountKey ->
    last_write (batch_block_ops b) k = Some v -> db_get (db s') k = Ok v).
  { intros k v Hk Hw. eapply applied_hit; [eassumption|]. by rewrite set_block_other. }
  split_and!.
  - apply Hk; [key_ne|]. rewrite (writes_block HE). by rewrite decide_True.
  - apply Hk; [key_ne|]. rewrite (writes_hash HE). by rewrite decide_True.
  - intros i t Hi. split; (apply Hk; [key_ne|]).
    + by apply (writes_tx HE).
    + by apply (writes_txhash HE).
Qed.

(** What a block with receipts writes, key by key. *)
Lemma elem_of_swr_all b m c k v : (k, v) ∈ swr_all_ops b m c ->
  (k = BlockKey (block_height b) /\ v = Some (enc b)) \/
  (k = BlockHashIndexKey (block_Hash b) /\ v = Some (EncodeUint64 (block_height b))) \/
  (exists i t, (i, t) ∈ indexed (block_Transactions b) /\
     ((k = TransactionKey (block_height b) i /\ v = Some (enc t)) \/
      (k = TransactionHashIndexKey (tx_Hash t) /\ v = Some (enc (tx_location b i))) \/
      exists rc, m !! tx_Hash t = Some rc /\
        ((k = ReceiptKey (tx_Hash t) /\ v = Some (enc rc)) \/
         (has_contract rc = true /\ k = ContractAddressKey (tx_Hash t) /\
          v = Some (proj1_sig (ContractAddress rc)))))) \/
  (k = TransactionCountKey /\ v = Some (EncodeUint64 c)) \/
  (k = LatestHeightKey /\ v = Some (EncodeUint64 (block_height b))).
Proof.
  unfold swr_all_ops, block_ops, count_op.
  rewrite !elem_of_app, !elem_of_cons, elem_of_nil, !pair_equal_spec.
  intros [[?|[?|[]]]|[Hf|[?|[?|[]]]]]; [tauto|tauto| |tauto|tauto].
  right. right. left. rewrite list_elem_of_In, in_flat_map in Hf.
  destruct Hf as ([i t] & Hi & Ho). apply list_elem_of_In in Hi, Ho.
  exists i, t. split; [done|]. unfold swr_ops, tx_ops in Ho.
  rewrite elem_of_app, !elem_of_cons, elem_of_nil, !pair_equal_spec in Ho. cbn [fst snd] in Ho.
  destruct Ho as [[?|[?|[]]]|Ho]; [tauto..|]. right. right.
  destruct (m !! tx_Hash t) as [rc|] eqn:Hm; [|by apply not_elem_of_nil in Ho].
  exists rc. split; [done|]. unfold receipt_ops in Ho.
  rewrite elem_of_cons, pair_equal_spec in Ho. destruct Ho as [?|Ho]; [tauto|]. right.
  destruct (has_contract rc); [|by apply not_elem_of_nil in Ho].
  rewrite elem_of_cons, elem_of_nil, pair_equal_spec in Ho. tauto.
Qed.

Lemma swr_tx_in b m c i t o : (i, t) ∈ indexed (block_Transactions b) ->
  o ∈ swr_ops b m (i, t) -> o ∈ swr_all_ops b m c.
Proof.
  intros Hi Ho. unfold swr_all_ops. rewrite !elem_of_app. right. left.
  rewrite list_elem_of_In, in_flat_map. exists (i, t). by rewrite <- !list_elem_of_In.
Qed.

(** Every write of a block with receipts is the last one to its key. *)
Ltac swr_unique :=
  apply last_write_unique;
  [ | let v := fresh "v" in let H := fresh in
      intros v H; apply elem_of_swr_all in H;
      repeat match goal with
        | H : _ \/ _ |- _ => destruct H
        | H : _ /\ _ |- _ => destruct H
        | H : exists _, _ |- _ => destruct H
        end; subst;
      try match goal with H : _ = _ :> bytes |- _ => key_eq H end; subst ].

Lemma swr_writes_block b m c :
  last_write (swr_all_ops b m c) (BlockKey (block_height b)) = Some (Some (enc b)) /\
  last_write (swr_all_ops b m c) (BlockHashIndexKey (block_Hash b)) =
    Some (Some (EncodeUint64 (block_height b))) /\
  last_write (swr_all_ops b m c) TransactionCountKey = Some (Some (EncodeUint64 c)) /\
  last_write (swr_all_ops b m c) LatestHeightKey =
    Some (Some (EncodeUint64 (block_height b))).
Proof.
  split_and!; swr_unique; try done;
    unfold swr_all_ops, block_ops; rewrite !elem_of_app, !elem_of_cons; tauto.
Qed.

Lemma swr_writes_tx b m c i t : NoDup (tx_Hash <$> block_Transactions b) ->
  (i, t) ∈ indexed (block_Transactions b) ->
  last_write (swr_all_ops b m c) (TransactionKey (block_height b) i) = Some (Some (enc t)) /\
  last_write (swr_all_ops b m c) (TransactionHashIndexKey (tx_Hash t)) =
    Some (Some (enc (tx_location b i))).
Proof.
  intros Hnd Hi.
  assert (Hin : forall o, o ∈ tx_ops b (i, t) -> o ∈ swr_all_ops b m c).
  { intros o Ho. eapply swr_tx_in; [done|]. unfold swr_ops. apply elem_of_app. by left. }
  split; swr_unique; try (apply Hin; unfold tx_ops; rewrite !elem_of_cons; cbn; tauto).
  - match goal with H : (_, _) ∈ _ |- _ => by rewrite (indexed_inj _ _ _ _ Hi H) end.
  - match goal with H : (_, ?t') ∈ _, Hk : tx_Hash _ = tx_Hash ?t' |- _ =>
      apply elem_of_indexed in H as (p & -> & Hp); apply elem_of_indexed in Hi as (q & -> & Hq)
    end.
    do 4 f_equal. apply (NoDup_lookup _ _ _ (tx_Hash t) Hnd); rewrite list_lookup_fmap.
    + rewrite Hp. cbn. congruence.
    + by rewrite Hq.
Qed.

Lemma swr_writes_receipt b m c i t rc : (i, t) ∈ indexed (block_Transactions b) ->
  m !! tx_Hash t = Some rc ->
  last_write (swr_all_ops b m c) (ReceiptKey (tx_Hash t)) = Some (Some (enc rc)) /\
  last_write (swr_all_ops b m c) (ContractAddressKey (tx_Hash t)) =
    if has_contract rc then Some (Some (proj1_sig (ContractAddress rc))) else None.
Proof.
  intros Hi Hm.
  assert (Hin : forall o, o ∈ receipt_ops (tx_Hash t) rc -> o ∈ swr_all_ops b m c).
  { intros o Ho. eapply swr_tx_in; [done|]. unfold swr_ops. apply elem_of_app. right.
    cbn [snd]. by rewrite Hm. }
  unfold receipt_ops in Hin. split.
  - swr_unique; [apply Hin; by left|]. congruence.
  - destruct (has_contract rc) eqn:Hh.
    + swr_unique; [apply Hin; right; by left|]. congruence.
    + apply last_write_none. intros ([k v] & Hk & Ho)%list_elem_of_fmap.
      cbn in Hk. subst k. apply elem_of_swr_all in Ho.
      repeat match goal with
        | H : _ \/ _ |- _ => destruct H
        | H : _ /\ _ |- _ => destruct H
        | H : exists _, _ |- _ => destruct H
        end;
      match goal with H : _ = _ :> bytes |- _ => key_eq H end; congruence.
Qed.

(** * A database that does not fail *)

(** No write is refused: the operations of the storage then end without an error
    on an open, writable storage when their input can be encoded. *)
Definition healthy (P : Pebble) : Prop :=
  (forall d ops, snd (db_write (Pebble := P) d ops) = None) /\
  (forall ops o, batch_add_err (Pebble := P) ops o = None).

Definition usable (s : PebbleStorage) : Prop := closed s = false /\ readOnly s = false.

Definition usable2 (sb : PebbleStorage * pebbleBatch) : Prop :=
  usable (fst sb) /\ b_closed (snd sb) = false.

Section Healthy.
Context (HD : healthy P).

Lemma runs_dbWrite ops s : usable s -> runs (dbWrite ops) s (fun _ => usable).
Proof.
  intros Hs. unfold dbWrite, runs. pose proof (proj1 HD (db s) ops) as Hw.
  destruct (db_write (db s) ops) as [d e]. cbn in Hw. subst e. by eexists _, _.
Qed.

Lemma runs_ensureNotClosed s : usable s -> runs ensureNotClosed s (fun _ => usable).
Proof. intros Hs. exists tt, s. unfold ensureNotClosed. by rewrite (proj1 Hs). Qed.

Lemma runs_ensureNotReadOnly s : usable s -> runs ensureNotReadOnly s (fun _ => usable).
Proof. intros Hs. exists tt, s. unfold ensureNotReadOnly. by rewrite (proj2 Hs). Qed.

Lemma runs_txCountAdd n s : usable s -> runs (txCountAdd n) s (fun _ => usable).
Proof. intros Hs. by eexists _, _. Qed.

Lemma runs_batchSet k v sb : usable2 sb -> runs (batchSet k v) sb (fun _ => usable2).
Proof.
  intros Hs. destruct sb as [s b]. unfold batchSet, batchWrite, runs.
  rewrite (proj2 HD). by eexists _, _.
Qed.

Lemma runs_on_batch f sb : (forall b, b_closed (f b) = b_closed b) -> usable2 sb ->
  runs (on_batch f) sb (fun _ => usable2).
Proof.
  intros Hf [H1 H2]. destruct sb as [s b]. eexists _, _. split; [done|].
  split; [done|]. cbn. by rewrite Hf.
Qed.

Lemma runs_ensureOpen sb : usable2 sb -> runs ensureOpen sb (fun _ => usable2).
Proof. intros Hs. destruct sb as [s b]. exists tt, (s, b). split; [|done].
  cbn. destruct Hs as [_ Hb]. cbn in Hb. by rewrite Hb. Qed.

Lemma runs_on_storage {A} (m : op A) sb : runs m (fst sb) (fun _ => usable) ->
  usable2 sb -> runs (on_storage m) sb (fun _ => usable2).
Proof.
  intros (a & s' & H & Hu) Hs. destruct sb as [s b]. exists a, (s', b). cbn in *.
  rewrite H. split; [done|]. split; [done | apply Hs].
Qed.

Lemma runs_batchCommit sb : usable2 sb -> runs batchCommit sb (fun _ => usable2).
Proof.
  intros Hs. destruct sb as [s b].
  destruct (runs_dbWrite (b_ops b) s (proj1 Hs)) as (a & s' & H & Hu).
  exists a, (s', b). cbn. rewrite H. split; [done|]. split; [done | apply Hs].
Qed.

Lemma runs_with_batch {A} (m : bop_st A) s :
  runs m (s, NewBatch) (fun _ => usable2) -> runs (with_batch m) s (fun _ => usable).
Proof.
  intros (a & [s' b'] & H & Hu & _). exists a, s'. unfold with_batch. by rewrite H.
Qed.

End Healthy.

(** Walk through an operation on a healthy database [HD], step by step. *)
Ltac step HD :=
  first
    [ apply runs_bind
    | apply runs_wrapST
    | eapply runs_lift; [solve [cbn; eauto using f_equal]|]
    | eapply runs_mono;
      [ first [ apply runs_ensureNotClosed | apply runs_ensureNotReadOnly
              | apply (runs_dbWrite HD) | apply runs_txCountAdd | apply (runs_batchSet HD)
              | apply runs_ensureOpen | apply (runs_batchCommit HD) ]; eassumption
      | cbv beta; intros ? ? ? ]
    | apply runs_ret; assumption ].

Lemma SetTransaction_runs (HD : healthy P) t loc s : usable s ->
  rlp_Encode t = Ok (enc t) -> rlp_Encode loc = Ok (enc loc) ->
  runs (SetTransaction (Some t) (Some loc)) s (fun _ => usable).
Proof.
  intros Hs Et El. unfold SetTransaction, dbSet.
  repeat first [ eapply runs_lift; [cbn; rewrite ?Et, ?El; reflexivity|] | step HD ].
  all: assumption.
Qed.

Lemma SetBlock_runs (HD : healthy P) b s : usable s -> encodable b ->
  runs (SetBlock (Some b)) s (fun _ => usable).
Proof.
  intros Hs [Eb Et]. unfold SetBlock, dbSet.
  repeat first [ eapply runs_lift; [cbn; rewrite Eb; reflexivity|] | step HD ].
  apply runs_forST; [|assumption]. intros [i t] s1 Hi Hs1. step HD.
  destruct (Et i t Hi). by apply SetTransaction_runs.
Qed.

(** * What is written is read back *)

(** A stored receipt as it is read. The hash and the contract address are restored; what else
    the consensus encoding leaves out (gas used, prices, the place in the block and that of the
    logs) is not. *)
Definition stored_receipt (rc : Receipt) : Receipt :=
  {| TxHash := TxHash rc; PostState := PostState rc; Status := consensus_status rc;
     CumulativeGasUsed := CumulativeGasUsed rc; GasUsed := 0; ContractAddress := ContractAddress rc;
     EffectiveGasPrice := None; BlobGasUsed := 0; BlobGasPrice := None;
     ReceiptBlockHash := zero_array 32; ReceiptBlockNumber := None; TransactionIndex := 0;
     LogsMeta := (fun _ => zero_meta) <$> LogsMeta rc; Rest := Rest rc |}.

Lemma GetReceipt_stored s rc : open s -> rlp_Encode rc = Ok (enc rc) ->
  db_get (db s) (ReceiptKey (TxHash rc)) = Ok (Some (enc rc)) ->
  db_get (db s) (ContractAddressKey (TxHash rc)) =
    Ok (if has_contract rc then Some (proj1_sig (ContractAddress rc)) else None) ->
  GetReceipt (TxHash rc) s = (Ok (stored_receipt rc), s).
Proof.
  intros Ho He Hr Ha. unfold GetReceipt, ensureNotClosed, tryST, mbind, ST_bind, wrapST, dbGet, lift.
  rewrite Ho, Hr. cbn. rewrite (DecodeReceipt_Encode rc) by (cbn; by rewrite He).
  cbn. rewrite Ha. unfold has_contract, stored_receipt.
  destruct (bool_decide_reflect (ContractAddress rc = zero_array 20)) as [Hz|Hz]; cbn.
  - unfold set_TxHash, consensus_receipt. cbn. by rewrite Hz.
  - rewrite (proj2_dsig (ContractAddress rc)). cbn. unfold set_ContractAddress. cbn.
    by rewrite array_copy_bytes.
Qed.

Lemma receipt_map_hash rs x rc : receipt_map rs !! x = Some rc -> TxHash rc = x.
Proof.
  unfold receipt_map. rewrite <- fold_left_rev_right. intros H.
  induction (rev rs) as [|[r|] l IH]; cbn in H.
  - by rewrite lookup_empty in H.
  - destruct (decide (TxHash r = x)) as [<-|Hn].
    + rewrite lookup_insert_eq in H. by injection H as <-.
    + rewrite lookup_insert_ne in H by done. auto.
  - auto.
Qed.

(** * Batches on a healthy database *)

Lemma runs_on_storage_txCountAdd n sb : usable2 sb ->
  runs (on_storage (txCountAdd n)) sb (fun _ => usable2).
Proof. intros Hs. apply runs_on_storage; [apply runs_txCountAdd, Hs | done]. Qed.

Lemma b_SetBlock_runs (HD : healthy P) b sb : usable2 sb -> encodable b ->
  runs (b_SetBlock (Some b)) sb (fun _ => usable2).
Proof.
  intros Hs [Eb Et]. unfold b_SetBlock.
  repeat first [ eapply runs_lift; [cbn; rewrite Eb; reflexivity|] | step HD ].
  eapply runs_mono; [by apply runs_on_batch|]. intros ? sb1 Hs1.
  apply runs_forST; [|assumption]. intros [i t] sb2 Hi Hs2. destruct (Et i t Hi) as [E1 E2].
  step HD. unfold b_SetTransaction.
  repeat first [ eapply runs_lift; [cbn; rewrite ?E1, ?E2; reflexivity|] | step HD ].
  eapply runs_mono; [by apply runs_on_batch|]. intros ? ? ?. by apply runs_on_batch.
Qed.

Lemma b_Commit_runs (HD : healthy P) sb : usable2 sb -> runs b_Commit sb (fun _ => usable2).
Proof.
  intros Hs. unfold b_Commit. step HD. step HD. step HD.
  eexists _, _. split; [done|]. step HD. eapply runs_mono with (Q := fun _ => usable2).
  - destruct (0 <? _); [|by apply runs_ret]. step HD.
    eapply runs_mono; [by apply runs_on_storage_txCountAdd|]. intros c s1 Hs1.
    destruct (runs_batchSet HD TransactionCountKey (EncodeUint64 c) s1 Hs1)
      as (u & s2 & H2 & Hs2).
    exists tt, s2. unfold tryST. by rewrite H2.
  - intros ? ? ?. by apply runs_batchCommit.
Qed.

Lemma SetBlocks_runs (HD : healthy P) bs s : usable s -> Forall encodable bs ->
  runs (SetBlocks (Some <$> bs)) s (fun _ => usable).
Proof.
  intros Hs He. unfold SetBlocks. step HD. step HD. step HD. step HD.
  apply runs_with_batch. apply runs_bind.
  eapply runs_mono; [apply (runs_forST usable2)|intros ? ? ?; by apply b_Commit_runs].
  - intros ob sb Hb Hsb. apply list_elem_of_fmap in Hb as (b & -> & Hb).
    rewrite Forall_forall in He. step HD. apply b_SetBlock_runs; [done..|by apply He].
  - by split.
Qed.

Lemma SetBlockWithReceipts_runs (HD : healthy P) b rs s : usable s -> encodable b ->
  (forall t rc, t ∈ block_Transactions b -> receipt_map rs !! tx_Hash t = Some rc ->
     validateReceipt (Some rc) = Ok tt /\ rlp_Encode rc = Ok (enc rc)) ->
  runs (SetBlockWithReceipts (Some b) rs) s (fun _ => usable).
Proof.
  intros Hs [Eb Et] Hr. unfold SetBlockWithReceipts.
  repeat first [ eapply runs_lift; [cbn; rewrite Eb; reflexivity|] | step HD ].
  apply runs_with_batch. unfold swr_body.
  match goal with |- runs _ ?sb _ => assert (Hb : usable2 sb) by by split end.
  do 6 step HD. step HD. eapply runs_mono; [apply (runs_forST usable2)|].
  - intros [i t] sb Hi Hsb. destruct (Et i t Hi) as [E1 E2]. unfold swr_tx.
    repeat first [ eapply runs_lift; [cbn; rewrite ?E1, ?E2; reflexivity|] | step HD ].
    destruct (receipt_map rs !! tx_Hash t) as [rc|] eqn:Hm; [|by apply runs_ret].
    apply elem_of_indexed in Hi as (n & -> & Hn).
    destruct (Hr t rc (list_elem_of_lookup_2 _ _ _ Hn) Hm) as [E3 E4].
    repeat first [ eapply runs_lift; [cbn -[validateReceipt]; rewrite ?E3, ?E4; reflexivity|]
                 | step HD ].
    destruct (has_contract rc); repeat step HD; assumption.
  - assumption.
  - intros ? ? ?. step HD. eapply runs_mono; [by apply runs_on_storage_txCountAdd|].
    intros ? ? ?. repeat step HD. assumption.
Qed.

End Reads.
