(* ===== verification/Instances.v ===== *)
(** Instances: concrete models of the interfaces, for evaluating the development.

    A chain whose transactions are their hashes and whose blocks are a height, a
    hash and a transaction list; an encoder for any countable type that satisfies
    the RLP laws; and a storage over the in-memory database of KV.v. They show that
    the laws assumed of go-ethereum and pebble can hold together. *)
From S2P Require Import Prelude Eth KV Chain Storage.

(** * An encoder for countable types *)

Definition count_rlp {A} `{Countable A} (image : A -> A) : RLP A :=
  {| rlp_Encode := fun a => Ok (big_Bytes (Zpos (countable.encode (image a))));
     rlp_DecodeBytes := fun b =>
       match countable.decode (Z.to_pos (big_SetBytes b)) with
       | Some a => Ok a
       | None => Err ErrSyntax
       end;
     rlp_image := image |}.

Lemma count_rlp_laws {A} `{Countable A} (image : A -> A) : RLPLaws A (count_rlp image).
Proof.
  split; intros a b E; apply (f_equal (fun r => match r with Ok x => x | Err _ => [] end)) in E;
    cbv [rlp_Encode count_rlp] in E; subst b.
  - by rewrite big_Bytes_nil.
  - cbv [rlp_DecodeBytes count_rlp]. rewrite big_SetBytes_Bytes.
    change (Z.to_pos (Z.abs (Zpos (countable.encode (image a))))) with (countable.encode (image a)).
    by rewrite countable.decode_encode.
Qed.

(** * A small chain *)

Record mem_block := mkBlock { mb_number : Z; mb_hash : Hash; mb_txs : list Hash }.

#[global] Instance mem_chain : ChainTypes :=
  {| Block := mem_block; Tx := Hash; ReceiptRest := unit;
     block_Number := mb_number; block_Hash := mb_hash; block_Transactions := mb_txs;
     tx_Hash := fun t => t |}.

#[global] Instance mem_block_eq_dec : EqDecision mem_block.
Proof. solve_decision. Defined.
#[global] Instance mem_block_countable : Countable mem_block.
Proof.
  apply (inj_countable' (fun b => (mb_number b, mb_hash b, mb_txs b))
           (fun '(n, h, l) => mkBlock n h l)). by intros [].
Defined.

#[global] Instance log_meta_eq_dec : EqDecision LogMeta.
Proof. solve_decision. Defined.
(** Records with many fields are coded field by field, as the list of the codes. *)
Definition log_meta_fields (m : LogMeta) : list positive :=
  [encode (lm_BlockNumber m); encode (lm_TxHash m); encode (lm_TxIndex m);
   encode (lm_BlockHash m); encode (lm_Index m); encode (lm_Removed m)].

Definition log_meta_of_fields (l : list positive) : option LogMeta :=
  match l with
  | [n; h; i; b; x; r] =>
      n ← decode n; h ← decode h; i ← decode i; b ← decode b; x ← decode x; r ← decode r;
      Some (mkLogMeta n h i b x r)
  | _ => None
  end.

#[global] Instance log_meta_countable : Countable LogMeta.
Proof.
  apply (inj_countable log_meta_fields log_meta_of_fields).
  intros []. cbn. by repeat (rewrite decode_encode; cbn).
Defined.

#[global] Instance receipt_eq_dec : EqDecision (Receipt (C := mem_chain)).
Proof. solve_decision. Defined.
Definition receipt_fields (r : Receipt (C := mem_chain)) : list positive :=
  [encode (TxHash r); encode (PostState r); encode (Status r); encode (CumulativeGasUsed r);
   encode (GasUsed r); encode (ContractAddress r); encode (EffectiveGasPrice r);
   encode (BlobGasUsed r); encode (BlobGasPrice r); encode (ReceiptBlockHash r);
   encode (ReceiptBlockNumber r); encode (TransactionIndex r); encode (LogsMeta r)].

Definition receipt_of_fields (l : list positive) : option (Receipt (C := mem_chain)) :=
  match l with
  | [h; ps; st; c; g; a; e; bu; bp; bh; bn; ti; lm] =>
      h ← decode h; ps ← decode ps; st ← decode st; c ← decode c; g ← decode g; a ← decode a;
      e ← decode e; bu ← decode bu; bp ← decode bp; bh ← decode bh; bn ← decode bn;
      ti ← decode ti; lm ← decode lm;
      Some (mkReceipt mem_chain h ps st c g a e bu bp bh bn ti lm tt)
  | _ => None
  end.

#[global] Instance receipt_countable : Countable (Receipt (C := mem_chain)).
Proof.
  apply (inj_countable receipt_fields receipt_of_fields).
  intros [? ? ? ? ? ? ? ? ? ? ? ? ? []]. cbn.
  by repeat (rewrite decode_encode; cbn).
Defined.

#[global] Instance loc_eq_dec : EqDecision TxLocation.
Proof. solve_decision. Defined.
#[global] Instance loc_countable : Countable TxLocation.
Proof.
  apply (inj_countable' (fun l => (BlockHeight l, TxIndex l, LocBlockHash l))
           (fun '(h, i, b) => mkTxLocation h i b)). by intros [].
Defined.

#[global] Instance mem_block_rlp : RLP mem_block := count_rlp (fun b => b).
#[global] Instance mem_tx_rlp : RLP Hash := count_rlp (fun t => t).
#[global] Instance mem_loc_rlp : RLP TxLocation := count_rlp (fun l => l).
#[global] Instance mem_receipt_rlp : RLP Receipt := count_rlp consensus_receipt.

Lemma mem_chain_laws : @ChainLaws mem_chain mem_block_rlp mem_tx_rlp mem_receipt_rlp mem_loc_rlp.
Proof. split; try done; apply count_rlp_laws. Qed.

#[global] Existing Instance lower_hex.
#[global] Existing Instance mem_pebble.

(** An open, writable, empty storage. *)
Definition mem_storage : PebbleStorage (P := mem_pebble) :=
  mkStorage (∅ : gmap bytes bytes) false false ∅ 0.

Definition mem_block1 : mem_block :=
  mkBlock 7 (sample_hash 100) [sample_hash 1; sample_hash 2].

Definition mem_receipt1 : Receipt :=
  {| TxHash := sample_hash 1; PostState := None; Status := 1; CumulativeGasUsed := 50000;
     GasUsed := 21000; ContractAddress := sample_address 9;
     EffectiveGasPrice := Some 7; BlobGasUsed := 0; BlobGasPrice := None;
     ReceiptBlockHash := sample_hash 100; ReceiptBlockNumber := Some 7; TransactionIndex := 0;
     LogsMeta := [mkLogMeta 7 (sample_hash 1) 0 (sample_hash 100) 0 false];
     Rest := tt : ReceiptRest (ChainTypes := mem_chain) |}.
