(* ===== verification/StorageThms.v ===== *)
(** StorageThms: the properties of the block, transaction and receipt store.

    What is written is what the readers return, and batches agree with one-by-one
    writes. Failures, guards and the corners of the store are in StorageSafety.v,
    reads over ranges in BlockRange.v, the address index in AddressIndex.v. *)
From S2P Require Import Prelude Eth Schema KeySpace KV Chain Storage Batch PrefixOps.
From S2P Require Import StorageFacts StorageProps StorageReads Instances.

Section Thms.
Context {E : EthHex} {P : Pebble} {C : ChainTypes}
  {RB : RLP Block} {RT : RLP Tx} {RR : RLP Receipt} {RL : RLP TxLocation}.
Context (HE : EthHexLaws E) (HP : PebbleLaws P) (HC : ChainLaws C).

(** C1: a stored block is what the readers return. After [SetBlock], [GetBlock] and
    [GetBlockByHash] return the block and [GetTransaction] returns each of its
    transactions with its location; blocks at other heights, every receipt and the
    latest height read as before; the transaction counter grew by the block's
    transactions, modulo 2^64. *)
Theorem SetBlock_reads b s s' (Hu : is_u64 (txCount s))
  (Hnd : NoDup (tx_Hash <$> block_Transactions b)) (H : SetBlock (Some b) s = (Ok tt, s')) :
  GetBlock (block_height b) s' = (Ok b, s') /\
  GetBlockByHash (block_Hash b) s' = (Ok b, s') /\
  (forall n t, block_Transactions b !! n = Some t ->
     GetTransaction (tx_Hash t) s' =
       (Ok (t, mkTxLocation (block_height b) (Z.of_nat n) (block_Hash b)), s')) /\
  (forall h, h <> block_height b -> fst (GetBlock h s') = fst (GetBlock h s)) /\
  (forall x, fst (GetReceipt x s') = fst (GetReceipt x s)) /\
  fst (GetLatestHeight s') = fst (GetLatestHeight s) /\
  txCount s' = u64 (txCount s + tx_total b).
Proof.
  pose proof (SetBlock_encodable _ _ _ _ H) as He.
  apply (SetBlock_applied HP) in H as (Ho & _ & _ & Ha); [|done].
  pose proof (applied_open _ _ _ _ Ha) as Hc.
  assert (open s') as Ho' by (unfold open; congruence).
  destruct (reads_block_get HC b s' Ho' (set_block_reads HE b _ _ _ _ Hnd Ha) He) as (H1 & H2 & H3).
  split_and!; [done | done | | | | |].
  - intros n t Hn. apply H3, elem_of_indexed. eauto.
  - intros h Hh. apply GetBlock_frame; [done|]. eapply applied_get; [eassumption|].
    apply set_block_ops_none; first [key_ne | intros ?; key_ne].
  - intros x. apply GetReceipt_frame; [done|..]; (eapply applied_get; [eassumption|]);
      apply set_block_ops_none; first [key_ne | intros ?; key_ne].
  - apply GetLatestHeight_frame; [done|]. eapply applied_get; [eassumption|].
    apply set_block_ops_none; first [key_ne | intros ?; key_ne].
  - by destruct Ha as [-> _].
Qed.

(** C2: a block committed with its receipts is read back whole. After
    [SetBlockWithReceipts] the latest height is the block's, the block, its
    transactions and their locations are returned by the readers, and the counter grew by
    the block's transactions. Every receipt of the block is returned as [stored_receipt]:
    with its consensus fields, and with the transaction hash and the contract address that
    the encoding leaves out and the storage restores; the other derived fields (gas used,
    effective gas price, blob gas, block hash, block number and transaction index, and the
    same of its logs) come back as zero, and the callers derive them again. A receipt
    without a contract reads back so unless an older contract address was stored. *)
Theorem SetBlockWithReceipts_reads b rs s s' (Hu : is_u64 (txCount s))
  (Hnd : NoDup (tx_Hash <$> block_Transactions b))
  (H : SetBlockWithReceipts (Some b) rs s = (Ok tt, s')) :
  GetLatestHeight s' = (Ok (block_height b), s') /\
  GetBlock (block_height b) s' = (Ok b, s') /\
  GetBlockByHash (block_Hash b) s' = (Ok b, s') /\
  (forall n t, block_Transactions b !! n = Some t ->
     GetTransaction (tx_Hash t) s' =
       (Ok (t, mkTxLocation (block_height b) (Z.of_nat n) (block_Hash b)), s')) /\
  (forall t rc, t ∈ block_Transactions b -> receipt_map rs !! tx_Hash t = Some rc ->
     has_contract rc = true \/ db_get (db s) (ContractAddressKey (tx_Hash t)) = Ok None ->
     GetReceipt (tx_Hash t) s' = (Ok (stored_receipt rc), s')) /\
  txCount s' = u64 (txCount s + tx_total b).
Proof.
  apply (SetBlockWithReceipts_applied HP) in H as (Ho & He & Hr & Ha); [|done].
  assert (open s') as Ho' by (unfold open; rewrite (applied_open _ _ _ _ Ha); done).
  pose proof (swr_writes_block HE b (receipt_map rs) (u64 (txCount s + tx_total b)))
    as (W1 & W2 & _ & W4).
  assert (Hrb : reads_block b s').
  { split_and!; [by eapply applied_hit | by eapply applied_hit |]. intros i t Hi.
    destruct (swr_writes_tx HE b (receipt_map rs) (u64 (txCount s + tx_total b)) i t Hnd Hi).
    split; by eapply applied_hit. }
  destruct (reads_block_get HC b s' Ho' Hrb He) as (H1 & H2 & H3).
  split_and!; [| done | done | | | by destruct Ha as [-> _]].
  - unfold GetLatestHeight, ensureNotClosed, mbind, ST_bind, wrapST, dbGet, lift.
    rewrite Ho', (applied_hit _ _ _ _ _ _ Ha W4). cbn.
    by rewrite DecodeUint64_Encode by apply u64_range.
  - intros n t Hn. apply H3, elem_of_indexed. eauto.
  - intros t rc Ht Hm Hc. apply list_elem_of_lookup in Ht as [n Hn].
    assert (Hi : (Z.of_nat n, t) ∈ indexed (block_Transactions b))
      by (apply elem_of_indexed; eauto).
    destruct (Hr _ _ _ Hi Hm) as [_ Erc].
    destruct (swr_writes_receipt HE b (receipt_map rs) (u64 (txCount s + tx_total b)) _ _ _ Hi Hm)
      as [W5 W6].
    rewrite <- (receipt_map_hash _ _ _ Hm) in *. apply (GetReceipt_stored HC); [done|done| |].
    + by eapply applied_hit.
    + destruct (has_contract rc); [by eapply applied_hit|].
      destruct Hc as [Hc|Hc]; [done|]. by rewrite (applied_get _ _ _ _ _ Ha).
Qed.

(** C3: one batch is as good as many writes. Storing blocks with [SetBlocks], which
    goes through a single atomic batch and updates the transaction count once, leaves
    the same value under every key of the database and the same counter as storing
    them one by one with [SetBlock]. *)
Theorem SetBlocks_batch_equiv bs s s1 s2 (Hu : is_u64 (txCount s)) (Ht : total bs < two64)
  (H1 : SetBlocks (Some <$> bs) s = (Ok tt, s1))
  (H2 : forST SetBlock (Some <$> bs) s = (Ok tt, s2)) :
  (forall k, db_get (db s1) k = db_get (db s2) k) /\
  s1 = set_db (db s1) s2.
Proof.
  apply (SetBlocks_seq_applied HP) in H2 as [F2 G2]; [|done].
  unfold SetBlocks in H1. inv_op. apply with_batch_ok in H1 as [b' H1]. inv_op.
  apply b_SetBlocks_batched in H2 as [c H2]; [|done].
  pose proof (batched_u64 _ _ _ _ _ H2) as Hb.
  unfold batched in H2. subst s0. apply (b_Commit_applied HP) in H1; [|done|done].
  cbv zeta in H1. cbn [fst snd b_ops b_txCount NewBatch app] in H1.
  assert (0 <= total bs) as Hpos by (unfold total; lia).
  rewrite Z.add_0_l, (u64_id (total bs)) in H1 by done. destruct H1 as [F1 G1].
  cbn [fst] in *. split; [|by rewrite F1, F2].
  intros k. rewrite G1, G2. unfold pending. rewrite last_write_app.
  destruct (decide (k = TransactionCountKey)) as [->|Hk].
  - rewrite (seq_blocks_count HE) by done.
    destruct (Z.ltb_spec 0 (total bs)), (Z.eqb_spec (total bs) 0); try lia.
    + unfold count_op. cbn [last_write]. by rewrite decide_True.
    + cbn [last_write]. rewrite last_write_none; [done|].
      intros ([k v] & Hk & Hin)%list_elem_of_fmap. cbn in Hk. subst k.
      rewrite list_elem_of_In, in_flat_map in Hin. destruct Hin as (b & _ & Hin).
      apply list_elem_of_In in Hin.
      apply elem_of_set_block_ops in Hin as [Hk|[Hk|(i & t & _ & [Hk|Hk])]]; by key_eq Hk.
  - rewrite seq_blocks_other by done.
    destruct (0 <? total bs); cbn [last_write]; [|done].
    unfold count_op. by rewrite decide_False.
Qed.

End Thms.
