(* ===== verification/StorageSafety.v ===== *)
(** StorageSafety: failures and the corners of the store.

    A failed batch leaves the database as it was; storing a block twice and deleting a block
    do to the transaction index and counter what the theorems say. *)
From S2P Require Import Prelude Eth Schema KeySpace KV Chain Storage Batch PrefixOps.
From S2P Require Import StorageFacts StorageProps StorageReads Instances.

Section Safety.
Context {E : EthHex} {P : Pebble} {C : ChainTypes}
  {RB : RLP Block} {RT : RLP Tx} {RR : RLP Receipt} {RL : RLP TxLocation}.
Context (HE : EthHexLaws E) (HP : PebbleLaws P) (HC : ChainLaws C).

(** * Atomicity *)

(** The same storage but for its transaction counter; the database may be another
    one that reads the same. *)
Definition same_store (s s' : PebbleStorage) : Prop :=
  readOnly s' = readOnly s /\ closed s' = closed s /\ addrSeq s' = addrSeq s /\
  forall k, db_get (db s') k = db_get (db s) k.

#[export] Instance same_store_refl : Reflexive same_store.
Proof. by intros s. Qed.

#[export] Instance same_store_trans : Transitive same_store.
Proof.
  intros a b c (H1 & H2 & H3 & H4) (G1 & G2 & G3 & G4).
  split_and!; [congruence.. |]. intros k. by rewrite G4.
Qed.

(** A step that leaves the store alone however it ends, and one that does when it
    ends in an error. *)
Definition quiet {A} (m : bop_st A) : Prop :=
  forall sb, same_store (fst sb) (fst (snd (m sb))).
Definition atomic {A} (m : bop_st A) : Prop :=
  forall sb e sb', m sb = (Err e, sb') -> same_store (fst sb) (fst sb').

Lemma quiet_bind {A B} (m : bop_st A) (k : A -> bop_st B) :
  quiet m -> (forall a, quiet (k a)) -> quiet (m ≫= k).
Proof.
  intros Hm Hk sb. unfold mbind, ST_bind. specialize (Hm sb).
  destruct (m sb) as [[a|e] sb1]; cbn in *; [|done]. by etrans; [|apply Hk].
Qed.

Lemma atomic_bind {A B} (m : bop_st A) (k : A -> bop_st B) :
  quiet m -> (forall a, atomic (k a)) -> atomic (m ≫= k).
Proof.
  intros Hm Hk sb e sb'. unfold mbind, ST_bind. specialize (Hm sb).
  destruct (m sb) as [[a|e1] sb1]; cbn in *.
  - intros H. etrans; [exact Hm | by eapply Hk].
  - by intros [= _ <-].
Qed.

Lemma quiet_wrapST {A} msg (m : bop_st A) : quiet m -> quiet (wrapST msg m).
Proof. intros Hm sb. specialize (Hm sb). unfold wrapST. by destruct (m sb) as [r sb1]. Qed.

Lemma quiet_lift {A} (r : res A) : quiet (lift r).
Proof. by intros sb. Qed.

Lemma quiet_ret {A} (a : A) : quiet (mret a).
Proof. by intros sb. Qed.

Lemma quiet_forST {A} (f : A -> bop_st unit) l : (forall a, quiet (f a)) -> quiet (forST f l).
Proof.
  intros Hf. induction l as [|x l IH]; cbn [forST]; [apply quiet_ret|].
  by apply quiet_bind.
Qed.

Lemma quiet_batchSet k v : quiet (batchSet k v).
Proof. intros [s b]. unfold batchSet, batchWrite. by destruct (batch_add_err _ _). Qed.

Lemma quiet_ensureOpen : quiet ensureOpen.
Proof. by intros [s b]. Qed.

Lemma quiet_on_batch f : quiet (on_batch f).
Proof. by intros [s b]. Qed.

Lemma quiet_gets {A} (f : PebbleStorage * pebbleBatch -> A) : quiet (gets f).
Proof. by intros sb. Qed.

Lemma quiet_txCountAdd n : quiet (on_storage (txCountAdd n)).
Proof. by intros [s b]. Qed.

Lemma quiet_tryST {A B} (m : bop_st A) (k : res A -> bop_st B) :
  quiet m -> (forall r, quiet (k r)) -> quiet (tryST m k).
Proof.
  intros Hm Hk sb. unfold tryST. specialize (Hm sb).
  destruct (m sb) as [r sb1]; cbn in *. by etrans; [|apply Hk].
Qed.

Lemma atomic_batchCommit : atomic batchCommit.
Proof.
  intros [s b] e sb'. unfold batchCommit, dbWrite.
  destruct (db_write (db s) (b_ops b)) as [d [e1|]] eqn:Hw; intros [= <- <-].
  split_and!; try done. intros k. cbn. by eapply db_write_atomic.
Qed.

Lemma atomic_with_batch {A} (m : bop_st A) s e s' :
  atomic m -> with_batch m s = (Err e, s') -> same_store s s'.
Proof.
  intros Hm. unfold with_batch. destruct (m (s, NewBatch)) as [r [s1 b]] eqn:Hr.
  intros [= -> ->]. by apply (Hm _ _ _ Hr).
Qed.

Create HintDb quiet discriminated.
#[local] Hint Resolve quiet_bind quiet_wrapST quiet_lift quiet_ret quiet_forST quiet_batchSet
  quiet_ensureOpen quiet_on_batch quiet_gets quiet_txCountAdd quiet_tryST : quiet.

(** Split a computation into steps that the lemmas above cover. *)
Ltac quiet_steps :=
  repeat first
    [ progress intros
    | apply quiet_bind | apply quiet_wrapST | apply quiet_forST | apply quiet_tryST
    | solve [auto with quiet]
    | case_match ].

Lemma quiet_b_SetBlock b : quiet (b_SetBlock b).
Proof. unfold b_SetBlock, b_SetTransaction. quiet_steps. Qed.

Lemma quiet_b_SetReceipt r : quiet (b_SetReceipt r).
Proof. unfold b_SetReceipt, batchReceipt. quiet_steps. Qed.

Lemma quiet_swr_tx b m itx : quiet (swr_tx b m itx).
Proof. unfold swr_tx. quiet_steps. Qed.

Lemma atomic_b_Commit : atomic b_Commit.
Proof.
  unfold b_Commit. apply atomic_bind; [auto with quiet|]. intros _.
  apply atomic_bind; [auto with quiet|]. intros n.
  apply atomic_bind; [|intros; apply atomic_batchCommit].
  unfold fail. quiet_steps.
Qed.

(** C9: the batch operations are atomic. When [SetBlocks], [SetReceipts] or
    [SetBlockWithReceipts] returns an error, whatever failed (a guard, an encoding, a
    receipt, the batch or the commit), every key of the database reads as before. *)
Theorem batch_ops_atomic bs rs b s e s' (m : op unit)
  (Hm : In m [SetBlocks bs; SetReceipts rs; SetBlockWithReceipts b rs])
  (H : m s = (Err e, s')) : same_store s s'.
Proof.
  assert (Hg : forall m1 : op unit, (forall s e s', m1 s = (Err e, s') -> same_store s s') ->
    forall s e s', (_ ← ensureNotClosed; _ ← ensureNotReadOnly; m1) s = (Err e, s') ->
    same_store s s').
  { intros m1 Hm1 s1 e1 s2. unfold mbind, ST_bind, ensureNotClosed, ensureNotReadOnly.
    destruct (closed s1), (readOnly s1); try by intros [= _ <-]. apply Hm1. }
  destruct Hm as [<-|[<-|[<-|[]]]]; revert H; apply Hg; clear s e s'; intros s e s' H.
  - eapply atomic_with_batch; [|exact H]. apply atomic_bind; [|intros; apply atomic_b_Commit].
    apply quiet_forST. intros. apply quiet_wrapST, quiet_b_SetBlock.
  - eapply atomic_with_batch; [|exact H]. apply atomic_bind; [|intros; apply atomic_b_Commit].
    apply quiet_forST. intros. apply quiet_wrapST, quiet_b_SetReceipt.
  - destruct b as [b|]; [|by injection H as _ <-].
    unfold mbind, ST_bind, lift in H.
    destruct (wrap_err _ _) as [encoded|]; [|by injection H as _ <-].
    eapply atomic_with_batch; [|exact H]. unfold swr_body.
    do 6 (apply atomic_bind; [quiet_steps; apply quiet_swr_tx | intros ?]).
    apply atomic_batchCommit.
Qed.

(** A commit that fails keeps its transactions in the counter. When the batch holds
    transactions and the database refuses it, [Commit] returns the error and the data
    is unchanged, but the storage's counter stays incremented: the rollback of the
    code covers only a failure to add the counter to the batch. *)
Theorem commit_failure_counts s b e d (Hb : b_closed b = false) (Hn : 0 < b_txCount b)
  (Ha : forall o, batch_add_err (b_ops b) o = None)
  (Hw : forall c, db_write (db s) (b_ops b ++ [count_op c]) = (d, Some e)) :
  fst (b_Commit (s, b)) = Err e /\
  txCount (fst (snd (b_Commit (s, b)))) = u64 (txCount s + b_txCount b) /\
  forall k, db_get (db (fst (snd (b_Commit (s, b))))) k = db_get (db s) k.
Proof.
  unfold b_Commit, mbind, ST_bind, ensureOpen, gets. rewrite Hb. cbn.
  apply Z.ltb_lt in Hn. rewrite Hn. cbn. unfold tryST, batchSet, batchWrite. rewrite Ha. cbn.
  unfold dbWrite. cbn. unfold count_op in Hw. rewrite Hw. cbn. split_and!; [done..|].
  intros k. eapply db_write_atomic, (Hw 0).
Qed.

(** * The corners *)

(** Storing a block again changes no record of it, but counts its transactions a
    second time: after two [SetBlock] of one block every key but the counter reads as
    after the first, and the counter grew by twice the block's transactions. *)
Theorem SetBlock_twice b s s1 s2 (Hu : is_u64 (txCount s))
  (H1 : SetBlock (Some b) s = (Ok tt, s1)) (H2 : SetBlock (Some b) s1 = (Ok tt, s2)) :
  (forall k, k <> TransactionCountKey -> db_get (db s2) k = db_get (db s1) k) /\
  txCount s2 = u64 (txCount s + 2 * tx_total b).
Proof.
  apply (SetBlock_applied HP) in H1 as (_ & _ & _ & A1); [|done].
  pose proof (applied_u64 _ _ _ _ A1) as Hu1.
  apply (SetBlock_applied HP) in H2 as (_ & _ & _ & A2); [|done]. split.
  - intros k Hk. destruct A1 as [_ G1], A2 as [_ G2]. rewrite G2. unfold pending.
    rewrite set_block_other by done. destruct (last_write (batch_block_ops b) k) eqn:Hw; [|done].
    rewrite G1. unfold pending. rewrite set_block_other by done. by rewrite Hw.
  - pose proof (applied_trans _ _ _ _ _ _ _ A1 A2) as [-> _]. cbn. f_equal. lia.
Qed.

Lemma GetTransaction_frame s s' x : closed s' = closed s ->
  (forall y, db_get (db s') (TransactionHashIndexKey y) = db_get (db s) (TransactionHashIndexKey y)) ->
  (forall h i, db_get (db s') (TransactionKey h i) = db_get (db s) (TransactionKey h i)) ->
  fst (GetTransaction x s') = fst (GetTransaction x s).
Proof.
  intros Hc Hx Ht. unfold GetTransaction, ensureNotClosed, mbind, ST_bind, wrapST, dbGet, lift.
  rewrite Hc, Hx. clear Hc Hx. destruct (closed s); [done|].
  destruct (db_get (db s) (TransactionHashIndexKey x)) as [[v|]|]; cbn; try done.
  destruct (DecodeTxLocation v) as [loc|]; cbn; [|done]. rewrite Ht. clear Ht.
  destruct (db_get (db s) (TransactionKey _ _)) as [[w|]|]; cbn; try done.
  by destruct (DecodeTransaction w).
Qed.

(** Deleting a block removes it by height and by hash and nothing else: blocks at
    other heights stay, but so do the block's transactions and receipts, which remain
    readable and counted. *)
Theorem DeleteBlock_removes h s b s' (Hu : is_u64 (txCount s))
  (Hb : GetBlock h s = (Ok b, s)) (H : DeleteBlock h s = (Ok tt, s')) :
  fst (GetBlock h s') = Err ErrNotFound /\
  fst (GetBlockByHash (block_Hash b) s') = Err ErrNotFound /\
  (forall h', h' <> h -> fst (GetBlock h' s') = fst (GetBlock h' s)) /\
  (forall x, fst (GetTransaction x s') = fst (GetTransaction x s)) /\
  (forall x, fst (GetReceipt x s') = fst (GetReceipt x s)) /\
  txCount s' = txCount s.
Proof.
  unfold DeleteBlock in H. inv_op. unfold tryST in H. rewrite Hb in H. unfold dbDelete in H.
  inv_op. apply (applied_dbWrite HP) in H2; [|done].
  apply (applied_dbWrite HP) in H; [|by eapply applied_u64].
  pose proof (applied_trans _ _ _ _ _ _ _ H2 H) as Ha. clear H2 H.
  pose proof (applied_open _ _ _ _ Ha) as Hc. assert (open s') as Ho by (unfold open; congruence).
  cbn [app] in Ha.
  split_and!.
  - rewrite GetBlock_eval by done. erewrite (applied_hit _ _ _ _ _ None Ha); [done|].
    cbn. by rewrite decide_True.
  - rewrite GetBlockByHash_eval by done. erewrite (applied_hit _ _ _ _ _ None Ha); [done|].
    cbn [last_write]. rewrite decide_False by key_ne. by rewrite decide_True.
  - intros h' Hh. apply GetBlock_frame; [done|]. eapply applied_get; [exact Ha|].
    cbn [last_write]. by rewrite !decide_False by key_ne.
  - intros x. apply GetTransaction_frame; [done|..]; intros; (eapply applied_get; [exact Ha|]);
      cbn [last_write]; by rewrite !decide_False by key_ne.
  - intros x. apply GetReceipt_frame; [done|..]; (eapply applied_get; [exact Ha|]);
      cbn [last_write]; by rewrite !decide_False by key_ne.
  - destruct Ha as [-> _]. cbn. by rewrite !Z.add_0_r, u64_id.
Qed.

(** What [validateReceipt] checks. *)
Definition valid_receipt (rc : Receipt) : Prop :=
  TxHash rc <> zero_array 32 /\ Status rc <= 1 /\ GasUsed rc <= CumulativeGasUsed rc.

Lemma validateReceipt_spec rc :
  match validateReceipt (Some rc) with
  | Ok _ => valid_receipt rc
  | Err e => ~ valid_receipt rc /\ exists msg, e = Wrap msg ErrInvalidReceipt
  end.
Proof.
  unfold validateReceipt, valid_receipt. case_bool_decide; [split; [tauto | by eexists]|].
  destruct (Z.ltb_spec 1 (Status rc)); [split; [lia | by eexists]|].
  destruct (Z.ltb_spec (CumulativeGasUsed rc) (GasUsed rc)); [split; [lia | by eexists]|].
  done.
Qed.

Lemma SetReceipt_applied rc s s' : is_u64 (txCount s) -> SetReceipt (Some rc) s = (Ok tt, s') ->
  open s /\ validateReceipt (Some rc) = Ok tt /\ rlp_Encode rc = Ok (enc rc) /\
  applied s (receipt_ops (TxHash rc) rc) 0 s'.
Proof.
  intros Hu H. unfold SetReceipt, EncodeReceipt, dbSet in H. inv_op.
  destruct r1. pose proof (rlp_enc _ _ H3). subst r2.
  split_and!; [done..|]. apply (applied_dbWrite HP) in H4; [|done].
  unfold receipt_ops. destruct (has_contract rc).
  - inv_op. apply (applied_dbWrite HP) in H; [|by eapply applied_u64].
    exact (applied_trans _ _ _ _ _ _ _ H4 H).
  - injection H as <-. exact H4.
Qed.

Lemma receipt_ops_writes rc :
  last_write (receipt_ops (TxHash rc) rc) (ReceiptKey (TxHash rc)) = Some (Some (enc rc)) /\
  last_write (receipt_ops (TxHash rc) rc) (ContractAddressKey (TxHash rc)) =
    (if has_contract rc then Some (Some (proj1_sig (ContractAddress rc))) else None) /\
  forall x, x <> TxHash rc ->
    last_write (receipt_ops (TxHash rc) rc) (ReceiptKey x) = None /\
    last_write (receipt_ops (TxHash rc) rc) (ContractAddressKey x) = None.
Proof.
  unfold receipt_ops. destruct (has_contract rc); cbn [last_write]; split_and!;
    try (intros x Hx; split); rewrite ?decide_True by done; try done;
    rewrite !decide_False by key_ne; try done; by rewrite decide_True.
Qed.

(** C31: a receipt that [SetReceipt] accepts is valid and is read back by [GetReceipt] as
    [stored_receipt]: its consensus fields kept, its hash and contract address restored, and
    every other field that a node derives lost: gas used, effective gas price, blob gas,
    block hash and number, transaction index, and the positions of its logs. Receipts of
    other transactions read as before. Only valid receipts are accepted: an invalid one is
    refused with [ErrInvalidReceipt] before anything is written. *)
Theorem SetReceipt_roundtrip rc s (Hs : usable s) (Hu : is_u64 (txCount s)) :
  (forall s', SetReceipt (Some rc) s = (Ok tt, s') ->
     (has_contract rc = true \/ db_get (db s) (ContractAddressKey (TxHash rc)) = Ok None) ->
     valid_receipt rc /\
     GetReceipt (TxHash rc) s' = (Ok (stored_receipt rc), s') /\
     forall x, x <> TxHash rc -> fst (GetReceipt x s') = fst (GetReceipt x s)) /\
  (~ valid_receipt rc ->
   exists msg, SetReceipt (Some rc) s = (Err (Wrap msg ErrInvalidReceipt), s)).
Proof.
  pose proof (validateReceipt_spec rc) as Hv. split.
  - intros s' H Hcon. apply SetReceipt_applied in H as (Ho & Hv' & He & Ha); [|done].
    rewrite Hv' in Hv. pose proof (applied_open _ _ _ _ Ha) as Hc.
    destruct (receipt_ops_writes rc) as (W1 & W2 & W3).
    split_and!; [done | apply (GetReceipt_stored HC); [unfold open; congruence|done|..] |].
    + by eapply applied_hit.
    + destruct (has_contract rc); [by eapply applied_hit|].
      destruct Hcon as [Hcon|<-]; [done|]. by eapply applied_get.
    + intros x Hx. destruct (W3 x Hx). apply GetReceipt_frame; [done|..]; by eapply applied_get.
  - intros Hbad. destruct Hs as [H1 H2].
    destruct (validateReceipt (Some rc)) as [u|e] eqn:Hr; [done|]. destruct Hv as [_ [msg ->]].
    exists msg. unfold SetReceipt, ensureNotClosed, ensureNotReadOnly, mbind, ST_bind, lift.
    by rewrite H1, H2, Hr.
Qed.

End Safety.
