(* ===== verification/AddressIndex.v ===== *)
(** AddressIndex: the transactions of an address, page by page.

    [AddTransactionToAddressIndex] appends a hash under the next sequence number of
    the address and [GetTransactionsByAddress] returns a page of them. The index of
    one address is specified by the list of its hashes ([index_holds]); the operations
    refine appending to that list and taking a slice of it. *)
From stdpp Require Import sorting.
From S2P Require Import Prelude Eth Schema KeySpace KV Chain Storage Batch PrefixOps.
From S2P Require Import StorageFacts StorageProps StorageReads Instances.

(** The scan of a page: the prefix up to the prefix followed by 0xff. *)
Lemma in_range_xff p k :
  in_range p (Some (p ++ [xff])) k <->
  exists rest, k = p ++ rest /\ match rest with [] => True | c :: _ => byte_val c < 255 end.
Proof.
  unfold in_range, bytes_leb. revert k. induction p as [|c p IH]; intros k.
  - cbn [app]. split.
    + intros [_ H]. exists k. split; [done|]. destruct k as [|d k]; [done|]. cbn in H.
      change (byte_val xff) with 255 in H. destruct (Z.ltb_spec (byte_val d) 255); [done|].
      destruct (255 <? byte_val d); [done|]. by destruct k.
    + intros (rest & -> & H). cbn [app]. destruct rest as [|d rest]; [done|]. cbn.
      change (byte_val xff) with 255. apply Z.ltb_lt in H. by rewrite H.
  - destruct k as [|d k].
    { cbn. split; [by intros [? _]|]. by intros (rest & ? & _). }
    destruct (decide (c = d)) as [<-|Hne].
    + cbn [bytes_ltb app]. rewrite !Z.ltb_irrefl, IH.
      split; intros (rest & E & H); exists rest; (split; [|done]); cbn in *; congruence.
    + split.
      * intros [H1 H2]. cbn in H1, H2. apply byte_val_neq in Hne.
        destruct (Z.ltb_spec (byte_val d) (byte_val c)); [done|].
        destruct (Z.ltb_spec (byte_val c) (byte_val d)); [done|lia].
      * intros (rest & E & _). cbn in E. congruence.
Qed.

Lemma in_range_app p a b k :
  in_range (p ++ a) (Some (p ++ b)) k <-> exists r, k = p ++ r /\ in_range a (Some b) r.
Proof.
  revert k. induction p as [|c p IH]; intros k; cbn [app].
  { split; [intros H; by exists k | by intros (r & -> & H)]. }
  unfold in_range, bytes_leb in *. destruct k as [|d k].
  { cbn. split; [by intros [? _]|]. by intros (r & ? & _). }
  destruct (decide (c = d)) as [<-|Hne].
  - cbn [bytes_ltb]. rewrite !Z.ltb_irrefl, IH.
    split; intros (r & Heq & H); exists r; (split; [|done]); congruence.
  - split.
    + intros [H1 H2]. cbn in H1, H2. apply byte_val_neq in Hne.
      destruct (Z.ltb_spec (byte_val d) (byte_val c)); [done|].
      destruct (Z.ltb_spec (byte_val c) (byte_val d)); [done|lia].
    + intros (r & Heq & _). congruence.
Qed.

#[export] Instance key_lt_antisymm : AntiSymm eq key_lt.
Proof.
  intros p q H1 H2. unfold key_lt in *.
  pose proof (bytes_ltb_trans _ _ _ H1 H2) as H. by rewrite bytes_ltb_irrefl in H.
Qed.

Lemma key_lt_nodup l : StronglySorted key_lt l -> NoDup l.
Proof.
  induction 1 as [|p l Hs IH Hf]; constructor; [|done].
  intros Hp. rewrite Forall_forall in Hf. specialize (Hf p Hp). unfold key_lt in Hf.
  by rewrite bytes_ltb_irrefl in Hf.
Qed.

(** Two scans with the same entries are equal. *)
Lemma key_lt_unique l1 l2 : StronglySorted key_lt l1 -> StronglySorted key_lt l2 ->
  (forall p, p ∈ l1 <-> p ∈ l2) -> l1 = l2.
Proof.
  intros H1 H2 Hel. eapply (StronglySorted_unique key_lt); [done|done|].
  apply NoDup_Permutation; auto using key_lt_nodup.
Qed.

Section AddressIndex.
Context {E : EthHex} {P : Pebble}.
Context (HE : EthHexLaws E) (HP : PebbleLaws P).

(** The entries of a list of hashes, numbered from [n]. *)
Fixpoint entries_from (addr : Address) (n : nat) (hs : list Hash) : list (bytes * bytes) :=
  match hs with
  | [] => []
  | h :: hs' => (AddressTransactionKey addr (Z.of_nat n), `h) :: entries_from addr (S n) hs'
  end.

Lemma elem_of_entries addr n hs k v :
  (k, v) ∈ entries_from addr n hs <->
  exists i h, hs !! i = Some h /\ k = AddressTransactionKey addr (Z.of_nat (n + i)) /\ v = `h.
Proof.
  revert n. induction hs as [|h hs IH]; intros n; cbn [entries_from].
  { rewrite elem_of_nil. split; [done|]. by intros (i & h & H & _). }
  rewrite elem_of_cons, pair_equal_spec, IH. split.
  - intros [[-> ->]|(i & h' & H & -> & ->)].
    + exists 0%nat, h. by rewrite Nat.add_0_r.
    + exists (S i), h'. by rewrite Nat.add_succ_r.
  - intros ([|i] & h' & H & -> & ->).
    + injection H as ->. left. by rewrite Nat.add_0_r.
    + right. exists i, h'. by rewrite Nat.add_succ_r.
Qed.

Lemma AddressTransactionKey_ltb addr i j : 0 <= i < j -> j < 10 ^ 20 ->
  bytes_ltb (AddressTransactionKey addr i) (AddressTransactionKey addr j) = true.
Proof.
  intros H1 H2. unfold AddressTransactionKey. rewrite !bytes_ltb_app.
  rewrite <- (app_nil_r (fmt_0d 20 i)), <- (app_nil_r (fmt_0d 20 j)). apply fmt_0d_ltb; lia.
Qed.

Lemma entries_sorted addr n hs : Z.of_nat (n + length hs) < 10 ^ 20 ->
  StronglySorted key_lt (entries_from addr n hs).
Proof.
  revert n. induction hs as [|h hs IH]; intros n Hn; cbn [entries_from length] in *; constructor.
  - apply IH. lia.
  - apply Forall_forall. intros [k v] (i & h' & Hi & -> & _)%elem_of_entries.
    pose proof (lookup_lt_Some (A := Hash) hs i h' Hi). apply AddressTransactionKey_ltb; lia.
Qed.

(** The database holds exactly the hashes [hs] for [addr], in this order. *)
Definition index_holds (addr : Address) (hs : list Hash) (s : PebbleStorage) : Prop :=
  Z.of_nat (length hs) < two64 /\
  forall k v, in_range (AddressTransactionKeyPrefix addr)
                (Some (AddressTransactionKeyPrefix addr ++ [xff])) k ->
    db_get (db s) k = Ok (Some v) <-> (k, v) ∈ entries_from addr 0 hs.

Lemma AddressTransactionKey_prefix addr i :
  AddressTransactionKey addr i = AddressTransactionKeyPrefix addr ++ fmt_0d 20 i.
Proof. unfold AddressTransactionKey, AddressTransactionKeyPrefix. by rewrite <- !app_assoc. Qed.

Lemma fmt_0d_head w z c rest : fmt_0d w z = c :: rest -> byte_val c < 255.
Proof.
  unfold fmt_0d, fmt_int. case_match; intros Eq.
  - injection Eq as <- _. done.
  - pose proof (fmt_nat_chars 10 w z good_base_10) as Hc. rewrite Eq in Hc.
    inversion_clear Hc as [|? ? Hd _]. apply digit_byte_range in Hd; [lia | auto with go].
Qed.

Lemma AddressTransactionKey_in_range addr i :
  in_range (AddressTransactionKeyPrefix addr) (Some (AddressTransactionKeyPrefix addr ++ [xff]))
    (AddressTransactionKey addr i).
Proof.
  apply in_range_xff. exists (fmt_0d 20 i). split; [apply AddressTransactionKey_prefix|].
  destruct (fmt_0d 20 i) eqn:Eq; [done|]. by eapply fmt_0d_head.
Qed.

(** The ranges of different addresses are disjoint. *)
Lemma AddressTransactionKey_own_range addr addr' i :
  in_range (AddressTransactionKeyPrefix addr) (Some (AddressTransactionKeyPrefix addr ++ [xff]))
    (AddressTransactionKey addr' i) -> addr' = addr.
Proof.
  intros (rest & Eq & _)%in_range_xff. apply Address_Hex_inj.
  unfold AddressTransactionKey, AddressTransactionKeyPrefix in Eq. rewrite <- !app_assoc in Eq.
  apply (inj (app _)) in Eq. cbn [app] in Eq.
  by apply slash_app_inj in Eq as [? _]; auto with go.
Qed.

Lemma index_scan addr hs s l s' : index_holds addr hs s ->
  dbScan (AddressTransactionKeyPrefix addr)
    (Some (AddressTransactionKeyPrefix addr ++ [xff])) s = (Ok l, s') ->
  l = entries_from addr 0 hs.
Proof.
  intros [Hlen Hh] [Hs _]%dbScan_ok. apply key_lt_unique.
  - by eapply db_scan_sorted.
  - apply entries_sorted. unfold two64 in Hlen. lia.
  - intros [k v]. rewrite (db_scan_elem _ _ _ _ _ _ Hs). split.
    + intros [Hr Hg]. by apply Hh.
    + intros Hin. assert (in_range (AddressTransactionKeyPrefix addr)
        (Some (AddressTransactionKeyPrefix addr ++ [xff])) k) as Hr.
      { apply elem_of_entries in Hin as (i & h & _ & -> & _).
        apply AddressTransactionKey_in_range. }
      split; [done|]. by apply Hh.
Qed.

Lemma page_loop_spec addr n hs limit offset count acc : 0 <= offset -> 0 <= count ->
  Z.of_nat (length acc) <= limit ->
  page_loop limit offset count acc (entries_from addr n hs) =
  acc ++ take (Z.to_nat (limit - Z.of_nat (length acc))) (drop (Z.to_nat (offset - count)) hs).
Proof.
  intros Ho. revert n count acc. induction hs as [|h hs IH]; intros n count acc Hc Ha.
  { cbn. by rewrite drop_nil, take_nil, app_nil_r. }
  cbn [entries_from page_loop]. destruct (Z.ltb_spec count offset).
  - rewrite IH by lia.
    replace (Z.to_nat (offset - count)) with (S (Z.to_nat (offset - (count + 1)))) by lia. done.
  - replace (Z.to_nat (offset - count)) with 0%nat by lia. cbn [drop].
    destruct (Z.leb_spec limit (Z.of_nat (length acc))).
    + replace (Z.to_nat (limit - Z.of_nat (length acc))) with 0%nat by lia.
      by rewrite app_nil_r.
    + rewrite IH by (rewrite ?length_app; cbn; lia). rewrite length_app. cbn [length].
      replace (Z.to_nat (offset - (count + 1))) with 0%nat by lia. cbn [drop].
      replace (Z.to_nat (limit - Z.of_nat (length acc)))
        with (S (Z.to_nat (limit - Z.of_nat (length acc + 1)))) by lia.
      cbn [take]. by rewrite array_copy_bytes, <- app_assoc.
Qed.

(** Writing entry [i] of a list of hashes, the next one or one that is there. *)
Definition put (i : nat) (h : Hash) (hs : list Hash) : list Hash :=
  take i hs ++ h :: drop (S i) hs.

Lemma lookup_put i h hs j : (i <= length hs)%nat ->
  put i h hs !! j = if decide (j = i) then Some h else hs !! j.
Proof.
  intros Hi. unfold put. assert (Hl : length (take i hs) = i) by (rewrite length_take; lia).
  destruct (decide (j = i)) as [->|Hne].
  - rewrite lookup_app_r by lia. by rewrite Hl, Nat.sub_diag.
  - destruct (decide (j < i)%nat).
    + rewrite lookup_app_l by lia. by rewrite lookup_take_lt.
    + rewrite lookup_app_r, Hl by lia. replace (j - i)%nat with (S (j - S i)) by lia.
      change ((h :: drop (S i) hs) !! S (j - S i)) with (drop (S i) hs !! (j - S i)%nat).
      rewrite lookup_drop. f_equal. lia.
Qed.

Lemma length_put i h hs : (i <= length hs)%nat -> length (put i h hs) = Nat.max (S i) (length hs).
Proof. intros Hi. unfold put. rewrite length_app. cbn. rewrite length_take, length_drop. lia. Qed.

Lemma index_write addr hs s s' i h : index_holds addr hs s -> (i <= length hs)%nat ->
  Z.of_nat (S i) < two64 ->
  (forall k, db_get (db s') k = if decide (k = AddressTransactionKey addr (Z.of_nat i))
                                then Ok (Some (`h)) else db_get (db s) k) ->
  index_holds addr (put i h hs) s'.
Proof.
  intros [Hlen Hh] Hi Hi64 Hw. split; [rewrite length_put by done; lia|].
  intros k v Hr. rewrite Hw, elem_of_entries.
  assert (Hinj : forall j, AddressTransactionKey addr (Z.of_nat j)
                           = AddressTransactionKey addr (Z.of_nat i) -> j = i).
  { intros j Heq. key_eq Heq. lia. }
  case_decide as Hk.
  - subst k. split.
    + intros [= <-]. exists i, h. rewrite lookup_put, decide_True by done. done.
    + intros (j & h' & Hj & Hk & ->). assert (j = i) as -> by (by apply Hinj).
      rewrite lookup_put, decide_True in Hj by done. congruence.
  - rewrite Hh, elem_of_entries by done. split; intros (j & h' & Hj & -> & ->); exists j, h';
      (split; [|done]); rewrite lookup_put in * by done; case_decide; subst; try done.
Qed.

Lemma index_write_other addr addr' hs s s' i (h : Hash) : index_holds addr hs s -> addr' <> addr ->
  (forall k, db_get (db s') k = if decide (k = AddressTransactionKey addr' i)
                                then Ok (Some (`h)) else db_get (db s) k) ->
  index_holds addr hs s'.
Proof.
  intros [Hlen Hh] Hne Hw. split; [done|]. intros k v Hr. rewrite Hw, decide_False; [by apply Hh|].
  intros ->. by apply Hne, AddressTransactionKey_own_range with i.
Qed.

(** One append: the entry under the next number, and the number that follows. *)
Lemma AddTransaction_effect addr (h : Hash) s r s' :
  AddTransactionToAddressIndex addr h s = (Ok r, s') ->
  closed s = false /\ closed s' = false /\
  addrSeq s' = <[addr := u64 (default 0 (addrSeq s !! addr) + 1)]> (addrSeq s) /\
  forall k, db_get (db s') k =
    if decide (k = AddressTransactionKey addr (default 0 (addrSeq s !! addr)))
    then Ok (Some (`h)) else db_get (db s) k.
Proof.
  intros H. unfold AddTransactionToAddressIndex, dbSet in H. inv_op. destruct r.
  split_and!; [done|..].
  - apply dbWrite_frame in H. by rewrite H.
  - apply dbWrite_frame in H. by rewrite H.
  - intros k. apply (dbWrite_pending HP) with (k := k) in H. unfold pending in H.
    cbn in H. rewrite H. by case_decide.
Qed.

Definition hashes_of (addr : Address) (adds : list (Address * Hash)) : list Hash :=
  snd <$> filter (fun p => fst p = addr) adds.

Definition next_is (addr : Address) (n : nat) (s : PebbleStorage) : Prop :=
  default 0 (addrSeq s !! addr) = Z.of_nat n.

Lemma adds_hold addr adds hs s s' :
  index_holds addr hs s -> next_is addr (length hs) s ->
  Z.of_nat (length hs + length adds) < two64 ->
  forST (fun '(a, h) => AddTransactionToAddressIndex a h) adds s = (Ok tt, s') ->
  index_holds addr (hs ++ hashes_of addr adds) s'.
Proof.
  revert hs s. induction adds as [|[a h] adds IH]; intros hs s Hh Hn Hlen H; cbn [forST] in H.
  { injection H as <-. unfold hashes_of. by rewrite app_nil_r. }
  cbn [length] in Hlen. inv_op. apply AddTransaction_effect in H0 as (_ & _ & Hs & Hw).
  unfold next_is, hashes_of in *.
  destruct (decide (a = addr)) as [->|Hne].
  - rewrite Hn in Hw, Hs. apply index_write with (hs := hs) in Hw; [|done|lia|lia].
    unfold put in Hw. rewrite take_ge, drop_ge in Hw by lia.
    rewrite filter_cons_True by done. cbn [fmap list_fmap snd].
    rewrite cons_middle, app_assoc. apply IH with (s := s0); [done| | |done].
    + rewrite Hs, lookup_insert_eq. cbn. rewrite length_app. cbn.
      rewrite u64_id by (unfold is_u64; lia). lia.
    + rewrite length_app. cbn. lia.
  - apply index_write_other with (addr := addr) (hs := hs) in Hw; [|done|done].
    rewrite filter_cons_False by done. apply IH with (s := s0); [done| |lia|done].
    by rewrite Hs, lookup_insert_ne.
Qed.

(** * Properties *)

(** C12: the pages of an address. Starting from an empty index, after any sequence of
    [AddTransactionToAddressIndex] calls, interleaved between addresses,
    [GetTransactionsByAddress] with an offset and a limit returns that slice of the
    hashes added for the address, in the order they were added. *)
Theorem address_pages addr adds s s' limit offset page s2
  (Hlim : 0 <= limit) (Hoff : 0 <= offset)
  (Hempty : index_holds addr [] s) (Hseq : addrSeq s !! addr = None)
  (Hlen : Z.of_nat (length adds) < two64)
  (Hadds : forST (fun '(a, h) => AddTransactionToAddressIndex a h) adds s = (Ok tt, s'))
  (Hpage : GetTransactionsByAddress addr limit offset s' = (Ok page, s2)) :
  page = take (Z.to_nat limit) (drop (Z.to_nat offset) (hashes_of addr adds)).
Proof.
  apply (adds_hold addr) with (hs := []) in Hadds; [|done|unfold next_is; by rewrite Hseq|done].
  unfold GetTransactionsByAddress in Hpage. inv_op.
  match goal with Hs : db_scan _ _ _ = Ok ?l |- _ =>
    rewrite (index_scan addr _ s' l s' Hadds) by (unfold dbScan; by rewrite Hs)
  end.
  rewrite page_loop_spec by (cbn; lia). cbn [length app]. by rewrite !Z.sub_0_r.
Qed.

(** A restart loses the start of an address's history. A reopened storage numbers
    from zero again, since [loadAddressSequences] loads nothing, so the first hash
    indexed for an address after the restart replaces the first one ever indexed for
    it: of the old history everything but its first entry is still served. *)
Theorem restart_overwrites addr h0 hs h d s s' (Hopen : NewPebbleStorage d false = Ok s)
  (Hold : index_holds addr (h0 :: hs) s)
  (Hadd : AddTransactionToAddressIndex addr h s = (Ok tt, s')) :
  index_holds addr (h :: hs) s'.
Proof.
  assert (Hseq : addrSeq s = ∅).
  { unfold NewPebbleStorage, loadTransactionCount, loadAddressSequences in Hopen.
    unfold mbind, ST_bind, wrapST, dbGet, lift, modify in Hopen. cbn in Hopen.
    destruct (db_get d TransactionCountKey) as [[v|]|]; cbn in Hopen; try discriminate.
    - destruct (DecodeUint64 v); cbn in Hopen; [|discriminate]. by injection Hopen as <-.
    - by injection Hopen as <-. }
  apply AddTransaction_effect in Hadd as (_ & _ & _ & Hw). rewrite Hseq, lookup_empty in Hw.
  cbn in Hw. by apply (index_write addr (h0 :: hs) s s' 0 h Hold); [cbn; lia| |].
Qed.

End AddressIndex.
