(* ===== verification/BlockRange.v ===== *)
(** BlockRange: reads over many records.

    [GetBlocks] walks the heights of a range with a 64-bit loop variable;
    [GetReceiptsByBlockNumber] and [GetMissingReceipts] walk the transactions of a
    block. The theorems say what they collect and when the walk ends. *)
From S2P Require Import Prelude Eth Schema KeySpace KV Chain Storage StorageFacts.
From S2P Require Import StorageProps StorageReads Instances.

Section BlockRange.
Context {E : EthHex} {P : Pebble} {C : ChainTypes}
  {RB : RLP Block} {RT : RLP Tx} {RR : RLP Receipt} {RL : RLP TxLocation}.

Lemma GetBlock_state h s : snd (GetBlock h s) = s.
Proof.
  unfold GetBlock, ensureNotClosed, mbind, ST_bind, wrapST, dbGet, lift, fail.
  destruct (closed s); [done|]. by destruct (db_get _ _) as [[v|]|].
Qed.

(** The blocks at [n] heights from [h] on, the missing ones left out. *)
Fixpoint blocks_from (s : PebbleStorage) (h : Z) (n : nat) : list Block :=
  match n with
  | O => []
  | S n' =>
      match fst (GetBlock h s) with
      | Ok b => b :: blocks_from s (h + 1) n'
      | Err _ => blocks_from s (h + 1) n'
      end
  end.

(** At every height of the range the block is there or known to be missing. *)
Definition readable (s : PebbleStorage) (h : Z) : Prop :=
  match fst (GetBlock h s) with Ok _ => True | Err e => e = ErrNotFound end.

Lemma GetBlocks_step fuel h end_ blocks s : readable s h -> h <= end_ ->
  GetBlocks_loop (S fuel) h end_ blocks s =
  GetBlocks_loop fuel (u64 (h + 1)) end_
    (blocks ++ match fst (GetBlock h s) with Ok b => [b] | Err _ => [] end) s.
Proof.
  intros Hr Hle. cbn [GetBlocks_loop]. destruct (Z.ltb_spec end_ h); [lia|].
  unfold readable in Hr. pose proof (GetBlock_state h s) as Hs.
  destruct (GetBlock h s) as [[b|e] s1]; cbn in *; subst; [done|]. by rewrite app_nil_r.
Qed.

Lemma GetBlocks_loop_spec n fuel h end_ blocks s :
  0 <= h -> end_ < two64 - 1 -> end_ + 1 = h + Z.of_nat n -> (n < fuel)%nat ->
  (forall h', h <= h' <= end_ -> readable s h') ->
  GetBlocks_loop fuel h end_ blocks s = Some (Ok (blocks ++ blocks_from s h n), s).
Proof.
  revert fuel h blocks. induction n as [|n IH]; intros fuel h blocks Hh He Hn Hf Hr.
  - destruct fuel as [|fuel]; [lia|]. cbn [GetBlocks_loop blocks_from].
    destruct (Z.ltb_spec end_ h); [by rewrite app_nil_r | lia].
  - destruct fuel as [|fuel]; [lia|]. rewrite GetBlocks_step by (try apply Hr; lia).
    rewrite u64_id by (unfold is_u64, two64 in *; lia).
    rewrite IH; [|lia|lia|lia|lia|intros h' ?; apply Hr; lia].
    cbn [blocks_from]. do 3 f_equal. rewrite <- app_assoc. f_equal.
    by destruct (fst (GetBlock h s)).
Qed.

(** C33: for a range from [start] to [end_] with start <= end < 2^64-1, whose length [make]
    can allocate a slice for, and whose heights all read as a block or as missing, [GetBlocks]
    of an open storage ends and returns the blocks of the range in the order of their
    heights, the missing ones left out; one step per height, and one more, is enough. Of the
    other ranges [GetBlocks_panics] has the ones that are reversed or too long, and
    [GetBlocks_diverges] the ones that end at 2^64-1. *)
Theorem GetBlocks_total start end_ fuel s (Ho : open s) (Hs : is_u64 start)
  (He : start <= end_ < two64 - 1) (Hcap : make_cap_ok (end_ - start + 1) = true)
  (Hr : forall h, start <= h <= end_ -> readable s h)
  (Hf : (Z.to_nat (end_ - start + 1) < fuel)%nat) :
  GetBlocks fuel start end_ s =
    Some (Ok (blocks_from s start (Z.to_nat (end_ - start + 1))), s).
Proof.
  unfold GetBlocks, ensureNotClosed. rewrite Ho. unfold is_u64, two64 in *.
  rewrite !u64_id by (unfold is_u64; rewrite ?u64_id; unfold is_u64, two64; lia).
  rewrite Hcap. rewrite (GetBlocks_loop_spec (Z.to_nat (end_ - start + 1)));
    [done | unfold two64; lia.. | done].
Qed.

(** [make] panics when its capacity, the length of the range in 64-bit arithmetic, is more
    than a slice can have: a range longer than 2^45 heights, and one whose end is more than
    one below its start, where the unsigned subtraction wraps. (When the end is exactly one
    below the start the length wraps to zero and the result is empty.) *)
Theorem GetBlocks_panics start end_ fuel s (Ho : open s) (Hs : is_u64 start) (He : is_u64 end_)
  (Hbad : end_ + 1 < start /\ start - end_ <= two64 - 2 ^ 45 \/ start + 2 ^ 45 <= end_ < two64 - 1) :
  GetBlocks fuel start end_ s = Some (Err (Panic "makeslice: cap out of range"), s).
Proof.
  unfold GetBlocks, ensureNotClosed. rewrite Ho.
  assert (H : u64 (u64 (end_ - start) + 1) =
              if decide (start <= end_) then end_ - start + 1 else end_ - start + 1 + two64).
  { unfold is_u64, u64 in *. rewrite Zplus_mod_idemp_l. case_decide.
    - apply Z.mod_small. unfold two64 in *. lia.
    - rewrite <- (Z_mod_plus_full _ 1). apply Z.mod_small. unfold two64 in *. lia. }
  rewrite H. unfold make_cap_ok, is_u64, two64 in *.
  case_decide; rewrite (proj2 (Z.leb_gt _ _)) by lia; done.
Qed.

(** A range that ends at the largest 64-bit number never ends: the loop variable
    wraps to zero and stays below the end, so no amount of fuel gives a result, as
    long as every height reads as a block or as missing. *)
Theorem GetBlocks_diverges start fuel s (Ho : open s) (Hs : is_u64 start)
  (Hcap : make_cap_ok (two64 - start) = true) (Hr : forall h, is_u64 h -> readable s h) :
  GetBlocks fuel start (two64 - 1) s = None.
Proof.
  unfold GetBlocks, ensureNotClosed. rewrite Ho.
  destruct (make_cap_ok (u64 _)) eqn:Hm.
  - clear Hm Hcap. cbv beta iota. generalize (@nil Block). revert start Hs.
    induction fuel as [|fuel IH]; intros start Hs blocks; [reflexivity|].
    rewrite GetBlocks_step; [|by apply Hr | unfold is_u64 in Hs; lia].
    apply IH. apply u64_range.
  - exfalso. unfold is_u64 in Hs.
    destruct (decide (start = 0)) as [->|Hne].
    + by vm_compute in Hcap.
    + rewrite u64_id in Hm by (rewrite ?u64_id; unfold is_u64, two64 in *; lia).
      rewrite u64_id in Hm by (unfold is_u64, two64 in *; lia).
      replace (two64 - 1 - start + 1) with (two64 - start) in Hm by lia. congruence.
Qed.

(** A transaction hash without a stored receipt, as the database tells. *)
Definition receipt_missing (s : PebbleStorage) (x : Hash) : bool :=
  match db_get (db s) (ReceiptKey x) with Ok None => true | _ => false end.

Lemma HasReceipt_ok x s r s' : HasReceipt x s = (Ok r, s') ->
  open s /\ s' = s /\ r = negb (receipt_missing s x).
Proof.
  intros H. unfold HasReceipt in H. inv_op. unfold receipt_missing.
  match goal with Hg : db_get _ _ = Ok ?o |- _ => rewrite Hg; by destruct o end.
Qed.

Lemma missingReceipts_ok txs s l s' : missingReceipts txs s = (Ok l, s') ->
  s' = s /\ l = filter (fun x => Is_true (receipt_missing s x)) (tx_Hash <$> txs).
Proof.
  revert l. induction txs as [|tx txs IH]; intros l H; cbn [missingReceipts] in H.
  { by injection H as <- <-. }
  inv_op. apply HasReceipt_ok in H0 as (_ & -> & ->). apply IH in H1 as [-> ->].
  split; [done|]. cbn [fmap list_fmap].
  destruct (receipt_missing s (tx_Hash tx)) eqn:Hm; cbn [negb].
  - rewrite filter_cons_True; [done|]. by rewrite Hm.
  - rewrite filter_cons_False; [done|]. rewrite Hm. by intros [].
Qed.

(** [GetMissingReceipts] of a stored block returns the hashes of exactly its
    transactions without a stored receipt, in block order, and changes nothing; each
    of them is a hash [GetReceipt] does not find. *)
Theorem GetMissingReceipts_exact h s l s' b (Hb : GetBlock h s = (Ok b, s))
  (H : GetMissingReceipts h s = (Ok l, s')) :
  s' = s /\
  l = filter (fun x => Is_true (receipt_missing s x)) (tx_Hash <$> block_Transactions b) /\
  forall x, x ∈ l -> fst (GetReceipt x s) = Err ErrNotFound.
Proof.
  unfold GetMissingReceipts in H. inv_op. rewrite Hb in H1. injection H1 as <- <-.
  apply missingReceipts_ok in H as [-> ->]. split_and!; [done|done|].
  intros x [Hx _]%list_elem_of_filter. unfold receipt_missing in Hx.
  unfold GetReceipt, ensureNotClosed, mbind, ST_bind, wrapST, dbGet. rewrite H0.
  by destruct (db_get _ (ReceiptKey x)) as [[v|]|].
Qed.

(** The receipts found for a list of transactions, in their order. *)
Definition found (s : PebbleStorage) (tx : Tx) : option Receipt :=
  match fst (GetReceipt (tx_Hash tx) s) with Ok r => Some r | Err _ => None end.

Lemma GetReceipt_state x s : snd (GetReceipt x s) = s.
Proof.
  unfold GetReceipt, ensureNotClosed, tryST, mbind, ST_bind, wrapST, dbGet, lift, fail.
  destruct (closed s); [done|]. destruct (db_get _ (ReceiptKey x)) as [[v|]|]; cbn; try done.
  destruct (DecodeReceipt v); cbn; [|done].
  by destruct (db_get _ (ContractAddressKey x)) as [[w|]|].
Qed.

Lemma collectReceipts_ok txs s l s' : collectReceipts txs s = (Ok l, s') ->
  s' = s /\ l = omap (found s) txs.
Proof.
  revert l s'. induction txs as [|tx txs IH]; intros l s' H; cbn [collectReceipts] in H.
  { by injection H as <- <-. }
  unfold tryST in H. cbn [omap list_omap]. unfold found at 1.
  pose proof (GetReceipt_state (tx_Hash tx) s) as Hs.
  destruct (GetReceipt (tx_Hash tx) s) as [[rc|e] s1]; cbn in Hs; subst s1; cbn [fst].
  - inv_op. by apply IH in H0 as [-> ->].
  - destruct e; try discriminate H. by apply IH in H.
Qed.

(** [GetReceiptsByBlockNumber] returns the stored receipts of the block's
    transactions in block order and skips the missing ones; asked by hash,
    [GetReceiptsByBlockHash] returns the same list when the block's hash is indexed
    at its height. Neither changes the storage. *)
Theorem GetReceiptsByBlock_exact h s b l s' (Hb : GetBlock h s = (Ok b, s))
  (Hh : block_height b = h) (Hx : GetBlockByHash (block_Hash b) s = (Ok b, s))
  (H : GetReceiptsByBlockNumber h s = (Ok l, s')) :
  s' = s /\ l = omap (found s) (block_Transactions b) /\
  GetReceiptsByBlockHash (block_Hash b) s = (Ok l, s).
Proof.
  pose proof H as H'. unfold GetReceiptsByBlockNumber in H. inv_op.
  rewrite Hb in H1. injection H1 as <- <-. apply collectReceipts_ok in H as [-> ->].
  split_and!; [done|done|]. unfold GetReceiptsByBlockHash, mbind at 1, ST_bind at 1.
  unfold ensureNotClosed at 1. rewrite H0. unfold mbind at 1, ST_bind at 1, wrapST at 1.
  rewrite Hx. cbn [wrap_err]. by rewrite Hh.
Qed.

End BlockRange.
