(* ===== verification/StorageWitnesses.v ===== *)
(** StorageWitnesses: the theorems about the store at concrete storages.

    Each lemma applies one theorem of PrefixOps.v, StorageThms.v, StorageSafety.v,
    AddressIndex.v or BlockRange.v to the in-memory storage and the chain of
    Instances.v, where its hypotheses hold. *)
From S2P Require Import Prelude Eth Schema KeySpace KV Chain Storage Batch PrefixOps.
From S2P Require Import StorageFacts StorageProps StorageReads Instances StorageThms.
From S2P Require Import StorageSafety AddressIndex BlockRange.

Lemma mem_healthy : healthy mem_pebble.
Proof. by split. Qed.

Lemma mem_usable : usable mem_storage.
Proof. by split. Qed.

Lemma count_rlp_enc {A} `{Countable A} (image : A -> A) (a : A) :
  rlp_Encode (RLP := count_rlp image) a = Ok (enc (R := count_rlp image) a).
Proof.
  assert (exists b, rlp_Encode (RLP := count_rlp image) a = Ok b) as [b Hb]
    by (eexists; reflexivity).
  unfold enc. by rewrite Hb.
Qed.

Lemma mem_encodable (b : mem_block) : encodable b.
Proof. split; [apply count_rlp_enc|]. intros i t _. split; apply count_rlp_enc. Qed.

Lemma mem_receipt_encodes (rc : Receipt) : rlp_Encode rc = Ok (enc rc).
Proof. apply count_rlp_enc. Qed.

Lemma mem_receipt1_valid : validateReceipt (Some mem_receipt1) = Ok tt.
Proof. vm_compute. reflexivity. Qed.

Lemma u64_zero : is_u64 0.
Proof. split; [lia | reflexivity]. Qed.

Lemma mem_block1_nodup : NoDup (tx_Hash <$> block_Transactions mem_block1).
Proof.
  change (NoDup [sample_hash 1; sample_hash 2]).
  refine (bool_decide_unpack (NoDup _) _). vm_compute. exact I.
Qed.

Lemma mem_SetBlock (b : mem_block) (s : PebbleStorage) : usable s ->
  exists s', SetBlock (Some b) s = (Ok tt, s') /\ usable s'.
Proof.
  intros Hs. assert (runs (SetBlock (Some b)) s (fun _ => usable)) as ([] & s' & H & Hs').
  { apply SetBlock_runs; [exact mem_healthy | exact Hs | apply mem_encodable]. }
  by exists s'.
Qed.

(** A state the storage reaches by storing the block. *)
Lemma mem_stored : exists s', SetBlock (Some mem_block1) mem_storage = (Ok tt, s').
Proof.
  eapply runs_tt, SetBlock_runs; [exact mem_healthy | exact mem_usable | apply mem_encodable].
Qed.

Lemma SetBlock_reads_witness : exists s',
  SetBlock (Some mem_block1) mem_storage = (Ok tt, s') /\
  GetBlock 7 s' = (Ok mem_block1, s') /\
  GetBlockByHash (sample_hash 100) s' = (Ok mem_block1, s') /\
  GetTransaction (sample_hash 2) s' =
    (Ok (sample_hash 2, mkTxLocation 7 1 (sample_hash 100)), s') /\
  txCount s' = 2.
Proof.
  destruct mem_stored as [s' H]. exists s'.
  destruct (SetBlock_reads lower_hex_laws mem_pebble_laws mem_chain_laws
              mem_block1 mem_storage s' u64_zero mem_block1_nodup H)
    as (H1 & H2 & H3 & _ & _ & _ & H4).
  split; [exact H|]. split; [exact H1|]. split; [exact H2|].
  split; [exact (H3 1%nat (sample_hash 2) eq_refl) | exact H4].
Defined.

Lemma mem_receipts_valid t rc : t ∈ block_Transactions mem_block1 ->
  receipt_map [Some mem_receipt1] !! tx_Hash t = Some rc ->
  validateReceipt (Some rc) = Ok tt /\ rlp_Encode rc = Ok (enc rc).
Proof.
  intros _ Hm. unfold receipt_map in Hm. cbn [fold_left] in Hm.
  destruct (decide (TxHash mem_receipt1 = tx_Hash t)) as [Heq|Hne].
  - rewrite Heq, lookup_insert_eq in Hm. injection Hm as <-.
    split; [exact mem_receipt1_valid | apply mem_receipt_encodes].
  - rewrite lookup_insert_ne, lookup_empty in Hm by exact Hne. discriminate Hm.
Qed.

Lemma SetBlockWithReceipts_reads_witness : exists s',
  SetBlockWithReceipts (Some mem_block1) [Some mem_receipt1] mem_storage = (Ok tt, s') /\
  GetLatestHeight s' = (Ok 7, s') /\ GetBlock 7 s' = (Ok mem_block1, s') /\
  GetReceipt (sample_hash 1) s' = (Ok (stored_receipt mem_receipt1), s').
Proof.
  assert (exists s', SetBlockWithReceipts (Some mem_block1) [Some mem_receipt1] mem_storage
                     = (Ok tt, s')) as [s' H].
  { eapply runs_tt, SetBlockWithReceipts_runs;
      [exact mem_healthy | exact mem_usable | apply mem_encodable | exact mem_receipts_valid]. }
  exists s'. split; [exact H|].
  destruct (SetBlockWithReceipts_reads lower_hex_laws mem_pebble_laws mem_chain_laws
              mem_block1 [Some mem_receipt1] mem_storage s' u64_zero mem_block1_nodup H)
    as (H1 & H2 & _ & _ & H3 & _).
  split; [exact H1|]. split; [exact H2|].
  apply (H3 (sample_hash 1) mem_receipt1).
  - left.
  - unfold receipt_map. cbn [fold_left]. exact (lookup_insert_eq _ _ _).
  - left. reflexivity.
Defined.

Lemma SetBlocks_batch_equiv_witness : exists s1 s2,
  SetBlocks (Some <$> [mem_block1; mem_block1]) mem_storage = (Ok tt, s1) /\
  forST SetBlock (Some <$> [mem_block1; mem_block1]) mem_storage = (Ok tt, s2) /\
  (forall k, db_get (db s1) k = db_get (db s2) k) /\ s1 = set_db (db s1) s2.
Proof.
  assert (exists s1, SetBlocks (Some <$> [mem_block1; mem_block1]) mem_storage = (Ok tt, s1))
    as [s1 H1].
  { eapply runs_tt, SetBlocks_runs; [exact mem_healthy | exact mem_usable|].
    apply Forall_true, mem_encodable. }
  assert (exists s2, forST SetBlock (Some <$> [mem_block1; mem_block1]) mem_storage = (Ok tt, s2))
    as [s2 H2].
  { eapply runs_tt. apply (runs_forST usable); [|exact mem_usable].
    intros ob s Hin Hs. apply list_elem_of_fmap in Hin as (b & -> & _).
    exact (SetBlock_runs mem_healthy b s Hs (mem_encodable b)). }
  exists s1, s2. split; [exact H1|]. split; [exact H2|].
  exact (SetBlocks_batch_equiv lower_hex_laws mem_pebble_laws [mem_block1; mem_block1]
           mem_storage s1 s2 u64_zero eq_refl H1 H2).
Defined.

(** * Failures *)

(** A database whose disk is full: reads are answered, writes are refused. *)
Definition full_pebble : Pebble :=
  {| DB := gmap bytes bytes;
     db_get := @db_get mem_pebble;
     db_write := fun m _ => (m, Some (External 28));
     db_iter := @db_iter mem_pebble;
     batch_add_err := fun _ _ => None |}.

Lemma full_pebble_laws : PebbleLaws full_pebble.
Proof.
  split.
  - discriminate.
  - by intros m ops m' e k [= <- <-].
  - exact (@db_iter_sorted mem_pebble mem_pebble_laws).
  - exact (@db_iter_sound mem_pebble mem_pebble_laws).
  - exact (@db_iter_complete mem_pebble mem_pebble_laws).
Qed.

Definition full_storage : PebbleStorage (P := full_pebble) :=
  mkStorage (P := full_pebble) (∅ : gmap bytes bytes) false false ∅ 5.

Lemma batch_ops_atomic_witness : exists e s',
  SetReceipts (P := full_pebble) [Some mem_receipt1] full_storage = (Err e, s') /\
  same_store full_storage s'.
Proof.
  destruct (SetReceipts (P := full_pebble) [Some mem_receipt1] full_storage) as [r s'] eqn:Hr.
  assert (exists e, r = Err e) as [e ->].
  { unfold SetReceipts, mbind, ST_bind, with_batch in Hr. cbn [forST fst] in Hr.
    unfold b_SetReceipt, mbind, ST_bind, lift, EncodeReceipt in Hr.
    rewrite mem_receipt1_valid, mem_receipt_encodes in Hr.
    cbn -[big_Bytes enc EncodeUint64] in Hr. injection Hr as <- _. eexists. reflexivity. }
  exists e, s'. split; [reflexivity|].
  apply (batch_ops_atomic full_pebble_laws [] [Some mem_receipt1] None full_storage e s'
           (SetReceipts [Some mem_receipt1])); [right; left; reflexivity | exact Hr].
Defined.

Definition counted_batch : pebbleBatch := mkBatch [(lit "k", Some (lit "v"))] 2 1 false.

Lemma commit_failure_counts_witness :
  fst (b_Commit (P := full_pebble) (full_storage, counted_batch)) = Err (External 28) /\
  txCount (fst (snd (b_Commit (P := full_pebble) (full_storage, counted_batch)))) = 6 /\
  forall k, @db_get full_pebble
    (db (fst (snd (b_Commit (P := full_pebble) (full_storage, counted_batch))))) k
    = @db_get full_pebble (db full_storage) k.
Proof.
  exact (commit_failure_counts full_pebble_laws full_storage counted_batch (External 28) _
           eq_refl eq_refl (fun _ => eq_refl) (fun _ => eq_refl)).
Defined.

(** * The corners *)

Lemma SetBlock_twice_witness : exists s1 s2,
  SetBlock (Some mem_block1) mem_storage = (Ok tt, s1) /\
  SetBlock (Some mem_block1) s1 = (Ok tt, s2) /\ txCount s2 = 4.
Proof.
  destruct (mem_SetBlock mem_block1 mem_storage mem_usable) as (s1 & H1 & Hs1).
  destruct (mem_SetBlock mem_block1 s1 Hs1) as (s2 & H2 & _).
  exists s1, s2. split; [exact H1|]. split; [exact H2|].
  exact (proj2 (SetBlock_twice mem_pebble_laws mem_block1 mem_storage s1 s2 u64_zero H1 H2)).
Defined.

Lemma DeleteBlock_removes_witness : exists s s',
  GetBlock 7 s = (Ok mem_block1, s) /\ DeleteBlock 7 s = (Ok tt, s') /\
  fst (GetBlock 7 s') = Err ErrNotFound /\
  fst (GetTransaction (sample_hash 2) s') = fst (GetTransaction (sample_hash 2) s).
Proof.
  destruct (mem_SetBlock mem_block1 mem_storage mem_usable) as (s & H & Hs).
  destruct SetBlock_reads_witness as (s1 & H1 & Hb & _). rewrite H in H1.
  injection H1 as <-.
  assert (exists s', DeleteBlock 7 s = (Ok tt, s')) as [s' Hd].
  { unfold DeleteBlock, mbind, ST_bind, ensureNotClosed, ensureNotReadOnly.
    rewrite (proj1 Hs), (proj2 Hs). unfold tryST. rewrite Hb. eexists. reflexivity. }
  exists s, s'. split; [exact Hb|]. split; [exact Hd|].
  assert (Hu : is_u64 (txCount s)).
  { apply (SetBlock_applied (C := mem_chain) mem_pebble_laws mem_block1 mem_storage tt s u64_zero) in H as (_ & _ & _ & Ha).
    exact (applied_u64 _ _ _ _ Ha). }
  destruct (DeleteBlock_removes (C := mem_chain) lower_hex_laws mem_pebble_laws 7 s mem_block1 s' Hu Hb Hd)
    as (G1 & _ & _ & G2 & _).
  split; [exact G1 | apply G2].
Defined.

Lemma SetReceipt_roundtrip_witness :
  (exists s', SetReceipt (Some mem_receipt1) mem_storage = (Ok tt, s') /\
     GetReceipt (sample_hash 1) s' = (Ok (stored_receipt mem_receipt1), s')) /\
  exists msg, SetReceipt (Some (set_TxHash (zero_array 32) mem_receipt1)) mem_storage
                = (Err (Wrap msg ErrInvalidReceipt), mem_storage).
Proof.
  split.
  - assert (exists s', SetReceipt (Some mem_receipt1) mem_storage = (Ok tt, s')) as [s' H].
    { unfold SetReceipt, mbind, ST_bind, lift, EncodeReceipt.
      rewrite mem_receipt1_valid, mem_receipt_encodes. eexists. reflexivity. }
    exists s'. split; [exact H|].
    destruct (SetReceipt_roundtrip lower_hex_laws mem_pebble_laws mem_chain_laws mem_receipt1
                mem_storage mem_usable u64_zero) as [G _].
    exact (proj1 (proj2 (G s' H (or_introl eq_refl)))).
  - apply (SetReceipt_roundtrip lower_hex_laws mem_pebble_laws mem_chain_laws
             (set_TxHash (zero_array 32) mem_receipt1) mem_storage mem_usable u64_zero).
    intros [G _]. exact (G eq_refl).
Defined.

(** * The address index *)

Lemma mem_index_empty addr : index_holds addr [] mem_storage.
Proof.
  split; [reflexivity|]. intros k v _. cbn [entries_from]. split; [|by intros ?%not_elem_of_nil].
  unfold db_get, mem_pebble, db, mem_storage. rewrite lookup_empty. discriminate.
Qed.

Definition mem_adds : list (Address * Hash) :=
  [(sample_address 1, sample_hash 11); (sample_address 2, sample_hash 12);
   (sample_address 1, sample_hash 13)].

Lemma address_pages_witness : exists s' page s2,
  forST (fun '(a, h) => AddTransactionToAddressIndex a h) mem_adds mem_storage = (Ok tt, s') /\
  GetTransactionsByAddress (sample_address 1) 5 1 s' = (Ok page, s2) /\
  page = take 5 (drop 1 (hashes_of (sample_address 1) mem_adds)).
Proof.
  assert (exists s', forST (fun '(a, h) => AddTransactionToAddressIndex a h) mem_adds mem_storage
                     = (Ok tt, s') /\ closed s' = false) as (s' & H & Hc)
    by (eexists; split; reflexivity).
  assert (exists page, GetTransactionsByAddress (sample_address 1) 5 1 s' = (Ok page, s'))
    as [page Hp].
  { unfold GetTransactionsByAddress, mbind, ST_bind, ensureNotClosed. rewrite Hc.
    eexists. reflexivity. }
  exists s', page, s'. split; [exact H|]. split; [exact Hp|].
  apply (address_pages lower_hex_laws mem_pebble_laws (sample_address 1) mem_adds mem_storage s'
           5 1 page s'); [lia | lia | apply mem_index_empty | reflexivity | reflexivity
           | exact H | exact Hp].
Defined.

Lemma NewPebbleStorage_uncounted {P : Pebble} d ro :
  db_get d TransactionCountKey = Ok None ->
  NewPebbleStorage d ro = Ok (mkStorage d ro false ∅ 0).
Proof.
  intros Hd. unfold NewPebbleStorage, loadTransactionCount, mbind, ST_bind, wrapST, dbGet.
  cbn. by rewrite Hd.
Qed.

Lemma restart_overwrites_witness : exists s0 d s s',
  AddTransactionToAddressIndex (sample_address 1) (sample_hash 11) mem_storage = (Ok tt, s0) /\
  d = db s0 /\ NewPebbleStorage d false = Ok s /\
  AddTransactionToAddressIndex (sample_address 1) (sample_hash 12) s = (Ok tt, s') /\
  index_holds (sample_address 1) [sample_hash 12] s'.
Proof.
  assert (exists s0, AddTransactionToAddressIndex (sample_address 1) (sample_hash 11) mem_storage
                     = (Ok tt, s0)) as [s0 H0] by (eexists; reflexivity).
  pose proof (adds_hold lower_hex_laws mem_pebble_laws (sample_address 1)
    [(sample_address 1, sample_hash 11)] [] mem_storage s0 (mem_index_empty _) eq_refl eq_refl)
    as Hh.
  cbn [forST] in Hh. unfold mbind, ST_bind in Hh. rewrite H0 in Hh. specialize (Hh eq_refl).
  assert (Hl : hashes_of (sample_address 1) [(sample_address 1, sample_hash 11)]
               = [sample_hash 11]).
  { unfold hashes_of. rewrite filter_cons_True by reflexivity. reflexivity. }
  rewrite Hl in Hh. cbn [app] in Hh.
  assert (Hcount : @db_get mem_pebble (db s0) TransactionCountKey = Ok None).
  { apply (AddTransaction_effect mem_pebble_laws) in H0 as (_ & _ & _ & Hw). rewrite Hw.
    rewrite decide_False; [reflexivity|]. pose proof lower_hex_laws as HE. key_ne. }
  assert (Hopen : NewPebbleStorage (db s0) false = Ok (mkStorage (db s0) false false ∅ 0)).
  { exact (NewPebbleStorage_uncounted (db s0) false Hcount). }
  assert (exists s', AddTransactionToAddressIndex (sample_address 1) (sample_hash 12)
      (mkStorage (db s0) false false ∅ 0) = (Ok tt, s')) as [s' H'] by (eexists; reflexivity).
  exists s0, (db s0), (mkStorage (db s0) false false ∅ 0), s'.
  split; [exact H0|]. split; [reflexivity|]. split; [exact Hopen|]. split; [exact H'|].
  exact (restart_overwrites lower_hex_laws mem_pebble_laws (sample_address 1) (sample_hash 11)
           [] (sample_hash 12) (db s0) _ s' Hopen Hh H').
Defined.

(** * Ranges *)

Lemma mem_empty_readable h : readable mem_storage h.
Proof.
  unfold readable. rewrite GetBlock_eval by reflexivity.
  unfold db_get, mem_pebble, db, mem_storage. by rewrite lookup_empty.
Qed.

Lemma GetBlocks_total_witness : exists s,
  GetBlock 7 s = (Ok mem_block1, s) /\
  GetBlocks 12 0 9 s = Some (Ok (blocks_from s 0 10), s).
Proof.
  destruct (mem_SetBlock mem_block1 mem_storage mem_usable) as (s & H & Hs).
  destruct (SetBlock_reads lower_hex_laws mem_pebble_laws mem_chain_laws
              mem_block1 mem_storage s u64_zero mem_block1_nodup H)
    as (H1 & _ & _ & H2 & _).
  exists s. split; [exact H1|].
  apply (GetBlocks_total 0 9 12 s); [apply Hs | exact u64_zero | split; [lia | reflexivity]
    | reflexivity | | vm_compute; lia].
  intros h _. destruct (decide (h = block_height (C := mem_chain) mem_block1)) as [->|Hne].
  - unfold readable. rewrite H1. exact I.
  - unfold readable. rewrite (H2 h Hne). apply mem_empty_readable.
Defined.

Lemma GetBlocks_panics_witness :
  GetBlocks (P := mem_pebble) 5 10 8 mem_storage
    = Some (Err (Panic "makeslice: cap out of range"), mem_storage) /\
  GetBlocks (P := mem_pebble) 5 10 9 mem_storage = Some (Ok [], mem_storage).
Proof.
  split; [|reflexivity].
  apply (GetBlocks_panics 10 8 5 mem_storage);
    [reflexivity | split; [discriminate | reflexivity] | split; [discriminate | reflexivity]
    | left; split; [reflexivity | vm_compute; discriminate]].
Defined.

Lemma GetBlocks_diverges_witness :
  GetBlocks (P := mem_pebble) 1000 (two64 - 10) (two64 - 1) mem_storage = None.
Proof.
  apply (GetBlocks_diverges (two64 - 10) 1000 mem_storage);
    [reflexivity | split; [vm_compute; discriminate | reflexivity] | reflexivity|].
  intros h _. apply mem_empty_readable.
Defined.

Lemma mem_HasReceipt x s : open s -> exists r, HasReceipt (P := mem_pebble) x s = (Ok r, s).
Proof.
  intros Ho. unfold HasReceipt, mbind, ST_bind, ensureNotClosed. rewrite Ho.
  eexists. reflexivity.
Qed.

Lemma mem_missing txs s : open s ->
  exists l, missingReceipts (P := mem_pebble) (C := mem_chain) txs s = (Ok l, s).
Proof.
  intros Ho. induction txs as [|t ts [l Hl]]; [by exists []|].
  destruct (mem_HasReceipt (tx_Hash t) s Ho) as [r Hr].
  cbn [missingReceipts]. unfold mbind, ST_bind, wrapST. rewrite Hr. cbn [wrap_err].
  rewrite Hl. by eexists.
Qed.

Lemma GetMissingReceipts_exact_witness : exists s l,
  GetMissingReceipts 7 s = (Ok l, s) /\
  l = filter (fun x => Is_true (receipt_missing s x)) [sample_hash 1; sample_hash 2] /\
  forall x, x ∈ l -> fst (GetReceipt x s) = Err ErrNotFound.
Proof.
  destruct SetBlock_reads_witness as (s & H & Hb & _).
  assert (exists l, GetMissingReceipts 7 s = (Ok l, s)) as [l Hl].
  { unfold GetMissingReceipts, mbind at 1, ST_bind at 1, ensureNotClosed at 1.
    destruct (mem_SetBlock mem_block1 mem_storage mem_usable) as (s1 & H1 & Hs).
    rewrite H in H1. injection H1 as <-. rewrite (proj1 Hs).
    unfold mbind at 1, ST_bind at 1, wrapST at 1. rewrite Hb. cbn [wrap_err].
    apply mem_missing, Hs. }
  exists s, l. split; [exact Hl|].
  exact (proj2 (GetMissingReceipts_exact 7 s l s mem_block1 Hb Hl)).
Defined.

Lemma GetReceiptsByBlock_exact_witness : exists s l,
  GetReceiptsByBlockNumber 7 s = (Ok l, s) /\
  l = omap (M := list) (found (C := mem_chain) s) [sample_hash 1; sample_hash 2] /\
  GetReceiptsByBlockHash (sample_hash 100) s = (Ok l, s).
Proof.
  destruct (SetBlock_reads_witness) as (s & H & Hb & Hx & _).
  destruct (mem_SetBlock mem_block1 mem_storage mem_usable) as (s1 & H1 & Hs).
  rewrite H in H1. injection H1 as <-.
  destruct (SetBlock_reads lower_hex_laws mem_pebble_laws mem_chain_laws
              mem_block1 mem_storage s u64_zero mem_block1_nodup H)
    as (_ & _ & _ & _ & Hr & _).
  assert (Hnone : forall x, GetReceipt x s = (Err ErrNotFound, s)).
  { intros x. pose proof (GetReceipt_state x s) as Hst. specialize (Hr x).
    destruct (GetReceipt x s) as [r s2]. cbn in Hst, Hr. subst s2 r. f_equal. }
  assert (Hl : GetReceiptsByBlockNumber 7 s = (Ok [], s)).
  { unfold GetReceiptsByBlockNumber, mbind at 1, ST_bind at 1, ensureNotClosed at 1.
    rewrite (proj1 Hs). unfold mbind at 1, ST_bind at 1, wrapST at 1. rewrite Hb.
    cbn [wrap_err]. induction (block_Transactions (ChainTypes := mem_chain) mem_block1) as [|t ts IH]; [reflexivity|].
    cbn [collectReceipts]. unfold tryST. by rewrite Hnone. }
  exists s, []. split; [exact Hl|].
  exact (proj2 (GetReceiptsByBlock_exact 7 s mem_block1 [] s Hb eq_refl Hx Hl)).
Defined.

(** * Prefixes *)

Definition mem_three : PebbleStorage (P := mem_pebble) :=
  mkStorage (P := mem_pebble)
    ({[ lit "a" := lit "1"; lit "ab" := lit "2"; lit "b" := lit "3" ]} : gmap bytes bytes)
    false false ∅ 0.

Definition collect (acc : list (bytes * bytes)) (k v : bytes) : list (bytes * bytes) * bool :=
  (acc ++ [(k, v)], true).

Lemma pair_eta {A B} (p : A * B) a : fst p = a -> p = (a, snd p).
Proof. destruct p. cbn. by intros ->. Qed.

Lemma Iterate_exact_witness :
  Iterate (lit "a") collect [] mem_three
    = (Ok [(lit "a", lit "1"); (lit "ab", lit "2")], mem_three) /\
  forall k v, (k, v) ∈ [(lit "a", lit "1"); (lit "ab", lit "2")] <->
    HasPrefix k (lit "a") = true /\ @db_get mem_pebble (db mem_three) k = Ok (Some v).
Proof.
  assert (H : fst (Iterate (lit "a") collect [] mem_three)
    = Ok [(lit "a", lit "1"); (lit "ab", lit "2")]) by (vm_compute; reflexivity).
  apply pair_eta in H.
  destruct (Iterate_exact mem_pebble_laws (lit "a") mem_three _ _ H) as (Hs & _ & G).
  rewrite Hs in H. split; [exact H | exact G].
Defined.

Lemma DeleteByPrefix_exact_witness : exists s',
  DeleteByPrefix (lit "a") mem_three = (Ok 2, s') /\
  (forall k v, HasPrefix k (lit "a") = true -> @db_get mem_pebble (db s') k <> Ok (Some v)).
Proof.
  assert (H : fst (DeleteByPrefix ([] ++ ["a"%char]) mem_three) = Ok 2)
    by (vm_compute; reflexivity).
  apply pair_eta in H. eexists. split; [exact H|].
  destruct (DeleteByPrefix_exact mem_pebble_laws [] "a"%char mem_three 2 _ eq_refl H)
    as (l & e & Hi & _ & _ & _ & Hall).
  apply Hall.
  exact (eq_sym (f_equal (fun r => match r with Ok p => snd p | Err _ => None end) Hi)).
Defined.
