(* ===== verification/Wire.v ===== *)
(** Wire: reading and writing Go byte slices at an offset.

    The binary formats of pkg/storage/encoder.go fill a buffer of a computed size
    with [copy] and [binary.BigEndian] at a running offset and read it back the same
    way. Slice expressions and indexing panic outside the slice and offsets are
    64-bit integers that wrap, so both are operations that can fail. A slice's
    capacity is taken to be its length. *)
From S2P Require Import Prelude Eth.

Definition len (data : bytes) : Z := Z.of_nat (length data).

(** [data[lo:hi]] and [data[i]]. *)
Definition slice (data : bytes) (lo hi : Z) : res bytes :=
  if (0 <=? lo) && (lo <=? hi) && (hi <=? len data)
  then Ok (take (Z.to_nat (hi - lo)) (drop (Z.to_nat lo) data))
  else Err (Panic "slice bounds out of range").

Definition index (data : bytes) (i : Z) : res ascii :=
  if (0 <=? i) then
    match data !! Z.to_nat i with
    | Some c => Ok c
    | None => Err (Panic "index out of range")
    end
  else Err (Panic "index out of range").

(** * Reading *)

(** A reader threads the offset. *)
Definition reader (A : Type) : Type := ST Z A.

Section Reader.
Context (data : bytes).

(** [x := data[offset : offset+n]; offset += n]. *)
Definition read (n : Z) : reader bytes := fun offset =>
  match slice data offset (i64 (offset + n)) with
  | Ok b => (Ok b, i64 (offset + n))
  | Err e => (Err e, offset)
  end.

(** [data[offset]; offset++]. *)
Definition read_byte : reader ascii := fun offset =>
  match index data offset with
  | Ok c => (Ok c, i64 (offset + 1))
  | Err e => (Err e, offset)
  end.

(** [binary.BigEndian.Uint64(data[offset : offset+8]); offset += 8], and the 32-bit one. *)
Definition read_Uint64 : reader Z := b ← read 8; mret (be_get b).
Definition read_Uint32 : reader Z := b ← read 4; mret (be_get b).

(** [copy(a[:], data[offset:offset+n]); offset += n] into an array of [n] bytes. *)
Definition read_array (n : nat) : reader (byte_array n) :=
  b ← read (Z.of_nat n); mret (array_copy n b).

(** [if offset+n > len(data) { return nil, fmt.Errorf(msg) }]. *)
Definition ensure (n : Z) (msg : string) : reader unit := fun offset =>
  (if len data <? i64 (offset + n) then Err (Errorf msg) else Ok tt, offset).

End Reader.

(** * Writing *)

(** A writer threads the buffer and the offset. *)
Definition writer (A : Type) : Type := ST (bytes * Z) A.

(** [copy(buf[offset:offset+n], src); offset += n]: at most [n] bytes are copied. *)
Definition write (n : Z) (src : bytes) : writer unit := fun '(buf, offset) =>
  match slice buf offset (i64 (offset + n)) with
  | Ok dst =>
      let k := Nat.min (length dst) (length src) in
      (Ok tt, (take (Z.to_nat offset) buf ++ take k src ++ drop (Z.to_nat offset + k) buf,
               i64 (offset + n)))
  | Err e => (Err e, (buf, offset))
  end.

(** [buf[offset] = c; offset++]. *)
Definition write_byte (c : ascii) : writer unit := fun '(buf, offset) =>
  match index buf offset with
  | Ok _ => (Ok tt, (<[Z.to_nat offset := c]> buf, i64 (offset + 1)))
  | Err e => (Err e, (buf, offset))
  end.

Definition write_Uint64 (z : Z) : writer unit := write 8 (be_put 8 z).
Definition write_Uint32 (z : Z) : writer unit := write 4 (be_put 4 z).

(** [buf := make([]byte, size)], then the writes; the buffer is the result. *)
Definition encode_into (size : Z) (m : writer unit) : res bytes :=
  match m (replicate (Z.to_nat size) zero, 0) with
  | (Ok _, (buf, _)) => Ok buf
  | (Err e, _) => Err e
  end.

(** * What a reader consumes and a writer produces *)

(** Buffers and slices shorter than this have no overflowing offsets. *)
Definition small (z : Z) : Prop := z < 2 ^ 62.

(** [reads m b a]: on data that goes on with [b], the reader takes [b] and returns [a]. *)
Definition reads {A} (m : bytes -> reader A) (b : bytes) (a : A) : Prop :=
  forall pre post, small (len (pre ++ b ++ post)) ->
    m (pre ++ b ++ post) (len pre) = (Ok a, len pre + len b).

Lemma len_app a b : len (a ++ b) = len a + len b.
Proof. unfold len. rewrite length_app. lia. Qed.

Lemma len_nonneg a : 0 <= len a.
Proof. unfold len. lia. Qed.

Lemma i64_small z : 0 <= z -> small z -> i64 z = z.
Proof. intros H1 H2. apply i64_id. unfold small in H2. lia. Qed.

Lemma slice_mid pre b post :
  slice (pre ++ b ++ post) (len pre) (len pre + len b) = Ok b.
Proof.
  unfold slice. rewrite !len_app.
  pose proof (len_nonneg pre). pose proof (len_nonneg b). pose proof (len_nonneg post).
  destruct (Z.leb_spec 0 (len pre)); [|lia].
  destruct (Z.leb_spec (len pre) (len pre + len b)); [|lia].
  destruct (Z.leb_spec (len pre + len b) (len pre + (len b + len post))); [|lia]. cbn [andb].
  replace (len pre + len b - len pre) with (len b) by lia. unfold len. rewrite !Nat2Z.id.
  by rewrite drop_app_length, take_app_length.
Qed.

Lemma small_parts pre b post : small (len (pre ++ b ++ post)) ->
  i64 (len pre + len b) = len pre + len b.
Proof.
  rewrite !len_app. unfold small. intros H. pose proof (len_nonneg pre).
  pose proof (len_nonneg b). pose proof (len_nonneg post). apply i64_small; unfold small; lia.
Qed.

Lemma reads_read n b : n = len b -> reads (fun d => read d n) b b.
Proof.
  intros -> pre post Hs. unfold read. rewrite (small_parts _ _ _ Hs). by rewrite slice_mid.
Qed.

Lemma reads_ret {A} (a : A) : reads (fun _ => mret a) [] a.
Proof. intros pre post _. cbn. unfold mret, ST_ret. f_equal. unfold len. cbn. lia. Qed.

Lemma reads_bind {A B} (m : bytes -> reader A) (k : A -> bytes -> reader B) b1 b2 a c :
  reads m b1 a -> reads (k a) b2 c -> reads (fun d => m d ≫= (fun x => k x d)) (b1 ++ b2) c.
Proof.
  intros H1 H2 pre post Hs. rewrite <- (app_assoc b1) in *. unfold mbind, ST_bind.
  rewrite H1 by done. specialize (H2 (pre ++ b1) post). rewrite <- !(app_assoc pre) in H2.
  rewrite <- len_app, H2 by done. rewrite !len_app. f_equal. lia.
Qed.

Lemma reads_map {A B} (m : bytes -> reader A) (f : A -> B) b a c :
  reads m b a -> f a = c -> reads (fun d => x ← m d; mret (f x)) b c.
Proof.
  intros H <- pre post Hs. unfold mbind, ST_bind. by rewrite H.
Qed.

Lemma reads_array n (a : byte_array n) : reads (fun d => read_array d n) (`a) a.
Proof.
  apply (reads_map _ (array_copy n) _ (`a)); [|apply array_copy_bytes].
  apply reads_read. unfold len. by rewrite (proj2_dsig a).
Qed.

Lemma reads_Uint64 z : is_u64 z -> reads (fun d => read_Uint64 d) (be_put 8 z) z.
Proof.
  intros Hz. apply (reads_map _ be_get _ (be_put 8 z)).
  - apply reads_read. unfold len. by rewrite length_be_put.
  - rewrite be_get_put. by apply Z.mod_small.
Qed.

Lemma reads_Uint32 z : 0 <= z < 2 ^ 32 -> reads (fun d => read_Uint32 d) (be_put 4 z) z.
Proof.
  intros Hz. apply (reads_map _ be_get _ (be_put 4 z)).
  - apply reads_read. unfold len. by rewrite length_be_put.
  - rewrite be_get_put. by apply Z.mod_small.
Qed.

Lemma reads_byte c : reads (fun d => read_byte d) [c] c.
Proof.
  intros pre post Hs. unfold read_byte, index.
  pose proof (len_nonneg pre). destruct (Z.leb_spec 0 (len pre)); [|lia].
  unfold len at 1. rewrite Nat2Z.id, lookup_app_r, Nat.sub_diag by lia. cbn.
  change 1 with (len [c]). by rewrite (small_parts _ _ _ Hs).
Qed.

(** A check passes when the bytes it asks for are there. *)
Lemma reads_ensure {A} n msg (k : bytes -> reader A) b a : 0 <= n <= len b ->
  reads k b a -> reads (fun d => ensure d n msg ≫= (fun _ => k d)) b a.
Proof.
  intros Hn Hk pre post Hs. unfold mbind, ST_bind, ensure.
  pose proof Hs as Hs'. rewrite !len_app in *. unfold small in *.
  pose proof (len_nonneg pre). pose proof (len_nonneg post).
  rewrite i64_small by (unfold small; lia).
  destruct (Z.ltb_spec (len pre + (len b + len post)) (len pre + n)); [lia|].
  apply Hk. unfold small. rewrite !len_app. lia.
Qed.

(** Reading all of the data from its start. *)
Lemma reads_run {A} (m : bytes -> reader A) b a : reads m b a -> small (len b) ->
  m b 0 = (Ok a, len b).
Proof.
  intros H Hs. specialize (H [] []). cbn [app] in H. rewrite app_nil_r in H. exact (H Hs).
Qed.

(** [writes m b]: the writer appends exactly [b] to what is filled. *)
Definition writes (m : writer unit) (b : bytes) : Prop :=
  forall pre k, small (len pre + len b + Z.of_nat k) ->
    m (pre ++ replicate (length b + k) zero, len pre)
    = (Ok tt, (pre ++ b ++ replicate k zero, len pre + len b)).

Lemma writes_write n b : n = len b -> writes (write n b) b.
Proof.
  intros -> pre k Hs. unfold write. rewrite replicate_add.
  rewrite i64_small by (unfold small in *; unfold len in *; lia).
  assert (Hd : slice (pre ++ replicate (length b) zero ++ replicate k zero) (len pre)
                 (len pre + len b) = Ok (replicate (length b) zero)).
  { replace (len b) with (len (replicate (length b) zero))
      by (unfold len; by rewrite length_replicate). apply slice_mid. }
  rewrite Hd. rewrite length_replicate, Nat.min_id. unfold len at 1 2. rewrite !Nat2Z.id.
  rewrite take_app_length, firstn_all. do 4 f_equal.
  rewrite app_assoc, drop_app_ge by (rewrite length_app, length_replicate; lia).
  rewrite length_app, length_replicate.
  by replace (length pre + length b - (length pre + length b))%nat with 0%nat by lia.
Qed.

Lemma writes_byte c : writes (write_byte c) [c].
Proof.
  intros pre k Hs. unfold write_byte, index. pose proof (len_nonneg pre).
  destruct (Z.leb_spec 0 (len pre)); [|lia]. unfold len at 1. rewrite Nat2Z.id.
  rewrite lookup_app_r, Nat.sub_diag by lia. cbn [length replicate Nat.add lookup list_lookup].
  change (len [c]) with 1 in *. rewrite i64_small by (unfold small in *; lia).
  unfold len at 1. rewrite Nat2Z.id. do 3 f_equal.
  by rewrite insert_app_r_alt, Nat.sub_diag by lia.
Qed.

Lemma writes_nil (m : writer unit) : (forall s, m s = (Ok tt, s)) -> writes m [].
Proof. intros H pre k Hs. rewrite H. cbn. do 2 f_equal. unfold len. cbn. lia. Qed.

Lemma writes_bind m1 m2 b1 b2 : writes m1 b1 -> writes m2 b2 ->
  writes (_ ← m1; m2) (b1 ++ b2).
Proof.
  intros H1 H2 pre k Hs. unfold mbind, ST_bind. rewrite length_app, <- Nat.add_assoc.
  rewrite len_app in Hs. rewrite H1 by (unfold small, len in *; lia).
  specialize (H2 (pre ++ b1) k). rewrite <- app_assoc in H2. rewrite <- len_app, H2.
  - by rewrite <- !app_assoc, !len_app, Z.add_assoc.
  - unfold small in *. rewrite !len_app in *. lia.
Qed.

Lemma writes_Uint64 z : writes (write_Uint64 z) (be_put 8 z).
Proof. apply writes_write. unfold len. by rewrite length_be_put. Qed.

Lemma writes_Uint32 z : writes (write_Uint32 z) (be_put 4 z).
Proof. apply writes_write. unfold len. by rewrite length_be_put. Qed.

Lemma writes_array n (a : byte_array n) : writes (write (Z.of_nat n) (`a)) (`a).
Proof. apply writes_write. unfold len. by rewrite (proj2_dsig a). Qed.

(** A buffer of the right size is filled exactly. *)
Lemma encode_into_writes size m b : writes m b -> size = len b -> small size ->
  encode_into size m = Ok b.
Proof.
  intros Hm -> Hs. unfold encode_into. specialize (Hm [] 0%nat). cbn [app] in Hm.
  rewrite Nat.add_0_r in Hm. unfold len at 1. rewrite Nat2Z.id.
  change (len []) with 0 in Hm. rewrite Hm by (unfold small, len in *; cbn; lia).
  by rewrite app_nil_r.
Qed.

#[export] Hint Resolve writes_Uint64 writes_Uint32 writes_byte writes_array reads_ret
  reads_Uint64 reads_Uint32 reads_byte reads_array : go.
