(* ===== verification/Codec.v ===== *)
(** Codec: the binary formats of pkg/storage/encoder.go.

    [BalanceSnapshot], [Proposal], [ValidatorChangeEvent] and [MemberChangeEvent] have
    hand-written formats: a buffer of a computed size filled field by field, variable
    parts behind their 64-bit lengths, optional parts behind a flag byte. Encoders and
    decoders are written with the readers and writers of Wire.v. The theorems: every
    encoder fills its buffer exactly, decoding it gives the value back up to what the
    format does not carry, and which inputs make the decoders panic. *)
From S2P Require Import Prelude Eth Wire.

(** * Big integers *)

(** A nil big integer encodes as no bytes, as zero does. *)
Definition EncodeBigInt (n : option Z) : bytes :=
  match n with None => [] | Some z => big_Bytes z end.

Definition DecodeBigInt (data : bytes) : Z :=
  if (length data =? 0)%nat then 0 else big_SetBytes data.

(** * The records *)

Record BalanceSnapshot := mkBalanceSnapshot {
  bs_BlockNumber : Z;
  bs_Balance : option Z;
  bs_Delta : option Z;
  bs_TxHash : Hash;
}.

Record Proposal := mkProposal {
  p_Contract : Address;
  p_ProposalID : option Z;
  p_Proposer : Address;
  p_ActionType : byte_array 32;
  p_CallData : bytes;
  p_MemberVersion : option Z;
  p_RequiredApprovals : Z;
  p_Approved : Z;
  p_Rejected : Z;
  p_Status : Z;
  p_CreatedAt : Z;
  p_ExecutedAt : option Z;
  p_BlockNumber : Z;
  p_TxHash : Hash;
}.

Record ValidatorChangeEvent := mkValidatorChange {
  vc_BlockNumber : Z;
  vc_TxHash : Hash;
  vc_Validator : Address;
  vc_Action : bytes;
  vc_OldValidator : option Address;
  vc_Timestamp : Z;
}.

Record MemberChangeEvent := mkMemberChange {
  mc_Contract : Address;
  mc_BlockNumber : Z;
  mc_TxHash : Hash;
  mc_Member : Address;
  mc_Action : bytes;
  mc_OldMember : option Address;
  mc_TotalMembers : Z;
  mc_NewQuorum : Z;
  mc_Timestamp : Z;
}.

(** * Balance snapshots *)

(** The bytes of a field behind its length. *)
Definition write_sized (b : bytes) : writer unit :=
  _ ← write_Uint64 (len b); write (len b) b.

Definition EncodeBalanceSnapshot (snapshot : option BalanceSnapshot) : res bytes :=
  match snapshot with
  | None => Err (Errorf "snapshot cannot be nil")
  | Some s =>
      let balanceBytes := match bs_Balance s with None => [] | Some b => big_Bytes b end in
      let '(deltaSign, deltaBytes) :=
        match bs_Delta s with
        | None => (0, [])
        | Some d => if d <? 0 then (1, big_Bytes (Z.abs d)) else (0, big_Bytes d)
        end in
      let totalSize := 8 + 8 + len balanceBytes + 1 + 8 + len deltaBytes + 32 in
      encode_into totalSize
        (_ ← write_Uint64 (bs_BlockNumber s);
         _ ← write_sized balanceBytes;
         _ ← write_byte (byte_of deltaSign);
         _ ← write_sized deltaBytes;
         write 32 (proj1_sig (bs_TxHash s)))
  end.

(** A big integer behind its length: zero when the length is zero. *)
Definition read_sized_big (data : bytes) (msg : string) : reader Z :=
  n ← read_Uint64 data;
  if 0 <? n then
    _ ← ensure data (i64 n) msg;
    b ← read data (i64 n);
    mret (big_SetBytes b)
  else mret 0.

(** [if offset >= len(data) { return nil, fmt.Errorf(msg) }]. *)
Definition ensure_more (data : bytes) (msg : string) : reader unit := fun offset =>
  (if len data <=? offset then Err (Errorf msg) else Ok tt, offset).

Definition read_BalanceSnapshot (data : bytes) : reader BalanceSnapshot :=
  blockNumber ← read_Uint64 data;
  balance ← read_sized_big data "invalid balance length";
  _ ← ensure_more data "data too short for delta sign";
  deltaSign ← read_byte data;
  _ ← ensure data 8 "data too short for delta length";
  delta ← read_sized_big data "invalid delta length";
  _ ← ensure data 32 "data too short for tx hash";
  txHash ← read_array data 32;
  mret (mkBalanceSnapshot blockNumber (Some balance)
          (Some (if byte_val deltaSign =? 1 then - delta else delta)) txHash).

Definition DecodeBalanceSnapshot (data : bytes) : res BalanceSnapshot :=
  if len data <? 8 + 8 + 1 + 8 + 32 then Err (Errorf "data too short")
  else fst (read_BalanceSnapshot data 0).

(** * Proposals *)

Definition EncodeProposal (proposal : option Proposal) : res bytes :=
  match proposal with
  | None => Err (Errorf "proposal cannot be nil")
  | Some p =>
      let proposalIDBytes := match p_ProposalID p with None => [] | Some z => big_Bytes z end in
      let memberVersionBytes :=
        match p_MemberVersion p with None => [] | Some z => big_Bytes z end in
      let totalSize :=
        8 + 32 + 20 + 8 + len proposalIDBytes + 20 + 32 + 8 + len (p_CallData p) +
        8 + len memberVersionBytes + 4 + 4 + 4 + 1 + 8 + 1 +
        match p_ExecutedAt p with None => 0 | Some _ => 8 end in
      encode_into totalSize
        (_ ← write_Uint64 (p_BlockNumber p);
         _ ← write 32 (proj1_sig (p_TxHash p));
         _ ← write 20 (proj1_sig (p_Contract p));
         _ ← write_sized proposalIDBytes;
         _ ← write 20 (proj1_sig (p_Proposer p));
         _ ← write 32 (proj1_sig (p_ActionType p));
         _ ← write_sized (p_CallData p);
         _ ← write_sized memberVersionBytes;
         _ ← write_Uint32 (p_RequiredApprovals p);
         _ ← write_Uint32 (p_Approved p);
         _ ← write_Uint32 (p_Rejected p);
         _ ← write_byte (byte_of (p_Status p));
         _ ← write_Uint64 (p_CreatedAt p);
         match p_ExecutedAt p with
         | Some t => _ ← write_byte (byte_of 1); write_Uint64 t
         | None => write_byte (byte_of 0)
         end)
  end.

(** The call data: [nil] when the length is zero. *)
Definition read_callData (data : bytes) : reader bytes :=
  n ← read_Uint64 data;
  if 0 <? n then
    _ ← ensure data (i64 n) "invalid callData length";
    read data (i64 n)
  else mret [].

Definition read_Proposal (data : bytes) : reader Proposal :=
  blockNumber ← read_Uint64 data;
  txHash ← read_array data 32;
  contract ← read_array data 20;
  proposalID ← read_sized_big data "invalid proposalID length";
  proposer ← read_array data 20;
  actionType ← read_array data 32;
  callData ← read_callData data;
  memberVersion ← read_sized_big data "invalid memberVersion length";
  requiredApprovals ← read_Uint32 data;
  approved ← read_Uint32 data;
  rejected ← read_Uint32 data;
  status ← read_byte data;
  createdAt ← read_Uint64 data;
  hasExecutedAt ← read_byte data;
  executedAt ←
    (if byte_val hasExecutedAt =? 1 then
       _ ← ensure data 8 "data too short for executedAt";
       t ← read_Uint64 data; mret (Some t)
     else mret None);
  mret (mkProposal contract (Some proposalID) proposer actionType callData
          (Some memberVersion) requiredApprovals approved rejected (byte_val status)
          createdAt executedAt blockNumber txHash).

Definition DecodeProposal (data : bytes) : res Proposal :=
  if len data <? 8 + 32 + 20 + 8 + 20 + 32 + 8 + 8 + 4 + 4 + 4 + 1 + 8 + 1
  then Err (Errorf "data too short")
  else fst (read_Proposal data 0).

(** * Validator and member changes *)

(** An address behind a flag byte. *)
Definition write_old (o : option Address) : writer unit :=
  match o with
  | Some a => _ ← write_byte (byte_of 1); write 20 (`a)
  | None => write_byte (byte_of 0)
  end.

Definition read_old (data : bytes) (msg : string) : reader (option Address) :=
  flag ← read_byte data;
  if byte_val flag =? 1 then
    _ ← ensure data 20 msg;
    a ← read_array data 20; mret (Some a)
  else mret None.

(** The action: a string behind its length, whatever the length is. *)
Definition read_action (data : bytes) : reader bytes :=
  n ← read_Uint64 data;
  _ ← ensure data (i64 n) "invalid action length";
  read data (i64 n).

Definition EncodeValidatorChangeEvent (event : option ValidatorChangeEvent) : res bytes :=
  match event with
  | None => Err (Errorf "event cannot be nil")
  | Some e =>
      let totalSize := 8 + 32 + 20 + 8 + len (vc_Action e) + 1 + 8 +
                       match vc_OldValidator e with None => 0 | Some _ => 20 end in
      encode_into totalSize
        (_ ← write_Uint64 (vc_BlockNumber e);
         _ ← write 32 (proj1_sig (vc_TxHash e));
         _ ← write 20 (proj1_sig (vc_Validator e));
         _ ← write_sized (vc_Action e);
         _ ← write_old (vc_OldValidator e);
         write_Uint64 (vc_Timestamp e))
  end.

Definition read_ValidatorChangeEvent (data : bytes) : reader ValidatorChangeEvent :=
  blockNumber ← read_Uint64 data;
  txHash ← read_array data 32;
  validator ← read_array data 20;
  action ← read_action data;
  oldValidator ← read_old data "data too short for oldValidator";
  _ ← ensure data 8 "data too short for timestamp";
  timestamp ← read_Uint64 data;
  mret (mkValidatorChange blockNumber txHash validator action oldValidator timestamp).

Definition DecodeValidatorChangeEvent (data : bytes) : res ValidatorChangeEvent :=
  if len data <? 8 + 32 + 20 + 8 + 1 + 8 then Err (Errorf "data too short")
  else fst (read_ValidatorChangeEvent data 0).

Definition EncodeMemberChangeEvent (event : option MemberChangeEvent) : res bytes :=
  match event with
  | None => Err (Errorf "event cannot be nil")
  | Some e =>
      let totalSize := 20 + 8 + 32 + 20 + 8 + len (mc_Action e) + 1 + 8 + 4 + 8 +
                       match mc_OldMember e with None => 0 | Some _ => 20 end in
      encode_into totalSize
        (_ ← write 20 (proj1_sig (mc_Contract e));
         _ ← write_Uint64 (mc_BlockNumber e);
         _ ← write 32 (proj1_sig (mc_TxHash e));
         _ ← write 20 (proj1_sig (mc_Member e));
         _ ← write_sized (mc_Action e);
         _ ← write_old (mc_OldMember e);
         _ ← write_Uint64 (mc_TotalMembers e);
         _ ← write_Uint32 (mc_NewQuorum e);
         write_Uint64 (mc_Timestamp e))
  end.

Definition read_MemberChangeEvent (data : bytes) : reader MemberChangeEvent :=
  contract ← read_array data 20;
  blockNumber ← read_Uint64 data;
  txHash ← read_array data 32;
  member ← read_array data 20;
  action ← read_action data;
  oldMember ← read_old data "data too short for oldMember";
  _ ← ensure data 8 "data too short for totalMembers";
  totalMembers ← read_Uint64 data;
  _ ← ensure data 4 "data too short for newQuorum";
  newQuorum ← read_Uint32 data;
  _ ← ensure data 8 "data too short for timestamp";
  timestamp ← read_Uint64 data;
  mret (mkMemberChange contract blockNumber txHash member action oldMember totalMembers
          newQuorum timestamp).

Definition DecodeMemberChangeEvent (data : bytes) : res MemberChangeEvent :=
  if len data <? 20 + 8 + 32 + 20 + 8 + 1 + 8 + 4 + 8 then Err (Errorf "data too short")
  else fst (read_MemberChangeEvent data 0).

(** * Lemmas about the parts *)

Definition sized (b : bytes) : bytes := be_put 8 (len b) ++ b.

Lemma writes_sized b : writes (write_sized b) (sized b).
Proof. apply writes_bind; [apply writes_Uint64 | by apply writes_write]. Qed.

Lemma reads_Uint64_len b : small (len b) -> reads (fun d => read_Uint64 d) (be_put 8 (len b)) (len b).
Proof.
  intros H. apply reads_Uint64. unfold is_u64, two64, small in *. pose proof (len_nonneg b). lia.
Qed.

(** A part behind its length: the length, then the part when it is not empty. *)
Lemma reads_sized {A} (g : bytes -> Z -> reader A) b a : small (len b) ->
  reads (fun d => g d (len b)) b a ->
  reads (fun d => n ← read_Uint64 d; g d n) (sized b) a.
Proof.
  intros Hs Hg. unfold sized.
  by apply (reads_bind _ (fun n d => g d n) _ _ (len b)); [apply reads_Uint64_len|].
Qed.

Lemma i64_len b : small (len b) -> i64 (len b) = len b.
Proof. intros H. apply i64_small; [apply len_nonneg | done]. Qed.

Lemma reads_sized_big msg z : small (len (big_Bytes z)) ->
  reads (fun d => read_sized_big d msg) (sized (big_Bytes z)) (Z.abs z).
Proof.
  intros Hs. unfold read_sized_big. apply (reads_sized (fun d n => _)); [done|].
  rewrite i64_len by done. pose proof (len_nonneg (big_Bytes z)).
  destruct (Z.ltb_spec 0 (len (big_Bytes z))).
  - apply reads_ensure; [lia|]. apply (reads_map _ big_SetBytes _ (big_Bytes z)).
    + by apply reads_read.
    + apply big_SetBytes_Bytes.
  - assert (Hn : big_Bytes z = []) by (apply length_zero_iff_nil; unfold len in *; lia).
    rewrite Hn. apply big_Bytes_nil in Hn as ->. apply reads_ret.
Qed.

(** A nil integer is read back as zero. *)
Lemma reads_sized_opt msg o :
  small (len (match o with None => [] | Some z => big_Bytes z end)) ->
  reads (fun d => read_sized_big d msg)
    (sized (match o with None => [] | Some z => big_Bytes z end)) (Z.abs (default 0 o)).
Proof.
  destruct o as [z|]; [apply reads_sized_big|]. intros _. cbn.
  apply (reads_sized_big msg 0). reflexivity.
Qed.

Lemma reads_callData b : small (len b) -> reads read_callData (sized b) b.
Proof.
  intros Hs. unfold read_callData. apply (reads_sized (fun d n => _)); [done|].
  rewrite i64_len by done. pose proof (len_nonneg b). destruct (Z.ltb_spec 0 (len b)).
  - apply reads_ensure; [lia|]. by apply reads_read.
  - assert (b = []) as -> by (apply length_zero_iff_nil; unfold len in *; lia). apply reads_ret.
Qed.

Lemma reads_action b : small (len b) -> reads read_action (sized b) b.
Proof.
  intros Hs. unfold read_action. apply (reads_sized (fun d n => _)); [done|].
  rewrite i64_len by done. pose proof (len_nonneg b).
  apply reads_ensure; [lia|]. by apply reads_read.
Qed.

Definition old_bytes (o : option Address) : bytes :=
  match o with Some a => byte_of 1 :: `a | None => [byte_of 0] end.

Lemma writes_old o : writes (write_old o) (old_bytes o).
Proof.
  destruct o as [a|]; cbn; [|apply writes_byte].
  apply (writes_bind _ _ [byte_of 1] (`a)); [apply writes_byte | apply (writes_array 20)].
Qed.

Lemma reads_old msg o : reads (fun d => read_old d msg) (old_bytes o) o.
Proof.
  unfold read_old. destruct o as [a|].
  - apply (reads_bind _ (fun c d => _) [byte_of 1] (`a) (byte_of 1)); [apply reads_byte|].
    cbn [byte_val]. change (byte_val (byte_of 1) =? 1) with true. cbv iota.
    apply reads_ensure.
    + unfold len. rewrite (proj2_dsig a). lia.
    + apply (reads_map _ Some _ a); [apply reads_array | done].
  - apply (reads_bind _ (fun c d => _) [byte_of 0] [] (byte_of 0)); [apply reads_byte|].
    apply reads_ret.
Qed.

(** * The formats *)

(** Solve what a writer appends, field by field. *)
Ltac writes_tac :=
  repeat lazymatch goal with
    | |- writes (write_Uint64 _) _ => apply writes_Uint64
    | |- writes (write_Uint32 _) _ => apply writes_Uint32
    | |- writes (write_sized _) _ => apply writes_sized
    | |- writes (write_old _) _ => apply writes_old
    | |- writes (write_byte _) _ => apply writes_byte
    | |- writes (write 32 _) _ => apply (writes_array 32)
    | |- writes (write 20 _) _ => apply (writes_array 20)
    | |- writes (_ ≫= _) _ => apply writes_bind
    end.

Lemma len_be_put n z : len (be_put n z) = Z.of_nat n.
Proof. unfold len. by rewrite length_be_put. Qed.
Lemma len_array n (a : byte_array n) : len (`a) = Z.of_nat n.
Proof. unfold len. by rewrite (proj2_dsig a). Qed.
Lemma len_sized b : len (sized b) = 8 + len b.
Proof. unfold sized. by rewrite len_app, len_be_put. Qed.
Lemma len_cons c b : len (c :: b) = 1 + len b.
Proof. unfold len. cbn [length]. lia. Qed.
Lemma len_nil : len [] = 0.
Proof. done. Qed.
Lemma len_old o : len (old_bytes o) = 1 + match o with None => 0 | Some _ => 20 end.
Proof. destruct o as [a|]; cbn [old_bytes]; [|done]. by rewrite len_cons, (len_array 20 a). Qed.

(** Compute the length of a format. *)
Ltac len_facts :=
  repeat match goal with
    | |- context [len ?b] => assert_fails (assert (0 <= len b) by assumption);
                             pose proof (len_nonneg b)
    | H : context [len ?b] |- _ => assert_fails (assert (0 <= len b) by assumption);
                                   pose proof (len_nonneg b)
    end.

Ltac len_tac :=
  rewrite ?len_nil in *; rewrite ?len_app, ?len_sized, ?len_old, ?len_cons, ?len_nil, ?len_be_put,
    ?(len_array 32), ?(len_array 20);
  len_facts; lia.

Definition balance_bytes (s : BalanceSnapshot) : bytes := EncodeBigInt (bs_Balance s).
Definition delta_bytes (s : BalanceSnapshot) : bytes := EncodeBigInt (bs_Delta s).
Definition delta_sign (s : BalanceSnapshot) : Z :=
  match bs_Delta s with Some d => if d <? 0 then 1 else 0 | None => 0 end.

Definition BalanceSnapshot_wire (s : BalanceSnapshot) : bytes :=
  be_put 8 (bs_BlockNumber s) ++ sized (balance_bytes s) ++ [byte_of (delta_sign s)] ++
  sized (delta_bytes s) ++ proj1_sig (bs_TxHash s).

Lemma big_Bytes_abs z : big_Bytes (Z.abs z) = big_Bytes z.
Proof. unfold big_Bytes. by rewrite Z.abs_idemp. Qed.

Lemma EncodeBalanceSnapshot_wire s :
  small (57 + len (balance_bytes s) + len (delta_bytes s)) ->
  EncodeBalanceSnapshot (Some s) = Ok (BalanceSnapshot_wire s).
Proof.
  intros Hs. unfold EncodeBalanceSnapshot, BalanceSnapshot_wire, delta_bytes, delta_sign,
    balance_bytes, EncodeBigInt in *.
  destruct (bs_Delta s) as [d|]; [destruct (d <? 0)|];
    rewrite ?big_Bytes_abs in *;
    (apply encode_into_writes; [writes_tac | len_tac | unfold small in *; len_tac]).
Qed.

Lemma reads_ensure_more {A} msg (k : bytes -> reader A) b a : 0 < len b ->
  reads k b a -> reads (fun d => ensure_more d msg ≫= (fun _ => k d)) b a.
Proof.
  intros Hn Hk pre post Hs. unfold mbind, ST_bind, ensure_more.
  destruct (Z.leb_spec (len (pre ++ b ++ post)) (len pre)).
  - rewrite !len_app in *. pose proof (len_nonneg post). lia.
  - by apply Hk.
Qed.

(** The parts of a small format are small. *)
Ltac small_tac := unfold small in *; len_tac.

(** Solve what a reader takes, field by field. *)
Ltac read_field op :=
  lazymatch op with
  | read_Uint64 _ => apply reads_Uint64; done
  | read_Uint32 _ => apply reads_Uint32; done
  | read_sized_big _ _ => apply reads_sized_opt; small_tac
  | read_callData _ => apply reads_callData; small_tac
  | read_action _ => apply reads_action; small_tac
  | read_old _ _ => apply reads_old
  | read_byte _ => apply reads_byte
  | read_array _ 32 => apply (reads_array 32)
  | read_array _ 20 => apply (reads_array 20)
  end.

Ltac reads_step :=
  lazymatch goal with
  | |- reads ?m ?b _ =>
      let body := eval cbv beta in (m []) in
      lazymatch body with
      | ensure _ _ _ ≫= _ => apply reads_ensure; [len_tac|]
      | ensure_more _ _ ≫= _ => apply reads_ensure_more; [len_tac|]
      | ?op ≫= _ =>
          lazymatch b with
          | _ ++ _ => eapply reads_bind; [read_field op|]
          | _ => eapply reads_map; [read_field op|]
          end
      end
  end.

Lemma reads_BalanceSnapshot s : is_u64 (bs_BlockNumber s) ->
  small (57 + len (balance_bytes s) + len (delta_bytes s)) ->
  reads read_BalanceSnapshot (BalanceSnapshot_wire s)
    (mkBalanceSnapshot (bs_BlockNumber s) (Some (Z.abs (default 0 (bs_Balance s))))
       (Some (default 0 (bs_Delta s))) (bs_TxHash s)).
Proof.
  intros Hb Hs. unfold BalanceSnapshot_wire, read_BalanceSnapshot, balance_bytes, delta_bytes,
    EncodeBigInt in *.
  repeat reads_step.
  f_equal. f_equal. unfold delta_sign. destruct (bs_Delta s) as [d|]; [|done].
  cbn [default from_option id]. destruct (Z.ltb_spec d 0).
  - change (byte_val (byte_of 1) =? 1) with true. cbv iota. lia.
  - change (byte_val (byte_of 0) =? 1) with false. cbv iota. unfold id. lia.
Qed.

(** Decoding what was encoded: the length check passes and the reader ends. *)
Lemma decode_wire {A} (m : bytes -> reader A) (n : Z) b a :
  reads m b a -> small (len b) -> n <= len b ->
  (if len b <? n then Err (Errorf "data too short") else fst (m b 0)) = Ok a.
Proof.
  intros Hm Hs Hn. destruct (Z.ltb_spec (len b) n); [lia|]. by rewrite (reads_run _ _ _ Hm Hs).
Qed.

(** * Proposals *)

Definition executed_bytes (o : option Z) : bytes :=
  match o with Some t => byte_of 1 :: be_put 8 t | None => [byte_of 0] end.

Lemma len_executed o : len (executed_bytes o) = 1 + match o with None => 0 | Some _ => 8 end.
Proof. destruct o as [t|]; cbn [executed_bytes]; [|done]. by rewrite len_cons, len_be_put. Qed.

Definition id_bytes (p : Proposal) : bytes := EncodeBigInt (p_ProposalID p).
Definition version_bytes (p : Proposal) : bytes := EncodeBigInt (p_MemberVersion p).

Definition Proposal_wire (p : Proposal) : bytes :=
  be_put 8 (p_BlockNumber p) ++ proj1_sig (p_TxHash p) ++ proj1_sig (p_Contract p) ++
  sized (id_bytes p) ++ proj1_sig (p_Proposer p) ++ proj1_sig (p_ActionType p) ++
  sized (p_CallData p) ++ sized (version_bytes p) ++
  be_put 4 (p_RequiredApprovals p) ++ be_put 4 (p_Approved p) ++ be_put 4 (p_Rejected p) ++
  [byte_of (p_Status p)] ++ be_put 8 (p_CreatedAt p) ++ executed_bytes (p_ExecutedAt p).

(** The fields are values of their Go types. *)
Definition is_u32 (z : Z) : Prop := 0 <= z < 2 ^ 32.

Definition Proposal_ok (p : Proposal) : Prop :=
  is_u64 (p_BlockNumber p) /\ is_u64 (p_CreatedAt p) /\ is_u32 (p_RequiredApprovals p) /\
  is_u32 (p_Approved p) /\ is_u32 (p_Rejected p) /\ 0 <= p_Status p < 256 /\
  match p_ExecutedAt p with Some t => is_u64 t | None => True end /\
  small (200 + len (id_bytes p) + len (p_CallData p) + len (version_bytes p)).

(** What a stored proposal reads back as. *)
Definition Proposal_stored (p : Proposal) : Proposal :=
  mkProposal (p_Contract p) (Some (Z.abs (default 0 (p_ProposalID p)))) (p_Proposer p)
    (p_ActionType p) (p_CallData p) (Some (Z.abs (default 0 (p_MemberVersion p))))
    (p_RequiredApprovals p) (p_Approved p) (p_Rejected p) (p_Status p) (p_CreatedAt p)
    (p_ExecutedAt p) (p_BlockNumber p) (p_TxHash p).

Lemma writes_executed o :
  writes (match o with
          | Some t => _ ← write_byte (byte_of 1); write_Uint64 t
          | None => write_byte (byte_of 0)
          end) (executed_bytes o).
Proof.
  destruct o as [t|]; [|apply writes_byte].
  apply (writes_bind _ _ [byte_of 1] (be_put 8 t)); [apply writes_byte | apply writes_Uint64].
Qed.

Lemma len_Proposal_wire p : len (Proposal_wire p) =
  8 + 32 + 20 + 8 + len (id_bytes p) + 20 + 32 + 8 + len (p_CallData p) +
  8 + len (version_bytes p) + 4 + 4 + 4 + 1 + 8 + 1 +
  match p_ExecutedAt p with None => 0 | Some _ => 8 end.
Proof. unfold Proposal_wire. rewrite !len_app, len_executed. destruct (p_ExecutedAt p); len_tac. Qed.

Lemma EncodeProposal_wire p : Proposal_ok p -> EncodeProposal (Some p) = Ok (Proposal_wire p).
Proof.
  intros (_ & _ & _ & _ & _ & _ & _ & Hs). unfold EncodeProposal.
  apply encode_into_writes.
  - unfold Proposal_wire, id_bytes, version_bytes, EncodeBigInt. writes_tac.
    apply writes_executed.
  - by rewrite len_Proposal_wire.
  - unfold id_bytes, version_bytes, EncodeBigInt in Hs. destruct (p_ExecutedAt p); small_tac.
Qed.

Lemma reads_executed o :
  match o with Some t => is_u64 t | None => True end ->
  forall {A} (k : option Z -> A),
  reads (fun d =>
    c ← read_byte d;
    x ← (if byte_val c =? 1 then
           _ ← ensure d 8 "data too short for executedAt";
           t ← read_Uint64 d; mret (Some t)
         else mret None);
    mret (k x)) (executed_bytes o) (k o).
Proof.
  intros Ho A k. destruct o as [t|].
  - apply (reads_bind _ (fun c d => _) [byte_of 1] (be_put 8 t) (byte_of 1)); [apply reads_byte|].
    change (byte_val (byte_of 1) =? 1) with true. cbv iota.
    apply (reads_map _ k _ (Some t)); [|done].
    apply reads_ensure; [rewrite len_be_put; lia|].
    apply (reads_map _ Some _ t); [by apply reads_Uint64 | done].
  - apply (reads_bind _ (fun c d => _) [byte_of 0] [] (byte_of 0)); [apply reads_byte|].
    apply (reads_map (fun _ => mret None) k _ None); [apply reads_ret | done].
Qed.

Lemma byte_val_of_small z : 0 <= z < 256 -> byte_val (byte_of z) = z.
Proof. intros H. rewrite byte_val_of. by apply Z.mod_small. Qed.

Lemma reads_Proposal p : Proposal_ok p -> reads read_Proposal (Proposal_wire p) (Proposal_stored p).
Proof.
  intros (H1 & H2 & H3 & H4 & H5 & H6 & H7 & Hs).
  unfold Proposal_wire, read_Proposal, id_bytes, version_bytes, EncodeBigInt in *.
  do 13 reads_step. rewrite byte_val_of_small by done. by apply (reads_executed _ H7).
Qed.

(** * Validator and member changes *)

Definition ValidatorChange_wire (e : ValidatorChangeEvent) : bytes :=
  be_put 8 (vc_BlockNumber e) ++ proj1_sig (vc_TxHash e) ++ proj1_sig (vc_Validator e) ++
  sized (vc_Action e) ++ old_bytes (vc_OldValidator e) ++ be_put 8 (vc_Timestamp e).

Definition ValidatorChange_ok (e : ValidatorChangeEvent) : Prop :=
  is_u64 (vc_BlockNumber e) /\ is_u64 (vc_Timestamp e) /\ small (200 + len (vc_Action e)).

Lemma EncodeValidatorChange_wire e : ValidatorChange_ok e ->
  EncodeValidatorChangeEvent (Some e) = Ok (ValidatorChange_wire e).
Proof.
  intros (_ & _ & Hs). unfold EncodeValidatorChangeEvent, ValidatorChange_wire.
  apply encode_into_writes; [writes_tac | |]; destruct (vc_OldValidator e) as [a|] eqn:Ho;
    rewrite ?Ho; small_tac.
Qed.

Lemma reads_ValidatorChange e : ValidatorChange_ok e ->
  reads read_ValidatorChangeEvent (ValidatorChange_wire e) e.
Proof.
  intros (H1 & H2 & Hs). unfold ValidatorChange_wire, read_ValidatorChangeEvent.
  repeat reads_step. by destruct e.
Qed.

Definition MemberChange_wire (e : MemberChangeEvent) : bytes :=
  proj1_sig (mc_Contract e) ++ be_put 8 (mc_BlockNumber e) ++ proj1_sig (mc_TxHash e) ++
  proj1_sig (mc_Member e) ++ sized (mc_Action e) ++ old_bytes (mc_OldMember e) ++
  be_put 8 (mc_TotalMembers e) ++ be_put 4 (mc_NewQuorum e) ++ be_put 8 (mc_Timestamp e).

Definition MemberChange_ok (e : MemberChangeEvent) : Prop :=
  is_u64 (mc_BlockNumber e) /\ is_u64 (mc_TotalMembers e) /\ is_u32 (mc_NewQuorum e) /\
  is_u64 (mc_Timestamp e) /\ small (200 + len (mc_Action e)).

Lemma EncodeMemberChange_wire e : MemberChange_ok e ->
  EncodeMemberChangeEvent (Some e) = Ok (MemberChange_wire e).
Proof.
  intros (_ & _ & _ & _ & Hs). unfold EncodeMemberChangeEvent, MemberChange_wire.
  apply encode_into_writes; [writes_tac | |]; destruct (mc_OldMember e) as [a|] eqn:Ho;
    rewrite ?Ho; small_tac.
Qed.

Lemma reads_MemberChange e : MemberChange_ok e ->
  reads read_MemberChangeEvent (MemberChange_wire e) e.
Proof.
  intros (H1 & H2 & H3 & H4 & Hs). unfold MemberChange_wire, read_MemberChangeEvent.
  repeat reads_step. by destruct e.
Qed.

(** * Properties *)

(** A balance snapshot round-trips. The encoder fills its buffer exactly, for every
    balance and delta; decoding returns the block number, the hash and the signed
    delta; the format has no sign for the balance, which comes back as its absolute
    value, and a nil integer comes back as zero. *)
Theorem BalanceSnapshot_roundtrip s (Hb : is_u64 (bs_BlockNumber s))
  (Hs : small (57 + len (balance_bytes s) + len (delta_bytes s))) :
  exists data, EncodeBalanceSnapshot (Some s) = Ok data /\
    len data = 57 + len (balance_bytes s) + len (delta_bytes s) /\
    DecodeBalanceSnapshot data =
      Ok (mkBalanceSnapshot (bs_BlockNumber s) (Some (Z.abs (default 0 (bs_Balance s))))
            (Some (default 0 (bs_Delta s))) (bs_TxHash s)).
Proof.
  assert (Hl : len (BalanceSnapshot_wire s) = 57 + len (balance_bytes s) + len (delta_bytes s))
    by (unfold BalanceSnapshot_wire; len_tac).
  exists (BalanceSnapshot_wire s). split_and!; [by apply EncodeBalanceSnapshot_wire | done |].
  unfold DecodeBalanceSnapshot. apply decode_wire; [by apply reads_BalanceSnapshot | |].
  - by rewrite Hl.
  - rewrite Hl. len_facts. lia.
Qed.

(** C28: a proposal round-trips: every field comes back, the identifier and the member
    version as absolute values with nil as zero, the executed time exactly when it was
    set. The encoder fills its buffer exactly: the data is the fields of the layout one
    after the other, and its length, which the encoder computes beforehand, is the sum of
    theirs, 158 bytes and the three variable parts, and eight more for an executed time. *)
Theorem Proposal_roundtrip p (Hp : Proposal_ok p) :
  exists data, EncodeProposal (Some p) = Ok data /\
    data = Proposal_wire p /\
    len data = 158 + len (id_bytes p) + len (p_CallData p) + len (version_bytes p) +
                 match p_ExecutedAt p with None => 0 | Some _ => 8 end /\
    DecodeProposal data = Ok (Proposal_stored p).
Proof.
  exists (Proposal_wire p). split; [by apply EncodeProposal_wire|]. split; [done|].
  split; [rewrite len_Proposal_wire; lia|].
  pose proof (len_Proposal_wire p) as Hl. destruct Hp as (H1 & H2 & H3 & H4 & H5 & H6 & H7 & Hs).
  unfold DecodeProposal. apply decode_wire; [by apply reads_Proposal | |];
    destruct (p_ExecutedAt p); small_tac.
Qed.

(** Validator and member changes round-trip exactly, with and without the optional
    old address and for every action string. *)
Theorem change_events_roundtrip v m (Hv : ValidatorChange_ok v) (Hm : MemberChange_ok m) :
  (exists data, EncodeValidatorChangeEvent (Some v) = Ok data /\
     DecodeValidatorChangeEvent data = Ok v) /\
  (exists data, EncodeMemberChangeEvent (Some m) = Ok data /\
     DecodeMemberChangeEvent data = Ok m).
Proof.
  split.
  - exists (ValidatorChange_wire v). split; [by apply EncodeValidatorChange_wire|].
    unfold DecodeValidatorChangeEvent. apply decode_wire; [by apply reads_ValidatorChange| |];
      destruct Hv as (_ & _ & Hs); unfold ValidatorChange_wire; destruct (vc_OldValidator v); small_tac.
  - exists (MemberChange_wire m). split; [by apply EncodeMemberChange_wire|].
    unfold DecodeMemberChangeEvent. apply decode_wire; [by apply reads_MemberChange| |];
      destruct Hm as (_ & _ & _ & _ & Hs); unfold MemberChange_wire; destruct (mc_OldMember m); small_tac.
Qed.

(** A 57-byte snapshot whose balance length is 2^64-1, a minimal proposal whose
    identifier takes all of the rest, a validator change whose action does. *)
Definition bad_balance : bytes := be_put 8 0 ++ be_put 8 (two64 - 1) ++ replicate 41 zero.
Definition bad_proposal : bytes :=
  replicate 60 zero ++ be_put 8 94 ++ replicate 94 zero.
Definition bad_validator : bytes :=
  replicate 60 zero ++ be_put 8 9 ++ replicate 9 zero.

(** The decoders do not return an error on every malformed input: a length of 2^63
    or more passes the bounds check as a negative number, and the fields after a
    variable part are read without a check, so the goroutine panics. *)
Theorem decoders_panic :
  DecodeBalanceSnapshot bad_balance = Err (Panic "slice bounds out of range") /\
  DecodeProposal bad_proposal = Err (Panic "slice bounds out of range") /\
  DecodeValidatorChangeEvent bad_validator = Err (Panic "index out of range").
Proof. vm_compute. auto. Qed.

(** * The theorems at concrete values *)

Definition sample_snapshot : BalanceSnapshot :=
  mkBalanceSnapshot 12 (Some 1000000007) (Some (-65536)) (sample_hash 5).

Lemma BalanceSnapshot_roundtrip_witness : exists data,
  EncodeBalanceSnapshot (Some sample_snapshot) = Ok data /\
  DecodeBalanceSnapshot data = Ok sample_snapshot.
Proof.
  destruct (BalanceSnapshot_roundtrip sample_snapshot) as (data & H1 & _ & H2).
  - split; [discriminate | reflexivity].
  - reflexivity.
  - exists data. split; [exact H1 | exact H2].
Defined.

Definition sample_proposal : Proposal :=
  mkProposal (sample_address 1) (Some 42) (sample_address 2) (array_copy 32 (lit "mint"))
    (lit "calldata") (Some 3) 2 1 0 2 1700000000 (Some 1700000099) 77 (sample_hash 9).

Lemma Proposal_roundtrip_witness : exists data,
  EncodeProposal (Some sample_proposal) = Ok data /\ len data = 176 /\
  DecodeProposal data = Ok (Proposal_stored sample_proposal).
Proof.
  destruct (Proposal_roundtrip sample_proposal) as (data & H1 & _ & H2 & H3).
  - repeat split; try (vm_compute; discriminate); vm_compute; reflexivity.
  - exists data. split; [exact H1|]. split; [exact H2 | exact H3].
Defined.

Definition sample_change : ValidatorChangeEvent :=
  mkValidatorChange 5 (sample_hash 1) (sample_address 2) (lit "added") None 1700000000.
Definition sample_member : MemberChangeEvent :=
  mkMemberChange (sample_address 3) 5 (sample_hash 1) (sample_address 2) (lit "changed")
    (Some (sample_address 4)) 7 5 1700000000.

Lemma change_events_roundtrip_witness :
  (exists data, EncodeValidatorChangeEvent (Some sample_change) = Ok data /\
     DecodeValidatorChangeEvent data = Ok sample_change) /\
  (exists data, EncodeMemberChangeEvent (Some sample_member) = Ok data /\
     DecodeMemberChangeEvent data = Ok sample_member).
Proof.
  apply (change_events_roundtrip sample_change sample_member);
    repeat split; try (vm_compute; discriminate); vm_compute; reflexivity.
Defined.
