(* ===== verification/Gaps.v ===== *)
(** Gaps: finding and filling holes in the indexed chain.

    Models the gap detection and the receipt recovery of pkg/fetch/fetcher_gaps.go
    against an interface of the storage, [BlockStore], whose specification
    [BlockStoreSpec] is discharged for PebbleStorage at the end. The loops run over
    64-bit heights and poll the context, [cancelled], once per height. Log messages
    have no counterpart; [FillGap] and [RunWithGapRecovery] call the block fetcher,
    which is not modelled here. *)
From stdpp Require Import sorting.
From S2P Require Import Prelude Eth Schema KeySpace KV Chain Storage Batch PrefixOps.
From S2P Require Import StorageFacts StorageProps StorageReads StorageSafety BlockRange.
From S2P Require Import Instances StorageWitnesses.

(** * What the fetcher asks of the storage *)

Class BlockStore {C : ChainTypes} (S : Type) := {
  st_HasBlock : Z -> ST S bool;
  st_GetMissingReceipts : Z -> ST S (list Hash);
  st_SetReceipt : option Receipt -> ST S unit;
}.

(** [st_lacks s x]: no receipt is stored for the transaction hash [x]. *)
Class BlockStoreSpec {C : ChainTypes} (S : Type) {B : BlockStore S} := {
  st_ok : S -> Prop;
  st_lacks : S -> Hash -> bool;
  st_HasBlock_state : forall h s, snd (st_HasBlock h s) = s;
  st_GetMissing_state : forall h s, snd (st_GetMissingReceipts h s) = s;
  st_GetMissing_lacks : forall h s l, fst (st_GetMissingReceipts h s) = Ok l ->
    forall x, x ∈ l -> st_lacks s x = true;
  st_SetReceipt_ok : forall r s s', st_ok s -> st_SetReceipt (Some r) s = (Ok tt, s') ->
    st_ok s' /\ forall x, st_lacks s' x = st_lacks s x && negb (bool_decide (x = TxHash r));
}.

(** * Gap ranges *)

Record GapRange := mkGap { Start : Z; End : Z }.

Definition Size (g : GapRange) : Z :=
  if End g <? Start g then 0 else u64 (u64 (End g - Start g) + 1).

Record ReceiptGapInfo := mkReceiptGap { BlockNumber : Z; MissingReceipts : list Hash }.

Definition ErrCanceled : error := Errorf "context canceled".

Section Gaps.
Context {C : ChainTypes} {S : Type} {B : BlockStore S}.

(** A scan ends with the gaps collected and an error, if any. *)
Fixpoint DetectGaps_loop (fuel : nat) (cancelled : Z -> bool) (height endHeight : Z)
  (gaps : list GapRange) (gapStart : Z) (inGap : bool) (s : S)
  : option (list GapRange * option error) :=
  match fuel with
  | O => None
  | Datatypes.S fuel' =>
      if endHeight <? height then
        Some (if inGap then gaps ++ [mkGap gapStart endHeight] else gaps, None)
      else if cancelled height then Some (gaps, Some ErrCanceled)
      else match st_HasBlock height s with
           | (Err e, _) => Some ([], Some (Wrap "failed to check block" e))
           | (Ok false, s1) =>
               DetectGaps_loop fuel' cancelled (u64 (height + 1)) endHeight gaps
                 (if inGap then gapStart else height) true s1
           | (Ok true, s1) =>
               DetectGaps_loop fuel' cancelled (u64 (height + 1)) endHeight
                 (if inGap then gaps ++ [mkGap gapStart (u64 (height - 1))] else gaps)
                 gapStart false s1
           end
  end.

Definition DetectGaps (fuel : nat) (cancelled : Z -> bool) (startHeight endHeight : Z) (s : S)
  : option (list GapRange * option error) :=
  DetectGaps_loop fuel cancelled startHeight endHeight [] 0 false s.

Fixpoint DetectReceiptGaps_loop (fuel : nat) (cancelled : Z -> bool) (height endHeight : Z)
  (gaps : list ReceiptGapInfo) (s : S) : option (list ReceiptGapInfo * option error) :=
  match fuel with
  | O => None
  | Datatypes.S fuel' =>
      if endHeight <? height then Some (gaps, None)
      else if cancelled height then Some (gaps, Some ErrCanceled)
      else
        let next := DetectReceiptGaps_loop fuel' cancelled (u64 (height + 1)) endHeight in
        match st_HasBlock height s with
        | (Err e, _) => Some ([], Some (Wrap "failed to check block" e))
        | (Ok false, s1) => next gaps s1
        | (Ok true, s1) =>
            match st_GetMissingReceipts height s1 with
            | (Err _, s2) => next gaps s2
            | (Ok missing, s2) =>
                next (if (0 <? length missing)%nat
                      then gaps ++ [mkReceiptGap height missing] else gaps) s2
            end
        end
  end.

Definition DetectReceiptGaps (fuel : nat) (cancelled : Z -> bool) (startHeight endHeight : Z)
  (s : S) : option (list ReceiptGapInfo * option error) :=
  DetectReceiptGaps_loop fuel cancelled startHeight endHeight [] s.

(** [GetBlockReceipts] is answered by the node: its result is the argument. *)
Definition FillReceiptGap (answer : res (list Receipt)) (gap : ReceiptGapInfo) : ST S unit :=
  receipts ← lift (wrap_err "failed to fetch receipts for block" answer);
  let receiptMap : gmap Hash Receipt :=
    fold_left (fun m r => <[TxHash r := r]> m) receipts ∅ in
  forST (fun txHash =>
           match receiptMap !! txHash with
           | None => mret tt
           | Some receipt =>
               wrapST "failed to store receipt for tx" (st_SetReceipt (Some receipt))
           end) (MissingReceipts gap).

(** The gaps one after another, the context polled before each. *)
Fixpoint FillReceiptGaps (cancelled : nat -> bool) (answer : Z -> res (list Receipt))
  (i : nat) (gaps : list ReceiptGapInfo) : ST S unit :=
  match gaps with
  | [] => mret tt
  | gap :: gaps' =>
      if cancelled i then fail ErrCanceled
      else
        _ ← wrapST "failed to fill receipt gap for block"
              (FillReceiptGap (answer (BlockNumber gap)) gap);
        FillReceiptGaps cancelled answer (i + 1) gaps'
  end.

(** * Gap detection is exact *)

Context {BS : BlockStoreSpec S}.

(** [present h]: the storage has a block at [h]; every height can be checked. *)
Definition checks (s : S) (present : Z -> bool) (lo hi : Z) : Prop :=
  forall h, lo <= h <= hi -> fst (st_HasBlock h s) = Ok (present h).

Definition in_gap (g : GapRange) (h : Z) : Prop := Start g <= h <= End g.

(** The gaps [gs] of the heights from [lo] below [hi]: exactly the missing heights,
    in order, with a present height between any two gaps. *)
Definition exact_gaps (present : Z -> bool) (lo hi : Z) (gs : list GapRange) : Prop :=
  (forall h, lo <= h < hi -> (present h = false <-> exists g, g ∈ gs /\ in_gap g h)) /\
  Forall (fun g => lo <= Start g /\ Start g <= End g /\ End g < hi) gs /\
  StronglySorted (fun g1 g2 => End g1 + 1 < Start g2) gs.

Lemma exact_nil present lo : exact_gaps present lo lo [].
Proof. split_and!; [intros; lia | constructor | constructor]. Qed.

Lemma exact_present present lo h gs : present h = true -> lo <= h ->
  exact_gaps present lo h gs -> exact_gaps present lo (h + 1) gs.
Proof.
  intros Hp Hle (H1 & H2 & H3). split_and!; [| |done].
  - intros x Hx. destruct (decide (x = h)) as [->|]; [|apply H1; lia]. rewrite Hp.
    split; [done|]. intros (g & Hg & Hin). rewrite Forall_forall in H2.
    specialize (H2 g Hg). unfold in_gap in Hin. lia.
  - eapply Forall_impl; [exact H2|]. cbn. lia.
Qed.

Lemma exact_first present lo h gs : present h = false -> lo <= h ->
  Forall (fun g => End g + 1 < h) gs ->
  exact_gaps present lo h gs -> exact_gaps present lo (h + 1) (gs ++ [mkGap h h]).
Proof.
  intros Hp Hle Hs (H1 & H2 & H3). split_and!.
  - intros x Hx. destruct (decide (x = h)) as [->|].
    + split; [|done]. intros _. exists (mkGap h h). split; [apply elem_of_app; right; by left|].
      unfold in_gap. cbn. lia.
    + rewrite H1 by lia. split; intros (g & Hg & Hin); exists g; (split; [|done]).
      * apply elem_of_app. by left.
      * apply elem_of_app in Hg as [?|Hg]; [done|]. apply list_elem_of_singleton in Hg as ->.
        unfold in_gap in Hin. cbn in Hin. lia.
  - apply Forall_app. split; [eapply Forall_impl; [exact H2|]; cbn; lia|].
    constructor; [cbn; lia | constructor].
  - apply StronglySorted_app. split_and!; [| done |].
    + rewrite Forall_forall in Hs. intros g1 g2 Hg1 ->%list_elem_of_singleton. cbn.
      specialize (Hs g1 Hg1). lia.
    + repeat constructor.
Qed.

Lemma exact_extend present lo h a gs : present h = false -> lo <= h -> a < h ->
  exact_gaps present lo h (gs ++ [mkGap a (h - 1)]) ->
  exact_gaps present lo (h + 1) (gs ++ [mkGap a h]).
Proof.
  intros Hp Hle Ha (H1 & H2 & H3). apply Forall_app in H2 as [H2 H2'].
  apply Forall_cons in H2' as [H2' _]. cbn in H2'. split_and!.
  - intros x Hx.
    assert (Hsw : (exists g, g ∈ gs ++ [mkGap a h] /\ in_gap g x) <->
                  (exists g, g ∈ gs ++ [mkGap a (h - 1)] /\ in_gap g x) \/ x = h).
    { setoid_rewrite elem_of_app. setoid_rewrite list_elem_of_singleton. unfold in_gap. split.
      - intros (g & [Hg| ->] & Hin); [left; by exists g; auto|]. cbn in Hin.
        destruct (decide (x = h)); [by right|]. left. exists (mkGap a (h - 1)).
        cbn. split; [by right | lia].
      - intros [(g & [Hg| ->] & Hin)| ->]; [by exists g; auto| |].
        + exists (mkGap a h). cbn in *. split; [by right | lia].
        + exists (mkGap a h). cbn. split; [by right | lia]. }
    rewrite Hsw. destruct (decide (x = h)) as [->|]; [tauto|]. rewrite H1 by lia. tauto.
  - apply Forall_app. split; [eapply Forall_impl; [exact H2|]; cbn; lia|].
    constructor; [cbn; lia | constructor].
  - apply StronglySorted_app in H3 as (H3 & H4 & _). apply StronglySorted_app.
    split_and!; [|done|repeat constructor].
    intros g1 g2 Hg1 ->%list_elem_of_singleton. apply (H3 g1 (mkGap a (h - 1)) Hg1). by left.
Qed.

(** The gaps once the pending one is closed at the height before [h]. *)
Definition closed_gaps (gaps : list GapRange) (gapStart : Z) (inGap : bool) (h : Z)
  : list GapRange :=
  if inGap then gaps ++ [mkGap gapStart (h - 1)] else gaps.

(** The state of the scan at height [h]. *)
Definition scan_inv (present : Z -> bool) (lo h : Z) (gaps : list GapRange) (gapStart : Z)
  (inGap : bool) : Prop :=
  exact_gaps present lo h (closed_gaps gaps gapStart inGap h) /\
  if inGap then gapStart < h else Forall (fun g => End g + 1 < h) gaps.

Lemma scan_missing present lo h gaps gapStart inGap : present h = false -> lo <= h ->
  scan_inv present lo h gaps gapStart inGap ->
  scan_inv present lo (h + 1) gaps (if inGap then gapStart else h) true.
Proof.
  intros Hp Hle [He Hi]. unfold scan_inv, closed_gaps in *.
  replace (h + 1 - 1) with h by lia. destruct inGap; split; try lia.
  - by apply exact_extend.
  - by apply exact_first.
Qed.

Lemma scan_present present lo h gaps gapStart inGap : present h = true -> lo <= h ->
  scan_inv present lo h gaps gapStart inGap ->
  scan_inv present lo (h + 1) (closed_gaps gaps gapStart inGap h) gapStart false.
Proof.
  intros Hp Hle [He Hi]. unfold scan_inv. cbn [closed_gaps]. split; [by apply exact_present|].
  destruct He as (_ & H2 & _). eapply Forall_impl; [exact H2|]. cbn. lia.
Qed.

Lemma DetectGaps_loop_exact present n fuel lo h end_ gaps gapStart inGap s :
  0 <= lo <= h -> end_ < two64 - 1 -> end_ + 1 = h + Z.of_nat n -> (n < fuel)%nat ->
  checks s present lo end_ -> scan_inv present lo h gaps gapStart inGap ->
  exists gs, DetectGaps_loop fuel (fun _ => false) h end_ gaps gapStart inGap s
               = Some (gs, None) /\ exact_gaps present lo (end_ + 1) gs.
Proof.
  revert fuel h gaps gapStart inGap.
  induction n as [|n IH]; intros fuel h gaps gapStart inGap Hh He Hn Hf Hc Hi;
    (destruct fuel as [|fuel]; [lia|]); cbn [DetectGaps_loop].
  - destruct (Z.ltb_spec end_ h); [|lia]. eexists. split; [done|].
    destruct Hi as [Hi _]. unfold closed_gaps in Hi.
    replace end_ with (h - 1) by lia. replace (h - 1 + 1) with h by lia. exact Hi.
  - destruct (Z.ltb_spec end_ h); [lia|].
    pose proof (st_HasBlock_state h s) as Hst. pose proof (Hc h ltac:(lia)) as Hp.
    destruct (st_HasBlock h s) as [r s1]. cbn in Hst, Hp. subst r s1.
    rewrite (u64_id (h + 1)) by (unfold is_u64, two64 in *; lia).
    destruct (present h) eqn:Hpr.
    + apply scan_present in Hi; [|done|lia].
      assert (Hcl : closed_gaps gaps gapStart inGap h =
        if inGap then gaps ++ [mkGap gapStart (u64 (h - 1))] else gaps).
      { unfold closed_gaps. destruct inGap; [|done].
        destruct (decide (h = lo)) as [->|].
        - exfalso. destruct Hi as [(_ & H2 & _) _]. cbn in H2.
          apply Forall_app in H2 as [_ H2]. apply Forall_cons in H2 as [H2 _]. cbn in H2. lia.
        - by rewrite u64_id by (unfold is_u64, two64 in *; lia). }
      rewrite <- Hcl. apply IH; [lia|lia|lia|lia|done|done].
    + apply scan_missing in Hi; [|done|lia]. apply IH; [lia|lia|lia|lia|done|done].
Qed.

(** * Receipt recovery *)

(** The hashes the node's answer holds a receipt for. *)
Definition answered (receipts : list Receipt) (x : Hash) : bool :=
  bool_decide (x ∈ TxHash <$> receipts).

Lemma fold_receipts_spec receipts (m : gmap Hash Receipt) x :
  (forall r, m !! x = Some r -> TxHash r = x) ->
  match fold_left (fun m r => <[TxHash r := r]> m) receipts m !! x with
  | Some r => TxHash r = x
  | None => m !! x = None /\ x ∉ TxHash <$> receipts
  end.
Proof.
  revert m. induction receipts as [|r0 rs IH]; intros m Hm; cbn [fold_left fmap list_fmap].
  - destruct (m !! x) eqn:E; [by apply Hm|]. split; [done | apply not_elem_of_nil].
  - assert (Hm' : forall r, <[TxHash r0 := r0]> m !! x = Some r -> TxHash r = x).
    { intros r. destruct (decide (TxHash r0 = x)) as [He|He].
      - rewrite He, lookup_insert_eq. by intros [= <-].
      - rewrite lookup_insert_ne by done. apply Hm. }
    specialize (IH (<[TxHash r0 := r0]> m) Hm').
    destruct (fold_left _ rs _ !! x); [done|]. destruct IH as [H1 H2].
    destruct (decide (TxHash r0 = x)) as [He|He].
    + by rewrite He, lookup_insert_eq in H1.
    + rewrite lookup_insert_ne in H1 by done. rewrite not_elem_of_cons. auto.
Qed.

Lemma fill_loop_spec receipts hashes s s' : st_ok s ->
  forST (fun txHash =>
           match fold_left (fun m r => <[TxHash r := r]> m) receipts (∅ : gmap Hash Receipt)
                   !! txHash with
           | None => mret tt
           | Some receipt =>
               wrapST "failed to store receipt for tx" (st_SetReceipt (Some receipt))
           end) hashes s = (Ok tt, s') ->
  st_ok s' /\ forall x, st_lacks s' x =
    st_lacks s x && negb (bool_decide (x ∈ hashes) && answered receipts x).
Proof.
  revert s. induction hashes as [|h hs IH]; intros s Hok H; cbn [forST] in H.
  { injection H as <-. split; [done|]. intros x. rewrite bool_decide_eq_false_2
      by apply not_elem_of_nil. cbn. by rewrite andb_true_r. }
  inv_ST. pose proof (fold_receipts_spec receipts ∅ h) as Hm.
  specialize (Hm ltac:(intros r0 Hr; by rewrite lookup_empty in Hr)).
  assert (st_ok s0 /\ forall x, st_lacks s0 x =
    st_lacks s x && negb (bool_decide (x = h) && answered receipts x)) as [Hok0 Hs0].
  { destruct (fold_left _ receipts _ !! h) as [rc|] eqn:El.
    - apply wrapST_ok in H0. destruct r. apply st_SetReceipt_ok in H0 as [Hok0 H0]; [|done].
      split; [done|]. intros x. rewrite H0, Hm. destruct (bool_decide_reflect (x = h)) as [->|];
        [|done]. unfold answered. rewrite bool_decide_eq_true_2; [done|].
      pose proof (fold_receipts_spec receipts ∅ h) as Hin.
      destruct (decide (h ∈ TxHash <$> receipts)) as [|Hn]; [done|]. exfalso.
      revert El. assert (Hnone : forall m : gmap Hash Receipt, m !! h = None ->
        fold_left (fun m r => <[TxHash r := r]> m) receipts m !! h = None).
      { clear -Hn. induction receipts as [|r0 rs IH]; intros m Hm; [done|]. cbn [fold_left].
        cbn in Hn. apply not_elem_of_cons in Hn as [Hn1 Hn2]. apply IH; [done|].
        by rewrite lookup_insert_ne by congruence. }
      rewrite Hnone by apply lookup_empty. discriminate.
    - injection H0 as <- <-. split; [done|]. intros x. unfold answered.
      destruct (bool_decide_reflect (x = h)) as [->|]; cbn; [|by rewrite andb_true_r].
      rewrite bool_decide_eq_false_2 by apply Hm. cbn. by rewrite andb_true_r. }
  apply IH in H as [Hok' Hs']; [|done]. split; [done|]. intros x. rewrite Hs', Hs0.
  destruct (bool_decide_reflect (x = h)) as [->|Hne].
  - rewrite (bool_decide_eq_true_2 (h ∈ h :: hs)) by by left.
    destruct (answered receipts h), (st_lacks s h), (bool_decide (h ∈ hs)); done.
  - assert (bool_decide (x ∈ h :: hs) = bool_decide (x ∈ hs)) as ->.
    { apply bool_decide_ext. rewrite elem_of_cons. tauto. }
    cbn. by rewrite andb_true_r.
Qed.

(** * Properties *)

(** C24: gap detection is exact. On a storage that answers for every height of the range,
    [DetectGaps] ends, with one step per height and one more, and returns the missing
    heights as maximal intervals in ascending order: a height of the range lies in a
    returned gap exactly when no block is stored there, and between two gaps there is
    a stored block. The range has start <= end < 2^64-1; one that ends at the largest 64-bit
    number is left out, where the loop ends only when its context is cancelled. *)
Theorem DetectGaps_exact present start end_ fuel s (Hs : 0 <= start)
  (He : start <= end_ < two64 - 1) (Hf : (Z.to_nat (end_ - start + 1) < fuel)%nat)
  (Hc : checks s present start end_) :
  exists gs, DetectGaps fuel (fun _ => false) start end_ s = Some (gs, None) /\
    exact_gaps present start (end_ + 1) gs.
Proof.
  apply (DetectGaps_loop_exact present (Z.to_nat (end_ - start + 1))); try lia; [done|].
  split; [apply exact_nil | constructor].
Qed.

(** C32: filling a receipt gap stores what the node returned and nothing else. After
    [FillReceiptGap] a transaction lacks its receipt exactly when it lacked it before and
    was not both in the gap and in the node's answer; a failed answer changes nothing. *)
Theorem FillReceiptGap_exact answer gap s (Hok : st_ok s) :
  (forall receipts s', answer = Ok receipts ->
     FillReceiptGap answer gap s = (Ok tt, s') ->
     forall x, st_lacks s' x =
       st_lacks s x && negb (bool_decide (x ∈ MissingReceipts gap) && answered receipts x)) /\
  (forall e, answer = Err e ->
     FillReceiptGap answer gap s
       = (Err (Wrap "failed to fetch receipts for block" e), s)).
Proof.
  split.
  - intros receipts s' -> H. unfold FillReceiptGap, lift, mbind, ST_bind in H.
    exact (proj2 (fill_loop_spec _ _ _ _ Hok H)).
  - by intros e ->.
Qed.

(** The size of a gap is its number of heights, zero for an inverted range; the range
    of all 2^64 heights, and only it, has its size wrap to zero. *)
Theorem GapRange_Size g (H1 : is_u64 (Start g)) (H2 : is_u64 (End g)) :
  Size g = if (Start g =? 0) && (End g =? two64 - 1) then 0
           else Z.max 0 (End g - Start g + 1).
Proof.
  unfold Size, is_u64 in *. destruct (Z.ltb_spec (End g) (Start g)).
  - destruct (Z.eqb_spec (Start g) 0), (Z.eqb_spec (End g) (two64 - 1)); cbn [andb]; lia.
  - rewrite (u64_id (End g - Start g)) by (unfold is_u64; lia).
    destruct (Z.eqb_spec (Start g) 0), (Z.eqb_spec (End g) (two64 - 1)); cbn [andb];
      try (rewrite u64_id by (unfold is_u64; lia); lia).
    replace (End g - Start g + 1) with two64 by lia. reflexivity.
Qed.

End Gaps.

(** * PebbleStorage implements the interface *)

Section Implementation.
Context {E : EthHex} {P : Pebble} {C : ChainTypes}
  {RB : RLP Block} {RT : RLP Tx} {RR : RLP Receipt} {RL : RLP TxLocation}.

#[export] Instance pebble_BlockStore : BlockStore PebbleStorage :=
  {| st_HasBlock := HasBlock; st_GetMissingReceipts := GetMissingReceipts;
     st_SetReceipt := SetReceipt |}.

Lemma missingReceipts_state txs s : snd (missingReceipts txs s) = s.
Proof.
  induction txs as [|t ts IH]; [done|]. cbn [missingReceipts].
  unfold mbind, ST_bind, wrapST.
  assert (Hh : snd (HasReceipt (tx_Hash t) s) = s).
  { unfold HasReceipt, mbind, ST_bind, ensureNotClosed, wrapST, dbGet.
    destruct (closed s); [done|]. by destruct (db_get _ _). }
  destruct (HasReceipt (tx_Hash t) s) as [[b|e] s1]; cbn in *; subst; [|done].
  by destruct (missingReceipts ts s) as [[l|e] s2].
Qed.

Lemma GetMissingReceipts_state h s : snd (GetMissingReceipts h s) = s.
Proof.
  unfold GetMissingReceipts, mbind, ST_bind, ensureNotClosed, wrapST.
  destruct (closed s); [done|]. pose proof (GetBlock_state h s) as Hs.
  destruct (GetBlock h s) as [[b|e] s1]; cbn in *; subst; [apply missingReceipts_state | done].
Qed.

#[export] Instance pebble_BlockStoreSpec (HE : EthHexLaws E) (HP : PebbleLaws P) :
  BlockStoreSpec PebbleStorage.
Proof.
  refine {| st_ok := fun s => is_u64 (txCount s); st_lacks := receipt_missing |}.
  - intros h s. cbn. unfold HasBlock, mbind, ST_bind, ensureNotClosed, dbGet.
    destruct (closed s); [done|]. by destruct (db_get _ _).
  - apply GetMissingReceipts_state.
  - intros h s l Hl x Hx. cbn in Hl.
    pose proof (GetMissingReceipts_state h s) as Hs.
    destruct (GetMissingReceipts h s) as [r s'] eqn:Hm. cbn in Hl, Hs. subst r s'.
    unfold GetMissingReceipts in Hm. inv_op.
    match goal with Hg : GetBlock h s = (Ok _, ?s1) |- _ =>
      pose proof (GetBlock_state h s) as Hb; rewrite Hg in Hb; cbn in Hb; subst s1
    end.
    apply missingReceipts_ok in Hm as [_ ->].
    apply list_elem_of_filter in Hx as [Hx _]. by apply Is_true_true in Hx.
  - intros r s s' Hok H. cbn in H.
    apply (SetReceipt_applied HP) in H as (_ & _ & _ & Ha); [|done].
    split; [by eapply applied_u64|]. intros x. unfold receipt_missing.
    destruct (receipt_ops_writes HE r) as (W1 & _ & W3).
    destruct (bool_decide_reflect (x = TxHash r)) as [->|Hne].
    + rewrite (applied_hit _ _ _ _ _ _ Ha W1). by rewrite andb_false_r.
    + rewrite (applied_get _ _ _ _ _ Ha (proj1 (W3 x Hne))). cbn. by rewrite andb_true_r.
Defined.

End Implementation.

(** * The theorems at a concrete storage *)

#[local] Instance mem_spec : BlockStoreSpec (C := mem_chain) (PebbleStorage (P := mem_pebble)) :=
  pebble_BlockStoreSpec lower_hex_laws mem_pebble_laws.

Lemma HasBlock_of_GetBlock {P : Pebble} {C : ChainTypes} {RB : RLP Block} h s : open s ->
  match fst (GetBlock h s) with
  | Ok _ => HasBlock h s = (Ok true, s)
  | Err ErrNotFound => HasBlock h s = (Ok false, s)
  | Err _ => True
  end.
Proof.
  intros Ho. rewrite GetBlock_eval by done. unfold HasBlock, mbind, ST_bind, ensureNotClosed, dbGet.
  rewrite Ho. destruct (db_get (db s) (BlockKey h)) as [[v|]|e]; cbn; [|done|done].
  by destruct (DecodeBlock v).
Qed.

Lemma DetectGaps_exact_witness : exists s gs,
  GetBlock 7 s = (Ok mem_block1, s) /\
  DetectGaps (C := mem_chain) 10 (fun _ => false) 5 9 s = Some (gs, None) /\
  exact_gaps (Z.eqb 7) 5 10 gs.
Proof.
  destruct (mem_SetBlock mem_block1 mem_storage mem_usable) as (s & H & Hs).
  destruct (SetBlock_reads_witness) as (s1 & H1 & Hb & _). rewrite H in H1. injection H1 as <-.
  destruct (DetectGaps_exact (C := mem_chain) (Z.eqb 7) 5 9 10 s) as (gs & Hg & He);
    [lia | vm_compute; split; [discriminate | reflexivity] | vm_compute; lia | |].
  - intros h _. pose proof (HasBlock_of_GetBlock (C := mem_chain) h s (proj1 Hs)) as Hh.
    destruct (Z.eqb_spec 7 h) as [<-|Hne].
    + rewrite Hb in Hh. change (st_HasBlock (C := mem_chain) 7 s) with (HasBlock 7 s).
      cbn [fst] in Hh. by rewrite Hh.
    + assert (Hk : @db_get mem_pebble (db s) (BlockKey h) = Ok None).
      { apply (SetBlock_applied (C := mem_chain) mem_pebble_laws mem_block1 mem_storage tt s u64_zero)
          in H as (_ & _ & _ & Ha).
        rewrite (applied_get _ _ _ _ (BlockKey h) Ha); [reflexivity|].
        pose proof lower_hex_laws as HE.
        apply set_block_ops_none; first [key_ne | intros ?; key_ne]. }
      change (st_HasBlock (C := mem_chain) h s) with (HasBlock h s).
      unfold HasBlock, mbind, ST_bind, ensureNotClosed, dbGet. rewrite (proj1 Hs), Hk. reflexivity.
  - exists s, gs. split; [exact Hb|]. split; [exact Hg | exact He].
Defined.

Lemma FillReceiptGap_exact_witness : exists s',
  FillReceiptGap (C := mem_chain) (Ok [mem_receipt1])
    (mkReceiptGap 7 [sample_hash 1; sample_hash 2]) mem_storage = (Ok tt, s') /\
  st_lacks (BlockStoreSpec := mem_spec) s' (sample_hash 1) = false.
Proof.
  assert (exists s', SetReceipt (Some mem_receipt1) mem_storage = (Ok tt, s')) as [s' H].
  { unfold SetReceipt, mbind, ST_bind, lift, EncodeReceipt.
    rewrite mem_receipt1_valid, mem_receipt_encodes. eexists. reflexivity. }
  assert (Hf : FillReceiptGap (C := mem_chain) (Ok [mem_receipt1])
                 (mkReceiptGap 7 [sample_hash 1; sample_hash 2]) mem_storage = (Ok tt, s')).
  { unfold FillReceiptGap, lift, mbind, ST_bind. cbn [wrap_err MissingReceipts fold_left forST].
    unfold mbind, ST_bind. change (TxHash mem_receipt1) with (sample_hash 1).
    rewrite lookup_insert_eq. unfold wrapST.
    change (st_SetReceipt (C := mem_chain) (Some mem_receipt1)) with (SetReceipt (Some mem_receipt1)).
    rewrite H. cbn [wrap_err]. rewrite lookup_insert_ne, lookup_empty; [reflexivity|].
    refine (bool_decide_unpack (sample_hash 1 <> sample_hash 2) _). vm_compute. exact I. }
  exists s'. split; [exact Hf|].
  destruct (FillReceiptGap_exact (C := mem_chain) (BS := mem_spec) (Ok [mem_receipt1])
              (mkReceiptGap 7 [sample_hash 1; sample_hash 2]) mem_storage u64_zero) as [G _].
  rewrite (G [mem_receipt1] s' eq_refl Hf (sample_hash 1)).
  unfold answered. rewrite !bool_decide_eq_true_2 by by left. apply andb_false_r.
Defined.

Lemma GapRange_Size_witness : Size (mkGap 5 9) = 5 /\ Size (mkGap 0 (two64 - 1)) = 0.
Proof.
  split.
  - apply (GapRange_Size (mkGap 5 9)); split; vm_compute; (reflexivity || discriminate).
  - apply (GapRange_Size (mkGap 0 (two64 - 1))); split; vm_compute; (reflexivity || discriminate).
Defined.
