(* ===== verification/Bloom.v ===== *)
(** Bloom: the address filter of the watch list.

    Models pkg/watchlist/bloom.go: the bit set of 64-bit words, double hashing with
    FNV-1a, adding, querying, merging and the serialized form. Indexing a word that is
    not there and a division by a zero size panic. The sizing formulas of
    [NewBloomFilter] and the ratios are floating-point and are not modelled: a new
    filter is given by its number of words and hash functions. *)
From S2P Require Import Prelude Eth Wire.

(** * FNV-1a, 64 bits (hash/fnv) *)

Definition fnv_offset : Z := 14695981039346656037.
Definition fnv_prime : Z := 1099511628211.

Definition fnvHash (data : bytes) : Z :=
  fold_left (fun h c => u64 (Z.lxor h (byte_val c) * fnv_prime)) data fnv_offset.

(** * The filter *)

Record BloomFilter := mkBloom {
  bitset : list Z;
  size : Z;
  hashCount : Z;
  count : Z;
}.

Definition with_bitset (ws : list Z) (bf : BloomFilter) : BloomFilter :=
  mkBloom ws (size bf) (hashCount bf) (count bf).

(** A filter of [words] empty words. *)
Definition new_filter (words : nat) (k : Z) : BloomFilter :=
  mkBloom (replicate words 0) (64 * Z.of_nat words) k 0.

Definition index_panic {A} : res A := Err (Panic "index out of range").

Definition setBit (idx : Z) (ws : list Z) : res (list Z) :=
  let wordIdx := Z.to_nat (idx / 64) in
  let bitIdx := idx mod 64 in
  match ws !! wordIdx with
  | Some w => Ok (<[wordIdx := Z.lor w (Z.shiftl 1 bitIdx)]> ws)
  | None => index_panic
  end.

Definition getBit (idx : Z) (ws : list Z) : res bool :=
  let wordIdx := Z.to_nat (idx / 64) in
  let bitIdx := idx mod 64 in
  match ws !! wordIdx with
  | Some w => Ok (negb (Z.land w (Z.shiftl 1 bitIdx) =? 0))
  | None => index_panic
  end.

(** The i-th hash of an address: h1 + i*h2 modulo the size, in 64 bits. *)
Definition hash (bf : BloomFilter) (addr : Address) (i : Z) : res Z :=
  let h1 := fnvHash (proj1_sig addr) in
  let h2 := fnvHash (proj1_sig addr ++ [byte_of i]) in
  if size bf =? 0 then Err (Panic "integer divide by zero")
  else Ok (u64 (h1 + u64 (i * h2)) mod size bf).

(** [for i := uint(0); i < bf.hashCount; i++] over the words. *)
Fixpoint add_loop (bf : BloomFilter) (addr : Address) (idxs : list Z) (ws : list Z)
  : res (list Z) :=
  match idxs with
  | [] => Ok ws
  | i :: idxs' =>
      idx ← hash bf addr i;
      ws' ← setBit idx ws;
      add_loop bf addr idxs' ws'
  end.

Definition addLocked (addr : Address) (bf : BloomFilter) : res BloomFilter :=
  ws ← add_loop bf addr (seqZ 0 (hashCount bf)) (bitset bf);
  mret (mkBloom ws (size bf) (hashCount bf) (u64 (count bf + 1))).

Definition Add (addr : Address) (bf : BloomFilter) : res BloomFilter := addLocked addr bf.

Fixpoint AddBatch (addrs : list Address) (bf : BloomFilter) : res BloomFilter :=
  match addrs with
  | [] => Ok bf
  | addr :: addrs' => bf' ← addLocked addr bf; AddBatch addrs' bf'
  end.

Fixpoint query_loop (bf : BloomFilter) (addr : Address) (idxs : list Z) : res bool :=
  match idxs with
  | [] => Ok true
  | i :: idxs' =>
      idx ← hash bf addr i;
      b ← getBit idx (bitset bf);
      if (b : bool) then query_loop bf addr idxs' else Ok false
  end.

Definition MightContain (addr : Address) (bf : BloomFilter) : res bool :=
  query_loop bf addr (seqZ 0 (hashCount bf)).

Fixpoint MightContainAny (addrs : list Address) (bf : BloomFilter) : res bool :=
  match addrs with
  | [] => Ok false
  | addr :: addrs' =>
      found ← query_loop bf addr (seqZ 0 (hashCount bf));
      if (found : bool) then Ok true else MightContainAny addrs' bf
  end.

Definition Clear (bf : BloomFilter) : BloomFilter :=
  mkBloom ((fun _ => 0) <$> bitset bf) (size bf) (hashCount bf) 0.

Definition Count (bf : BloomFilter) : Z := count bf.

Definition Bytes (bf : BloomFilter) : bytes := flat_map (be_put 8) (bitset bf).

(** The words of the data, eight bytes at a time; a rest of fewer bytes is ignored. *)
Fixpoint read_words (n : nat) (data : bytes) : list Z :=
  match n with
  | O => []
  | S n' => be_get (take 8 data) :: read_words n' (drop 8 data)
  end.

(** [NewBloomFilterFromBytes] of data that is not empty. *)
Definition NewBloomFilterFromBytes (data : bytes) (k : Z) : BloomFilter :=
  mkBloom (read_words (length data / 8) data) (len data * 8) k 0.

Definition ErrBloomFilterSizeMismatch : error := Errorf "bloom filter size mismatch".

(** [bf.bitset[i] |= other.bitset[i]] for every word of [bf]. *)
Fixpoint merge_words (ws other : list Z) : res (list Z) :=
  match ws, other with
  | [], _ => Ok []
  | w :: ws', o :: other' => rest ← merge_words ws' other'; mret (Z.lor w o :: rest)
  | _ :: _, [] => index_panic
  end.

Definition Merge (bf other : BloomFilter) : res BloomFilter :=
  if size bf =? size other then
    ws ← merge_words (bitset bf) (bitset other);
    mret (with_bitset ws bf)
  else Err ErrBloomFilterSizeMismatch.

(** * The set of bits *)

Definition bit (ws : list Z) (idx : Z) : bool :=
  Z.testbit (default 0 (ws !! Z.to_nat (idx / 64))) (idx mod 64).

Definition wf (bf : BloomFilter) : Prop :=
  size bf = 64 * Z.of_nat (length (bitset bf)) /\ 0 < size bf < two64 /\
  Forall is_u64 (bitset bf).

Lemma hash_range bf a i : wf bf -> exists idx, hash bf a i = Ok idx /\ 0 <= idx < size bf.
Proof.
  intros (_ & Hs & _). unfold hash. destruct (Z.eqb_spec (size bf) 0); [lia|].
  eexists. split; [done|]. apply Z.mod_pos_bound. lia.
Qed.

Lemma word_lookup (ws : list Z) idx : 0 <= idx < 64 * Z.of_nat (length ws) ->
  exists w, ws !! Z.to_nat (idx / 64) = Some w.
Proof.
  intros H. apply lookup_lt_is_Some_2.
  assert (idx / 64 < Z.of_nat (length ws)) by (apply Z.div_lt_upper_bound; lia).
  assert (0 <= idx / 64) by (apply Z.div_pos; lia). lia.
Qed.

Lemma getBit_bit ws idx : 0 <= idx < 64 * Z.of_nat (length ws) -> getBit idx ws = Ok (bit ws idx).
Proof.
  intros H. destruct (word_lookup ws idx H) as [w Hw]. unfold getBit, bit. rewrite Hw. cbn. f_equal.
  pose proof (Z.mod_pos_bound idx 64 ltac:(lia)) as Hm.
  rewrite Z.shiftl_1_l. destruct (Z.testbit w (idx mod 64)) eqn:Hb.
  - apply negb_true_iff, Z.eqb_neq. intros Hz.
    apply (f_equal (fun z => Z.testbit z (idx mod 64))) in Hz.
    rewrite Z.land_spec, Z.pow2_bits_true, Hb, Z.bits_0 in Hz by lia. done.
  - apply negb_false_iff, Z.eqb_eq. apply Z.bits_inj'. intros n Hn.
    rewrite Z.land_spec, Z.bits_0. destruct (decide (n = idx mod 64)) as [->|Hne].
    + by rewrite Hb.
    + by rewrite Z.pow2_bits_false, andb_false_r by congruence.
Qed.

Lemma log2_u64 a : is_u64 a -> Z.log2 a < 64.
Proof.
  unfold is_u64, two64. intros Ha. destruct (decide (a = 0)) as [->|]; [done|].
  apply Z.log2_lt_pow2; lia.
Qed.

Lemma is_u64_lor a b : is_u64 a -> is_u64 b -> is_u64 (Z.lor a b).
Proof.
  intros Ha Hb. pose proof (log2_u64 a Ha). pose proof (log2_u64 b Hb).
  unfold is_u64, two64 in *. split; [apply Z.lor_nonneg; lia|].
  apply Z.log2_lt_cancel. rewrite (Z.log2_pow2 64), Z.log2_lor by lia. lia.
Qed.

Lemma setBit_spec ws idx : 0 <= idx < 64 * Z.of_nat (length ws) ->
  exists ws', setBit idx ws = Ok ws' /\ length ws' = length ws /\
    (Forall is_u64 ws -> Forall is_u64 ws') /\
    forall j, 0 <= j -> bit ws' j = bit ws j || (j =? idx).
Proof.
  intros H. destruct (word_lookup ws idx H) as [w Hw]. unfold setBit. rewrite Hw.
  eexists. split; [done|]. split; [apply length_insert|].
  pose proof (Z.mod_pos_bound idx 64 ltac:(lia)) as Hm. rewrite Z.shiftl_1_l. split.
  - intros HF. apply Forall_insert; [done|]. eapply Forall_lookup_1 in HF; [|done].
    apply is_u64_lor; [done|]. unfold is_u64, two64. split; [apply Z.pow_nonneg; lia|].
    apply Z.pow_lt_mono_r; lia.
  - intros j Hj. unfold bit.
    pose proof (Z.mod_pos_bound j 64 ltac:(lia)) as Hmj.
    pose proof (Z.div_pos idx 64 ltac:(lia) ltac:(lia)).
    pose proof (Z.div_pos j 64 ltac:(lia) ltac:(lia)).
    pose proof (Z.div_mod idx 64 ltac:(lia)). pose proof (Z.div_mod j 64 ltac:(lia)).
    destruct (decide (Z.to_nat (j / 64) = Z.to_nat (idx / 64))) as [He|He].
    + rewrite He, list_lookup_insert_eq by (by eapply lookup_lt_Some). rewrite Hw. cbn.
      rewrite Z.lor_spec. f_equal. destruct (Z.eqb_spec j idx) as [->|Hne].
      * apply Z.pow2_bits_true. lia.
      * apply Z.pow2_bits_false. intros Heq. apply Hne. lia.
    + rewrite list_lookup_insert_ne by congruence.
      destruct (Z.eqb_spec j idx) as [->|Hne]; [done|]. by rewrite orb_false_r.
Qed.

(** [bf'] has at least the bits of [bf], and is otherwise the same filter. *)
Definition extends (bf bf' : BloomFilter) : Prop :=
  size bf' = size bf /\ hashCount bf' = hashCount bf /\
  length (bitset bf') = length (bitset bf) /\
  forall j, 0 <= j -> bit (bitset bf) j = true -> bit (bitset bf') j = true.

#[export] Instance extends_refl : Reflexive extends.
Proof. by intros bf. Qed.

#[export] Instance extends_trans : Transitive extends.
Proof.
  intros a b c (A1 & A2 & A3 & A4) (B1 & B2 & B3 & B4). split_and!; [congruence..|]. auto.
Qed.

(** The bits an address needs: those of its hashes below [hashCount]. *)
Definition covered (bf : BloomFilter) (a : Address) : Prop :=
  forall i idx, 0 <= i < hashCount bf -> hash bf a i = Ok idx -> bit (bitset bf) idx = true.

Lemma hash_same bf bf' a i : size bf' = size bf -> hash bf' a i = hash bf a i.
Proof. unfold hash. by intros ->. Qed.

Lemma covered_extends bf bf' a : wf bf -> extends bf bf' -> covered bf a -> covered bf' a.
Proof.
  intros Hwf (H1 & H2 & _ & H4) Hc i idx Hi Hh. rewrite (hash_same bf) in Hh by done.
  rewrite H2 in Hi. destruct (hash_range bf a i Hwf) as (idx' & Hh' & Hr).
  assert (idx' = idx) as -> by congruence. apply H4; [lia|]. by eapply Hc.
Qed.

Lemma query_loop_spec bf a idxs : wf bf ->
  query_loop bf a idxs =
  Ok (forallb (fun i => match hash bf a i with Ok idx => bit (bitset bf) idx | _ => true end) idxs).
Proof.
  intros Hwf. pose proof Hwf as (Hs & _ & _).
  induction idxs as [|i idxs IH]; [done|]. cbn [query_loop forallb].
  destruct (hash_range bf a i Hwf) as (idx & Hh & Hr). rewrite Hh. cbn.
  rewrite getBit_bit by lia. cbn. by destruct (bit (bitset bf) idx).
Qed.

Lemma MightContain_covered bf a : wf bf -> MightContain a bf = Ok true <-> covered bf a.
Proof.
  intros Hwf. unfold MightContain. rewrite query_loop_spec by done.
  split.
  - intros [= H] i idx Hi Hh. rewrite forallb_forall in H.
    specialize (H i). rewrite Hh in H. apply H. apply list_elem_of_In, elem_of_seqZ. lia.
  - intros Hc. f_equal. apply forallb_forall. intros i Hi.
    apply list_elem_of_In, elem_of_seqZ in Hi.
    destruct (hash_range bf a i Hwf) as (idx & Hh & _). rewrite Hh. apply (Hc i); [lia|done].
Qed.

Lemma add_loop_spec bf a idxs ws : wf bf -> length ws = length (bitset bf) -> Forall is_u64 ws ->
  exists ws', add_loop bf a idxs ws = Ok ws' /\ length ws' = length ws /\ Forall is_u64 ws' /\
    (forall j, 0 <= j -> bit ws j = true -> bit ws' j = true) /\
    forall i idx, i ∈ idxs -> hash bf a i = Ok idx -> bit ws' idx = true.
Proof.
  intros Hwf. pose proof Hwf as (Hs & _ & _). revert ws.
  induction idxs as [|i idxs IH]; intros ws Hl HF; cbn [add_loop].
  { exists ws. split_and!; try done. by intros i idx ?%not_elem_of_nil. }
  destruct (hash_range bf a i Hwf) as (idx & Hh & Hr). rewrite Hh. cbn.
  destruct (setBit_spec ws idx ltac:(lia)) as (ws1 & H1 & Hl1 & HF1 & Hb1). rewrite H1. cbn.
  destruct (IH ws1 ltac:(lia) (HF1 HF)) as (ws2 & H2 & Hl2 & HF2 & Hm2 & Hb2). rewrite H2.
  exists ws2. split_and!; [done|lia|done| |].
  - intros j Hj Hw. apply Hm2; [done|]. rewrite Hb1 by done. by rewrite Hw.
  - intros i' idx' [->|Hi]%elem_of_cons Hh'; [|by eapply Hb2].
    assert (idx' = idx) as -> by congruence. apply Hm2; [lia|].
    rewrite Hb1, Z.eqb_refl by lia. apply orb_true_r.
Qed.

Lemma addLocked_spec bf a : wf bf ->
  exists bf', addLocked a bf = Ok bf' /\ wf bf' /\ extends bf bf' /\ covered bf' a /\
    count bf' = u64 (count bf + 1).
Proof.
  intros Hwf. pose proof Hwf as (Hs & Hr & HF).
  destruct (add_loop_spec bf a (seqZ 0 (hashCount bf)) (bitset bf) Hwf eq_refl HF)
    as (ws & H & Hl & HF' & Hm & Hc).
  unfold addLocked. rewrite H. cbn. eexists. split; [done|]. split_and!; cbn.
  - split_and!; cbn; [by rewrite Hl | lia | lia | done].
  - split_and!; done.
  - intros i idx Hi Hh. cbn in *. apply (Hc i); [apply elem_of_seqZ; lia|].
    by rewrite (hash_same (mkBloom ws (size bf) (hashCount bf) (u64 (count bf + 1)))).
  - done.
Qed.

Lemma AddBatch_spec addrs bf : wf bf ->
  exists bf', AddBatch addrs bf = Ok bf' /\ wf bf' /\ extends bf bf' /\
    (forall a, a ∈ addrs -> covered bf' a) /\
    count bf' = if decide (addrs = []) then count bf
                else u64 (count bf + Z.of_nat (length addrs)).
Proof.
  revert bf. induction addrs as [|a addrs IH]; intros bf Hwf; cbn [AddBatch].
  { exists bf. split_and!; try done. by intros a ?%not_elem_of_nil. }
  destruct (addLocked_spec bf a Hwf) as (bf1 & H1 & Hwf1 & He1 & Hc1 & Hn1). rewrite H1. cbn.
  destruct (IH bf1 Hwf1) as (bf2 & H2 & Hwf2 & He2 & Hc2 & Hn2). rewrite H2.
  exists bf2. split_and!; [done|done|by etrans| |].
  - intros a' [->|Hin]%elem_of_cons; [|auto]. by apply (covered_extends bf1).
  - rewrite Hn2, Hn1. destruct addrs as [|a' addrs']; [done|]. rewrite decide_False by done.
    cbn [length]. unfold u64. rewrite Zplus_mod_idemp_l. f_equal. lia.
Qed.

(** * Properties *)

(** C25: the filter has no false negatives. On a well-formed filter [AddBatch] does not
    panic and keeps it well-formed; every address of the batch and every address the
    filter answered for before is answered [true] afterwards, alone and in any list
    given to [MightContainAny]; the counter grows by the batch. *)
Theorem bloom_no_false_negatives addrs bf (Hwf : wf bf) :
  exists bf', AddBatch addrs bf = Ok bf' /\ wf bf' /\
    (forall a, a ∈ addrs -> MightContain a bf' = Ok true) /\
    (forall a, MightContain a bf = Ok true -> MightContain a bf' = Ok true) /\
    (forall a qs, a ∈ addrs -> a ∈ qs -> MightContainAny qs bf' = Ok true) /\
    (addrs <> [] -> count bf' = u64 (count bf + Z.of_nat (length addrs))).
Proof.
  destruct (AddBatch_spec addrs bf Hwf) as (bf' & H & Hwf' & He & Hc & Hn).
  assert (Hin : forall a, a ∈ addrs -> MightContain a bf' = Ok true)
    by (intros a Ha; by apply MightContain_covered, Hc).
  exists bf'. split_and!; [done|done|done| | |].
  - intros a Ha%MightContain_covered; [|done]. apply MightContain_covered; [done|].
    by apply (covered_extends bf).
  - intros a qs Ha. induction qs as [|q qs IH]; [by intros ?%not_elem_of_nil|].
    intros [<-|Hq]%elem_of_cons; cbn [MightContainAny].
    + unfold MightContain in Hin. by rewrite (Hin a Ha).
    + rewrite query_loop_spec by done. cbn. by destruct (forallb _ _); [|apply IH].
  - intros Hne. by rewrite decide_False in Hn.
Qed.

Lemma merge_words_spec ws os : length ws = length os ->
  merge_words ws os = Ok (zip_with Z.lor ws os).
Proof.
  revert os. induction ws as [|w ws IH]; intros [|o os] H; try done. cbn. by rewrite IH by (cbn in H; lia).
Qed.

Lemma bit_merge ws os j : length ws = length os ->
  bit (zip_with Z.lor ws os) j = bit ws j || bit os j.
Proof.
  intros Hl. unfold bit. rewrite lookup_zip_with.
  destruct (ws !! Z.to_nat (j / 64)) eqn:E1, (os !! Z.to_nat (j / 64)) eqn:E2; cbn.
  - apply Z.lor_spec.
  - apply lookup_lt_Some in E1. apply lookup_ge_None in E2. lia.
  - apply lookup_lt_Some in E2. apply lookup_ge_None in E1. lia.
  - by rewrite !Z.bits_0.
Qed.


Lemma zip_lor_u64 ws os : Forall is_u64 ws -> Forall is_u64 os ->
  Forall is_u64 (zip_with Z.lor ws os).
Proof.
  intros Hw. revert os. induction Hw as [|w ws H1 Hws IH]; intros [|o os] Ho; try by constructor.
  apply Forall_cons in Ho as [H2 Ho]. constructor; [by apply is_u64_lor | by apply IH].
Qed.

(** Merging is the union. For two well-formed filters of the same size [Merge] succeeds,
    the result is well-formed and its bits are those set in either; when the filters
    also use the same number of hash functions, every address either of them answers
    for is answered afterwards. Filters of different sizes are refused. *)
Theorem bloom_merge bf other (H1 : wf bf) (H2 : wf other) :
  (size bf <> size other -> Merge bf other = Err ErrBloomFilterSizeMismatch) /\
  (size bf = size other -> exists bf', Merge bf other = Ok bf' /\ wf bf' /\
     (forall j, bit (bitset bf') j = bit (bitset bf) j || bit (bitset other) j) /\
     (hashCount bf = hashCount other -> forall a,
        MightContain a bf = Ok true \/ MightContain a other = Ok true ->
        MightContain a bf' = Ok true)).
Proof.
  unfold Merge. split; [by destruct (Z.eqb_spec (size bf) (size other))|].
  intros Hs. destruct (Z.eqb_spec (size bf) (size other)); [|done].
  pose proof H1 as (S1 & R1 & F1). pose proof H2 as (S2 & R2 & F2).
  assert (Hl : length (bitset bf) = length (bitset other)) by lia.
  rewrite merge_words_spec by done. cbn. eexists. split; [done|].
  set (bf' := with_bitset (zip_with Z.lor (bitset bf) (bitset other)) bf).
  assert (Hlen : length (bitset bf') = length (bitset bf)) by (cbn; rewrite length_zip_with; lia).
  assert (Hbit : forall j, bit (bitset bf') j = bit (bitset bf) j || bit (bitset other) j)
    by (intros j; by apply bit_merge).
  assert (Hwf : wf bf').
  { split_and!; [by rewrite Hlen|cbn; lia|cbn; lia|]. cbn.
    by apply zip_lor_u64. }
  split_and!; [done|done|]. intros Hk a.
  rewrite !MightContain_covered by done. intros [Hc|Hc].
  - apply (covered_extends bf); [done| |done]. split_and!; try done.
    intros j _ Hj. by rewrite Hbit, Hj.
  - apply (covered_extends other); [done| |done].
    split_and!; [done|done|by rewrite Hlen|]. intros j _ Hj. by rewrite Hbit, Hj, orb_true_r.
Qed.

Lemma read_words_spec ws : Forall is_u64 ws ->
  read_words (length ws) (flat_map (be_put 8) ws) = ws.
Proof.
  induction 1 as [|w ws Hw Hws IH]; [done|]. cbn [length flat_map read_words].
  rewrite take_app_length', drop_app_length' by (by rewrite length_be_put).
  rewrite IH, be_get_put. by rewrite Z.mod_small.
Qed.

Lemma length_words ws : length (flat_map (be_put 8) ws) = (8 * length ws)%nat.
Proof.
  induction ws as [|w ws IH]; [done|]. cbn [flat_map length].
  rewrite length_app, length_be_put, IH. lia.
Qed.

(** A filter survives its serialized form: reading back the bytes with the same number
    of hash functions gives a filter with the same words and size, which answers every
    query as before; only the item counter starts again at zero. *)
Theorem bloom_bytes_roundtrip bf (Hwf : wf bf) :
  NewBloomFilterFromBytes (Bytes bf) (hashCount bf)
    = mkBloom (bitset bf) (size bf) (hashCount bf) 0 /\
  forall a, MightContain a (NewBloomFilterFromBytes (Bytes bf) (hashCount bf))
            = MightContain a bf.
Proof.
  destruct Hwf as (Hs & Hr & HF).
  assert (Heq : NewBloomFilterFromBytes (Bytes bf) (hashCount bf)
    = mkBloom (bitset bf) (size bf) (hashCount bf) 0).
  { unfold NewBloomFilterFromBytes, Bytes, len. rewrite length_words.
    rewrite Nat.mul_comm, Nat.div_mul, read_words_spec by done. f_equal. lia. }
  split; [done|]. intros a. rewrite Heq. unfold MightContain. cbn [hashCount].
  generalize (seqZ 0 (hashCount bf)) as idxs. induction idxs as [|i idxs IH]; [done|].
  cbn [query_loop]. change (hash (mkBloom (bitset bf) (size bf) (hashCount bf) 0) a i)
    with (hash bf a i). destruct (hash bf a i); [|done]. cbn [mbind res_bind bitset].
  destruct (getBit a0 (bitset bf)) as [[]|]; cbn; [apply IH | done..].
Qed.

(** An address whose bits decide the examples below. *)
Definition probe : Address := sample_address 9.

(** Two filters of one word: [probe] added with one hash function, and an empty one that
    uses four. *)
Definition one_hash : BloomFilter := new_filter 1 1.
Definition four_hashes : BloomFilter := new_filter 1 4.

(** Two weaknesses of the merge and of the serialized form. A filter merged into one
    that uses more hash functions loses its members, since only the sizes are compared;
    and data whose length is not a multiple of eight gives a filter whose size exceeds
    its words, on which adding an address can panic. *)
Theorem bloom_mismatches :
  (bf ← Add probe one_hash; MightContain probe bf) = Ok true /\
  (bf ← Add probe one_hash; m ← Merge four_hashes bf; MightContain probe m) = Ok false /\
  Add probe (NewBloomFilterFromBytes (replicate 1 zero) 4)
    = Err (Panic "index out of range").
Proof. vm_compute. auto. Qed.

(** * The theorems at a concrete filter *)

Lemma new_filter_wf words k : (0 < words)%nat -> 64 * Z.of_nat words < two64 ->
  wf (new_filter words k).
Proof.
  intros H1 H2. split_and!; cbn; [by rewrite length_replicate | lia | lia |].
  apply Forall_replicate. split; [lia | reflexivity].
Qed.

Lemma bloom_no_false_negatives_witness : exists bf',
  AddBatch [sample_address 1; sample_address 2] (new_filter 4 3) = Ok bf' /\
  MightContain (sample_address 2) bf' = Ok true /\ count bf' = 2.
Proof.
  destruct (bloom_no_false_negatives [sample_address 1; sample_address 2] (new_filter 4 3))
    as (bf' & H & _ & Hin & _ & _ & Hn).
  - apply new_filter_wf; [lia | reflexivity].
  - exists bf'. split; [exact H|]. split.
    + apply Hin. right. left.
    + rewrite Hn by discriminate. reflexivity.
Defined.

Lemma bloom_merge_witness : exists bf',
  Merge (new_filter 4 3) (new_filter 4 3) = Ok bf' /\ wf bf' /\
  Merge (new_filter 4 3) (new_filter 5 3) = Err ErrBloomFilterSizeMismatch.
Proof.
  assert (W4 : wf (new_filter 4 3)) by (apply new_filter_wf; [lia | reflexivity]).
  assert (W5 : wf (new_filter 5 3)) by (apply new_filter_wf; [lia | reflexivity]).
  destruct (bloom_merge (new_filter 4 3) (new_filter 4 3) W4 W4) as [_ H].
  destruct (H eq_refl) as (bf' & Hm & Hw & _). exists bf'.
  split; [exact Hm|]. split; [exact Hw|].
  apply (bloom_merge (new_filter 4 3) (new_filter 5 3) W4 W5). discriminate.
Defined.

Lemma bloom_bytes_roundtrip_witness :
  NewBloomFilterFromBytes (Bytes (new_filter 4 3)) 3 = new_filter 4 3.
Proof.
  apply (bloom_bytes_roundtrip (new_filter 4 3)). apply new_filter_wf; [lia | reflexivity].
Defined.
