(* ===== verification/RpcCache.v ===== *)
(** RpcCache: the least-recently-used cache of the RPC proxy.

    Models pkg/rpcproxy/cache.go. Each operation takes the time it reads from the clock.
    An entry is reached through the map by its key and through the recency list, most
    recent first; list elements and entries are identified by their keys. The abstract
    cache is one list of keys with entries, most recent first, cut at the capacity; the
    operations refine it. The background goroutine is a [cleanup] at any moment. *)
From S2P Require Import Prelude.

Section RpcCache.
Context {V : Type}.

Record CacheEntry := mkEntry { Value : V; ExpiresAt : Z }.

Definition IsExpired (now : Z) (e : CacheEntry) : bool := ExpiresAt e <? now.

Record Cache := mkCache {
  maxSize : Z;
  items : gmap bytes CacheEntry;
  lru : list bytes;
  hits : Z;
  misses : Z;
  evictions : Z;
}.

Definition NewCache (max : Z) : Cache := mkCache max ∅ [] 0 0 0.

(** [list.Remove] and [list.MoveToFront] of the element with this key. *)
Definition remove_key (key : bytes) (l : list bytes) : list bytes :=
  filter (fun k => k <> key) l.
Definition move_to_front (key : bytes) (l : list bytes) : list bytes :=
  key :: remove_key key l.

Definition removeEntry (key : bytes) (c : Cache) : Cache :=
  mkCache (maxSize c) (delete key (items c)) (remove_key key (lru c))
    (hits c) (misses c) (evictions c).

Definition miss (c : Cache) : Cache :=
  mkCache (maxSize c) (items c) (lru c) (hits c) (misses c + 1) (evictions c).

Definition Get (now : Z) (key : bytes) (c : Cache) : option V * Cache :=
  match items c !! key with
  | None => (None, miss c)
  | Some entry =>
      if IsExpired now entry then (None, miss (removeEntry key c))
      else (Some (Value entry),
            mkCache (maxSize c) (items c) (move_to_front key (lru c))
              (hits c + 1) (misses c) (evictions c))
  end.

(** The oldest entry is the last of the list; on an empty list nothing happens. *)
Definition evictOldest (c : Cache) : Cache :=
  match last (lru c) with
  | None => c
  | Some key =>
      let c' := removeEntry key c in
      mkCache (maxSize c') (items c') (lru c') (hits c') (misses c') (evictions c' + 1)
  end.

(** [for c.lru.Len() >= c.maxSize { c.evictOldest() }]. *)
Fixpoint evict_loop (fuel : nat) (c : Cache) : option Cache :=
  match fuel with
  | O => None
  | S fuel' =>
      if maxSize c <=? Z.of_nat (length (lru c)) then evict_loop fuel' (evictOldest c)
      else Some c
  end.

Definition Set_ (fuel : nat) (now : Z) (key : bytes) (value : V) (ttl : Z) (c : Cache)
  : option Cache :=
  let entry := mkEntry value (now + ttl) in
  match items c !! key with
  | Some _ =>
      Some (mkCache (maxSize c) (<[key := entry]> (items c)) (move_to_front key (lru c))
              (hits c) (misses c) (evictions c))
  | None =>
      c' ← evict_loop fuel c;
      Some (mkCache (maxSize c') (<[key := entry]> (items c')) (key :: lru c')
              (hits c') (misses c') (evictions c'))
  end.

Definition Delete (key : bytes) (c : Cache) : Cache :=
  match items c !! key with
  | Some _ => removeEntry key c
  | None => c
  end.

Definition Clear (c : Cache) : Cache :=
  mkCache (maxSize c) ∅ [] (hits c) (misses c) (evictions c).

Definition Size (c : Cache) : Z := Z.of_nat (base.size (items c)).

(** [for _, entry := range c.items], in any order: expired entries are removed. *)
Definition cleanup (now : Z) (c : Cache) : Cache :=
  fold_left (fun c ke => if IsExpired now (snd ke) then removeEntry (fst ke) c else c)
    (map_to_list (items c)) c.

(** [fn] runs between the lookup and the store, each under its own lock; [now'] is the
    time of the store. *)
Definition GetOrSet (fuel : nat) (now now' : Z) (key : bytes) (ttl : Z) (fn : res V) (c : Cache)
  : option (res (V * bool) * Cache) :=
  match Get now key c with
  | (Some value, c1) => Some (Ok (value, true), c1)
  | (None, c1) =>
      match fn with
      | Err e => Some (Err e, c1)
      | Ok value =>
          c2 ← Set_ fuel now' key value ttl c1;
          Some (Ok (value, false), c2)
      end
  end.

(** * The abstract cache *)

(** Keys with their entries, most recent first. *)
Definition abs (c : Cache) : list (bytes * CacheEntry) :=
  omap (fun k => (fun e => (k, e)) <$> items c !! k) (lru c).

Definition without (key : bytes) (l : list (bytes * CacheEntry)) : list (bytes * CacheEntry) :=
  filter (fun ke => fst ke <> key) l.

(** The map and the list hold the same keys, each once, within the capacity. *)
Definition inv (c : Cache) : Prop :=
  NoDup (lru c) /\ (forall k, k ∈ lru c <-> is_Some (items c !! k)) /\
  Z.of_nat (length (lru c)) <= Z.max 0 (maxSize c).

Lemma elem_of_remove_key k key l : k ∈ remove_key key l <-> k <> key /\ k ∈ l.
Proof. unfold remove_key. by rewrite list_elem_of_filter. Qed.

Lemma length_remove_key key l : (length (remove_key key l) <= length l)%nat.
Proof. unfold remove_key. apply length_filter. Qed.

Lemma inv_removeEntry key c : inv c -> inv (removeEntry key c).
Proof.
  intros (H1 & H2 & H3). split_and!; cbn.
  - by apply NoDup_filter.
  - intros k. rewrite elem_of_remove_key, H2. destruct (decide (k = key)) as [->|].
    + rewrite lookup_delete_eq. split; [by intros [? _]|]. by intros [? ?].
    + rewrite lookup_delete_ne by done. tauto.
  - pose proof (length_remove_key key (lru c)). lia.
Qed.

Lemma length_move_to_front key l : NoDup l -> key ∈ l -> length (move_to_front key l) = length l.
Proof.
  intros Hnd Hin. unfold move_to_front, remove_key. cbn [length].
  induction Hnd as [|x l Hx Hnd IH]; [by apply not_elem_of_nil in Hin|].
  destruct (decide (x = key)) as [->|Hne].
  - rewrite filter_cons_False by tauto. cbn [length]. f_equal.
    clear -Hx. induction l as [|y l IH]; [done|]. apply not_elem_of_cons in Hx as [Hy Hx].
    rewrite filter_cons_True by congruence. cbn. by rewrite IH.
  - rewrite filter_cons_True by done. cbn [length]. f_equal. apply IH.
    apply elem_of_cons in Hin as [->|?]; done.
Qed.

Lemma inv_front key entry c h m : inv c -> is_Some (items c !! key) ->
  inv (mkCache (maxSize c) (<[key := entry]> (items c)) (move_to_front key (lru c)) h m
         (evictions c)).
Proof.
  intros (H1 & H2 & H3) Hk. split_and!; cbn.
  - constructor; [rewrite elem_of_remove_key; tauto | by apply NoDup_filter].
  - intros k. unfold move_to_front. rewrite elem_of_cons, elem_of_remove_key, H2.
    destruct (decide (k = key)) as [->|].
    + rewrite lookup_insert_eq. split; [by eexists|]. by left.
    + rewrite lookup_insert_ne by done. naive_solver.
  - pose proof (length_move_to_front key (lru c) H1 ltac:(by apply H2)) as Hl.
    unfold move_to_front in Hl. cbn [length] in Hl |- *. lia.
Qed.

Lemma abs_remove_key (c : Cache) (key : bytes) (m : gmap bytes CacheEntry) :
  (forall k, k <> key -> m !! k = items c !! k) ->
  omap (fun k => (fun e => (k, e)) <$> m !! k) (remove_key key (lru c)) = without key (abs c).
Proof.
  intros Hm. unfold abs, without, remove_key. induction (lru c) as [|x l IH]; [done|].
  cbn [omap list_omap]. destruct (decide (x = key)) as [->|Hne].
  - rewrite filter_cons_False by tauto. rewrite IH.
    destruct (items c !! key); [|done]. cbn [fmap option_fmap option_map].
    by rewrite filter_cons_False by (cbn; tauto).
  - rewrite filter_cons_True by done. cbn [omap list_omap]. rewrite Hm, IH by done.
    destruct (items c !! x); [|done]. cbn [fmap option_fmap option_map].
    by rewrite filter_cons_True by done.
Qed.

Lemma abs_removeEntry key c : abs (removeEntry key c) = without key (abs c).
Proof. apply abs_remove_key. intros k Hk. by apply lookup_delete_ne. Qed.

Lemma abs_front key entry c h m : abs (mkCache (maxSize c) (<[key := entry]> (items c))
    (move_to_front key (lru c)) h m (evictions c)) = (key, entry) :: without key (abs c).
Proof.
  unfold abs at 1. cbn [items lru]. unfold move_to_front. cbn [omap list_omap].
  rewrite lookup_insert_eq. cbn. f_equal. apply abs_remove_key.
  intros k Hk. by apply lookup_insert_ne.
Qed.

Lemma length_abs c : inv c -> length (abs c) = length (lru c).
Proof.
  intros (_ & H2 & _). unfold abs.
  assert (Hall : forall k, k ∈ lru c -> is_Some (items c !! k)) by (intros; by apply H2).
  clear H2.
  induction (lru c) as [|x l IH]; [done|]. cbn [omap list_omap].
  destruct (Hall x ltac:(by left)) as [e ->]. cbn. f_equal. apply IH.
  intros k Hk. apply Hall. by right.
Qed.

Lemma without_fresh key c : items c !! key = None -> without key (abs c) = abs c.
Proof.
  intros Hk. unfold abs, without. induction (lru c) as [|x l IH]; [done|].
  cbn [omap list_omap]. destruct (items c !! x) eqn:E; cbn [fmap option_fmap option_map]; [|done].
  rewrite filter_cons_True by (cbn; congruence). by rewrite IH.
Qed.

Lemma elem_of_abs k e c : inv c -> (k, e) ∈ abs c <-> items c !! k = Some e.
Proof.
  intros (_ & H2 & _). unfold abs. rewrite list_elem_of_omap. split.
  - intros (x & _ & Hx). destruct (items c !! x) eqn:E; [|done]. cbn in Hx. congruence.
  - intros Hk. exists k. rewrite Hk. split; [|done]. apply H2. by eexists.
Qed.

(** * Eviction *)

Lemma remove_last k l : NoDup (l ++ [k]) -> remove_key k (l ++ [k]) = l.
Proof.
  intros (Hnd & Hk & _)%NoDup_app. unfold remove_key. rewrite filter_app.
  rewrite filter_cons_False by tauto. rewrite app_nil_r. clear Hnd.
  induction l as [|x l IH]; [done|]. rewrite filter_cons_True.
  - f_equal. apply IH. intros y Hy. apply Hk. by right.
  - intros ->. apply (Hk k); by left.
Qed.

Lemma evictOldest_spec c l k : inv c -> lru c = l ++ [k] ->
  inv (evictOldest c) /\ maxSize (evictOldest c) = maxSize c /\ lru (evictOldest c) = l /\
  abs (evictOldest c) = take (length l) (abs c) /\
  forall x, items c !! x = None -> items (evictOldest c) !! x = None.
Proof.
  intros Hi Hl. pose proof Hi as (H1 & H2 & H3). pose proof H1 as Hnd. rewrite Hl in Hnd.
  unfold evictOldest. rewrite Hl, last_snoc.
  assert (Hlru : lru (removeEntry k c) = l) by (cbn; by rewrite Hl, remove_last).
  pose proof (inv_removeEntry k c Hi) as Hi'.
  split_and!; [exact Hi' | done | exact Hlru | |].
  - change (abs (removeEntry k c) = take (length l) (abs c)).
    assert (exists e, abs c = abs (removeEntry k c) ++ [(k, e)]) as [e He].
    { assert (is_Some (items c !! k)) as [e He]
        by (apply H2; rewrite Hl; apply elem_of_app; right; by left).
      exists e. unfold abs. rewrite Hlru, Hl, omap_app. cbn [omap list_omap]. rewrite He. cbn. f_equal.
      apply NoDup_app in Hnd as (_ & Hk & _). clear -Hk.
      induction l as [|x l IH]; [done|]. cbn [omap list_omap].
      rewrite lookup_delete_ne by (intros <-; apply (Hk k); by left).
      rewrite IH; [done|]. intros y Hy. apply Hk. by right. }
    rewrite He, <- Hlru, <- (length_abs _ Hi'). by rewrite take_app_length.
  - intros x Hx. cbn. destruct (decide (x = k)) as [->|].
    + apply lookup_delete_eq.
    + by rewrite lookup_delete_ne.
Qed.

(** At most one eviction makes room, so two rounds of the loop are enough. *)
Lemma evict_loop_spec fuel c : inv c -> 0 < maxSize c -> (2 <= fuel)%nat ->
  exists c', evict_loop fuel c = Some c' /\ inv c' /\ maxSize c' = maxSize c /\
    Z.of_nat (length (lru c')) < maxSize c' /\
    abs c' = take (Z.to_nat (maxSize c - 1)) (abs c) /\
    forall x, items c !! x = None -> items c' !! x = None.
Proof.
  intros Hi Hm Hf. pose proof Hi as (_ & _ & H3). destruct fuel as [|[|fuel]]; [lia..|].
  cbn [evict_loop]. destruct (Z.leb_spec (maxSize c) (Z.of_nat (length (lru c)))).
  - assert (exists l k, lru c = l ++ [k]) as (l & k & Hl).
    { destruct (lru c) as [|x l] using rev_ind; [cbn in *; lia | eauto]. }
    destruct (evictOldest_spec c l k Hi Hl) as (Hi' & Hmax & Hlru & Habs & Hn).
    rewrite Hl, length_app in H3, H. cbn in H3, H.
    rewrite Hmax, Hlru. destruct (Z.leb_spec (maxSize c) (Z.of_nat (length l))); [lia|].
    eexists. split_and!; [done|done|done|rewrite Hmax, Hlru; lia| |done].
    rewrite Habs. f_equal. lia.
  - exists c. split_and!; try done. rewrite take_ge; [done|]. rewrite length_abs by done. lia.
Qed.

Lemma take_map_front key e c : inv c -> is_Some (items c !! key) -> 0 < maxSize c ->
  (key, e) :: without key (abs c)
  = take (Z.to_nat (maxSize c)) ((key, e) :: without key (abs c)).
Proof.
  intros Hi Hk Hm. rewrite take_ge; [done|].
  pose proof (length_abs _ (inv_front key e c (hits c) (misses c) Hi Hk)) as Hl.
  rewrite abs_front in Hl. rewrite Hl.
  destruct Hi as (H1 & H2 & H3). cbn [lru]. rewrite length_move_to_front; [lia|done|by apply H2].
Qed.

Lemma Set_spec fuel now key value ttl c : inv c -> 0 < maxSize c -> (2 <= fuel)%nat ->
  exists c', Set_ fuel now key value ttl c = Some c' /\ inv c' /\ maxSize c' = maxSize c /\
    abs c' = take (Z.to_nat (maxSize c))
               ((key, mkEntry value (now + ttl)) :: without key (abs c)).
Proof.
  intros Hi Hm Hf. unfold Set_. destruct (items c !! key) as [e0|] eqn:Hk.
  - eexists. split; [done|]. split; [apply inv_front; [done | by eexists]|]. split; [done|].
    rewrite abs_front. apply take_map_front; [done | by eexists | done].
  - destruct (evict_loop_spec fuel c Hi Hm Hf) as (c' & He & Hi' & Hmax & Hlen & Habs & Hn).
    rewrite He. cbn. eexists. split; [done|]. pose proof Hi' as (H1 & H2 & H3).
    specialize (Hn key Hk).
    assert (Hfresh : key ∉ lru c') by (rewrite H2, Hn; by intros [? ?]).
    split; [|split; [done|]].
    + split_and!; cbn.
      * by constructor.
      * intros k. rewrite elem_of_cons, H2. destruct (decide (k = key)) as [->|].
        -- rewrite lookup_insert_eq. split; [by eexists | by left].
        -- rewrite lookup_insert_ne by done. tauto.
      * lia.
    + unfold abs at 1. cbn [lru items omap list_omap]. rewrite lookup_insert_eq. cbn.
      replace (Z.to_nat (maxSize c)) with (S (Z.to_nat (maxSize c - 1))) by lia.
      cbn [take]. f_equal. rewrite without_fresh by done. rewrite <- Habs.
      unfold abs. clear -Hfresh. induction (lru c') as [|x l IH]; [done|].
      apply not_elem_of_cons in Hfresh as [Hx Hl]. cbn [omap list_omap].
      rewrite lookup_insert_ne by done. by rewrite IH.
Qed.

Lemma Get_spec now key c : inv c ->
  let '(r, c') := Get now key c in
  inv c' /\ maxSize c' = maxSize c /\
  match items c !! key with
  | Some e =>
      if IsExpired now e then r = None /\ abs c' = without key (abs c)
      else r = Some (Value e) /\ abs c' = (key, e) :: without key (abs c)
  | None => r = None /\ abs c' = abs c
  end.
Proof.
  intros Hi. unfold Get. destruct (items c !! key) as [e|] eqn:Hk.
  - destruct (IsExpired now e).
    + split_and!; [by apply (inv_removeEntry key) | done | done | apply abs_removeEntry].
    + assert (Hi' := inv_front key e c (hits c + 1) (misses c) Hi ltac:(by eexists)).
      assert (Ha := abs_front key e c (hits c + 1) (misses c)).
      rewrite insert_id in Hi', Ha by done. split_and!; done.
  - split_and!; done.
Qed.

Lemma filter_true {A} (P : A -> Prop) `{forall x, Decision (P x)} (l : list A) :
  (forall x, P x) -> filter P l = l.
Proof.
  intros HP. induction l as [|x l IH]; [done|]. by rewrite filter_cons_True, IH.
Qed.

Lemma filter_without (P : bytes * CacheEntry -> Prop) `{forall x, Decision (P x)} key l :
  filter P (without key l) = filter (fun ke => P ke /\ fst ke <> key) l.
Proof. unfold without. apply list_filter_filter. Qed.

Lemma cleanup_fold now L c : inv c ->
  let c' := fold_left (fun c ke => if IsExpired now (snd ke) then removeEntry (fst ke) c else c)
              L c in
  inv c' /\ maxSize c' = maxSize c /\
  abs c' = filter (fun ke : bytes * CacheEntry =>
             Forall (fun ke' => IsExpired now (snd ke') = true -> fst ke' <> fst ke) L) (abs c).
Proof.
  revert c. induction L as [|[k e] L IH]; intros c Hi; cbn [fold_left fst snd].
  { split_and!; [done|done|]. symmetry. by apply filter_true. }
  destruct (IsExpired now e) eqn:He.
  - destruct (IH _ (inv_removeEntry k c Hi)) as (H1 & H2 & H3). split_and!; [done|done|].
    rewrite H3, abs_removeEntry, filter_without. apply list_filter_iff.
    intros [k1 e1]. rewrite Forall_cons. cbn. split; intros [G1 G2].
    + split; [|done]. intros _ ->. by apply G2.
    + split; [done|]. intros ->. by apply G1.
  - destruct (IH c Hi) as (H1 & H2 & H3). split_and!; [done|done|]. rewrite H3.
    apply list_filter_iff. intros [k1 e1]. rewrite Forall_cons. cbn. rewrite He.
    split; [|tauto]. intros G. split; [discriminate | done].
Qed.

(** One operation of the cache by any client, or a round of the cleanup goroutine. *)
Inductive step : Cache -> Cache -> Prop :=
| step_get now key c : step c (snd (Get now key c))
| step_set fuel now key value ttl c c' :
    Set_ fuel now key value ttl c = Some c' -> step c c'
| step_delete key c : step c (Delete key c)
| step_clear c : step c (Clear c)
| step_cleanup now c : step c (cleanup now c).

Lemma Set_fuel fuel now key value ttl c c' : inv c -> 0 < maxSize c ->
  Set_ fuel now key value ttl c = Some c' ->
  exists c'', Set_ (2 + fuel) now key value ttl c = Some c'' /\ c'' = c'.
Proof.
  intros Hi Hm H. assert (Hmono : forall f1 c1 c2, evict_loop f1 c1 = Some c2 ->
    forall f2, evict_loop (f2 + f1) c1 = Some c2).
  { induction f1 as [|f1 IH]; intros c1 c2 Hc f2; [done|]. rewrite Nat.add_succ_r.
    cbn [evict_loop] in *. destruct (_ <=? _); [by apply IH | done]. }
  unfold Set_ in *. destruct (items c !! key); [eauto|].
  destruct (evict_loop fuel c) as [c1|] eqn:E; [|done].
  apply Hmono with (f2 := 2%nat) in E. change (2 + fuel)%nat with (2 + fuel)%nat in *.
  rewrite E. eauto.
Qed.

Lemma step_inv c c' : inv c -> 0 < maxSize c -> step c c' ->
  inv c' /\ maxSize c' = maxSize c.
Proof.
  intros Hi Hm Hs. destruct Hs as [now key c|fuel now key value ttl c c' H|key c|c|now c].
  - pose proof (Get_spec now key c Hi) as G. destruct (Get now key c) as [r c'].
    by destruct G as (? & ? & _).
  - destruct (Set_fuel _ _ _ _ _ _ _ Hi Hm H) as (c1 & H1 & ->).
    destruct (Set_spec (2 + fuel) now key value ttl c Hi Hm ltac:(lia)) as (c2 & H2 & Hi2 & Hm2 & _).
    assert (c2 = c') as <- by congruence. done.
  - unfold Delete. destruct (items c !! key); [|done]. by split; [apply inv_removeEntry|].
  - split; [|done]. split_and!; cbn; [constructor | | lia].
    intros k. rewrite lookup_empty. split; [by intros ?%not_elem_of_nil | by intros [? ?]].
  - destruct (cleanup_fold now (map_to_list (items c)) c Hi) as (H1 & H2 & _). done.
Qed.

(** The cache never exceeds its capacity. In every state reached from a new cache with
    a positive capacity by any sequence of lookups, stores, deletions, clears and
    cleanup rounds, the recency list and the map hold the same keys, each once, and at
    most [maxSize] of them. *)
Theorem cache_bounded max c (Hmax : 0 < max) (Hr : rtc step (NewCache max) c) :
  inv c /\ maxSize c = max /\ Size c <= max.
Proof.
  assert (inv c /\ maxSize c = max) as [Hi Hm].
  { revert Hr. apply (rtc_ind_r (fun c => inv c /\ maxSize c = max) (NewCache max)).
    - split; [|done]. split_and!; cbn; [constructor | | lia].
      intros k. rewrite lookup_empty. split; [by intros ?%not_elem_of_nil | by intros [? ?]].
    - intros c1 c2 _ Hs [Hi Hm]. rewrite <- Hm in *. by apply step_inv with (c := c1). }
  split_and!; [done|done|]. destruct Hi as (H1 & H2 & H3). unfold Size.
  assert (base.size (items c) = length (lru c)) as ->; [|lia].
  assert (dom (items c) = (list_to_set (lru c) : gset bytes)) as Hd.
  { apply set_eq. intros k. rewrite elem_of_dom, elem_of_list_to_set. by rewrite H2. }
  rewrite <- size_dom, Hd. by apply size_list_to_set.
Qed.

(** C19: the cache implements the abstract one. With a positive capacity: [Set_] ends and
    leaves the new entry in front of the others, cut at the capacity, so what is evicted
    is the least recently used entry and nothing else; [Get] returns exactly an
    unexpired stored value and moves it to the front, and removes an expired entry;
    [Delete] removes one key and [cleanup] exactly the expired entries. *)
Theorem cache_refines fuel now key value ttl c (Hi : inv c) (Hm : 0 < maxSize c)
  (Hf : (2 <= fuel)%nat) :
  (exists c', Set_ fuel now key value ttl c = Some c' /\
     abs c' = take (Z.to_nat (maxSize c))
                ((key, mkEntry value (now + ttl)) :: without key (abs c))) /\
  (forall e, (key, e) ∈ abs c -> now <= ExpiresAt e ->
     fst (Get now key c) = Some (Value e) /\
     abs (snd (Get now key c)) = (key, e) :: without key (abs c)) /\
  (forall e, (key, e) ∈ abs c -> ExpiresAt e < now ->
     fst (Get now key c) = None /\ abs (snd (Get now key c)) = without key (abs c)) /\
  (key ∉ (abs c).*1 -> fst (Get now key c) = None /\ abs (snd (Get now key c)) = abs c) /\
  abs (Delete key c) = without key (abs c) /\
  abs (cleanup now c) = filter (fun ke => IsExpired now (snd ke) = false) (abs c).
Proof.
  pose proof (Get_spec now key c Hi) as G.
  split; [|split; [|split; [|split; [|split]]]].
  - destruct (Set_spec fuel now key value ttl c Hi Hm Hf) as (c' & H1 & _ & _ & H2). eauto.
  - intros e Hin He. apply elem_of_abs in Hin; [|done]. rewrite Hin in G.
    destruct (Get now key c) as [r c']. destruct G as (_ & _ & G). unfold IsExpired in G.
    destruct (Z.ltb_spec (ExpiresAt e) now); [lia|]. done.
  - intros e Hin He. apply elem_of_abs in Hin; [|done]. rewrite Hin in G.
    destruct (Get now key c) as [r c']. destruct G as (_ & _ & G). unfold IsExpired in G.
    destruct (Z.ltb_spec (ExpiresAt e) now); [done|lia].
  - intros Hn. destruct (items c !! key) as [e|] eqn:Hk.
    + destruct Hn. apply list_elem_of_fmap. exists (key, e). split; [done|]. by apply elem_of_abs.
    + destruct (Get now key c) as [r c']. by destruct G as (_ & _ & G).
  - unfold Delete. destruct (items c !! key) eqn:Hk; [apply abs_removeEntry|].
    by rewrite without_fresh.
  - unfold cleanup. destruct (cleanup_fold now (map_to_list (items c)) c Hi) as (_ & _ & ->).
    assert (Hall : forall k e, (k, e) ∈ abs c ->
      (Forall (fun ke' => IsExpired now (snd ke') = true -> fst ke' <> k) (map_to_list (items c))
       <-> IsExpired now e = false)).
    { intros k e Hin. apply elem_of_abs in Hin; [|done]. rewrite Forall_forall. split.
      - intros H. destruct (IsExpired now e) eqn:He; [|done].
        by specialize (H (k, e) ltac:(by apply elem_of_map_to_list) He).
      - intros He [k' e'] Hk' He' Heq. cbn in *. subst k'.
        apply elem_of_map_to_list in Hk'. congruence. }
    clear G. induction (abs c) as [|[k e] l IH]; [done|].
    assert (IHl := IH (fun k e Hin => Hall k e ltac:(by right))).
    specialize (Hall k e ltac:(by left)).
    destruct (IsExpired now e) eqn:He.
    + rewrite !filter_cons_False; [done | cbn; congruence | cbn; rewrite Hall; congruence].
    + rewrite !filter_cons_True; [by f_equal | done | cbn; by apply Hall].
Qed.

(** A capacity of zero or less hangs the store: the eviction loop of [Set] waits for
    the list to be shorter than the capacity, and evicting from an empty list does
    nothing, so storing a new key never ends, with the lock held. *)
Theorem cache_set_diverges fuel now key value ttl max (Hmax : max <= 0) :
  Set_ fuel now key value ttl (NewCache max) = None.
Proof.
  unfold Set_, NewCache. cbn [items]. rewrite lookup_empty.
  assert (H : evict_loop fuel (NewCache max) = None).
  { induction fuel as [|fuel IH]; [done|]. cbn [evict_loop maxSize lru NewCache length].
    destruct (Z.leb_spec max (Z.of_nat 0)); [exact IH | lia]. }
  unfold NewCache in H. by rewrite H.
Qed.

End RpcCache.
Arguments CacheEntry : clear implicits.
Arguments Cache : clear implicits.

(** * The theorems at a concrete cache *)

Definition filled : Cache Z :=
  mkCache 2 (<[lit "b" := mkEntry 2 50]> {[lit "a" := mkEntry 1 90]}) [lit "b"; lit "a"] 0 0 0.

Lemma filled_reached : rtc step (NewCache 2) filled.
Proof.
  eapply rtc_l; [apply (step_set 1 0 (lit "a") 1 90); reflexivity|].
  eapply rtc_l; [apply (step_set 1 10 (lit "b") 2 40); reflexivity|]. apply rtc_refl.
Qed.

Lemma cache_bounded_witness : inv filled /\ maxSize filled = 2 /\ Size filled <= 2.
Proof. apply cache_bounded; [lia | exact filled_reached]. Defined.

Lemma filled_inv : inv filled.
Proof.
  split_and!.
  - refine (bool_decide_unpack (NoDup _) _). vm_compute. exact I.
  - intros k. unfold filled. cbn [lru items]. rewrite !elem_of_cons, elem_of_nil.
    rewrite lookup_insert_is_Some, lookup_singleton_is_Some.
    destruct (decide (k = lit "b")) as [->|]; naive_solver.
  - reflexivity.
Qed.

Lemma cache_refines_witness : exists c',
  Set_ 2 60 (lit "c") 3 10 filled = Some c' /\
  abs c' = [(lit "c", mkEntry 3 70); (lit "b", mkEntry 2 50)] /\
  fst (Get 70 (lit "a") filled) = Some 1 /\ fst (Get 70 (lit "b") filled) = None.
Proof.
  destruct (cache_refines 2 60 (lit "c") 3 10 filled filled_inv ltac:(reflexivity) ltac:(lia))
    as ((c' & H & Ha) & _).
  destruct (cache_refines 2 70 (lit "a") 3 10 filled filled_inv ltac:(reflexivity) ltac:(lia))
    as (_ & Hg & _).
  destruct (cache_refines 2 70 (lit "b") 3 10 filled filled_inv ltac:(reflexivity) ltac:(lia))
    as (_ & _ & Hx & _).
  exists c'. split; [exact H|]. split; [rewrite Ha; reflexivity|]. split.
  - apply (Hg (mkEntry 1 90)); [right; left | cbn; lia].
  - apply (Hx (mkEntry 2 50)); [left | cbn; lia].
Defined.

Lemma cache_set_diverges_witness : Set_ 1000 0 (lit "k") 1 10 (NewCache 0) = None.
Proof. apply cache_set_diverges. lia. Defined.
