(* ===== verification/Fetcher.v ===== *)
(** Fetcher: indexing one block after the other.

    Models pkg/fetch/fetcher.go and fetcher_processing.go: fetching a block with
    retries, storing it with everything derived from it, a range of heights, and the
    endless loop [Run] with the height it starts from. What the fetcher calls, the
    node, the storage, the event bus and the processing stages of the other files of
    pkg/fetch, is the interface [FetcherEnv] over a state [W]; [FetcherSpec] says what
    the theorems need of it. The concurrent fetch of a range is in Pool.v. *)
From stdpp Require Import sorting.
From S2P Require Import Prelude Eth KV Chain.

(** * What the fetcher calls *)

Inductive event {C : ChainTypes} (Log : Type) : Type :=
| BlockEvent (block : Block)
| TransactionEvent (tx : Tx) (blockNumber : Z) (blockHash : Hash) (index : Z)
    (receipt : option Receipt)
| LogEvent (log : Log).
Arguments BlockEvent {C Log}.
Arguments TransactionEvent {C Log}.
Arguments LogEvent {C Log}.

(** Optional parts (an interface the storage or the client may not implement, an event
    bus or a parser that may be nil) are options. Functions without an error change
    the state only. *)
Class FetcherEnv {C : ChainTypes} (W : Type) := {
  Log : Type;
  FeeDelegationMeta : Type;
  receipt_Logs : Receipt -> list Log;
  (* the context and the clock *)
  ctx_Done : W -> bool * W;
  time_Sleep : Z -> W -> W;
  (* the client of the node *)
  client_GetLatestBlockNumber : ST W Z;
  client_GetBlockByNumber : Z -> ST W Block;
  client_GetBlockReceipts : Z -> ST W (list Receipt);
  client_GetBlockWithFeeDelegationMeta : option (Z -> ST W (list FeeDelegationMeta));
  (* the storage *)
  storage_GetLatestHeight : ST W Z;
  storage_SetLatestHeight : Z -> ST W unit;
  storage_SetBlock : option Block -> ST W unit;
  storage_SetReceipt : option Receipt -> ST W unit;
  storage_IndexLogs : option (list Log -> ST W unit);
  storage_SetFeeDelegationTxMeta : option (FeeDelegationMeta -> ST W unit);
  (* the stages of the other files *)
  processWBFTMetadata : Block -> ST W unit;
  processAddressIndexing : Block -> list Receipt -> ST W unit;
  processBalanceTracking : Block -> list Receipt -> ST W unit;
  initializeGenesisBalances : Block -> ST W unit;
  initializeGenesisTokenMetadata : ST W unit;
  ShouldProcessInBatches : Block -> list Receipt -> bool;
  ProcessReceiptsParallel : Block -> list Receipt -> ST W unit;
  systemContractEventParser : option (list Log -> ST W unit);
  eventBus_Publish : option (event Log -> W -> bool * W);
  detectSystemEvents : Block -> Log -> W -> W;
  blockProcessors : list (Block -> list Receipt -> ST W unit);
}.

(** The fields of [Config] the modelled code reads. [Validate] refuses a number of
    retries that is not positive, so it is a natural number. *)
Record Config := mkConfig {
  StartHeight : Z;
  BatchSize : Z;
  MaxRetries : nat;
  RetryDelay : Z;
  NumWorkers : Z;
}.

Definition ErrCanceled : error := Errorf "context canceled".

Section Fetcher.
Context {C : ChainTypes} {W : Type} {F : FetcherEnv W}.
Context (config : Config).

Definition ctxDone : ST W bool := fun w => let '(b, w') := ctx_Done w in (Ok b, w').
Definition Sleep (d : Z) : ST W unit := modify (time_Sleep d).

(** A call whose error is only logged. *)
Definition logged (m : ST W unit) : ST W unit := tryST m (fun _ => mret tt).

Definition publish (e : event Log) : ST W unit :=
  match eventBus_Publish with
  | None => mret tt
  | Some p => fun w => (Ok tt, snd (p e w))
  end.

(** [RetryDelay * time.Duration(1<<uint(attempt-1))] in 64-bit integers. *)
Definition backoffDelay (attempt : Z) : Z :=
  i64 (RetryDelay config * i64 (Z.shiftl 1 (attempt - 1))).

(** * Fetching with retries (fetcher_processing.go) *)

(** One height as [fetchBlockJob] reports it: the height, and the error or the block
    with its receipts. *)
Record jobResult := mkJob { job_height : Z; job_result : res (Block * list Receipt) }.

(** The retry loop at [attempt], with [left] retries after it. *)
Fixpoint fetchBlockJob_loop (left : nat) (attempt height : Z) : ST W jobResult :=
  let retry e :=
    match left with
    | O => mret (mkJob height (Err e))
    | S left' => fetchBlockJob_loop left' (attempt + 1) height
    end in
  _ ← (if 0 <? attempt then Sleep (backoffDelay attempt) else mret tt);
  cancelled ← ctxDone;
  if cancelled : bool then mret (mkJob height (Err ErrCanceled))
  else tryST (client_GetBlockByNumber height) (fun rb =>
    match rb with
    | Err e => retry (Wrap "failed to fetch block after attempts" e)
    | Ok block => tryST (client_GetBlockReceipts height) (fun rr =>
        match rr with
        | Err e => retry (Wrap "failed to fetch receipts after attempts" e)
        | Ok receipts => mret (mkJob height (Ok (block, receipts)))
        end)
    end).

Definition fetchBlockJob (height : Z) : ST W jobResult :=
  fetchBlockJob_loop (MaxRetries config) 0 height.

Fixpoint fetchWithRetry_loop (left : nat) (attempt height : Z) (hadError : bool)
  : ST W (Block * list Receipt * bool) :=
  let retry e :=
    match left with
    | O => fail e
    | S left' => fetchWithRetry_loop left' (attempt + 1) height true
    end in
  _ ← (if 0 <? attempt then Sleep (backoffDelay attempt) else mret tt);
  tryST (client_GetBlockByNumber height) (fun rb =>
    match rb with
    | Err e => retry (Wrap "failed to fetch block after attempts" e)
    | Ok block => tryST (client_GetBlockReceipts height) (fun rr =>
        match rr with
        | Err e => retry (Wrap "failed to fetch receipts for block after attempts" e)
        | Ok receipts => mret (block, receipts, hadError)
        end)
    end).

Definition fetchBlockAndReceiptsWithRetry (height : Z) : ST W (Block * list Receipt * bool) :=
  fetchWithRetry_loop (MaxRetries config) 0 height false.

(** * The stages of one block *)

Definition processFeeDelegationMetadata (height : Z) : ST W unit :=
  match storage_SetFeeDelegationTxMeta, client_GetBlockWithFeeDelegationMeta with
  | Some set, Some get =>
      tryST (get height) (fun r =>
        match r with
        | Err _ => mret tt
        | Ok metas => forST (fun meta => logged (set meta)) metas
        end)
  | _, _ => mret tt
  end.

Definition processBlockMetadata (block : Block) (receipts : list Receipt) (height : Z)
  : ST W unit :=
  _ ← wrapST "failed to process WBFT metadata for block" (processWBFTMetadata block);
  _ ← wrapST "failed to process address indexing for block"
        (processAddressIndexing block receipts);
  _ ← wrapST "failed to process balance tracking for block"
        (processBalanceTracking block receipts);
  if height =? 0 then
    _ ← logged (initializeGenesisBalances block);
    logged initializeGenesisTokenMetadata
  else mret tt.

Definition indexReceiptLogs (receipt : Receipt) : ST W unit :=
  match storage_IndexLogs with
  | Some index =>
      if (0 <? length (receipt_Logs receipt))%nat then logged (index (receipt_Logs receipt))
      else mret tt
  | None => mret tt
  end.

Definition parseReceiptLogs (receipt : Receipt) : ST W unit :=
  match systemContractEventParser with
  | Some parse =>
      if (0 <? length (receipt_Logs receipt))%nat then logged (parse (receipt_Logs receipt))
      else mret tt
  | None => mret tt
  end.

Definition storeReceipt (receipt : Receipt) : ST W unit :=
  wrapST "failed to store receipt for tx" (storage_SetReceipt (Some receipt)).

Definition storeAndProcessReceipts (block : Block) (receipts : list Receipt) : ST W unit :=
  if ShouldProcessInBatches block receipts then
    _ ← wrapST "failed to process large block receipts" (ProcessReceiptsParallel block receipts);
    forST parseReceiptLogs receipts
  else
    forST (fun receipt =>
             _ ← storeReceipt receipt;
             _ ← indexReceiptLogs receipt;
             parseReceiptLogs receipt) receipts.

Definition buildReceiptMap (receipts : list Receipt) : gmap Hash Receipt :=
  fold_left (fun m r => <[TxHash r := r]> m) receipts ∅.

(** One event per transaction, with its index and its receipt if there is one. *)
Fixpoint publishTxEvents (block : Block) (receiptMap : gmap Hash Receipt) (i : Z)
  (txs : list Tx) : ST W unit :=
  match txs with
  | [] => mret tt
  | tx :: txs' =>
      _ ← publish (TransactionEvent tx (block_Number block) (block_Hash block) i
                     (receiptMap !! tx_Hash tx));
      publishTxEvents block receiptMap (i + 1) txs'
  end.

Definition publishBlockEvents (block : Block) (receipts : list Receipt) : ST W unit :=
  match eventBus_Publish with
  | None => mret tt
  | Some _ =>
      _ ← publishTxEvents block (buildReceiptMap receipts) 0 (block_Transactions block);
      forST (fun receipt =>
        forST (fun log =>
          _ ← publish (LogEvent log); modify (detectSystemEvents block log))
          (receipt_Logs receipt)) receipts
  end.

Definition processBlockWithProcessors (block : Block) (receipts : list Receipt) : ST W unit :=
  forST (fun p => logged (p block receipts)) blockProcessors.

(** * One block, a range, the loop (fetcher.go) *)

Definition FetchBlock (height : Z) : ST W unit :=
  '(block, receipts, _) ← fetchBlockAndReceiptsWithRetry height;
  _ ← wrapST "failed to store block" (storage_SetBlock (Some block));
  _ ← processBlockMetadata block receipts height;
  _ ← logged (processFeeDelegationMetadata height);
  _ ← publish (BlockEvent block);
  _ ← storeAndProcessReceipts block receipts;
  _ ← publishBlockEvents block receipts;
  _ ← processBlockWithProcessors block receipts;
  wrapST "failed to update latest height" (storage_SetLatestHeight height).

(** [None] when [fuel] runs out before the loop ends. *)
Fixpoint FetchRange_loop (fuel : nat) (height endHeight : Z) (w : W) : option (res unit * W) :=
  match fuel with
  | O => None
  | S fuel' =>
      if endHeight <? height then Some (Ok tt, w)
      else
        let '(cancelled, w1) := ctx_Done w in
        if cancelled : bool then Some (Err (Wrap "context cancelled at block" ErrCanceled), w1)
        else match wrapST "failed to fetch block" (FetchBlock height) w1 with
             | (Err e, w2) => Some (Err e, w2)
             | (Ok _, w2) => FetchRange_loop fuel' (u64 (height + 1)) endHeight w2
             end
  end.

Definition FetchRange (fuel : nat) (start endHeight : Z) (w : W) : option (res unit * W) :=
  FetchRange_loop fuel start endHeight w.

Definition GetNextHeight : ST W Z :=
  tryST storage_GetLatestHeight (fun r =>
    match r with
    | Err _ => mret (StartHeight config)
    | Ok latestHeight =>
        if latestHeight <? StartHeight config then mret (StartHeight config)
        else mret (u64 (latestHeight + 1))
    end).

(** One round of the loop of [Run]: it stops when the context is cancelled, and waits
    after an error or when it has caught up with the chain. *)
Inductive round := Stop (w : W) | Next (nextHeight : Z) (w : W).

Definition batchEnd (nextHeight latestChainBlock : Z) : Z :=
  let e := u64 (u64 (nextHeight + BatchSize config) - 1) in
  if latestChainBlock <? e then latestChainBlock else e.

Definition Run_round (fuel : nat) (nextHeight : Z) (w : W) : option round :=
  let '(cancelled, w1) := ctx_Done w in
  if cancelled : bool then Some (Stop w1)
  else match client_GetLatestBlockNumber w1 with
       | (Err _, w2) => Some (Next nextHeight (time_Sleep (RetryDelay config) w2))
       | (Ok latestChainBlock, w2) =>
           if latestChainBlock <? nextHeight then
             Some (Next nextHeight (time_Sleep (RetryDelay config) w2))
           else
             let e := batchEnd nextHeight latestChainBlock in
             match FetchRange fuel nextHeight e w2 with
             | None => None
             | Some (Err _, w3) => Some (Next nextHeight (time_Sleep (RetryDelay config) w3))
             | Some (Ok _, w3) => Some (Next (u64 (e + 1)) w3)
             end
       end.

(** [Run] after [rounds] rounds; each range has [fuel] steps. *)
Fixpoint Run_rounds (rounds fuel : nat) (nextHeight : Z) (w : W) : option round :=
  match rounds with
  | O => Some (Next nextHeight w)
  | S rounds' =>
      match Run_round fuel nextHeight w with
      | Some (Next nextHeight' w') => Run_rounds rounds' fuel nextHeight' w'
      | r => r
      end
  end.

Definition Run (rounds fuel : nat) (w : W) : option round :=
  match GetNextHeight w with
  | (Ok nextHeight, w') => Run_rounds rounds fuel nextHeight w'
  | (Err _, w') => Some (Stop w')
  end.

(** * Retries find the first success *)

(** One attempt, and the state before attempt [k] when all earlier ones failed. *)
Definition attempt (height : Z) : ST W (Block * list Receipt) :=
  block ← client_GetBlockByNumber height;
  receipts ← client_GetBlockReceipts height;
  mret (block, receipts).

Fixpoint before_attempt (height : Z) (k : nat) (w : W) : W :=
  match k with
  | O => w
  | S k' => time_Sleep (backoffDelay (Z.of_nat k)) (snd (attempt height (before_attempt height k' w)))
  end.

Definition failed (height : Z) (w : W) (k : nat) : Prop :=
  is_ok (fst (attempt height (before_attempt height k w))) = false.

(** The loop at attempt [k], after the sleep that precedes it. *)
Lemma fetchWithRetry_loop_step left k height h (w : W) :
  fetchWithRetry_loop left (Z.of_nat k) height h
    (if (k =? 0)%nat then w else snd (attempt height (before_attempt height (k - 1) w))) =
  match attempt height (before_attempt height k w) with
  | (Ok (block, receipts), w') => (Ok (block, receipts, h), w')
  | (Err e, w') =>
      match left with
      | O => (Err (Wrap (if is_ok (fst (client_GetBlockByNumber height (before_attempt height k w)))
                         then "failed to fetch receipts for block after attempts"
                         else "failed to fetch block after attempts") e), w')
      | S left' => fetchWithRetry_loop left' (Z.of_nat k + 1) height true w'
      end
  end.
Proof.
  assert (Hs : forall (B : Type) (m : ST W B),
    (_ ← (if 0 <? Z.of_nat k then Sleep (backoffDelay (Z.of_nat k)) else mret tt); m)
      (if (k =? 0)%nat then w else snd (attempt height (before_attempt height (k - 1) w))) =
    m (before_attempt height k w)).
  { intros B m. destruct k as [|k]; [done|]. cbn [Nat.eqb before_attempt].
    replace (S k - 1)%nat with k by lia. done. }
  destruct left; cbn [fetchWithRetry_loop]; rewrite Hs; unfold attempt, mbind, ST_bind, tryST;
    (destruct (client_GetBlockByNumber height _) as [[b|e] w1]; cbn; [|done]);
    by destruct (client_GetBlockReceipts height w1) as [[rs|e] w2].
Qed.

(** C26: the retry loop of [fetchBlockAndReceiptsWithRetry] returns the first attempt that
    succeeds, with the mark whether an attempt failed before it; when all of the
    [MaxRetries + 1] attempts fail it returns the error of the last one. *)
Theorem retry_first_success height (w : W) :
  (exists k block receipts w', (k <= MaxRetries config)%nat /\
     (forall i, (i < k)%nat -> failed height w i) /\
     attempt height (before_attempt height k w) = (Ok (block, receipts), w') /\
     fetchBlockAndReceiptsWithRetry height w = (Ok (block, receipts, (0 <? k)%nat), w')) \/
  (exists e msg w', (forall i, (i <= MaxRetries config)%nat -> failed height w i) /\
     attempt height (before_attempt height (MaxRetries config) w) = (Err e, w') /\
     fetchBlockAndReceiptsWithRetry height w = (Err (Wrap msg e), w')).
Proof.
  unfold fetchBlockAndReceiptsWithRetry. generalize (MaxRetries config) as n. intros n.
  assert (forall m k, (k + m = n)%nat -> (forall i, (i < k)%nat -> failed height w i) ->
    let r := fetchWithRetry_loop m (Z.of_nat k) height (0 <? k)%nat
      (if (k =? 0)%nat then w else snd (attempt height (before_attempt height (k - 1) w))) in
    (exists k block receipts w', (k <= n)%nat /\ (forall i, (i < k)%nat -> failed height w i) /\
       attempt height (before_attempt height k w) = (Ok (block, receipts), w') /\
       r = (Ok (block, receipts, (0 <? k)%nat), w')) \/
    (exists e msg w', (forall i, (i <= n)%nat -> failed height w i) /\
       attempt height (before_attempt height n w) = (Err e, w') /\ r = (Err (Wrap msg e), w')))
    as Hl; [|by apply (Hl n O); [lia | intros i Hi; lia]].
  induction m as [|m IH]; intros k Hk Hf; cbv zeta; rewrite fetchWithRetry_loop_step;
    destruct (attempt height (before_attempt height k w)) as [[[b rs]|e] w'] eqn:Ha;
    [left; exists k, b, rs, w'; auto with lia | right | left; exists k, b, rs, w'; auto with lia |].
  - replace k with n in * by lia. do 2 eexists; exists w'. split; [|by split].
    intros i Hi. destruct (decide (i = n)) as [->|]; [|apply Hf; lia]. unfold failed. by rewrite Ha.
  - specialize (IH (S k) ltac:(lia)). cbv zeta in IH. cbn [Nat.eqb Nat.ltb Nat.leb] in IH.
    replace (S k - 1)%nat with k in IH by lia. rewrite Ha in IH. cbn [snd] in IH.
    replace (Z.of_nat k + 1) with (Z.of_nat (S k)) by lia. apply IH.
    intros i Hi. destruct (decide (i = k)) as [->|]; [|apply Hf; lia]. unfold failed. by rewrite Ha.
Qed.

End Fetcher.
Arguments jobResult {C}.
Arguments mkJob {C}.

(** * What the theorems need of the environment *)

Create HintDb kept discriminated.

(** The chain the node serves, which does not change, and how much of it the storage
    holds: the latest indexed height, the blocks and the receipts. *)
Class FetcherView {C : ChainTypes} (W : Type) := {
  chain_block : Z -> Block;
  chain_receipts : Z -> list Receipt;
  latest : W -> option Z;
  block_at : W -> Z -> Prop;
  receipt_at : W -> Receipt -> Prop;
}.

(** Nothing stored is lost and the latest height stays. *)
Definition kept_data {C : ChainTypes} {W} {V : FetcherView W} (w w' : W) : Prop :=
  (forall h, block_at w h -> block_at w' h) /\ (forall r, receipt_at w r -> receipt_at w' r).

Definition kept {C : ChainTypes} {W} {V : FetcherView W} (w w' : W) : Prop :=
  latest w' = latest w /\ kept_data w w'.

(** Whatever the outcome, the state after [m] is related to the state before. *)
Definition preserves {W A} (R : W -> W -> Prop) (m : ST W A) : Prop := forall w, R w (snd (m w)).

Definition complete {C : ChainTypes} {W} {V : FetcherView W} (w : W) (h : Z) : Prop :=
  block_at w h /\ forall r, r ∈ chain_receipts h -> receipt_at w r.

(** The node answers from its chain; the storage keeps what it stores; everything else,
    the stages, the events and failed operations, touches none of it. *)
Class FetcherSpec {C : ChainTypes} (W : Type) {F : FetcherEnv W} {V : FetcherView W} : Prop := {
  node_block : forall h w b w', client_GetBlockByNumber h w = (Ok b, w') -> b = chain_block h;
  node_receipts : forall h w rs w', client_GetBlockReceipts h w = (Ok rs, w') ->
    rs = chain_receipts h;
  node_latest : forall w h w', client_GetLatestBlockNumber w = (Ok h, w') -> 0 <= h < 2 ^ 63;
  client_kept : forall h, preserves kept (client_GetBlockByNumber h) /\
    preserves kept (client_GetBlockReceipts h) /\ preserves kept client_GetLatestBlockNumber;
  ctx_kept : forall w d, kept w (snd (ctx_Done w)) /\ kept w (time_Sleep d w);
  fee_kept : (forall f h, client_GetBlockWithFeeDelegationMeta = Some f -> preserves kept (f h)) /\
    (forall f m, storage_SetFeeDelegationTxMeta = Some f -> preserves kept (f m));
  logs_kept : (forall f l, storage_IndexLogs = Some f -> preserves kept (f l)) /\
    (forall f l, systemContractEventParser = Some f -> preserves kept (f l));
  stages_kept : forall b rs, preserves kept (processWBFTMetadata b) /\
    preserves kept (processAddressIndexing b rs) /\ preserves kept (processBalanceTracking b rs) /\
    preserves kept (initializeGenesisBalances b) /\ preserves kept initializeGenesisTokenMetadata;
  events_kept : (forall p e w, eventBus_Publish = Some p -> kept w (snd (p e w))) /\
    (forall b l w, kept w (detectSystemEvents b l w));
  processors_kept : forall p b rs, p ∈ blockProcessors -> preserves kept (p b rs);
  GetLatestHeight_kept : preserves kept storage_GetLatestHeight;
  GetLatestHeight_latest : forall w h w', storage_GetLatestHeight w = (Ok h, w') ->
    latest w = Some h;
  SetBlock_kept : forall h, is_u64 h -> preserves kept (storage_SetBlock (Some (chain_block h)));
  SetBlock_stores : forall h w w', is_u64 h -> storage_SetBlock (Some (chain_block h)) w = (Ok tt, w') ->
    block_at w' h;
  SetReceipt_kept : forall h r, r ∈ chain_receipts h -> preserves kept (storage_SetReceipt (Some r));
  SetReceipt_stores : forall h r w w', r ∈ chain_receipts h ->
    storage_SetReceipt (Some r) w = (Ok tt, w') -> receipt_at w' r;
  ProcessReceiptsParallel_kept : forall h,
    preserves kept (ProcessReceiptsParallel (chain_block h) (chain_receipts h));
  ProcessReceiptsParallel_stores : forall h w w',
    ProcessReceiptsParallel (chain_block h) (chain_receipts h) w = (Ok tt, w') ->
    forall r, r ∈ chain_receipts h -> receipt_at w' r;
  SetLatestHeight_spec : forall h w r w', is_u64 h -> storage_SetLatestHeight h w = (r, w') ->
    kept_data w w' /\ latest w' = if is_ok r then Some h else latest w;
}.

Section Correct.
Context {C : ChainTypes} {W : Type} {F : FetcherEnv W} {V : FetcherView W} {L : FetcherSpec W}.
Context (config : Config).

#[export] Instance kept_preorder : PreOrder kept.
Proof.
  split.
  - intros w. by repeat split.
  - intros w1 w2 w3 (H1 & H2 & H3) (G1 & G2 & G3). split; [congruence|]. split; auto.
Qed.

(** ** Composition *)

Section Preserves.
Context {R : W -> W -> Prop} {HR : PreOrder R}.

Lemma preserves_ret {A} (a : A) : preserves R (mret a).
Proof. intros w. reflexivity. Qed.

Lemma preserves_fail {A} e : preserves R (fail (A := A) e).
Proof. intros w. reflexivity. Qed.

Lemma preserves_modify f : (forall w, R w (f w)) -> preserves R (modify f).
Proof. intros H w. apply H. Qed.

Lemma preserves_bind {A B} (m : ST W A) (k : A -> ST W B) :
  preserves R m -> (forall a, preserves R (k a)) -> preserves R (m ≫= k).
Proof.
  intros Hm Hk w. specialize (Hm w). unfold mbind, ST_bind.
  destruct (m w) as [[a|e] w1]; [|done]. etrans; [exact Hm | apply Hk].
Qed.

Lemma preserves_tryST {A B} (m : ST W A) (k : res A -> ST W B) :
  preserves R m -> (forall r, preserves R (k r)) -> preserves R (tryST m k).
Proof.
  intros Hm Hk w. specialize (Hm w). unfold tryST. destruct (m w) as [r w1].
  etrans; [exact Hm | apply Hk].
Qed.

Lemma preserves_wrapST {A} msg (m : ST W A) : preserves R m -> preserves R (wrapST msg m).
Proof. intros Hm w. specialize (Hm w). unfold wrapST. by destruct (m w). Qed.

Lemma preserves_forST {A} (f : A -> ST W unit) l :
  (forall a, a ∈ l -> preserves R (f a)) -> preserves R (forST f l).
Proof.
  induction l as [|a l IH]; intros Hf; cbn [forST]; [apply preserves_ret|].
  apply preserves_bind; [apply Hf; by left | intros _; apply IH; intros b Hb; apply Hf; by right].
Qed.

End Preserves.

#[local] Hint Resolve kept_preorder preserves_ret preserves_fail preserves_bind preserves_tryST
  preserves_wrapST : kept.

Lemma preserves_logged m : preserves kept m -> preserves kept (logged m).
Proof. intros Hm. apply preserves_tryST; auto with kept. Qed.

Lemma publish_kept e : preserves kept (publish e).
Proof.
  unfold publish. destruct eventBus_Publish as [p|] eqn:Hp; [|apply preserves_ret].
  intros w. apply (proj1 events_kept p e w Hp).
Qed.

Lemma Sleep_kept d : preserves kept (Sleep d).
Proof. apply preserves_modify. intros w. apply (ctx_kept w d). Qed.

#[local] Hint Resolve preserves_logged publish_kept Sleep_kept : kept.

(** ** The stages *)

Lemma retry_kept m k h e : preserves kept (fetchWithRetry_loop config m k h e).
Proof.
  revert k e. induction m as [|m IH]; intros k e; cbn [fetchWithRetry_loop];
    (apply preserves_bind; [destruct (_ <? _); auto with kept | intros _]);
    (apply preserves_tryST; [apply client_kept|]; intros [b|e1]; auto with kept);
    (apply preserves_tryST; [apply client_kept|]; intros [rs|e2]; auto with kept).
Qed.

Lemma retry_chain h w b rs e w' : fetchBlockAndReceiptsWithRetry config h w = (Ok (b, rs, e), w') ->
  b = chain_block h /\ rs = chain_receipts h.
Proof.
  destruct (retry_first_success config h w) as
    [(k & b' & rs' & w1 & _ & _ & Ha & ->) | (e' & msg & w1 & _ & _ & ->)]; [|done].
  intros [= -> -> _ _]. unfold attempt, mbind, ST_bind in Ha.
  destruct (client_GetBlockByNumber h _) as [[b0|] w2] eqn:Hb; [|done].
  destruct (client_GetBlockReceipts h w2) as [[rs0|] w3] eqn:Hr; [|done].
  injection Ha as -> -> _. split; [eapply node_block, Hb | eapply node_receipts, Hr].
Qed.

Lemma fees_kept h : preserves kept (processFeeDelegationMetadata h).
Proof.
  unfold processFeeDelegationMetadata.
  destruct storage_SetFeeDelegationTxMeta as [set|] eqn:Hs; [|apply preserves_ret].
  destruct client_GetBlockWithFeeDelegationMeta as [get|] eqn:Hg; [|apply preserves_ret].
  apply preserves_tryST; [by apply (proj1 fee_kept)|]. intros [metas|]; [|apply preserves_ret].
  apply preserves_forST. intros m _. apply preserves_logged. by apply (proj2 fee_kept).
Qed.

Lemma metadata_kept b rs h : preserves kept (processBlockMetadata b rs h).
Proof.
  destruct (stages_kept b rs) as (H1 & H2 & H3 & H4 & H5). unfold processBlockMetadata.
  repeat (apply preserves_bind; [by auto with kept | intros _]).
  destruct (h =? 0); auto with kept.
Qed.

Lemma parse_kept r : preserves kept (parseReceiptLogs r).
Proof.
  unfold parseReceiptLogs. destruct systemContractEventParser as [f|] eqn:Hf; [|apply preserves_ret].
  destruct (_ <? _)%nat; [|apply preserves_ret]. by apply preserves_logged, (proj2 logs_kept).
Qed.

Lemma index_kept r : preserves kept (indexReceiptLogs r).
Proof.
  unfold indexReceiptLogs. destruct storage_IndexLogs as [f|] eqn:Hf; [|apply preserves_ret].
  destruct (_ <? _)%nat; [|apply preserves_ret]. by apply preserves_logged, (proj1 logs_kept).
Qed.

Lemma store_kept h : preserves kept (storeAndProcessReceipts (chain_block h) (chain_receipts h)).
Proof.
  unfold storeAndProcessReceipts. destruct (ShouldProcessInBatches _ _).
  - apply preserves_bind; [apply preserves_wrapST, ProcessReceiptsParallel_kept|]. intros _.
    apply preserves_forST. intros r _. apply parse_kept.
  - apply preserves_forST. intros r Hr. apply preserves_bind; [|intros _; apply preserves_bind].
    + apply preserves_wrapST. eapply SetReceipt_kept, Hr.
    + apply index_kept.
    + intros _. apply parse_kept.
Qed.

Lemma events_all_kept b rs : preserves kept (publishBlockEvents b rs).
Proof.
  unfold publishBlockEvents. destruct eventBus_Publish as [p|]; [|apply preserves_ret].
  apply preserves_bind.
  - generalize 0 as i. induction (block_Transactions b) as [|t ts IH]; intros i;
      cbn [publishTxEvents]; auto with kept.
  - intros _. apply preserves_forST. intros r _. apply preserves_forST. intros l _.
    apply preserves_bind; [apply publish_kept | intros _].
    apply preserves_modify. intros w. apply (proj2 events_kept).
Qed.

Lemma processors_all_kept b rs : preserves kept (processBlockWithProcessors b rs).
Proof.
  apply preserves_forST. intros p Hp. by apply preserves_logged, processors_kept.
Qed.

(** ** What a stored block has *)

Lemma kept_snd {A} (m : ST W A) w a w' : preserves kept m -> m w = (a, w') -> kept w w'.
Proof. intros Hm H. specialize (Hm w). by rewrite H in Hm. Qed.

Lemma receipts_loop h l w w' : (forall r, r ∈ l -> r ∈ chain_receipts h) ->
  forST (fun r => _ ← storeReceipt r; _ ← indexReceiptLogs r; parseReceiptLogs r) l w = (Ok tt, w') ->
  kept w w' /\ forall r, r ∈ l -> receipt_at w' r.
Proof.
  revert w. induction l as [|r l IH]; intros w Hl H; cbn [forST] in H.
  { injection H as <-. split; [reflexivity|]. intros r Hr. by apply elem_of_nil in Hr. }
  inv_ST. repeat match goal with x : unit |- _ => destruct x end.
  match goal with
  | H1 : storeReceipt r w = (_, ?w1), H2 : indexReceiptLogs r ?w1 = (_, ?w2),
    H3 : parseReceiptLogs r ?w2 = (_, ?w3), H4 : forST _ _ _ = _ |- _ =>
      pose proof (kept_snd _ _ _ _ (index_kept r) H2) as K2;
      pose proof (kept_snd _ _ _ _ (parse_kept r) H3) as K3;
      apply wrapST_ok in H1;
      pose proof (kept_snd _ _ _ _ (SetReceipt_kept h r (Hl r ltac:(by left))) H1) as K1;
      apply (SetReceipt_stores h) in H1; [|apply Hl; by left];
      apply IH in H4 as [K4 H4]; [|intros r' Hr'; apply Hl; by right]
  end.
  split; [by repeat (etrans; [eassumption|])|].
  intros r' Hr'. apply elem_of_cons in Hr' as [->|Hr']; [|by auto].
  by apply K4, K3, K2.
Qed.

Lemma store_complete h w w' :
  storeAndProcessReceipts (chain_block h) (chain_receipts h) w = (Ok tt, w') ->
  forall r, r ∈ chain_receipts h -> receipt_at w' r.
Proof.
  unfold storeAndProcessReceipts. destruct (ShouldProcessInBatches _ _).
  - intros H r Hr. inv_ST. destruct r0. eapply ProcessReceiptsParallel_stores in H0; [|done].
    apply kept_snd in H; [by apply H | apply preserves_forST; intros; apply parse_kept].
  - intros H. by apply (receipts_loop h) in H as [_ H].
Qed.

(** Everything between fetching a block and advancing the latest height. *)
Definition FetchBlock_body (b : Block) (rs : list Receipt) (h : Z) : ST W unit :=
  _ ← wrapST "failed to store block" (storage_SetBlock (Some b));
  _ ← processBlockMetadata b rs h;
  _ ← logged (processFeeDelegationMetadata h);
  _ ← publish (BlockEvent b);
  _ ← storeAndProcessReceipts b rs;
  _ ← publishBlockEvents b rs;
  processBlockWithProcessors b rs.

Lemma FetchBlock_split h w : FetchBlock config h w =
  ('(b, rs, _) ← fetchBlockAndReceiptsWithRetry config h;
   _ ← FetchBlock_body b rs h;
   wrapST "failed to update latest height" (storage_SetLatestHeight h)) w.
Proof.
  unfold FetchBlock, FetchBlock_body, mbind, ST_bind.
  destruct (fetchBlockAndReceiptsWithRetry _ _ _) as [[[[b rs] e]|e] w1]; [|done].
  by repeat match goal with
    | |- context [match ?x with (_, _) => _ end] => destruct x as [[?|?] ?]
    end.
Qed.

Lemma body_kept h : is_u64 h -> preserves kept (FetchBlock_body (chain_block h) (chain_receipts h) h).
Proof.
  intros Hu. unfold FetchBlock_body.
  apply preserves_bind; [by apply preserves_wrapST, SetBlock_kept | intros _].
  apply preserves_bind; [apply metadata_kept | intros _].
  apply preserves_bind; [apply preserves_logged, fees_kept | intros _].
  apply preserves_bind; [apply publish_kept | intros _].
  apply preserves_bind; [apply store_kept | intros _].
  apply preserves_bind; [apply events_all_kept | intros _]. apply processors_all_kept.
Qed.

Lemma body_complete h w w' : is_u64 h ->
  FetchBlock_body (chain_block h) (chain_receipts h) h w = (Ok tt, w') -> complete w' h.
Proof.
  unfold FetchBlock_body. intros Hu H. inv_ST.
  repeat match goal with x : unit |- _ => destruct x end.
  repeat match goal with
    | G : processBlockWithProcessors _ _ _ = _ |- _ => apply kept_snd in G; [|apply processors_all_kept]
    | G : publishBlockEvents _ _ _ = _ |- _ => apply kept_snd in G; [|apply events_all_kept]
    | G : publish _ _ = _ |- _ => apply kept_snd in G; [|apply publish_kept]
    | G : logged _ _ = _ |- _ => apply kept_snd in G; [|apply preserves_logged, fees_kept]
    | G : processBlockMetadata _ _ _ _ = _ |- _ => apply kept_snd in G; [|apply metadata_kept]
    | G : storage_SetBlock _ _ = _ |- _ => apply SetBlock_stores in G; [|done]
    | G : storeAndProcessReceipts _ _ _ = _ |- _ =>
        pose proof (store_complete _ _ _ G); apply kept_snd in G; [|apply store_kept]
    end.
  unfold kept, kept_data in *. destruct_and?. split; [|intros r Hr]; eauto 9.
Qed.

Lemma FetchBlock_outcome h (w : W) (Hu : is_u64 h) :
  match FetchBlock config h w with
  | (Ok _, w') => complete w' h /\ latest w' = Some h /\ kept_data w w'
  | (Err _, w') => latest w' = latest w /\ kept_data w w'
  end.
Proof.
  rewrite FetchBlock_split. unfold mbind at 1, ST_bind at 1.
  pose proof (retry_kept (MaxRetries config) 0 h false w) as Hk.
  pose proof (retry_chain h w) as Hc. unfold fetchBlockAndReceiptsWithRetry in *.
  destruct (fetchWithRetry_loop _ _ _ _ _ _) as [[[[b rs] e]|e] w1]; [|exact Hk].
  edestruct Hc as [-> ->]; [done|]. clear Hc. unfold mbind, ST_bind, wrapST.
  pose proof (body_kept h Hu w1) as Hb. pose proof (body_complete h w1) as Hd.
  destruct (FetchBlock_body _ _ _ w1) as [[[]|e2] w2]; [|change (kept w w2); by etrans].
  destruct (storage_SetLatestHeight h w2) as [r w3] eqn:Hs.
  apply SetLatestHeight_spec in Hs as [(K1 & K2) Hl]; [|done]. specialize (Hd w2 Hu eq_refl) as [D1 D2].
  assert (Hw : kept w w2) by by etrans.
  destruct Hw as (J1 & J2 & J3), r as [[]|e3]; cbn in Hl |- *; split_and!; try congruence;
    unfold complete, kept_data; auto 6.
Qed.

(** C10: after [FetchBlock] succeeds, the block and all of its receipts are stored and the
    latest height is the block's; when it fails, at any step, the latest height is what it
    was. Nothing that was stored before is lost in either case. *)
Theorem FetchBlock_complete h (w : W) (Hu : is_u64 h) :
  match FetchBlock config h w with
  | (Ok _, w') => complete w' h /\ latest w' = Some h /\ kept_data w w'
  | (Err _, w') => latest w' = latest w /\ kept_data w w'
  end.
Proof. by apply FetchBlock_outcome. Qed.

(** ** Ranges and the loop *)

Lemma complete_kept w w' h : kept_data w w' -> complete w h -> complete w' h.
Proof. intros [H1 H2] [G1 G2]. split; auto. Qed.

Lemma kept_data_trans w1 w2 w3 : kept_data w1 w2 -> kept_data w2 w3 -> kept_data w1 w3.
Proof. intros [H1 H2] [G1 G2]. split; auto. Qed.

Lemma FetchRange_loop_progress fuel h e w :
  0 <= h <= e + 1 -> e < two64 - 1 -> (Z.to_nat (e - h + 2) <= fuel)%nat ->
  exists r w' n, FetchRange_loop config fuel h e w = Some (r, w') /\ 0 <= n <= e - h + 1 /\
    (r = Ok tt <-> n = e - h + 1) /\ (forall k, h <= k < h + n -> complete w' k) /\
    latest w' = (if n =? 0 then latest w else Some (h + n - 1)) /\ kept_data w w'.
Proof.
  revert h w. induction fuel as [|fuel IH]; intros h w Hh He Hf; [lia|]. cbn [FetchRange_loop].
  destruct (Z.ltb_spec e h).
  { exists (Ok tt), w, 0. split; [done|]. cbn. split_and!; [lia | lia | split; [lia | done] |
      intros k Hk; lia | done | by split]. }
  pose proof (proj1 (ctx_kept w 0)) as [K1 K2]. destruct (ctx_Done w) as [[] w1]; cbn [snd] in *.
  { eexists _, w1, 0. split; [done|]. cbn. split_and!; [lia | lia | split; [done | lia] |
      intros k Hk; lia | done | done]. }
  assert (Hu : is_u64 h) by (split; lia).
  pose proof (FetchBlock_outcome h w1 Hu) as Hb. unfold wrapST.
  destruct (FetchBlock config h w1) as [[[]|e2] w2]; cbn [wrap_err].
  2: { destruct Hb as [B1 B2]. eexists _, w2, 0. split; [done|]. cbn.
       split_and!; [lia | lia | split; [done | lia] | intros k Hk; lia | congruence |
         by eapply kept_data_trans]. }
  destruct Hb as (B1 & B2 & B3). rewrite u64_id by (split; lia).
  destruct (IH (h + 1) w2) as (r & w' & n & E & N & R & P & La & D); [lia | lia | lia |].
  exists r, w', (n + 1). rewrite E. split; [done|]. split; [lia|]. split; [rewrite R; lia|].
  split; [|split].
  - intros k Hk. destruct (decide (k = h)) as [->|]; [by eapply complete_kept | apply P; lia].
  - destruct (Z.eqb_spec (n + 1) 0); [lia|]. rewrite La.
    destruct (Z.eqb_spec n 0); [subst; rewrite B2|]; f_equal; lia.
  - by eapply kept_data_trans; [|eapply kept_data_trans].
Qed.

(** [FetchRange] ends after one step per height and one more. The heights it indexed
    are an initial segment of the range, all of it exactly when it returns without an
    error; each of them is complete, the latest height is the last of them, and nothing
    stored before is lost. *)
Theorem FetchRange_progress fuel start e w (Hs : 0 <= start <= e + 1) (He : e < two64 - 1)
  (Hf : (Z.to_nat (e - start + 2) <= fuel)%nat) :
  exists r w' n, FetchRange config fuel start e w = Some (r, w') /\ 0 <= n <= e - start + 1 /\
    (r = Ok tt <-> n = e - start + 1) /\ (forall k, start <= k < start + n -> complete w' k) /\
    latest w' = (if n =? 0 then latest w else Some (start + n - 1)) /\ kept_data w w'.
Proof. by apply FetchRange_loop_progress. Qed.

(** Every height from the configured start up to the latest indexed one is complete. *)
Definition no_gaps (w : W) : Prop :=
  forall h, latest w = Some h -> forall k, StartHeight config <= k <= h -> complete w k.

Definition indexed_below (n : Z) (w : W) : Prop :=
  forall k, StartHeight config <= k < n -> complete w k.

Lemma no_gaps_kept w w' : kept w w' -> no_gaps w -> no_gaps w'.
Proof. intros [H1 H2] H h Hh k Hk. rewrite H1 in Hh. eapply complete_kept; [done | by eapply H]. Qed.

Lemma indexed_below_kept n w w' : kept_data w w' -> indexed_below n w -> indexed_below n w'.
Proof. intros H1 H k Hk. eapply complete_kept; [done | by apply H]. Qed.

Definition round_ok (rd : round) : Prop :=
  match rd with
  | Stop w => no_gaps w
  | Next n w => StartHeight config <= n <= 2 ^ 63 /\ indexed_below n w /\ no_gaps w
  end.

Context (Hbatch : 0 < BatchSize config < 2 ^ 63) (Hstart : 0 <= StartHeight config < 2 ^ 63).

Lemma batchEnd_range n l : 0 <= n <= l -> l < 2 ^ 63 ->
  n <= batchEnd config n l <= l /\ batchEnd config n l < n + BatchSize config.
Proof.
  intros Hn Hl. unfold batchEnd. rewrite (u64_id (n + _)), u64_id; [|unfold is_u64, two64 in *; lia..].
  destruct (Z.ltb_spec l (n + BatchSize config - 1)); lia.
Qed.

Lemma Run_round_ok fuel n w : (Z.to_nat (BatchSize config + 1) <= fuel)%nat ->
  round_ok (Next n w) -> exists rd, Run_round config fuel n w = Some rd /\ round_ok rd.
Proof.
  intros Hf (Hn & Hi & Hg). unfold Run_round.
  pose proof (proj1 (ctx_kept w 0)) as K1. destruct (ctx_Done w) as [[] w1]; cbn [snd] in *.
  { eexists. split; [done|]. by eapply no_gaps_kept. }
  pose proof (proj2 (proj2 (client_kept 0)) w1) as K2.
  pose proof (node_latest w1) as Hl.
  destruct (client_GetLatestBlockNumber w1) as [[l|e1] w2]; cbn [snd] in *;
    assert (K : kept w w2) by by etrans.
  2: { eexists. split; [done|]. assert (Hw : kept w (time_Sleep (RetryDelay config) w2))
         by (etrans; [exact K | apply ctx_kept]).
       split; [done|]. split; [by eapply indexed_below_kept; [apply Hw|] | by eapply no_gaps_kept]. }
  specialize (Hl l w2 eq_refl). destruct (Z.ltb_spec l n).
  { eexists. split; [done|]. assert (Hw : kept w (time_Sleep (RetryDelay config) w2))
      by (etrans; [exact K | apply ctx_kept]).
    split; [done|]. split; [by eapply indexed_below_kept; [apply Hw|] | by eapply no_gaps_kept]. }
  destruct (batchEnd_range n l) as [B1 B2]; [lia | lia |]. set (e := batchEnd config n l) in *.
  destruct (FetchRange_loop_progress fuel n e w2) as (r & w' & m & E & M & R & P & La & D);
    [lia | unfold two64; lia | lia |]. unfold FetchRange in *. rewrite E.
  assert (Hi' : indexed_below (n + m) w').
  { intros k Hk. destruct (decide (k < n)); [|apply P; lia].
    eapply complete_kept; [exact D|]. eapply indexed_below_kept; [apply K | exact Hi | lia]. }
  assert (Hg' : no_gaps w').
  { intros h Hh k Hk. rewrite La in Hh. destruct (Z.eqb_spec m 0).
    - eapply complete_kept; [exact D|]. by eapply (no_gaps_kept w w2 K Hg).
    - injection Hh as <-. apply Hi'. lia. }
  destruct r as [[]|e2]; eexists; (split; [done|]).
  - assert (m = e - n + 1) as -> by by apply R.
    rewrite u64_id by (split; unfold two64; lia). replace (n + (e - n + 1)) with (e + 1) in Hi' by lia.
    split; [lia | done].
  - assert (Hw : kept w' (time_Sleep (RetryDelay config) w')) by apply ctx_kept.
    split; [done|]. split; [|by eapply no_gaps_kept]. eapply indexed_below_kept; [apply Hw|].
    intros k Hk. apply Hi'. lia.
Qed.

(** C5: if every height between the start and the latest height is complete, it stays so
    in every state [Run] reaches, whatever errors the node, the storage or the stages
    return and wherever it is stopped: a later run continues without a gap. Each round
    ends, and every height below the next one to fetch is complete. *)
Theorem Run_no_gaps rounds fuel w (Hf : (Z.to_nat (BatchSize config + 1) <= fuel)%nat)
  (Hl : forall h, latest w = Some h -> 0 <= h < 2 ^ 63) (Hg : no_gaps w) :
  exists rd, Run config rounds fuel w = Some rd /\ round_ok rd.
Proof.
  assert (H0 : forall n w, round_ok (Next n w) ->
    exists rd, Run_rounds config rounds fuel n w = Some rd /\ round_ok rd).
  { induction rounds as [|m IH]; intros n w1 H1; cbn [Run_rounds]; [by eexists|].
    destruct (Run_round_ok fuel n w1 Hf H1) as ([w2|n2 w2] & -> & H2); [by eexists | by apply IH]. }
  unfold Run, GetNextHeight, tryST.
  pose proof (GetLatestHeight_kept w) as K. pose proof (GetLatestHeight_latest w) as Hh.
  destruct storage_GetLatestHeight as [[h|e] w1]; cbn [snd] in K.
  - specialize (Hh h w1 eq_refl). specialize (Hl h Hh). destruct (Z.ltb_spec h (StartHeight config)).
    + apply H0. split; [lia|]. split; [intros k Hk; lia | by eapply no_gaps_kept].
    + cbn. rewrite u64_id by (split; unfold two64; lia). apply H0. split; [lia|].
      split; [|by eapply no_gaps_kept]. intros k Hk. eapply complete_kept; [apply K|].
      eapply Hg; [exact Hh | lia].
  - apply H0. split; [lia|]. split; [intros k Hk; lia | by eapply no_gaps_kept].
Qed.

End Correct.
