(* ===== verification/FetcherPebble.v ===== *)
(** FetcherPebble: the fetcher over PebbleStorage.

    An environment of Fetcher.v whose storage is the model of Storage.v and whose node
    serves a fixed chain, with a script of calls that fail. The stages of the other
    files do nothing here. It satisfies the specification [FetcherSpec], for any
    database with the laws of KV.v, and the theorems of Fetcher.v are applied to it. *)
From S2P Require Import Prelude Eth Schema KeySpace KV Chain Storage Batch PrefixOps.
From S2P Require Import StorageFacts StorageProps StorageReads Instances StorageThms.
From S2P Require Import StorageSafety StorageWitnesses Fetcher.

Section Pebble.
Context {E : EthHex} {P : Pebble} {C : ChainTypes}
  {RB : RLP Block} {RT : RLP Tx} {RR : RLP Receipt} {RL : RLP TxLocation}.

(** The storage and what is left of the node's script: a call whose entry is [true]
    fails. *)
Definition world : Type := PebbleStorage * list bool.

Definition on_store {A} (m : op A) : ST world A := fun w =>
  let '(r, s') := m (fst w) in (r, (s', snd w)).

Definition ask {A} (answer : res A) : ST world A := fun w =>
  match snd w with
  | true :: script => (Err (External 503), (fst w, script))
  | _ => (answer, (fst w, tail (snd w)))
  end.

Context (chain : Z -> Block * list Receipt) (tip : Z).

Definition served (h : Z) : bool := (0 <=? h) && (h <=? tip).

#[export] Instance pebble_FetcherEnv : FetcherEnv world := {|
  Log := unit; FeeDelegationMeta := unit; receipt_Logs := fun _ => [];
  ctx_Done := fun w => (false, w); time_Sleep := fun _ w => w;
  client_GetLatestBlockNumber := ask (Ok tip);
  client_GetBlockByNumber := fun h =>
    ask (if served h then Ok (fst (chain h)) else Err (External 404));
  client_GetBlockReceipts := fun h =>
    ask (if served h then Ok (snd (chain h)) else Err (External 404));
  client_GetBlockWithFeeDelegationMeta := None;
  storage_GetLatestHeight := on_store GetLatestHeight;
  storage_SetLatestHeight := fun h => on_store (SetLatestHeight h);
  storage_SetBlock := fun b => on_store (SetBlock b);
  storage_SetReceipt := fun r => on_store (SetReceipt r);
  storage_IndexLogs := None; storage_SetFeeDelegationTxMeta := None;
  processWBFTMetadata := fun _ => mret tt;
  processAddressIndexing := fun _ _ => mret tt;
  processBalanceTracking := fun _ _ => mret tt;
  initializeGenesisBalances := fun _ => mret tt;
  initializeGenesisTokenMetadata := mret tt;
  ShouldProcessInBatches := fun _ _ => false;
  ProcessReceiptsParallel := fun _ rs => forST (fun r => on_store (SetReceipt (Some r))) rs;
  systemContractEventParser := None; eventBus_Publish := None;
  detectSystemEvents := fun _ _ w => w; blockProcessors := [];
|}.

Definition is_chain_receipt (r : Receipt) : Prop := exists h, r ∈ snd (chain h).

(** The records of a block and of a receipt, as the database holds them. *)
#[export] Instance pebble_FetcherView : FetcherView world := {|
  chain_block := fun h => fst (chain h);
  chain_receipts := fun h => snd (chain h);
  latest := fun w => match fst (GetLatestHeight (fst w)) with Ok h => Some h | Err _ => None end;
  block_at := fun w h => is_u64 h /\
    db_get (db (fst w)) (BlockKey h) = Ok (Some (enc (fst (chain h))));
  receipt_at := fun w r => is_chain_receipt r /\
    db_get (db (fst w)) (ReceiptKey (TxHash r)) = Ok (Some (enc r));
|}.

Context (HE : EthHexLaws E) (HP : PebbleLaws P).
Context (Hnum : forall h, is_u64 h -> block_Number (fst (chain h)) = h).
Context (Huniq : forall r1 r2, is_chain_receipt r1 -> is_chain_receipt r2 ->
  TxHash r1 = TxHash r2 -> r1 = r2).
Context (Htip : 0 <= tip < 2 ^ 63).

(** A write that agrees with the chain. *)
Definition agrees (k v : bytes) : Prop :=
  k <> LatestHeightKey /\
  (forall h, is_u64 h -> k = BlockKey h -> v = enc (fst (chain h))) /\
  (forall r, is_chain_receipt r -> k = ReceiptKey (TxHash r) -> v = enc r).

Definition sound (s s' : PebbleStorage) : Prop :=
  closed s' = closed s /\ readOnly s' = readOnly s /\
  forall k, db_get (db s') k = db_get (db s) k \/
    exists v, agrees k v /\ db_get (db s') k = Ok (Some v).

#[local] Instance sound_preorder : PreOrder sound.
Proof.
  split; [intros s; split_and!; auto|].
  intros s1 s2 s3 (A1 & A2 & A3) (B1 & B2 & B3). split; [congruence|]. split; [congruence|].
  intros k. destruct (B3 k) as [->|Hk]; [apply A3 | by right].
Qed.

Lemma sound_kept s s' f f' : sound s s' -> kept (s, f) (s', f').
Proof.
  intros (A1 & A2 & A3). split; [|split].
  - cbn. rewrite (GetLatestHeight_frame s s' A1); [done|].
    destruct (A3 LatestHeightKey) as [|(v & [Hl _] & _)]; [done | by destruct Hl].
  - intros h [Hu Hb]. cbn [fst] in *. split; [done|]. cbn [fst].
    destruct (A3 (BlockKey h)) as [->|(v & (_ & Hv & _) & ->)]; [done|]. by rewrite (Hv h Hu eq_refl).
  - intros r [Hr Hb]. cbn [fst] in *. split; [done|]. cbn [fst].
    destruct (A3 (ReceiptKey (TxHash r))) as [->|(v & (_ & _ & Hv) & ->)]; [done|].
    by rewrite (Hv r Hr eq_refl).
Qed.

Lemma dbSet_sound k v : agrees k v -> preserves sound (dbSet k v).
Proof.
  intros Ha s. unfold dbSet, dbWrite.
  destruct (db_write (db s) [(k, Some v)]) as [d [e|]] eqn:Hw; cbn; (split; [done|]; split; [done|]);
    intros k'; cbn.
  - left. eapply db_write_atomic, Hw.
  - rewrite (db_write_get _ _ _ k' Hw). cbn. case_decide; subst; [right; by exists v | by left].
Qed.

Lemma ensureNotClosed_sound : preserves sound ensureNotClosed.
Proof. intros s. unfold ensureNotClosed. by case_match. Qed.

Lemma ensureNotReadOnly_sound : preserves sound ensureNotReadOnly.
Proof. intros s. unfold ensureNotReadOnly. by case_match. Qed.

Lemma lift_sound {A} (r : res A) : preserves sound (lift r).
Proof. intros s. reflexivity. Qed.

Lemma txCountAdd_sound n : preserves sound (txCountAdd n).
Proof. intros s. split; [done|]. split; [done|]. intros k. by left. Qed.

#[local] Hint Resolve sound_preorder preserves_ret preserves_bind preserves_wrapST preserves_fail
  lift_sound txCountAdd_sound ensureNotClosed_sound ensureNotReadOnly_sound : kept.

Ltac other_key := split_and!; [key_ne | intros ? _; key_ne | intros ? _; key_ne].

Lemma SetTransaction_sound t loc : preserves sound (SetTransaction t loc).
Proof.
  unfold SetTransaction. apply preserves_bind; [auto with kept | intros _].
  apply preserves_bind; [auto with kept | intros _].
  destruct t as [t|], loc as [loc|]; auto with kept.
  apply preserves_bind; [auto with kept | intros x]. apply preserves_bind; [auto with kept | intros y].
  apply preserves_bind; [apply preserves_wrapST, dbSet_sound; other_key | intros _].
  apply preserves_bind; [apply preserves_wrapST, dbSet_sound; other_key | intros _].
  apply preserves_bind; [auto with kept | intros c].
  apply preserves_wrapST, dbSet_sound; other_key.
Qed.

Lemma SetBlock_sound h : is_u64 h -> preserves sound (SetBlock (Some (fst (chain h)))).
Proof.
  intros Hu. unfold SetBlock. apply preserves_bind; [auto with kept | intros _].
  apply preserves_bind; [auto with kept | intros _]. cbn [EncodeBlock].
  intros s. unfold mbind at 1, ST_bind at 1, lift.
  destruct (rlp_Encode (fst (chain h))) as [x|e] eqn:Hx; cbn [wrap_err]; [|reflexivity].
  apply rlp_enc in Hx. subst x. revert s.
  match goal with |- forall s, sound s (snd (?m s)) => change (preserves sound m) end.
  assert (Hh : block_height (fst (chain h)) = h).
  { unfold block_height. rewrite Hnum by done. by apply u64_id. }
  apply preserves_bind; [|intros _; apply preserves_bind; [|intros _]].
  - apply preserves_wrapST, dbSet_sound. rewrite Hh. split_and!; [key_ne | | intros ? _; key_ne].
    intros h' _ Hk. key_eq Hk. by subst.
  - apply preserves_wrapST, dbSet_sound. other_key.
  - apply preserves_forST. intros [i t] _. apply preserves_wrapST, SetTransaction_sound.
Qed.

Lemma SetReceipt_sound r : is_chain_receipt r -> preserves sound (SetReceipt (Some r)).
Proof.
  intros Hr. unfold SetReceipt. apply preserves_bind; [auto with kept | intros _].
  apply preserves_bind; [auto with kept | intros _].
  apply preserves_bind; [auto with kept | intros _].
  unfold EncodeReceipt. intros s. unfold mbind at 1, ST_bind at 1, lift.
  destruct (rlp_Encode r) as [x|e] eqn:Hx; cbn [wrap_err]; [|reflexivity].
  apply rlp_enc in Hx. subst x. revert s.
  match goal with |- forall s, sound s (snd (?m s)) => change (preserves sound m) end.
  apply preserves_bind; [|intros _; destruct (has_contract r); [|auto with kept]].
  - apply dbSet_sound. split_and!; [key_ne | intros ? _; key_ne |].
    intros r' Hr' Hk. key_eq Hk. by rewrite (Huniq r' r).
  - apply preserves_wrapST, dbSet_sound. other_key.
Qed.

Lemma on_store_kept {A} (m : op A) : preserves sound m -> preserves kept (on_store m).
Proof.
  intros Hm [s f]. specialize (Hm s). unfold on_store. cbn [fst snd].
  destruct (m s) as [r s']. by apply sound_kept.
Qed.

Lemma ask_kept {A} (answer : res A) : preserves kept (ask answer).
Proof. intros [s [|[] f]]; apply sound_kept; reflexivity. Qed.

Lemma ask_ok {A} (answer : res A) w a w' : ask answer w = (Ok a, w') -> answer = Ok a.
Proof. destruct w as [s [|[] f]]; cbn; congruence. Qed.

Lemma SetLatestHeight_outcome h s r s' : SetLatestHeight h s = (r, s') ->
  closed s' = closed s /\ (closed s = false -> is_ok r = true -> is_u64 h -> fst (GetLatestHeight s') = Ok h) /\
  (is_ok r = true -> closed s = false) /\
  (forall k, k <> LatestHeightKey \/ is_ok r = false -> db_get (db s') k = db_get (db s) k).
Proof.
  unfold SetLatestHeight, ensureNotClosed, ensureNotReadOnly, dbSet, dbWrite, mbind, ST_bind.
  destruct (closed s) eqn:Hc; [intros [= <- <-]; split_and!; done|].
  destruct (readOnly s) eqn:Hr; [intros [= <- <-]; split_and!; done|].
  destruct (db_write _ _) as [d [e|]] eqn:Hw; intros [= <- <-]; cbn; rewrite ?Hc; split_and!; try done.
  - intros k _. eapply db_write_atomic, Hw.
  - intros _ _ Hu. unfold GetLatestHeight, ensureNotClosed, mbind, ST_bind, wrapST, dbGet. cbn.
    rewrite ?Hc, (db_write_get _ _ _ LatestHeightKey Hw). cbn. rewrite decide_True by done.
    cbn. by rewrite DecodeUint64_Encode.
  - intros k [Hk|]; [|done]. rewrite (db_write_get _ _ _ k Hw). cbn. by rewrite decide_False.
Qed.

Lemma dbSet_hit k v s s' : dbSet k v s = (Ok tt, s') -> db_get (db s') k = Ok (Some v).
Proof.
  unfold dbSet, dbWrite. destruct (db_write _ _) as [d [e|]] eqn:Hw; intros [= <-]. cbn.
  rewrite (db_write_get _ _ _ k Hw). cbn. by rewrite decide_True.
Qed.

Lemma sound_of {A} (m : op A) s r s' : preserves sound m -> m s = (r, s') -> sound s s'.
Proof. intros Hm H. specialize (Hm s). by rewrite H in Hm. Qed.

Lemma SetBlock_writes h s s' : is_u64 h -> SetBlock (Some (fst (chain h))) s = (Ok tt, s') ->
  db_get (db s') (BlockKey h) = Ok (Some (enc (fst (chain h)))).
Proof.
  intros Hu H. unfold SetBlock, EncodeBlock in H. inv_op.
  assert (Hh : block_height (fst (chain h)) = h).
  { unfold block_height. rewrite Hnum by done. by apply u64_id. }
  rewrite Hh in *. repeat match goal with x : unit |- _ => destruct x end.
  apply rlp_enc in H2. subst r1. apply dbSet_hit in H3.
  assert (K1 : sound s3 s4) by (eapply sound_of; [|exact H4]; apply dbSet_sound; other_key).
  assert (K2 : sound s4 s').
  { eapply sound_of; [|exact H]. apply preserves_forST. intros [i t] _.
    apply preserves_wrapST, SetTransaction_sound. }
  eapply (sound_kept _ _ [] []); [etrans; [exact K1 | exact K2] | by split].
Qed.

Lemma SetReceipt_writes r s s' : SetReceipt (Some r) s = (Ok tt, s') ->
  db_get (db s') (ReceiptKey (TxHash r)) = Ok (Some (enc r)).
Proof.
  intros H. unfold SetReceipt, EncodeReceipt in H. inv_op.
  repeat match goal with x : unit |- _ => destruct x end.
  match goal with
  | H1 : rlp_Encode _ = Ok _, H2 : dbSet (ReceiptKey _) _ _ = _ |- _ =>
      apply rlp_enc in H1; subst; apply dbSet_hit in H2 as Hg
  end.
  destruct (has_contract r); [|by injection H as <-].
  apply wrapST_ok in H. unfold dbSet, dbWrite in H.
  destruct (db_write (db _) _) as [d [e|]] eqn:Hw; [done|]. injection H as <-. cbn.
  rewrite (db_write_get _ _ _ _ Hw). cbn. by rewrite decide_False by key_ne.
Qed.

Lemma receipts_stored h l (w w' : world) : (forall r, r ∈ l -> r ∈ snd (chain h)) ->
  forST (fun r => on_store (SetReceipt (Some r))) l w = (Ok tt, w') ->
  forall r, r ∈ l -> receipt_at w' r.
Proof.
  revert w. induction l as [|x l IH]; intros w Hl H r Hr; [by apply elem_of_nil in Hr|].
  cbn [forST] in H. inv_ST. destruct r0. apply elem_of_cons in Hr as [->|Hr].
  - assert (K : kept s w').
    { eapply kept_snd; [|exact H]. apply preserves_forST. intros y Hy.
      apply on_store_kept, SetReceipt_sound. exists h. apply Hl. by right. }
    apply K. split; [exists h; apply Hl; by left|].
    unfold on_store in H0. destruct (SetReceipt (Some x) (fst w)) as [y s'] eqn:Hx.
    injection H0 as -> <-. by eapply SetReceipt_writes.
  - eapply IH; [|exact H | done]. intros y Hy. apply Hl. by right.
Qed.

Lemma SetLatestHeight_view h s r s' f : is_u64 h -> SetLatestHeight h s = (r, s') ->
  kept_data (s, f) (s', f) /\
  latest (s', f) = if is_ok r then Some h else latest (s, f).
Proof.
  intros Hu H. apply SetLatestHeight_outcome in H as (H1 & H2 & H3 & H4). split.
  - split.
    + intros k [Hk Hb]. cbn [fst] in *. split; [done|]. cbn [fst]. rewrite H4; [done|]. left. key_ne.
    + intros x [Hx Hb]. cbn [fst] in *. split; [done|]. cbn [fst]. rewrite H4; [done|]. left. key_ne.
  - cbn. destruct (is_ok r) eqn:Hr; [by rewrite H2 by auto|].
    rewrite (GetLatestHeight_frame s s' H1); [done | by apply H4; right].
Qed.

#[export] Instance pebble_FetcherSpec : FetcherSpec world.
Proof.
  split.
  - intros h w b w' H. apply ask_ok in H. destruct (served h); by simplify_eq.
  - intros h w rs w' H. apply ask_ok in H. destruct (served h); by simplify_eq.
  - intros w h w' H. apply ask_ok in H. injection H as <-. exact Htip.
  - intros h. split_and!; apply ask_kept.
  - intros w d. by split.
  - done.
  - done.
  - intros b rs. split_and!; intros w; reflexivity.
  - split; [done|]. intros b l w. reflexivity.
  - intros p b rs Hp. by apply elem_of_nil in Hp.
  - apply on_store_kept. intros s. destruct (GetLatestHeight s) as [r s'] eqn:Hg.
    assert (s' = s) as ->; [|reflexivity].
    unfold GetLatestHeight, ensureNotClosed, mbind, ST_bind, wrapST, dbGet, lift, fail in Hg.
    destruct (closed s); [by injection Hg|]. destruct (db_get _ _) as [[v|]|e]; cbn in Hg; by injection Hg.
  - intros [s f] h w' H. cbn in *. unfold on_store in H. cbn in H.
    destruct (GetLatestHeight s) as [r s']. injection H as -> _. done.
  - intros h Hu. by apply on_store_kept, SetBlock_sound.
  - intros h [s f] w' Hu H. cbn in H. unfold on_store in H. cbn in H.
    destruct (SetBlock _ s) as [r s'] eqn:Hs. injection H as -> <-. cbn. split; [done|].
    by eapply SetBlock_writes.
  - intros h r Hr. apply on_store_kept, SetReceipt_sound. by exists h.
  - intros h r [s f] w' Hr H. cbn in H. unfold on_store in H. cbn in H.
    destruct (SetReceipt _ s) as [x s'] eqn:Hs. injection H as -> <-. cbn. split; [by exists h|].
    by eapply SetReceipt_writes.
  - intros h. apply preserves_forST. intros r Hr. apply on_store_kept, SetReceipt_sound. by exists h.
  - intros h w w' H. exact (receipts_stored h _ w w' (fun r Hr => Hr) H).
  - intros h [s f] r w' Hu H. cbn in H. unfold on_store in H. cbn in H.
    destruct (SetLatestHeight h s) as [x s'] eqn:Hs. injection H as <- <-.
    by apply SetLatestHeight_view.
Qed.

End Pebble.

(** * The theorems at a concrete storage and node *)

(** Block 7 has a transaction with a receipt; the other blocks are empty. *)
Definition mem_serve (h : Z) : mem_block * list (Receipt (C := mem_chain)) :=
  if h =? 7 then (mem_block1, [mem_receipt1]) else (mkBlock h (sample_hash 50) [], []).

Definition mem_config : Config := mkConfig 6 10 2 1000 4.

#[export] Instance mem_env : FetcherEnv world := pebble_FetcherEnv mem_serve 8.
#[export] Instance mem_view : FetcherView world := pebble_FetcherView mem_serve.

Lemma mem_chain_receipt r : is_chain_receipt mem_serve r -> r = mem_receipt1.
Proof.
  intros [h Hr]. unfold mem_serve in Hr. destruct (h =? 7); cbn [snd] in Hr.
  - by apply list_elem_of_singleton in Hr.
  - by apply elem_of_nil in Hr.
Qed.

#[export] Instance mem_fetcher_spec : FetcherSpec world.
Proof.
  apply pebble_FetcherSpec; [exact lower_hex_laws | exact mem_pebble_laws | | | lia].
  - intros h _. unfold mem_serve. destruct (Z.eqb_spec h 7) as [->|]; done.
  - intros r1 r2 H1 H2 _. by rewrite (mem_chain_receipt r1 H1), (mem_chain_receipt r2 H2).
Qed.

(** The node's first two calls fail. *)
Definition mem_world : world (P := mem_pebble) := (mem_storage, [true; true]).

Lemma FetchBlock_complete_witness : exists w',
  FetchBlock mem_config 7 mem_world = (Ok tt, w') /\ complete w' 7 /\ latest w' = Some 7.
Proof.
  assert (Hr : is_ok (fst (FetchBlock mem_config 7 mem_world)) = true)
    by (vm_compute; reflexivity).
  pose proof (FetchBlock_complete mem_config 7 mem_world ltac:(split; [lia | reflexivity])) as H.
  destruct (FetchBlock mem_config 7 mem_world) as [[[]|e] w']; [|discriminate Hr].
  exists w'. destruct H as (H1 & H2 & _). split; [reflexivity|]. split; [exact H1 | exact H2].
Defined.

Lemma FetchRange_progress_witness : exists r w' n,
  FetchRange mem_config 4 6 8 mem_world = Some (r, w') /\ (r = Ok tt <-> n = 3) /\
  forall k, 6 <= k < 6 + n -> complete w' k.
Proof.
  destruct (FetchRange_progress mem_config 4 6 8 mem_world) as (r & w' & n & H1 & _ & H2 & H3 & _);
    [lia | reflexivity | vm_compute; lia |].
  exists r, w', n. split; [exact H1|]. split; [exact H2 | exact H3].
Defined.

Lemma Run_no_gaps_witness : exists rd,
  Run mem_config 3 11 mem_world = Some rd /\ round_ok mem_config rd.
Proof.
  apply (Run_no_gaps mem_config);
    [cbn; lia | cbn; lia | vm_compute; lia | |]; intros h Hh; discriminate Hh.
Defined.
