(* ===== verification/Pool.v ===== *)
(** Pool: fetching a range of blocks with concurrent workers.

    Models [FetchRangeConcurrent] of pkg/fetch/fetcher.go: one goroutine sends the
    heights of the range to a channel, workers fetch them and send their results to
    another, a goroutine closes that channel when every worker has ended, and the caller
    collects the results and stores the blocks in the order of their heights. Each
    goroutine's next action is a rule of the step relation [step]; the rules interleave
    in any order and the context can be cancelled at any moment. A worker sees the node
    in an arbitrary state. The theorems hold for every interleaving. *)
From stdpp Require Import relations.
From S2P Require Import Prelude Eth KV Chain Instances StorageWitnesses Fetcher FetcherPebble.

Section Pool.
Context {C : ChainTypes} {W : Type} {F : FetcherEnv W}.
Context (config : Config) (start endHeight : Z).

(** [numWorkers], and the capacity of both channels. *)
Definition numWorkers : Z := if NumWorkers config =? 0 then 100 else NumWorkers config.
Definition capacity : nat := Z.to_nat numWorkers.

(** * Storing one block *)

Definition publishTransactions (block : Block) (receipts : list Receipt) : ST W unit :=
  match eventBus_Publish with
  | None => mret tt
  | Some _ => publishTxEvents block (buildReceiptMap receipts) 0 (block_Transactions block)
  end.

Definition commit (height : Z) (res : Block * list Receipt) : ST W unit :=
  let '(block, receipts) := res in
  _ ← wrapST "failed to store block" (storage_SetBlock (Some block));
  _ ← wrapST "failed to process WBFT metadata for block" (processWBFTMetadata block);
  _ ← wrapST "failed to process address indexing for block"
        (processAddressIndexing block receipts);
  _ ← wrapST "failed to process balance tracking for block"
        (processBalanceTracking block receipts);
  _ ← logged (processFeeDelegationMetadata height);
  _ ← publish (BlockEvent block);
  _ ← forST (fun receipt => _ ← storeReceipt receipt; indexReceiptLogs receipt) receipts;
  _ ← publishTransactions block receipts;
  wrapST "failed to update latest height" (storage_SetLatestHeight height).

Abbreviation resultMap := (gmap Z (Block * list Receipt)).

(** What the inner loop of the collector leaves: the results it could not store yet, the
    next height, the state, and the error that made it return, if any. *)
Record drained := mkDrained {
  d_map : resultMap; d_next : Z; d_store : W; d_err : option error }.

(** Store results while the next height is there. Each round deletes an entry, so the
    size of the map and one is enough fuel. *)
Fixpoint drain (fuel : nat) (m : resultMap) (next : Z) (w : W) : drained :=
  match fuel with
  | O => mkDrained m next w None
  | S fuel' =>
      match m !! next with
      | None => mkDrained m next w None
      | Some r =>
          match commit next r w with
          | (Err e, w') => mkDrained m next w' (Some e)
          | (Ok _, w') =>
              let m' := delete next m in
              let next' := u64 (next + 1) in
              if endHeight <? next' then mkDrained m' next' w' None
              else drain fuel' m' next' w'
          end
      end
  end.

(** * The goroutines *)

(** The sender: about to send a height, or done, the channel of jobs closed. *)
Inductive producer := Sending (height : Z) | Done.

(** A worker: waiting for a job, holding one, fetching it, reporting a result (its last
    if it found the context cancelled), or ended. *)
Inductive worker :=
| Idle | Got (height : Z) | Fetching (height : Z) | Report (r : jobResult) (final : bool) | Exited.

Record pool := mkPool {
  jobs : list Z;
  sender : producer;
  workers : list worker;
  results : list jobResult;
  results_closed : bool;
  pending_results : resultMap;
  nextHeight : Z;
  outcome : option (res unit);
  cancelled : bool;
  store : W;
}.

Definition init (w : W) : pool :=
  mkPool [] (Sending start) (replicate capacity Idle) [] false ∅ start None false w.

(** The collector receives a result. *)
Definition collect (r : jobResult) (m : resultMap) (next : Z) (w : W) : drained :=
  match job_result r with
  | Err e => mkDrained m next w (Some (Wrap "failed to fetch block" e))
  | Ok br =>
      let m' := <[job_height r := br]> m in drain (S (size m')) m' next w
  end.

Inductive step : pool -> pool -> Prop :=
| step_cancel js s ws rs rc m n o w :
    step (mkPool js s ws rs rc m n o false w) (mkPool js s ws rs rc m n o true w)
| step_send js h ws rs rc m n o c w :
    h <= endHeight -> (length js < capacity)%nat ->
    step (mkPool js (Sending h) ws rs rc m n o c w)
         (mkPool (js ++ [h]) (Sending (u64 (h + 1))) ws rs rc m n o c w)
| step_send_cancelled js h ws rs rc m n o w :
    h <= endHeight ->
    step (mkPool js (Sending h) ws rs rc m n o true w) (mkPool js Done ws rs rc m n o true w)
| step_send_end js h ws rs rc m n o c w :
    endHeight < h ->
    step (mkPool js (Sending h) ws rs rc m n o c w) (mkPool js Done ws rs rc m n o c w)
| step_take js h s ws1 ws2 rs rc m n o c w :
    step (mkPool (h :: js) s (ws1 ++ Idle :: ws2) rs rc m n o c w)
         (mkPool js s (ws1 ++ Got h :: ws2) rs rc m n o c w)
| step_poll js h s ws1 ws2 rs rc m n o w :
    step (mkPool js s (ws1 ++ Got h :: ws2) rs rc m n o false w)
         (mkPool js s (ws1 ++ Fetching h :: ws2) rs rc m n o false w)
| step_poll_cancelled js h s ws1 ws2 rs rc m n o w :
    step (mkPool js s (ws1 ++ Got h :: ws2) rs rc m n o true w)
         (mkPool js s (ws1 ++ Report (mkJob h (Err ErrCanceled)) true :: ws2) rs rc m n o true w)
| step_fetch js h s ws1 ws2 rs rc m n o c w r w1 w2 :
    fetchBlockJob config h w1 = (Ok r, w2) ->
    step (mkPool js s (ws1 ++ Fetching h :: ws2) rs rc m n o c w)
         (mkPool js s (ws1 ++ Report r false :: ws2) rs rc m n o c w)
| step_report js s ws1 r final ws2 rs rc m n o c w :
    (length rs < capacity)%nat ->
    step (mkPool js s (ws1 ++ Report r final :: ws2) rs rc m n o c w)
         (mkPool js s (ws1 ++ (if final : bool then Exited else Idle) :: ws2) (rs ++ [r]) rc m n o c w)
| step_exit ws1 ws2 rs rc m n o c w :
    step (mkPool [] Done (ws1 ++ Idle :: ws2) rs rc m n o c w)
         (mkPool [] Done (ws1 ++ Exited :: ws2) rs rc m n o c w)
| step_close js s ws rs m n o c w :
    Forall (eq Exited) ws ->
    step (mkPool js s ws rs false m n o c w) (mkPool js s ws rs true m n o c w)
| step_collect js s ws r rs rc m n c w :
    step (mkPool js s ws (r :: rs) rc m n None c w)
         (let d := collect r m n w in
          mkPool js s ws rs rc (d_map d) (d_next d) (Err <$> d_err d) c (d_store d))
| step_return js s ws m n c w :
    step (mkPool js s ws [] true m n None c w) (mkPool js s ws [] true m n (Some (Ok tt)) c w).

(** The states of a call that found the context alive when it was made. *)
Definition reachable (w : W) (p : pool) : Prop := rtc step (init w) p.

(** * What is stored, in every interleaving *)

Definition fetched (h : Z) (br : Block * list Receipt) : Prop :=
  exists w w', fetchBlockJob config h w = (Ok (mkJob h (Ok br)), w').

(** The sequential reference: the blocks from [start] up to [next], excluded, stored one
    after the other. *)
Inductive committed (w0 : W) : Z -> W -> Prop :=
| committed_start : committed w0 start w0
| committed_next next w br w' : committed w0 next w -> fetched next br ->
    commit next br w = (Ok tt, w') -> committed w0 (next + 1) w'.

(** The store after an error: as before, or left by the block that failed. *)
Definition interrupted (w0 : W) (next : Z) (w : W) : Prop :=
  committed w0 next w \/
  exists w1 br e, next <= endHeight /\ committed w0 next w1 /\ fetched next br /\
    commit next br w1 = (Err e, w).

Context (Hrange : 0 <= start <= endHeight + 1) (Hend : endHeight < two64 - 1).

(** A negative number of workers makes the channels panic. *)
Context (Hworkers : 0 <= NumWorkers config).

Lemma capacity_pos : (0 < capacity)%nat.
Proof. unfold capacity, numWorkers. destruct (Z.eqb_spec (NumWorkers config) 0); lia. Qed.

Definition in_range (h : Z) : Prop := start <= h <= endHeight.

Definition good_result (r : jobResult) : Prop :=
  in_range (job_height r) /\ forall br, job_result r = Ok br -> fetched (job_height r) br.

Definition good_worker (x : worker) : Prop :=
  match x with
  | Got h | Fetching h => in_range h
  | Report r _ => good_result r
  | Idle | Exited => True
  end.

Definition good_map (m : resultMap) : Prop :=
  forall h br, m !! h = Some br -> in_range h /\ fetched h br.

Record safe (w0 : W) (p : pool) : Prop := {
  safe_sender : match sender p with Sending h => start <= h <= endHeight + 1 | Done => True end;
  safe_jobs : Forall in_range (jobs p);
  safe_workers : Forall good_worker (workers p);
  safe_results : Forall good_result (results p);
  safe_map : good_map (pending_results p);
  safe_next : start <= nextHeight p <= endHeight + 1;
  safe_store : match outcome p with
               | Some (Err _) => interrupted w0 (nextHeight p) (store p)
               | _ => committed w0 (nextHeight p) (store p) /\
                      pending_results p !! nextHeight p = None
               end;
}.

Lemma fetchBlockJob_total h w : exists x w', fetchBlockJob config h w = (Ok (mkJob h x), w').
Proof.
  unfold fetchBlockJob. generalize 0 as k. revert w.
  induction (MaxRetries config) as [|n IH]; intros w k; cbn [fetchBlockJob_loop];
    unfold mbind, ST_bind, Sleep, modify, ctxDone, tryST;
    (destruct (0 <? k); cbn; destruct (ctx_Done _) as [[] w1]; [by do 2 eexists| |by do 2 eexists|];
     destruct (client_GetBlockByNumber h w1) as [[b|e] w2]; cbn; try by do 2 eexists);
    try (destruct (client_GetBlockReceipts h w2) as [[rs|e] w3]; cbn; try by do 2 eexists);
    apply IH.
Qed.

Lemma fetch_good h w r w' : in_range h -> fetchBlockJob config h w = (Ok r, w') -> good_result r.
Proof.
  intros Hh H. destruct (fetchBlockJob_total h w) as (x & w1 & H1). rewrite H in H1.
  injection H1 as -> ->. split; [done|]. cbn. intros br ->. by exists w, w1.
Qed.

(** ** The inner loop of the collector *)

Lemma drain_spec w0 fuel m n w : good_map m -> start <= n <= endHeight + 1 ->
  committed w0 n w -> (size m < fuel)%nat ->
  let d := drain fuel m n w in
  good_map (d_map d) /\ n <= d_next d <= endHeight + 1 /\
  match d_err d with
  | Some _ => interrupted w0 (d_next d) (d_store d)
  | None => committed w0 (d_next d) (d_store d) /\ d_map d !! d_next d = None /\
      forall h, is_Some (m !! h) -> is_Some (d_map d !! h) \/ h < d_next d
  end.
Proof.
  revert m n w. induction fuel as [|fuel IH]; intros m n w Hm Hn Hc Hf; [lia|]. cbn [drain].
  destruct (m !! n) as [br|] eqn:Hl; [|cbn; split_and!; auto; lia].
  destruct (Hm n br Hl) as [Hr Hb]. destruct (commit n br w) as [[[]|e] w'] eqn:Hcm.
  2: { cbn. split_and!; auto; [lia..|]. right. exists w, br, e. by destruct Hr. }
  pose proof (committed_next _ _ _ _ _ Hc Hb Hcm) as Hc'.
  rewrite u64_id by (unfold in_range in Hr; split; lia).
  assert (Hm' : good_map (delete n m)) by (intros h x Hx; apply lookup_delete_Some in Hx as [_ Hx]; eauto).
  assert (Hd : forall h, is_Some (m !! h) -> is_Some (delete n m !! h) \/ h < n + 1).
  { intros h Hh. destruct (decide (h = n)) as [->|]; [right; lia|left; by rewrite lookup_delete_ne]. }
  destruct (Z.ltb_spec endHeight (n + 1)).
  - cbn. unfold in_range in Hr. split_and!; auto; [lia..|].
    destruct (delete n m !! (n + 1)) as [x|] eqn:Hx; [|done]. destruct (Hm' _ _ Hx) as [Hy _].
    unfold in_range in Hy. lia.
  - specialize (IH (delete n m) (n + 1) w' Hm' ltac:(lia) Hc').
    assert (Hs : (size (delete n m) < fuel)%nat).
    { rewrite map_size_delete, Hl. cbn. assert (size m <> 0)%nat; [|lia].
      intros H0. apply map_size_empty_inv in H0. subst m. by rewrite lookup_empty in Hl. }
    destruct (IH Hs) as (I1 & I2 & I3). split; [done|]. split; [lia|].
    destruct (d_err _); [done|]. destruct I3 as (J1 & J2 & J3). split_and!; [done..|].
    intros h Hh. destruct (Hd h Hh) as [Hh'|]; [by apply J3|]. right. lia.
Qed.

Lemma collect_spec w0 r m n w : good_result r -> good_map m -> start <= n <= endHeight + 1 ->
  committed w0 n w ->
  let d := collect r m n w in
  good_map (d_map d) /\ n <= d_next d <= endHeight + 1 /\
  match d_err d with
  | Some _ => interrupted w0 (d_next d) (d_store d)
  | None => committed w0 (d_next d) (d_store d) /\ d_map d !! d_next d = None /\
      forall h, is_Some (m !! h) \/ h = job_height r -> is_Some (d_map d !! h) \/ h < d_next d
  end.
Proof.
  intros [Hr Hf] Hm Hn Hc. unfold collect. destruct (job_result r) as [br|e].
  2: { cbn. split_and!; auto; [lia..|]. by left. }
  destruct (drain_spec w0 (S (size (<[job_height r:=br]> m))) (<[job_height r:=br]> m) n w)
    as (D1 & D2 & D3); auto.
  { intros h x [[<- <-]|[_ Hx]]%lookup_insert_Some; auto. }
  split; [done|]. split; [done|]. destruct (d_err _); [done|]. destruct D3 as (J1 & J2 & J3).
  split_and!; [done..|]. intros h Hh. apply J3. destruct (decide (job_height r = h)) as [<-|].
  - by rewrite lookup_insert_eq.
  - rewrite lookup_insert_ne by done. destruct Hh; [done | congruence].
Qed.

(** ** Safety *)

Lemma safe_init w : safe w (init w).
Proof.
  split; cbn; [lia | done | by apply Forall_replicate | done | | lia | ].
  - intros h br. by rewrite lookup_empty.
  - split; [constructor | apply lookup_empty].
Qed.

Lemma Forall_swap {A} (P : A -> Prop) l1 x l2 : Forall P (l1 ++ x :: l2) ->
  P x /\ forall y, P y -> Forall P (l1 ++ y :: l2).
Proof.
  rewrite Forall_app, Forall_cons. intros (H1 & H2 & H3). split; [done|]. intros y Hy.
  by rewrite Forall_app, Forall_cons.
Qed.

Lemma safe_step w0 p p' : step p p' -> safe w0 p -> safe w0 p'.
Proof.
  intros Hs [S1 S2 S3 S4 S5 S6 S7]. destruct Hs; cbn in S1, S2, S3, S4, S5, S6, S7;
    try (apply Forall_swap in S3 as [Hx S3]); try (by split; auto).
  - split; cbn; auto.
    + rewrite u64_id by (split; lia). lia.
    + apply Forall_app. split; [done|]. constructor; [|constructor]. split; lia.
  - apply Forall_cons in S2 as [H1 H2]. split; cbn; auto.
  - split; cbn; auto.
  - split; cbn; auto. apply S3. by split.
  - split; cbn; auto. apply S3. by eapply fetch_good.
  - split; cbn; auto; [apply S3; by destruct final | apply Forall_app; auto].
  - split; cbn; auto.
  - apply Forall_cons in S4 as [H1 H2]. destruct S7 as [S7 _].
    destruct (collect_spec w0 r m n w H1 S5 S6 S7) as (D1 & D2 & D3).
    split; cbn; auto; [lia|]. destruct (d_err _); cbn; [done|]. destruct D3 as (D3 & D4 & _). by split.
Qed.

Lemma safe_reachable w p : reachable w p -> safe w p.
Proof.
  intros H. eapply (rtc_ind_r (safe w)); [apply safe_init | | exact H].
  intros y z _ Hs Hy. by eapply safe_step.
Qed.

(** ** Nothing is lost on the way *)

Definition worker_height (x : worker) : list Z :=
  match x with
  | Got h | Fetching h => [h]
  | Report r _ => [job_height r]
  | Idle | Exited => []
  end.

Definition in_flight (p : pool) : list Z :=
  jobs p ++ flat_map worker_height (workers p) ++ (job_height <$> results p).
#[local] Arguments in_flight : simpl never.

(** The heights up to this one, excluded, have been sent. *)
Definition sent (p : pool) : Z :=
  match sender p with Sending h => h | Done => endHeight + 1 end.

(** As long as the context is alive. *)
Record undisturbed (p : pool) : Prop := {
  und_exited : Exited ∈ workers p -> jobs p = [] /\ sender p = Done;
  und_report : forall r, Report r true ∉ workers p;
  und_cover : (forall e, outcome p <> Some (Err e)) -> forall h, start <= h < sent p ->
    h ∈ in_flight p \/ is_Some (pending_results p !! h) \/ h < nextHeight p;
  und_return : outcome p = Some (Ok tt) -> endHeight < nextHeight p;
}.

Record live (p : pool) : Prop := {
  live_workers : length (workers p) = capacity;
  live_closed : results_closed p = true -> Forall (eq Exited) (workers p);
  live_undisturbed : cancelled p = false -> undisturbed p;
}.

Lemma elem_of_flight_app ws1 ws2 h :
  h ∈ flat_map worker_height (ws1 ++ ws2) <->
  h ∈ flat_map worker_height ws1 \/ h ∈ flat_map worker_height ws2.
Proof. by rewrite flat_map_app, elem_of_app. Qed.

Lemma live_init w : live (init w).
Proof.
  split; cbn; [by rewrite length_replicate | done | intros _].
  split; cbn.
  - intros H. apply elem_of_replicate in H as [H _]. done.
  - intros r H. apply elem_of_replicate in H as [H _]. done.
  - intros _ h Hh. unfold sent in Hh. cbn in Hh. lia.
  - done.
Qed.

(** A worker that still runs keeps the results open. *)
Lemma live_swap rc ws1 x y ws2 : x <> Exited ->
  (rc = true -> Forall (eq Exited) (ws1 ++ x :: ws2)) ->
  rc = true -> Forall (eq Exited) (ws1 ++ y :: ws2).
Proof. intros Hx H Hr. apply H, Forall_swap in Hr as [Hr _]. congruence. Qed.

Lemma elem_of_swap {A} (a x : A) l1 l2 : a ∈ l1 ++ x :: l2 <-> a = x \/ a ∈ l1 ++ l2.
Proof. rewrite !elem_of_app, elem_of_cons. tauto. Qed.

Lemma elem_of_flight js s ws rs rc m n o c w h :
  h ∈ in_flight (mkPool js s ws rs rc m n o c w) <->
  h ∈ js \/ h ∈ flat_map worker_height ws \/ h ∈ job_height <$> rs.
Proof. unfold in_flight. cbn. by rewrite !elem_of_app. Qed.

Lemma elem_of_heights_swap h ws1 x ws2 : h ∈ flat_map worker_height (ws1 ++ x :: ws2) <->
  h ∈ worker_height x \/ h ∈ flat_map worker_height (ws1 ++ ws2).
Proof. rewrite !flat_map_app. cbn. rewrite !elem_of_app. tauto. Qed.

(** One worker moves from [x] to [y], heights pass between it and the channels. *)
Lemma undisturbed_swap js js' s ws1 x y ws2 rs rs' rc m n o c w :
  (js = [] -> js' = []) -> (y = Exited -> js' = [] /\ s = Done) ->
  (forall r, y <> Report r true) ->
  (forall h, h ∈ js \/ h ∈ worker_height x \/ h ∈ job_height <$> rs ->
     h ∈ js' \/ h ∈ worker_height y \/ h ∈ job_height <$> rs') ->
  undisturbed (mkPool js s (ws1 ++ x :: ws2) rs rc m n o c w) ->
  undisturbed (mkPool js' s (ws1 ++ y :: ws2) rs' rc m n o c w).
Proof.
  intros Hjs Hy Hr Hh [U1 U2 U3 U4]. cbn in U1, U2, U4. split; cbn.
  - rewrite elem_of_swap. intros [<-|Hin]; [by apply Hy|].
    destruct U1; [rewrite elem_of_swap; by right|]. auto.
  - intros r. rewrite elem_of_swap. intros [Heq|Hin]; [by eapply Hr|].
    apply (U2 r). rewrite elem_of_swap. by right.
  - intros Ho h Hs. destruct (U3 Ho h Hs) as [Hin|]; [left | by right].
    revert Hin. rewrite !elem_of_flight, !elem_of_heights_swap. specialize (Hh h). tauto.
  - exact U4.
Qed.

Lemma undisturbed_step w0 p p' : step p p' -> safe w0 p -> live p -> cancelled p' = false ->
  undisturbed p'.
Proof.
  intros Hs Hsafe [L1 L2 L3] Hc. pose proof (safe_sender _ _ Hsafe) as Hse.
  destruct Hs; cbn in Hc, L1, L2, L3, Hse; try done; specialize (L3 Hc).
  - destruct L3 as [U1 U2 U3 U4]. split; cbn; auto.
    + intros Hin. by destruct (U1 Hin).
    + intros Ho h1 Hs. unfold sent in Hs. cbn in Hs. rewrite u64_id in Hs by (split; lia).
      rewrite elem_of_flight, elem_of_app, list_elem_of_singleton.
      destruct (decide (h1 = h)) as [->|]; [tauto|].
      destruct (U3 Ho h1) as [Hin|]; [cbn; lia | | by right].
      rewrite elem_of_flight in Hin. tauto.
  - destruct L3 as [U1 U2 U3 U4]. split; cbn; auto.
    + intros Hin. by destruct (U1 Hin).
    + intros Ho h1 Hs. apply U3; [done|]. unfold sent in *. cbn in *. lia.
  - eapply undisturbed_swap; [| | | |exact L3]; try done. intros h1. cbn.
    rewrite !elem_of_cons, elem_of_nil. tauto.
  - eapply undisturbed_swap; [| | | |exact L3]; by auto.
  - destruct (fetchBlockJob_total h w1) as (x & w3 & Hx). rewrite Hx in H. injection H as <- _.
    eapply undisturbed_swap; [| | | |exact L3]; by auto.
  - destruct final.
    { destruct (und_report _ L3 r). cbn. rewrite elem_of_swap. by left. }
    eapply undisturbed_swap; [| | | |exact L3]; try done. intros h1. cbn.
    rewrite fmap_app, elem_of_app. change (job_height <$> [r]) with [job_height r]. tauto.
  - eapply undisturbed_swap; [| | | |exact L3]; by auto.
  - destruct L3 as [U1 U2 U3 U4]. by split.
  - destruct L3 as [U1 U2 U3 U4]. destruct Hsafe as [_ _ _ S4 S5 S6 [S7 _]].
    cbn in S4, S5, S6, S7. apply Forall_cons in S4 as [S4 _].
    destruct (collect_spec w0 r m n w S4 S5 S6 S7) as (_ & Dn & D).
    split; cbn; auto; [|by destruct (d_err _)].
    intros Ho h1 Hs. destruct (d_err _) as [e|]; [by destruct (Ho e)|].
    destruct D as (_ & _ & D). rewrite elem_of_flight.
    destruct (U3 ltac:(done) h1 Hs) as [Hin|[Hin|Hin]].
    + rewrite elem_of_flight in Hin. cbn in Hin. rewrite elem_of_cons in Hin.
      specialize (D h1). tauto.
    + specialize (D h1). tauto.
    + cbn in Hin. right. right. lia.
  - destruct L3 as [U1 U2 U3 U4]. split; cbn; auto.
    intros _. destruct (Z.ltb_spec endHeight n) as [|Hn]; [done|]. exfalso.
    destruct Hsafe as [_ _ _ _ _ S6 [_ S7]]. cbn in S6, S7, U1, U3. specialize (L2 eq_refl).
    assert (Hw : forall x, x ∈ ws -> x = Exited).
    { intros x Hx. rewrite Forall_forall in L2. by rewrite (L2 x Hx). }
    assert (js = [] /\ s = Done) as [-> ->].
    { apply U1. destruct ws as [|x ws]; [|rewrite <- (Hw x); by left].
      cbn in L1. pose proof capacity_pos. lia. }
    destruct (U3 ltac:(done) n) as [Hin|[Hin|Hin]]; [cbn; lia | | | lia].
    + rewrite elem_of_flight in Hin. destruct Hin as [Hin|[Hin|Hin]]; try by apply elem_of_nil in Hin.
      apply list_elem_of_In, in_flat_map in Hin as (x & Hx & Hin). apply list_elem_of_In in Hx.
      rewrite (Hw x Hx) in Hin. done.
    + rewrite S7 in Hin. by destruct Hin.
Qed.

Lemma live_step w0 p p' : step p p' -> safe w0 p -> live p -> live p'.
Proof.
  intros Hs Hsafe Hl. pose proof (undisturbed_step w0 p p' Hs Hsafe Hl) as Hu.
  destruct Hl as [L1 L2 _]. split; [| |exact Hu]; clear Hu Hsafe;
    destruct Hs; cbn in *; auto;
    try (rewrite !length_app in *; cbn in *; lia);
    try (intros Hr; apply L2, Forall_swap in Hr as [Hr _]; discriminate Hr).
Qed.

Lemma reachable_inv w p : reachable w p -> safe w p /\ live p.
Proof.
  intros H. apply (rtc_ind_r (fun p => safe w p /\ live p)) with (x := init w) in H; [done | |].
  - split; [apply safe_init | apply live_init].
  - intros y z _ Hs [H1 H2]. split; [by eapply safe_step | by eapply live_step].
Qed.

(** ** What is complete *)

Section Complete.
Context {V : FetcherView W} {L : FetcherSpec W}.

#[local] Hint Resolve kept_preorder preserves_ret preserves_bind preserves_wrapST : kept.

Lemma fetched_chain h br : fetched h br -> br = (chain_block h, chain_receipts h).
Proof.
  intros (w & w' & H). unfold fetchBlockJob in H. revert w H. generalize 0 as k.
  induction (MaxRetries config) as [|n IH]; intros k w H; cbn [fetchBlockJob_loop] in H;
    unfold mbind, ST_bind, Sleep, modify, ctxDone, tryST in H;
    (destruct (0 <? k); cbn in H; destruct (ctx_Done _) as [[] w1]; try discriminate H;
     destruct (client_GetBlockByNumber h w1) as [[b|e] w2] eqn:Hb; cbn in H; try discriminate H;
     try (by apply IH in H);
     destruct (client_GetBlockReceipts h w2) as [[rs|e] w3] eqn:Hr; cbn in H; try discriminate H;
     try (by apply IH in H); injection H as <- _;
     by rewrite (node_block _ _ _ _ Hb), (node_receipts _ _ _ _ Hr)).
Qed.

Lemma store_loop_kept h l : (forall r, r ∈ l -> r ∈ chain_receipts h) ->
  preserves kept (forST (fun r => _ ← storeReceipt r; indexReceiptLogs r) l).
Proof.
  intros Hl. apply preserves_forST. intros r Hr. apply preserves_bind.
  - eapply preserves_wrapST, SetReceipt_kept, Hl, Hr.
  - intros _. apply index_kept.
Qed.

Lemma store_loop h l w w' : (forall r, r ∈ l -> r ∈ chain_receipts h) ->
  forST (fun r => _ ← storeReceipt r; indexReceiptLogs r) l w = (Ok tt, w') ->
  forall r, r ∈ l -> receipt_at w' r.
Proof.
  revert w. induction l as [|x l IH]; intros w Hl H r Hr; [by apply elem_of_nil in Hr|].
  cbn [forST] in H. inv_ST. repeat match goal with y : unit |- _ => destruct y end.
  apply elem_of_cons in Hr as [->|Hr]; [|eapply IH; [|exact H|done]; intros y Hy; apply Hl; by right].
  match goal with G : storeReceipt x w = _ |- _ => apply wrapST_ok in G end.
  assert (K : kept s0 w').
  { etrans; [eapply kept_snd; [apply index_kept | eassumption]|].
    eapply kept_snd; [|exact H]. apply store_loop_kept with (h := h). intros y Hy. apply Hl. by right. }
  apply K. eapply (SetReceipt_stores h); [apply Hl; by left | eassumption].
Qed.

(** Everything but the last step of [commit]. *)
Definition commit_body (h : Z) (b : Block) (rs : list Receipt) : ST W unit :=
  _ ← wrapST "failed to store block" (storage_SetBlock (Some b));
  _ ← wrapST "failed to process WBFT metadata for block" (processWBFTMetadata b);
  _ ← wrapST "failed to process address indexing for block" (processAddressIndexing b rs);
  _ ← wrapST "failed to process balance tracking for block" (processBalanceTracking b rs);
  _ ← logged (processFeeDelegationMetadata h);
  _ ← publish (BlockEvent b);
  _ ← forST (fun receipt => _ ← storeReceipt receipt; indexReceiptLogs receipt) rs;
  publishTransactions b rs.

Lemma commit_split h b rs w : commit h (b, rs) w =
  (_ ← commit_body h b rs;
   wrapST "failed to update latest height" (storage_SetLatestHeight h)) w.
Proof.
  unfold commit, commit_body, mbind, ST_bind.
  by repeat match goal with
    | |- context [match ?x with (_, _) => _ end] => destruct x as [[?|?] ?]
    end.
Qed.

Lemma publishTransactions_kept b rs : preserves kept (publishTransactions b rs).
Proof.
  unfold publishTransactions. destruct eventBus_Publish as [p|]; [|apply preserves_ret].
  generalize 0 as i. induction (block_Transactions b) as [|t ts IH]; intros i;
    cbn [publishTxEvents]; [apply preserves_ret|].
  apply preserves_bind; [apply publish_kept | intros _; apply IH].
Qed.

Lemma commit_body_kept h : is_u64 h -> preserves kept (commit_body h (chain_block h) (chain_receipts h)).
Proof.
  intros Hu. destruct (stages_kept (chain_block h) (chain_receipts h)) as (H1 & H2 & H3 & _).
  unfold commit_body.
  apply preserves_bind; [by apply preserves_wrapST, SetBlock_kept | intros _].
  do 3 (apply preserves_bind; [by apply preserves_wrapST | intros _]).
  apply preserves_bind; [apply preserves_logged, fees_kept | intros _].
  apply preserves_bind; [apply publish_kept | intros _].
  apply preserves_bind; [by apply store_loop_kept with (h := h) | intros _].
  apply publishTransactions_kept.
Qed.

Lemma commit_body_complete h w w' : is_u64 h ->
  commit_body h (chain_block h) (chain_receipts h) w = (Ok tt, w') -> complete w' h.
Proof.
  intros Hu H. unfold commit_body in H. inv_ST.
  destruct (stages_kept (chain_block h) (chain_receipts h)) as (K1 & K2 & K3 & _).
  repeat match goal with x : unit |- _ => destruct x end.
  repeat match goal with
    | G : publishTransactions _ _ _ = _ |- _ =>
        apply kept_snd in G; [|apply publishTransactions_kept]
    | G : publish _ _ = _ |- _ => apply kept_snd in G; [|apply publish_kept]
    | G : logged _ _ = _ |- _ => apply kept_snd in G; [|apply preserves_logged, fees_kept]
    | G : processWBFTMetadata _ _ = _ |- _ => apply kept_snd in G; [|exact K1]
    | G : processAddressIndexing _ _ _ = _ |- _ => apply kept_snd in G; [|exact K2]
    | G : processBalanceTracking _ _ _ = _ |- _ => apply kept_snd in G; [|exact K3]
    | G : storage_SetBlock _ _ = _ |- _ => apply SetBlock_stores in G; [|done]
    | G : forST _ _ _ = _ |- _ =>
        pose proof (store_loop h _ _ _ (fun r Hr => Hr) G);
        apply kept_snd in G; [|by apply store_loop_kept with (h := h)]
    end.
  clear K1 K2 K3.
  assert (Hk : forall w1, kept w1 w' -> (forall h, block_at w1 h -> block_at w' h) /\
    forall r, receipt_at w1 r -> receipt_at w' r) by (intros w1 Hw; apply Hw).
  split; [|intros r Hr]; eapply Hk; [|eassumption| |match goal with
    G : forall r, _ -> receipt_at _ r |- _ => by apply G end];
    repeat (etrans; [eassumption|]); reflexivity.
Qed.

Lemma commit_outcome h w : is_u64 h ->
  match commit h (chain_block h, chain_receipts h) w with
  | (Ok _, w') => complete w' h /\ latest w' = Some h /\ kept_data w w'
  | (Err _, w') => latest w' = latest w /\ kept_data w w'
  end.
Proof.
  intros Hu. rewrite commit_split. unfold mbind, ST_bind, wrapST.
  pose proof (commit_body_kept h Hu w) as Hb. pose proof (commit_body_complete h w) as Hd.
  destruct (commit_body _ _ _ w) as [[[]|e2] w2]; [|exact Hb].
  destruct (storage_SetLatestHeight h w2) as [r w3] eqn:Hs.
  apply SetLatestHeight_spec in Hs as [K Hl]; [|done]. specialize (Hd w2 Hu eq_refl).
  destruct Hb as [J1 J2]. cbn [snd] in *. pose proof (kept_data_trans _ _ _ J2 K) as Hk.
  destruct r as [[]|e3]; cbn in Hl |- *; [|by split; [congruence|]].
  split; [eapply complete_kept; [exact K | exact Hd] | by split].
Qed.

(** Every height from [start] up to [n], excluded, is complete, and the last of them is
    the latest; nothing stored before is lost. *)
Definition indexed_to (w0 : W) (n : Z) (w : W) : Prop :=
  (forall h, start <= h < n -> complete w h) /\
  latest w = (if n =? start then latest w0 else Some (n - 1)) /\ kept_data w0 w.

Lemma committed_indexed w0 n w : committed w0 n w -> n <= endHeight + 1 ->
  start <= n /\ indexed_to w0 n w.
Proof.
  intros H. induction H as [|n w br w' _ IH Hf Hc]; intros Hn.
  { split; [lia|]. split; [intros h Hh; lia|]. by rewrite Z.eqb_refl. }
  destruct IH as (In & I1 & I2 & I3); [lia|]. split; [lia|].
  apply fetched_chain in Hf. subst br. pose proof (commit_outcome n w ltac:(split; lia)) as Ho.
  rewrite Hc in Ho. destruct Ho as (O1 & O2 & O3). split; [|split].
  - intros h Hh. destruct (decide (h = n)) as [->|]; [done|]. eapply complete_kept, I1; [done | lia].
  - rewrite O2. destruct (Z.eqb_spec (n + 1) start); [lia|]. f_equal. lia.
  - by eapply kept_data_trans.
Qed.

Lemma interrupted_indexed w0 n w : interrupted w0 n w -> n <= endHeight + 1 -> indexed_to w0 n w.
Proof.
  intros [H|(w1 & br & e & Hle & H & Hf & Hc)] Hn; [by apply committed_indexed|].
  apply committed_indexed in H as (In & I1 & I2 & I3); [|done].
  apply fetched_chain in Hf. subst br.
  pose proof (commit_outcome n w1 ltac:(split; lia)) as Ho. rewrite Hc in Ho. destruct Ho as [O1 O2].
  split; [|split].
  - intros h Hh. by eapply complete_kept, I1.
  - congruence.
  - by eapply kept_data_trans.
Qed.

(** Storing a list of heights one after the other, with what the chain has for them. *)
Definition commit_all (hs : list Z) : ST W unit :=
  forST (fun h => commit h (chain_block h, chain_receipts h)) hs.

Lemma forST_app {S A} (f : A -> ST S unit) l1 l2 (s s1 : S) :
  forST f l1 s = (Ok tt, s1) -> forST f (l1 ++ l2) s = forST f l2 s1.
Proof.
  revert s. induction l1 as [|x l1 IH]; intros s H; cbn [forST app] in *; [by injection H as ->|].
  unfold mbind, ST_bind in *. destruct (f x s) as [[[]|e] s2]; [by apply IH | done].
Qed.

Lemma committed_commit_all w0 n w : committed w0 n w -> start <= n /\
  commit_all (seqZ start (n - start)) w0 = (Ok tt, w).
Proof.
  induction 1 as [|n w br w' _ [Hn IH] Hf Hc]; [by rewrite Z.sub_diag|]. split; [lia|].
  replace (n + 1 - start) with ((n - start) + 1) by lia. rewrite seqZ_app by lia.
  unfold commit_all in *. rewrite (forST_app _ _ _ _ _ IH). apply fetched_chain in Hf. subst br.
  replace (start + (n - start)) with n by lia. change (seqZ n 1) with [0 + n]. cbn [forST].
  unfold mbind, ST_bind. rewrite Z.add_0_l. by rewrite Hc.
Qed.

(** C4: at any moment of any interleaving, with the node or the storage failing at any
    point, the heights below the next one are complete and it is exactly them that the
    call has indexed: blocks are stored in the order of their heights, none is skipped,
    the latest height is the last of them, and nothing stored before is lost. *)
Theorem pool_in_order w p (Hp : reachable w p) :
  start <= nextHeight p <= endHeight + 1 /\
  indexed_to w (nextHeight p) (store p) /\ interrupted w (nextHeight p) (store p).
Proof.
  apply reachable_inv in Hp as [[_ _ _ _ _ Hn Hst] _]. split; [done|].
  assert (Hi : interrupted w (nextHeight p) (store p)).
  { destruct (outcome p) as [[[]|e]|]; [left; apply Hst | done | left; apply Hst]. }
  split; [apply interrupted_indexed; [done | lia] | done].
Qed.

(** C6: when the call returns without an error and the context was not cancelled, the
    store is what storing all blocks of the range one after the other leaves, whatever
    the interleaving was; all of them are complete. *)
Theorem pool_complete w p (Hp : reachable w p) (Ho : outcome p = Some (Ok tt))
  (Hc : cancelled p = false) :
  commit_all (seqZ start (endHeight + 1 - start)) w = (Ok tt, store p) /\
  indexed_to w (endHeight + 1) (store p).
Proof.
  apply reachable_inv in Hp as [[_ _ _ _ _ Hn Hst] Hl].
  pose proof (und_return _ (live_undisturbed _ Hl Hc) Ho). rewrite Ho in Hst.
  assert (Hnext : nextHeight p = endHeight + 1) by lia. rewrite Hnext in Hst.
  destruct Hst as [Hst _].
  split; [by apply committed_commit_all | apply committed_indexed; [done | lia]].
Qed.

End Complete.

(** ** It ends, and never waits for ever *)

Definition weight (x : worker) : nat :=
  match x with Got _ => 5 | Fetching _ => 4 | Report _ _ => 3 | Idle => 1 | Exited => 0 end.

Definition unsent (s : producer) : nat :=
  match s with Sending h => 6 * Z.to_nat (endHeight + 1 - h) + 1 | Done => 0 end.

(** Every step makes this smaller. *)
Definition work (p : pool) : nat :=
  unsent (sender p) + 5 * length (jobs p) + sum_list_with weight (workers p) +
  length (results p) + (if results_closed p then 0 else 1) +
  (if outcome p is Some _ then 0 else 1) + (if cancelled p then 0 else 1).

Lemma weight_swap ws1 x ws2 :
  sum_list_with weight (ws1 ++ x :: ws2) = (weight x + sum_list_with weight (ws1 ++ ws2))%nat.
Proof. rewrite !sum_list_with_app. cbn. lia. Qed.

Lemma work_step w0 p p' : step p p' -> safe w0 p -> (work p' < work p)%nat.
Proof.
  intros Hs Hsafe. pose proof (safe_sender _ _ Hsafe) as Hse. destruct Hs; cbn in Hse;
    unfold work; cbn [unsent sender jobs workers results results_closed outcome cancelled];
    rewrite ?weight_swap, ?length_app; cbn [length weight]; try lia.
  - rewrite u64_id by (split; lia). lia.
  - destruct final; cbn; lia.
  - destruct (d_err _); cbn; lia.
Qed.

Lemma worker_cases (ws : list worker) : Forall (eq Exited) ws \/
  exists ws1 x ws2, ws = ws1 ++ x :: ws2 /\ x <> Exited.
Proof.
  induction ws as [|x ws [IH|(ws1 & y & ws2 & -> & Hy)]]; [by left | |].
  - destruct x; try (right; by eexists [], _, ws). left. by constructor.
  - right. by exists (x :: ws1), y, ws2.
Qed.

(** C11: a call of [FetchRangeConcurrent] for a range that ends below 2^64-1, with a number of
    workers that is not negative, ends in every interleaving: no execution goes on for ever,
    and as long as it has not returned some goroutine can act, without the context being
    cancelled. (A range up to 2^64-1 is left out: there the loop of the sender wraps to zero
    and never ends.) *)
Theorem pool_terminates w p (Hp : reachable w p) :
  Acc (flip step) p /\
  (outcome p = None -> exists p', step p p' /\ cancelled p' = cancelled p).
Proof.
  apply reachable_inv in Hp as [Hs Hl]. split.
  - clear Hl. revert Hs. induction (well_founded_ltof _ work p) as [p _ IH]. intros Hs.
    constructor. intros p' Hp'. apply IH; [by eapply work_step | by eapply safe_step].
  - intros Ho. destruct p as [js s ws rs rc m n o c w1]. cbn in Ho. subst o.
    destruct rs as [|r rs]; [|eexists; split; [apply step_collect | done]].
    destruct rc; [eexists; split; [apply step_return | done]|]. pose proof capacity_pos as Hc.
    destruct (worker_cases ws) as [Hw|(ws1 & x & ws2 & -> & Hx)];
      [eexists; split; [by apply step_close | done]|].
    destruct x as [|h|h|r final|].
    + destruct js as [|h js]; [|eexists; split; [apply step_take | done]].
      destruct s as [h|]; [|eexists; split; [apply step_exit | done]].
      destruct (Z.ltb_spec endHeight h); eexists;
        (split; [first [apply step_send_end; lia | apply step_send; [lia | done]] | done]).
    + destruct c; eexists; (split; [apply step_poll_cancelled || apply step_poll | done]).
    + destruct (fetchBlockJob_total h w1) as (x & w2 & Hf).
      eexists; split; [by eapply step_fetch | done].
    + eexists; split; [by apply step_report | done].
    + done.
Qed.

(** ** Returning early *)

Lemma exit_all rs m n w k ws : 
  rtc step (mkPool [] Done (ws ++ replicate k Idle) rs false m n None true w)
           (mkPool [] Done (ws ++ replicate k Exited) rs false m n None true w).
Proof.
  revert ws. induction k as [|k IH]; intros ws; cbn [replicate]; [reflexivity|].
  eapply rtc_l; [apply step_exit|].
  replace (ws ++ Exited :: replicate k Idle) with ((ws ++ [Exited]) ++ replicate k Idle)
    by by rewrite <- app_assoc.
  replace (ws ++ Exited :: replicate k Exited) with ((ws ++ [Exited]) ++ replicate k Exited)
    by by rewrite <- app_assoc.
  apply IH.
Qed.

(** Until the sender is done no height from its next one on is on the way, waits to be
    stored or is stored. *)
Definition nothing_beyond (p : pool) : Prop :=
  forall h, sender p = Sending h ->
    nextHeight p <= h /\ (forall x, x ∈ in_flight p -> x < h) /\
    (forall x, is_Some (pending_results p !! x) -> x < h).

Lemma drain_below b fuel m n w : 0 <= n <= b -> (forall x, is_Some (m !! x) -> x < b) ->
  let d := drain fuel m n w in
  d_next d <= b /\ forall x, is_Some (d_map d !! x) -> x < b.
Proof.
  revert m n w. induction fuel as [|fuel IH]; intros m n w Hn Hm; cbn [drain];
    [split; [cbn; lia | exact Hm]|].
  destruct (m !! n) as [br|] eqn:Hl; [|split; [cbn; lia | exact Hm]].
  pose proof (Hm n (mk_is_Some _ _ Hl)) as Hb.
  destruct (commit n br w) as [[[]|e] w']; [|split; [cbn; lia | exact Hm]].
  assert (Hm' : forall x, is_Some (delete n m !! x) -> x < b)
    by (intros x [y [_ Hx]%lookup_delete_Some]; eauto).
  assert (0 <= u64 (n + 1) <= b).
  { pose proof (u64_range (n + 1)) as [? _]. pose proof (Z.mod_le (n + 1) two64) as Hle.
    unfold u64, two64 in *. lia. }
  destruct (_ <? _); [split; [cbn; lia | exact Hm']|]. by apply IH.
Qed.

Lemma collect_below b r m n w : 0 <= n <= b -> job_height r < b ->
  (forall x, is_Some (m !! x) -> x < b) ->
  let d := collect r m n w in
  d_next d <= b /\ forall x, is_Some (d_map d !! x) -> x < b.
Proof.
  intros Hn Hr Hm. unfold collect. destruct (job_result r) as [br|e].
  - apply drain_below; [exact Hn|]. intros x [y [[<- _]|[_ Hx]]%lookup_insert_Some]; eauto.
  - split; [cbn; lia | exact Hm].
Qed.

(** The heights on the way after a step were on the way before it, or are the one sent. *)
Lemma in_flight_step p p' x : step p p' -> x ∈ in_flight p' ->
  x ∈ in_flight p \/
  sender p = Sending x /\ sender p' = Sending (u64 (x + 1)) /\ x <= endHeight.
Proof.
  intros Hs. destruct Hs; rewrite ?elem_of_flight, ?elem_of_heights_swap; cbn [worker_height];
    rewrite ?elem_of_app, ?list_elem_of_singleton, ?elem_of_cons, ?elem_of_nil; try tauto.
  - intros [[?| ->]|?]; tauto.
  - destruct (fetchBlockJob_total h w1) as (y & w3 & Hy). rewrite Hy in H.
    injection H as <- _. cbn. tauto.
  - rewrite fmap_app, elem_of_app. change (job_height <$> [r]) with [job_height r].
    rewrite list_elem_of_singleton. destruct final; cbn; rewrite ?elem_of_nil; tauto.
  - cbn [d_map]. rewrite fmap_cons, elem_of_cons. tauto.
Qed.

Lemma sender_step p p' h' : step p p' -> sender p' = Sending h' ->
  sender p = Sending h' \/ exists h, sender p = Sending h /\ h <= endHeight /\ h' = u64 (h + 1).
Proof. intros Hs Hh. destruct Hs; cbn in Hh |- *; try discriminate Hh; eauto. injection Hh. eauto. Qed.

Lemma nothing_beyond_step w0 p p' : step p p' -> safe w0 p -> nothing_beyond p ->
  nothing_beyond p'.
Proof.
  intros Hs Hsafe Hb h0 Hh0. pose proof (safe_sender _ _ Hsafe) as Hse.
  assert (Hu : forall h, sender p = Sending h -> h <= endHeight -> u64 (h + 1) = h + 1).
  { intros h Hh ?. rewrite Hh in Hse. apply u64_id. split; lia. }
  assert (exists h, sender p = Sending h /\ h <= h0) as (h & Hp & Hle).
  { destruct (sender_step _ _ _ Hs Hh0) as [Hp|(h & Hp & Hle & ->)]; [by eexists|].
    exists h. rewrite Hu by done. split; [done | lia]. }
  destruct (Hb h Hp) as (B1 & B2 & B3).
  assert (Hf : forall x, x ∈ in_flight p' -> x < h0).
  { intros x Hx. destruct (in_flight_step _ _ _ Hs Hx) as [H|(Hx1 & Hx2 & Hx3)].
    - specialize (B2 x H). lia.
    - rewrite Hu in Hx2 by done. assert (x + 1 = h0) by congruence. lia. }
  assert (Hm : forall x, is_Some (pending_results p !! x) -> x < h0)
    by (intros x Hx; specialize (B3 x Hx); lia).
  destruct Hs; cbn in B1, Hm |- *; try (split; [lia | split; [exact Hf | exact Hm]]).
  destruct Hsafe as [_ _ _ _ _ S6 _]. cbn in S6.
  destruct (collect_below h0 r m n w) as [D1 D2]; [lia | | exact Hm |].
  - assert (job_height r < h); [|lia]. apply B2. rewrite elem_of_flight. right. right. left.
  - split; [exact D1 | split; [exact Hf | exact D2]].
Qed.

Lemma nothing_beyond_reachable w p : reachable w p -> nothing_beyond p.
Proof.
  intros H. enough (safe w p /\ nothing_beyond p) by tauto.
  apply (rtc_ind_r (fun p => safe w p /\ nothing_beyond p)) with (x := init w) in H; [done | |].
  - split; [apply safe_init|]. intros h [= <-]. cbn. split_and!; [lia | |].
    + intros x. unfold init. rewrite elem_of_flight. intros [H1|[H1|H1]]; [by apply elem_of_nil in H1 | |by apply elem_of_nil in H1].
      exfalso. revert H1. generalize capacity as k. induction k; cbn; [by rewrite elem_of_nil | done].
    + intros x. rewrite lookup_empty. by intros [? ?].
  - intros y z _ Hs [H1 H2]. split; [by eapply safe_step | by eapply nothing_beyond_step].
Qed.

(** C40: cancelling a call can make it return nil with heights of the range neither fetched
    nor stored. In every state a call can reach in which the context is cancelled, all its
    workers wait for a job, both channels are empty and the sender is about to send a height
    [h] of the range, nothing from [h] on is stored, and there is an execution from there
    that stores nothing more and returns without an error. (When the sender still gets [h]
    to a worker before it sees the cancellation, the call returns the error of the context.) *)
Theorem pool_cancel_returns_ok w p h (Hp : reachable w p) (Hc : cancelled p = true)
  (Hidle : Forall (eq Idle) (workers p)) (Hjobs : jobs p = []) (Hres : results p = [])
  (Hsend : sender p = Sending h) (Hh : h <= endHeight) (Ho : outcome p = None) :
  nextHeight p <= h /\
  exists p', rtc step p p' /\ outcome p' = Some (Ok tt) /\
    nextHeight p' = nextHeight p /\ store p' = store p.
Proof.
  destruct (reachable_inv w p Hp) as [Hsafe [L1 L2 _]].
  split; [by apply (nothing_beyond_reachable w p Hp h)|].
  destruct p as [js s ws rs rc m n o c w1]. cbn in *. subst js s rs o c.
  assert (Hws : ws = replicate capacity Idle).
  { symmetry. by apply replicate_as_Forall. }
  assert (rc = false) as ->.
  { destruct rc; [|done]. specialize (L2 eq_refl). pose proof capacity_pos.
    rewrite Hws in L2. destruct capacity; [lia|]. cbn in L2. by apply Forall_cons in L2 as [? _]. }
  rewrite Hws.
  exists (mkPool [] Done (replicate capacity Exited) [] true m n (Some (Ok tt)) true w1).
  split; [|done].
  eapply rtc_l; [by apply step_send_cancelled|].
  etrans; [apply (exit_all [] m n w1 capacity [])|]. cbn [app].
  eapply rtc_l; [apply step_close; by apply Forall_replicate|].
  apply rtc_once, step_return.
Qed.

(** A single worker that reports while the results are full and nobody receives. *)
Definition stuck (e : error) (r1 r : jobResult) (c : bool) (w : W) : pool :=
  mkPool [] Done [Report r false] [r1] false ∅ start
    (Some (Err (Wrap "failed to fetch block" e))) c w.

Lemma stuck_step e r1 r c w p' : capacity = 1%nat -> step (stuck e r1 r c w) p' ->
  exists c', p' = stuck e r1 r c' w.
Proof.
  intros Hc H. unfold stuck in H. inversion H; subst; try (by eexists);
    try (destruct ws1 as [|? [|]]; simplify_eq; cbn in *; lia).
  by match goal with H1 : Forall _ [_] |- _ => apply Forall_cons in H1 as [H1 _] end.
Qed.

Lemma stuck_forever e r1 r c w p' : capacity = 1%nat -> rtc step (stuck e r1 r c w) p' ->
  exists c', p' = stuck e r1 r c' w.
Proof.
  intros Hc H. remember (stuck e r1 r c w) as p eqn:Hp. revert c Hp.
  induction H as [p|p p1 p2 Hs _ IH]; intros c ->; [by exists c|].
  apply stuck_step in Hs as [c' ->]; [|done]. by eapply IH.
Qed.

(** One worker takes, fetches and reports a height. *)
Lemma one_worker h js s rs m n o w x w1 w2 : capacity = 1%nat ->
  fetchBlockJob config h w1 = (Ok x, w2) ->
  rtc step (mkPool (h :: js) s [Idle] rs false m n o false w)
           (mkPool js s [Report x false] rs false m n o false w).
Proof.
  intros Hc Hf. eapply rtc_l; [apply (step_take _ _ _ [] [])|].
  eapply rtc_l; [apply (step_poll _ _ _ [] [])|].
  apply rtc_once. exact (step_fetch _ _ _ [] [] _ _ _ _ _ _ _ _ _ _ Hf).
Qed.

Lemma one_send h ws rs m n w o : capacity = 1%nat -> start <= h <= endHeight ->
  step (mkPool [] (Sending h) ws rs false m n o false w)
       (mkPool [h] (Sending (h + 1)) ws rs false m n o false w).
Proof.
  intros Hc Hh. rewrite <- (u64_id (h + 1)) by (split; lia).
  apply (step_send []); [lia | cbn; lia].
Qed.

(** After a fetch error the call returns and nobody receives any more: with one
    worker and three heights, that worker then blocks for ever on its last result, even
    when the context is cancelled. *)
Theorem pool_leaks w e w1 w2 (Hone : NumWorkers config = 1) (Hlen : endHeight = start + 2)
  (Hfail : fetchBlockJob config start w1 = (Ok (mkJob start (Err e)), w2)) :
  exists p r, reachable w p /\ outcome p = Some (Err (Wrap "failed to fetch block" e)) /\
    forall p', rtc step p p' -> workers p' = [Report r false].
Proof.
  assert (Hc : capacity = 1%nat) by (unfold capacity, numWorkers; by rewrite Hone).
  destruct (fetchBlockJob_total (start + 1) w) as (x1 & v1 & Hx1).
  destruct (fetchBlockJob_total (start + 1 + 1) w) as (x2 & v2 & Hx2).
  set (r1 := mkJob (start + 1) x1) in *. set (r2 := mkJob (start + 1 + 1) x2) in *.
  exists (stuck e r1 r2 false w), r2. split; [|split; [done|]].
  2: { intros p' H. by apply stuck_forever in H as [c ->]. }
  unfold reachable, init, stuck. rewrite Hc. cbn [replicate].
  eapply rtc_l; [apply one_send; [done | lia]|]. etrans; [by eapply one_worker|].
  eapply rtc_l; [apply (step_report _ _ [] _ _ []); cbn; lia|].
  eapply rtc_l; [apply step_collect|]. cbn.
  eapply rtc_l; [apply one_send; [done | lia]|]. etrans; [by eapply one_worker|].
  eapply rtc_l; [apply (step_report _ _ [] _ _ []); cbn; lia|]. cbn.
  eapply rtc_l; [apply one_send; [done | lia]|]. etrans; [by eapply one_worker|].
  apply rtc_once, step_send_end. lia.
Qed.

End Pool.

(** * The theorems at a concrete storage and node *)

Definition one_worker_config : Config := mkConfig 6 10 2 1000 1.

Definition mem_world0 : world (P := mem_pebble) := (mem_storage, []).

Definition mem_job : jobResult (C := mem_chain) := mkJob 7 (Ok (mem_block1, [mem_receipt1])).

(** Block 7 is fetched and stored, and the call returns. *)
Lemma one_block_run : exists p, reachable one_worker_config 7 7 mem_world0 p /\
  outcome p = Some (Ok tt) /\ cancelled p = false.
Proof.
  assert (Hc : capacity one_worker_config = 1%nat) by reflexivity.
  assert (Hf : fetchBlockJob one_worker_config 7 mem_world0 =
    (Ok mem_job, mem_world0)) by reflexivity.
  set (d := collect 7 mem_job ∅ 7 mem_world0).
  assert (Hd : d_err d = None) by (vm_compute; reflexivity).
  exists (mkPool [] Done [Exited] [] true (d_map d) (d_next d) (Some (Ok tt)) false (d_store d)).
  split; [|split; reflexivity]. unfold reachable, init. rewrite Hc. cbn [replicate].
  eapply rtc_l; [apply (one_send one_worker_config 7 7); [lia | reflexivity | exact Hc | lia]|].
  etrans; [exact (one_worker _ _ _ _ _ _ _ _ _ _ _ _ _ Hc Hf)|].
  eapply rtc_l; [apply (step_report _ _ _ _ [] _ _ []); rewrite Hc; cbn; lia|].
  eapply rtc_l; [apply step_collect|]. cbv zeta. fold d. rewrite Hd. cbn [fmap option_fmap option_map].
  eapply rtc_l; [apply step_send_end; lia|].
  eapply rtc_l; [apply (step_exit _ _ _ [] [])|].
  eapply rtc_l; [apply step_close; by constructor|].
  apply rtc_once, step_return.
Qed.

Lemma pool_terminates_witness : exists p,
  step one_worker_config 7 (init one_worker_config 7 mem_world0) p /\
  Acc (flip (step one_worker_config 7)) (init one_worker_config 7 mem_world0).
Proof.
  destruct (pool_terminates one_worker_config 7 7 ltac:(lia) ltac:(reflexivity) ltac:(cbn; lia)
              mem_world0 (init one_worker_config 7 mem_world0)) as [H1 H2]; [apply rtc_refl|].
  destruct (H2 eq_refl) as (p & Hp & _). exists p. split; [exact Hp | exact H1].
Defined.

Lemma pool_in_order_witness : exists p, reachable one_worker_config 7 7 mem_world0 p /\
  indexed_to 7 mem_world0 (nextHeight p) (store p).
Proof.
  destruct one_block_run as (p & Hp & _). exists p. split; [exact Hp|].
  apply (pool_in_order one_worker_config 7 7 ltac:(lia) ltac:(reflexivity) ltac:(cbn; lia)
           mem_world0 p Hp).
Defined.

Lemma pool_complete_witness : exists p, reachable one_worker_config 7 7 mem_world0 p /\
  commit_all [7] mem_world0 = (Ok tt, store p) /\ complete (store p) 7.
Proof.
  destruct one_block_run as (p & Hp & Ho & Hc). exists p. split; [exact Hp|].
  destruct (pool_complete one_worker_config 7 7 ltac:(lia) ltac:(reflexivity) ltac:(cbn; lia)
              mem_world0 p Hp Ho Hc) as (H1 & H2 & _).
  split; [exact H1 | apply H2; lia].
Defined.

(** The call is cancelled before it sends its first height. *)
Lemma pool_cancel_returns_ok_witness : exists p, reachable one_worker_config 7 9 mem_world0 p /\
  outcome p = Some (Ok tt) /\ nextHeight p = 7 /\ store p = mem_world0.
Proof.
  pose (p0 := mkPool [] (Sending 7) [Idle] [] false ∅ 7 None true mem_world0).
  assert (Hp : reachable one_worker_config 7 9 mem_world0 p0) by (apply rtc_once, step_cancel).
  destruct (pool_cancel_returns_ok one_worker_config 7 9 ltac:(lia) ltac:(reflexivity)
              ltac:(cbn; lia) mem_world0 p0 7 Hp eq_refl)
    as (_ & p & H1 & H2 & H3 & H4);
    [by constructor | reflexivity | reflexivity | reflexivity | lia | reflexivity |].
  exists p. split; [unfold reachable in *; by etrans|]. split; [exact H2|].
  split; [exact H3 | exact H4].
Defined.

(** Heights above 8 are not served. *)
Lemma pool_leaks_witness : exists p r, reachable one_worker_config 9 11 mem_world0 p /\
  workers p = [Report r false].
Proof.
  destruct (pool_leaks one_worker_config 9 11 ltac:(lia) ltac:(reflexivity) mem_world0
              (Wrap "failed to fetch block after attempts" (External 404))
              mem_world0 mem_world0) as (p & r & H1 & _ & H2);
    [reflexivity | reflexivity | reflexivity |].
  exists p, r. split; [exact H1 | apply H2, rtc_refl].
Defined.
