(* ===== verification/Filter.v ===== *)
(** Filter: the subscription filters of the event bus.

    Models pkg/events/filter.go and the events of pkg/events/types.go as far as the
    filters read them. A pointer that may be nil is an option. The value of a transaction
    event is a string made by [big.Int.String], which [SetString] reads back: it is the
    integer here. Of [CustomData] the code looks at one key only, where it expects a
    slice of strings. *)
From S2P Require Import Prelude Eth.

(** * Events *)

Record EventLog := mkEventLog {
  log_Address : Address;
  log_Topics : list Hash;
  log_BlockNumber : Z;
}.

Record TransactionData := mkTransactionData {
  tx_BlockNumber : Z;
  tx_From : Address;
  tx_To : option Address;
  tx_Value : Z;
}.

Record SystemContractData := mkSystemContractData {
  sc_Contract : Address;
  sc_EventName : string;
  sc_BlockNumber : Z;
}.

Inductive Event :=
| EvBlock (Number : Z)
| EvTransaction (data : TransactionData)
| EvLog (log : option EventLog)
| EvChainConfig (BlockNumber : Z)
| EvValidatorSet (BlockNumber : Z)
| EvSystemContract (data : SystemContractData).

Definition EventTypeBlock : string := "block".
Definition EventTypeTransaction : string := "transaction".
Definition EventTypeLog : string := "log".
Definition EventTypeChainConfig : string := "chainConfig".
Definition EventTypeValidatorSet : string := "validatorSet".
Definition EventTypeSystemContract : string := "systemContract".

Definition EventType (e : Event) : string :=
  match e with
  | EvBlock _ => EventTypeBlock
  | EvTransaction _ => EventTypeTransaction
  | EvLog _ => EventTypeLog
  | EvChainConfig _ => EventTypeChainConfig
  | EvValidatorSet _ => EventTypeValidatorSet
  | EvSystemContract _ => EventTypeSystemContract
  end.

(** * Filters *)

(** A value of [CustomData]: a slice of strings, or anything else. *)
Inductive custom := Strings (l : list string) | Other.

Record Filter := mkFilter {
  Addresses : list Address;
  FromAddresses : list Address;
  ToAddresses : list Address;
  MinValue : option Z;
  MaxValue : option Z;
  FromBlock : Z;
  ToBlock : Z;
  Topics : list (list Hash);
  CustomData : gmap string custom;
}.

Definition NewFilter : Filter := mkFilter [] [] [] None None 0 0 [] ∅.

Definition Validate (f : Filter) : res unit :=
  match MinValue f, MaxValue f with
  | Some lo, Some hi =>
      if hi <? lo then Err (Errorf "minValue cannot be greater than maxValue") else Ok tt
  | _, _ => Ok tt
  end ≫= fun _ =>
  if (0 <? FromBlock f) && (0 <? ToBlock f) && (ToBlock f <? FromBlock f)
  then Err (Errorf "fromBlock cannot be greater than toBlock")
  else match MinValue f with
       | Some lo => if lo <? 0 then Err (Errorf "minValue cannot be negative") else Ok tt
       | None => Ok tt
       end ≫= fun _ =>
       match MaxValue f with
       | Some hi => if hi <? 0 then Err (Errorf "maxValue cannot be negative") else Ok tt
       | None => Ok tt
       end.

(** Zero means no bound. *)
Definition in_blocks (f : Filter) (n : Z) : bool :=
  negb ((0 <? FromBlock f) && (n <? FromBlock f)) && negb ((0 <? ToBlock f) && (ToBlock f <? n)).

(** [len(l) == 0] or one of [l] satisfies [p]. *)
Definition any_of {A} (l : list A) (p : A -> bool) : bool :=
  match l with [] => true | _ => existsb p l end.

Definition MatchBlock (f : Filter) (number : Z) : bool := in_blocks f number.

Definition MatchTransaction (f : Filter) (e : TransactionData) : bool :=
  in_blocks f (tx_BlockNumber e) &&
  any_of (Addresses f) (fun a => bool_decide (tx_From e = a) || bool_decide (tx_To e = Some a)) &&
  any_of (FromAddresses f) (fun a => bool_decide (tx_From e = a)) &&
  any_of (ToAddresses f) (fun a => bool_decide (tx_To e = Some a)) &&
  match MinValue f with Some lo => lo <=? tx_Value e | None => true end &&
  match MaxValue f with Some hi => tx_Value e <=? hi | None => true end.

Definition MatchSystemContract (f : Filter) (e : SystemContractData) : bool :=
  in_blocks f (sc_BlockNumber e) &&
  any_of (Addresses f) (fun a => bool_decide (sc_Contract e = a)) &&
  match CustomData f !! "eventTypes"%string with
  | Some (Strings eventTypes) => any_of eventTypes (fun t => bool_decide (sc_EventName e = t))
  | _ => true
  end.

(** The topics position by position; an empty set matches anything. *)
Fixpoint match_topics (sets : list (list Hash)) (topics : list Hash) : bool :=
  match sets with
  | [] => true
  | [] :: sets' => match_topics sets' (tail topics)
  | set :: sets' =>
      match topics with
      | [] => false
      | t :: topics' => existsb (fun x => bool_decide (t = x)) set && match_topics sets' topics'
      end
  end.

Definition MatchLog (f : Filter) (log : option EventLog) : bool :=
  match log with
  | None => false
  | Some l =>
      in_blocks f (log_BlockNumber l) &&
      any_of (Addresses f) (fun a => bool_decide (log_Address l = a)) &&
      match_topics (Topics f) (log_Topics l)
  end.

Definition Match (f : Filter) (e : Event) : bool :=
  match e with
  | EvBlock n => MatchBlock f n
  | EvTransaction d => MatchTransaction f d
  | EvLog l => MatchLog f l
  | EvSystemContract d => MatchSystemContract f d
  | EvChainConfig _ | EvValidatorSet _ => false
  end.

Definition IsEmpty (f : Filter) : bool :=
  (length (Addresses f) =? 0)%nat && (length (FromAddresses f) =? 0)%nat &&
  (length (ToAddresses f) =? 0)%nat && negb (bool_decide (is_Some (MinValue f))) &&
  negb (bool_decide (is_Some (MaxValue f))) && (FromBlock f =? 0) && (ToBlock f =? 0) &&
  (length (Topics f) =? 0)%nat && (size (CustomData f) =? 0)%nat.

(** The copy has every field but [CustomData]. *)
Definition Clone (f : Filter) : Filter :=
  mkFilter (Addresses f) (FromAddresses f) (ToAddresses f) (MinValue f) (MaxValue f)
    (FromBlock f) (ToBlock f) (Topics f) ∅.

(** * What a filter accepts *)

(** The topics of [eth_subscribe]: every position with a set has one of its topics. *)
Lemma match_topics_spec sets topics : match_topics sets topics = true <->
  forall i set, sets !! i = Some set -> set <> [] -> exists t, topics !! i = Some t /\ t ∈ set.
Proof.
  revert topics. induction sets as [|set sets IH]; intros topics; cbn [match_topics].
  { split; [intros _ i set Hi; by rewrite lookup_nil in Hi | done]. }
  assert (Hnext : (forall i s, (set :: sets) !! i = Some s -> s <> [] ->
      exists t, topics !! i = Some t /\ t ∈ s) <->
    (set <> [] -> exists t, topics !! 0%nat = Some t /\ t ∈ set) /\
    (forall i s, sets !! i = Some s -> s <> [] -> exists t, tail topics !! i = Some t /\ t ∈ s)).
  { split.
    - intros H. split; [by apply (H 0%nat)|]. intros i s Hi Hs.
      destruct (H (S i) s Hi Hs) as (t & Ht & Hin). exists t. split; [|done]. by destruct topics.
    - intros [H1 H2] [|i] s Hi Hs; [injection Hi as <-; auto|].
      destruct (H2 i s Hi Hs) as (t & Ht & Hin). exists t. split; [|done]. by destruct topics. }
  rewrite Hnext, <- IH. destruct set as [|x set]; [naive_solver|].
  destruct topics as [|t topics]; cbn [tail].
  - split; [done|]. intros [H _]. by destruct H as (t & Ht & _).
  - rewrite andb_true_iff, existsb_exists. split.
    + intros [(y & Hy & Heq) H]. apply bool_decide_eq_true in Heq. subst y. split; [|done].
      intros _. exists t. split; [done | by apply list_elem_of_In].
    + intros [H1 H2]. split; [|done]. destruct H1 as (t' & [= <-] & Hin); [done|].
      exists t. split; [by apply list_elem_of_In | by apply bool_decide_eq_true].
Qed.

Lemma any_of_spec {A} (l : list A) p : any_of l p = true <-> l = [] \/ exists a, a ∈ l /\ p a = true.
Proof.
  destruct l as [|x l]; cbn [any_of]; [naive_solver|]. rewrite existsb_exists.
  setoid_rewrite <- list_elem_of_In. naive_solver.
Qed.

(** * Cloning a filter *)

(** The names a filter asks of a system contract event. *)
Definition event_names (f : Filter) : list string :=
  match CustomData f !! "eventTypes"%string with Some (Strings names) => names | _ => [] end.

Lemma MatchSystemContract_names f e : MatchSystemContract f e =
  in_blocks f (sc_BlockNumber e) &&
  any_of (Addresses f) (fun a => bool_decide (sc_Contract e = a)) &&
  any_of (event_names f) (fun t => bool_decide (sc_EventName e = t)).
Proof. unfold MatchSystemContract, event_names. by repeat case_match. Qed.

Lemma Match_Clone f e : Match (Clone f) e =
  match e with
  | EvSystemContract d => in_blocks f (sc_BlockNumber d) &&
      any_of (Addresses f) (fun a => bool_decide (sc_Contract d = a))
  | _ => Match f e
  end.
Proof.
  destruct e; try done. cbn [Match]. rewrite MatchSystemContract_names. unfold event_names. cbn.
  by rewrite lookup_empty, andb_true_r.
Qed.

(** A valid filter accepts some block. *)
Lemma Validate_block f : Validate f = Ok tt -> in_blocks f (FromBlock f) = true.
Proof.
  unfold Validate, in_blocks. intros Hv.
  assert (Hb : (0 <? FromBlock f) && (0 <? ToBlock f) && (ToBlock f <? FromBlock f) = false).
  { destruct (_ && _ && _); [|done]. destruct (MinValue f), (MaxValue f); cbn in Hv; try done.
    by destruct (_ <? _). }
  rewrite Z.ltb_irrefl, andb_false_r. cbn.
  destruct (0 <? ToBlock f) eqn:H1, (ToBlock f <? FromBlock f) eqn:H2; try done.
  destruct (0 <? FromBlock f) eqn:H3; [done|]. lia.
Qed.

Lemma any_of_hd (l : list Address) d : any_of l (fun a => bool_decide (hd d l = a)) = true.
Proof.
  apply any_of_spec. destruct l as [|a l]; [by left|right].
  exists a. split; [set_solver | by apply bool_decide_eq_true].
Qed.

(** C35: the copy that [Subscribe] keeps accepts every event the filter accepts, and the
    same events exactly when the filter asks for no event names: [Clone] drops
    [CustomData], so a filter on the names of system contract events, cloned, accepts
    events of other names. *)
Theorem Clone_match f : Validate f = Ok tt ->
  (forall e, Match f e = true -> Match (Clone f) e = true) /\
  ((forall e, Match (Clone f) e = Match f e) <-> event_names f = []).
Proof.
  intros Hv. split.
  - intros e. rewrite Match_Clone. destruct e; try done. cbn [Match].
    rewrite MatchSystemContract_names. by intros [? _]%andb_true_iff.
  - split.
    + intros Heq. destruct (event_names f) as [|t names] eqn:Hn; [done|].
      specialize (Heq (EvSystemContract (mkSystemContractData (hd (zero_array 20) (Addresses f))
        (fresh (t :: names)) (FromBlock f)))).
      rewrite Match_Clone in Heq. cbn [Match] in Heq.
      rewrite MatchSystemContract_names, Hn in Heq. cbn [sc_BlockNumber sc_Contract sc_EventName] in Heq.
      rewrite (Validate_block f Hv), any_of_hd in Heq. cbn [andb] in Heq. symmetry in Heq.
      apply any_of_spec in Heq as [?|(x & Hx & Hd)]; [done|].
      apply bool_decide_eq_true in Hd. subst x. by apply infinite_is_fresh in Hx.
    + intros Hn e. rewrite Match_Clone. destruct e; try done. cbn [Match].
      rewrite MatchSystemContract_names, Hn. cbn. by rewrite andb_true_r.
Qed.

(** The filter of logs: a log is accepted exactly when its block is between the bounds
    that are set, its address is one of the addresses when there are any, and every topic
    position with a set has one of the topics of that set. *)
Theorem MatchLog_spec f l : MatchLog f (Some l) = true <->
  ((0 < FromBlock f -> FromBlock f <= log_BlockNumber l) /\
   (0 < ToBlock f -> log_BlockNumber l <= ToBlock f)) /\
  (Addresses f = [] \/ log_Address l ∈ Addresses f) /\
  (forall i set, Topics f !! i = Some set -> set <> [] ->
     exists t, log_Topics l !! i = Some t /\ t ∈ set).
Proof.
  unfold MatchLog. rewrite !andb_true_iff, match_topics_spec, any_of_spec.
  assert (Hb : in_blocks f (log_BlockNumber l) = true <->
    (0 < FromBlock f -> FromBlock f <= log_BlockNumber l) /\
    (0 < ToBlock f -> log_BlockNumber l <= ToBlock f)) by (unfold in_blocks; lia).
  assert (Ha : (exists a, a ∈ Addresses f /\ bool_decide (log_Address l = a) = true) <->
    log_Address l ∈ Addresses f).
  { split; [intros (a & Hin & ->%bool_decide_eq_true); done|].
    intros Hin. exists (log_Address l). split; [done | by apply bool_decide_eq_true]. }
  rewrite Hb, Ha. tauto.
Qed.

Definition named_filter : Filter :=
  mkFilter [] [] [] None None 0 0 [] {[ "eventTypes"%string := Strings ["Mint"%string] ]}.

Lemma Clone_match_witness : Validate named_filter = Ok tt /\
  ~ (forall e, Match (Clone named_filter) e = Match named_filter e).
Proof.
  split; [reflexivity|]. intros H. apply (proj2 (Clone_match named_filter eq_refl)) in H.
  discriminate H.
Defined.
