(* ===== verification/EventBus.v ===== *)
(** EventBus: publishing events to subscribers.

    Models pkg/events/bus.go. Subscriptions are Go objects that the bus, a replaying
    caller and the subscriber share, so they live in a heap and are reached by pointers;
    a channel is its buffer, its capacity and whether it is closed. The operations are
    atomic where the code holds a lock; [step] interleaves publishers, the main loop,
    subscribers, replays and the shutdown. Timestamps, metrics and the information
    getters are not modelled. *)
From stdpp Require Import relations.
From S2P Require Import Prelude Eth Filter.

Abbreviation ptr := nat.
Abbreviation SubscriptionID := string.

Record Subscription := mkSub {
  EventTypes : gset string;
  SubFilter : option Filter;
  chan_buf : list Event;
  chan_cap : nat;
  chan_closed : bool;
  EventsReceived : Z;
  EventsDropped : Z;
}.

Record EventBus := mkBus {
  subs : gmap ptr Subscription;              (* the heap *)
  subscribers : gmap SubscriptionID ptr;
  publishCh : list Event;
  publishCap : nat;
  ctx_cancelled : bool;
  done : bool;
  eventHistory : list (option Event);
  eventHistoryIdx : nat;
  totalEvents : Z;
  totalDeliveries : Z;
  droppedEvents : Z;
}.

Definition eventHistorySize (b : EventBus) : nat := length (eventHistory b).

Definition DefaultEventHistorySize : nat := 100.

(** A negative buffer size panics, like any negative channel size. *)
Definition NewEventBusWithHistory (publishBufferSize : nat) (historySize : Z) : EventBus :=
  let n := if historySize <=? 0 then DefaultEventHistorySize else Z.to_nat historySize in
  mkBus ∅ ∅ [] publishBufferSize false false (replicate n None) 0 0 0 0.

Definition set_sub (p : ptr) (s : Subscription) (b : EventBus) : EventBus :=
  mkBus (<[p := s]> (subs b)) (subscribers b) (publishCh b) (publishCap b) (ctx_cancelled b)
    (done b) (eventHistory b) (eventHistoryIdx b) (totalEvents b) (totalDeliveries b)
    (droppedEvents b).

(** * Publishing *)

(** The second [select] of [Publish]: send if the buffered channel has room. *)
Definition publish_send (e : Event) (b : EventBus) : bool * EventBus :=
  if (length (publishCh b) <? publishCap b)%nat then
    (true, mkBus (subs b) (subscribers b) (publishCh b ++ [e]) (publishCap b) (ctx_cancelled b)
             (done b) (eventHistory b) (eventHistoryIdx b) (totalEvents b) (totalDeliveries b)
             (droppedEvents b))
  else (false, b).

Definition Publish (e : Event) (b : EventBus) : bool * EventBus :=
  if ctx_cancelled b then (false, b) else publish_send e b.

Definition storeEventInHistory (e : Event) (b : EventBus) : EventBus :=
  mkBus (subs b) (subscribers b) (publishCh b) (publishCap b) (ctx_cancelled b) (done b)
    (<[eventHistoryIdx b := Some e]> (eventHistory b))
    ((eventHistoryIdx b + 1) mod eventHistorySize b)%nat
    (totalEvents b) (totalDeliveries b) (droppedEvents b).

(** A subscription wants an event of one of its types that its filter accepts. *)
Definition wants (types : gset string) (filter : option Filter) (e : Event) : bool :=
  bool_decide (EventType e ∈ types) &&
  match filter with None => true | Some f => Match f e end.

(** The entries from the oldest to the newest. *)
Definition history_entries (b : EventBus) : list (option Event) :=
  (fun i => default None (eventHistory b !! ((eventHistoryIdx b + i) mod eventHistorySize b)%nat))
    <$> seq 0 (eventHistorySize b).

Definition getRecentEvents (n : Z) (types : gset string) (filter : option Filter) (b : EventBus)
  : list Event :=
  let n := if (n <=? 0) || (Z.of_nat (eventHistorySize b) <? n)
           then eventHistorySize b else Z.to_nat n in
  let matched := omap (fun o => e ← o; if wants types filter e then Some e else None)
                   (history_entries b) in
  drop (length matched - n) matched.

(** [select { case ch <- e: ... default: ... }] on an open channel. *)
Definition try_send (e : Event) (s : Subscription) : bool * Subscription :=
  if (length (chan_buf s) <? chan_cap s)%nat then
    (true, mkSub (EventTypes s) (SubFilter s) (chan_buf s ++ [e]) (chan_cap s) (chan_closed s)
             (u64 (EventsReceived s + 1)) (EventsDropped s))
  else
    (false, mkSub (EventTypes s) (SubFilter s) (chan_buf s) (chan_cap s) (chan_closed s)
              (EventsReceived s) (u64 (EventsDropped s + 1))).

(** One round of the loop over the subscribers. Sending on a closed channel panics, and
    so does a nil subscription: [None]. *)
Definition deliver (e : Event) (b : EventBus) (p : ptr) : option EventBus :=
  match subs b !! p with
  | None => None
  | Some s =>
      if wants (EventTypes s) (SubFilter s) e then
        if chan_closed s then None
        else
          let '(sent, s') := try_send e s in
          Some (mkBus (<[p := s']> (subs b)) (subscribers b) (publishCh b) (publishCap b)
                  (ctx_cancelled b) (done b) (eventHistory b) (eventHistoryIdx b) (totalEvents b)
                  (if sent : bool then u64 (totalDeliveries b + 1) else totalDeliveries b)
                  (if sent then droppedEvents b else u64 (droppedEvents b + 1)))
      else Some b
  end.

Fixpoint deliver_all (e : Event) (ps : list ptr) (b : EventBus) : option EventBus :=
  match ps with
  | [] => Some b
  | p :: ps' => b' ← deliver e b p; deliver_all e ps' b'
  end.

(** The iteration order of a Go map is any order of its entries: [ps]. *)
Definition broadcastEvent (e : Event) (ps : list ptr) (b : EventBus) : option EventBus :=
  deliver_all e ps b.

(** The main loop takes an event, counts it and stores it; it broadcasts it next. *)
Definition Run_take (b : EventBus) : option (Event * EventBus) :=
  match publishCh b with
  | [] => None
  | e :: rest =>
      Some (e, storeEventInHistory e
        (mkBus (subs b) (subscribers b) rest (publishCap b) (ctx_cancelled b) (done b)
           (eventHistory b) (eventHistoryIdx b) (u64 (totalEvents b + 1))
           (totalDeliveries b) (droppedEvents b)))
  end.

(** * Subscriptions *)

Definition close_chan (s : Subscription) : Subscription :=
  mkSub (EventTypes s) (SubFilter s) (chan_buf s) (chan_cap s) true
    (EventsReceived s) (EventsDropped s).

(** Closing a closed channel panics. *)
Definition close_sub (m : option (gmap ptr Subscription)) (p : ptr)
  : option (gmap ptr Subscription) :=
  m ← m; s ← m !! p; if chan_closed s then None else Some (<[p := close_chan s]> m).

Definition closeAllSubscriptions (b : EventBus) : option EventBus :=
  m ← foldl close_sub (Some (subs b)) (map_to_list (subscribers b)).*2;
  Some (mkBus m ∅ (publishCh b) (publishCap b) (ctx_cancelled b) (done b) (eventHistory b)
          (eventHistoryIdx b) (totalEvents b) (totalDeliveries b) (droppedEvents b)).

(** The main loop ends: [Run] returns and [done] is closed. *)
Definition Run_stop (b : EventBus) : option EventBus :=
  b1 ← closeAllSubscriptions b;
  Some (mkBus (subs b1) (subscribers b1) (publishCh b1) (publishCap b1) (ctx_cancelled b1) true
          (eventHistory b1) (eventHistoryIdx b1) (totalEvents b1) (totalDeliveries b1)
          (droppedEvents b1)).

Definition cancel (b : EventBus) : EventBus :=
  mkBus (subs b) (subscribers b) (publishCh b) (publishCap b) true (done b) (eventHistory b)
    (eventHistoryIdx b) (totalEvents b) (totalDeliveries b) (droppedEvents b).

(** The checks before a subscription is registered; no lock is held. *)
Definition Subscribe_check (filter : option Filter) (b : EventBus) : bool :=
  negb (ctx_cancelled b) && match filter with None => true | Some f => is_ok (Validate f) end.

(** Registering the subscription at the fresh pointer [p]. *)
Definition register (p : ptr) (id : SubscriptionID) (eventTypes : list string)
  (filter : option Filter) (channelSize : Z) (b : EventBus) : EventBus :=
  let cap := if channelSize <=? 0 then 100%nat else Z.to_nat channelSize in
  let s := mkSub (list_to_set eventTypes) (Clone <$> filter) [] cap false 0 0 in
  mkBus (<[p := s]> (subs b)) (<[id := p]> (subscribers b)) (publishCh b) (publishCap b)
    (ctx_cancelled b) (done b) (eventHistory b) (eventHistoryIdx b) (totalEvents b)
    (totalDeliveries b) (droppedEvents b).

(** [None] is Go's nil, returned when the bus is stopped or the filter invalid. The replay
    is a separate operation. *)
Definition Subscribe (p : ptr) (id : SubscriptionID) (eventTypes : list string)
  (filter : option Filter) (channelSize : Z) (b : EventBus) : option ptr * EventBus :=
  if Subscribe_check filter b then (Some p, register p id eventTypes filter channelSize b)
  else (None, b).

Definition Unsubscribe (id : SubscriptionID) (b : EventBus) : option EventBus :=
  match subscribers b !! id with
  | None => Some b
  | Some p =>
      m ← close_sub (Some (subs b)) p;
      Some (mkBus m (delete id (subscribers b)) (publishCh b) (publishCap b) (ctx_cancelled b)
              (done b) (eventHistory b) (eventHistoryIdx b) (totalEvents b) (totalDeliveries b)
              (droppedEvents b))
  end.

(** One event of [replayEventsToSubscriber]; no lock is held. *)
Definition replay_one (e : Event) (p : ptr) (b : EventBus) : option EventBus :=
  s ← subs b !! p;
  if chan_closed s then None else Some (set_sub p (snd (try_send e s)) b).

(** The subscriber receives. *)
Definition receive (p : ptr) (b : EventBus) : option (Event * EventBus) :=
  s ← subs b !! p;
  match chan_buf s with
  | [] => None
  | e :: rest =>
      Some (e, set_sub p (mkSub (EventTypes s) (SubFilter s) rest (chan_cap s) (chan_closed s)
                            (EventsReceived s) (EventsDropped s)) b)
  end.

Definition SubscriberCount (b : EventBus) : nat := size (subscribers b).

(** * Interleavings *)

(** A call that has passed its checks and has more to do: [Publish] before its send;
    [SubscribeWithOptions] before it registers, before it reads the history, and with the
    events it has not replayed yet. *)
Inductive call :=
| Publishing (e : Event)
| Registering (id : SubscriptionID) (types : list string) (filter : option Filter) (size count : Z)
| ReadHistory (p : ptr) (count : Z)
| SendHistory (p : ptr) (es : list Event).

(** The bus, the event the main loop holds and the calls under way; and what has happened:
    the events stored and broadcast, for every subscription the number of events broadcast
    before it was registered, the subscriptions that asked for a replay, and the events
    each subscriber has received. *)
Record world := mkWorld {
  bus : EventBus;
  current : option Event;
  calls : list call;
  stored : list Event;
  sent : list Event;
  since : gmap ptr nat;
  replaying : gset ptr;
  taken : gmap ptr (list Event);
}.

Definition taken_by (w : world) (p : ptr) : list Event := default [] (taken w !! p).

Definition set_bus (b : EventBus) (w : world) : world :=
  mkWorld b (current w) (calls w) (stored w) (sent w) (since w) (replaying w) (taken w).

Definition set_calls (cs : list call) (w : world) : world :=
  mkWorld (bus w) (current w) cs (stored w) (sent w) (since w) (replaying w) (taken w).

(** The order in which a loop meets the subscribers is any order. *)
Definition order_of (b : EventBus) (ps : list ptr) : Prop := ps ≡ₚ (map_to_list (subscribers b)).*2.

Inductive result := Running (w : world) | Panicked.

Definition run (f : EventBus -> world) (b : option EventBus) : result :=
  match b with None => Panicked | Some b' => Running (f b') end.

Inductive step : world -> result -> Prop :=
| step_publish w e : ctx_cancelled (bus w) = false ->
    step w (Running (set_calls (Publishing e :: calls w) w))
| step_publish_send w e cs : calls w ≡ₚ Publishing e :: cs ->
    step w (Running (set_calls cs (set_bus (snd (publish_send e (bus w))) w)))
| step_take w e b : done (bus w) = false -> current w = None -> Run_take (bus w) = Some (e, b) ->
    step w (Running (mkWorld b (Some e) (calls w) (stored w ++ [e]) (sent w) (since w)
                       (replaying w) (taken w)))
| step_broadcast w e ps : current w = Some e -> order_of (bus w) ps ->
    step w (run (fun b => mkWorld b None (calls w) (stored w) (sent w ++ [e]) (since w)
                            (replaying w) (taken w)) (broadcastEvent e ps (bus w)))
| step_stop w : done (bus w) = false -> current w = None -> ctx_cancelled (bus w) = true ->
    step w (run (fun b => set_bus b w) (Run_stop (bus w)))
| step_cancel w : step w (Running (set_bus (cancel (bus w)) w))
| step_subscribe w id types filter size count : Subscribe_check filter (bus w) = true ->
    step w (Running (set_calls (Registering id types filter size count :: calls w) w))
| step_register w p id types filter size count cs :
    calls w ≡ₚ Registering id types filter size count :: cs -> subs (bus w) !! p = None ->
    step w (Running (mkWorld (register p id types filter size (bus w)) (current w)
      (if 0 <? count then ReadHistory p count :: cs else cs) (stored w) (sent w)
      (<[p := length (sent w)]> (since w))
      (if 0 <? count then {[p]} ∪ replaying w else replaying w) (taken w)))
| step_replay_read w p count s cs : calls w ≡ₚ ReadHistory p count :: cs ->
    subs (bus w) !! p = Some s ->
    step w (Running (set_calls
      (SendHistory p (getRecentEvents count (EventTypes s) (SubFilter s) (bus w)) :: cs) w))
| step_replay_send w p e es cs : calls w ≡ₚ SendHistory p (e :: es) :: cs ->
    step w (run (fun b => set_calls (SendHistory p es :: cs) (set_bus b w)) (replay_one e p (bus w)))
| step_replay_end w p cs : calls w ≡ₚ SendHistory p [] :: cs -> step w (Running (set_calls cs w))
| step_unsubscribe w id : step w (run (fun b => set_bus b w) (Unsubscribe id (bus w)))
| step_receive w p e b : receive p (bus w) = Some (e, b) ->
    step w (Running (mkWorld b (current w) (calls w) (stored w) (sent w) (since w) (replaying w)
                       (<[p := taken_by w p ++ [e]]> (taken w)))).

Definition next (w w' : world) : Prop := step w (Running w').

(** The publish channel is buffered: an unbuffered one is not modelled. *)
Definition init (publishBufferSize : nat) (historySize : Z) : world :=
  mkWorld (NewEventBusWithHistory publishBufferSize historySize) None [] [] [] ∅ ∅ ∅.

Definition reachable (w : world) : Prop := exists n k, (0 < n)%nat /\ rtc next (init n k) w.

(** * The ring buffer is the list of the last events *)

(** The last [k] elements of a list. *)
Definition lastn {A} (k : nat) (l : list A) : list A := drop (length l - k) l.

Lemma lastn_snoc {A} k (l : list A) x : (0 < k)%nat -> lastn k (l ++ [x]) = lastn (k - 1) l ++ [x].
Proof.
  intros Hk. unfold lastn. rewrite length_app. cbn [length].
  replace (length l + 1 - k)%nat with (length l - (k - 1))%nat by lia.
  rewrite drop_app_le by lia. done.
Qed.

(** [ring h i l]: the slots of [h] from [i] on, around the end, are the last entries of
    [l], preceded by empty slots while [l] is short. *)
Definition rotate (i : nat) {A} (h : list A) : list A := drop i h ++ take i h.

Definition ring (h : list (option Event)) (i : nat) (l : list Event) : Prop :=
  (i < length h)%nat /\
  rotate i h = replicate (length h - length l) None ++ (Some <$> lastn (length h) l).

Lemma ring_init n : (0 < n)%nat -> ring (replicate n None) 0 [].
Proof.
  intros Hn. split; [by rewrite length_replicate|]. unfold rotate, lastn.
  rewrite length_replicate. cbn. by rewrite Nat.sub_0_r, !app_nil_r.
Qed.

Lemma rotate_app {A} (h1 h2 : list A) : rotate (length h1) (h1 ++ h2) = h2 ++ h1.
Proof. unfold rotate. by rewrite drop_app_length, take_app_length. Qed.

Lemma rotate_insert {A} i (h : list A) x : (i < length h)%nat ->
  rotate ((i + 1) mod length h) (<[i := x]> h) = tail (rotate i h) ++ [x].
Proof.
  intros Hi. destruct (lookup_lt_is_Some_2 h i Hi) as [y Hy].
  apply list_elem_of_split_length in Hy as (h1 & h2 & -> & ->).
  rewrite rotate_app, insert_app_r_alt, Nat.sub_diag by lia. cbn [insert list_insert app tail].
  rewrite length_app. cbn [length]. destruct h2 as [|z h2].
  - replace (length h1 + 1)%nat with (length h1 + length [x])%nat by done. cbn [length].
    rewrite Nat.Div0.mod_same. unfold rotate. cbn. by rewrite app_nil_r.
  - rewrite Nat.mod_small by (cbn; lia).
    replace (length h1 + 1)%nat with (length (h1 ++ [x])) by (rewrite length_app; cbn; lia).
    change (x :: z :: h2) with ([x] ++ z :: h2). rewrite app_assoc, rotate_app. by rewrite app_assoc.
Qed.

Lemma tail_drop {A} (l : list A) : tail l = drop 1 l.
Proof. by destruct l. Qed.

Lemma ring_store h i l e : ring h i l ->
  ring (<[i := Some e]> h) ((i + 1) mod length h) (l ++ [e]).
Proof.
  intros [Hi Hr]. split; [rewrite length_insert; apply Nat.mod_upper_bound; lia|].
  rewrite rotate_insert, Hr by done. rewrite length_insert, length_app. cbn [length].
  rewrite lastn_snoc, fmap_app by lia. rewrite app_assoc. cbn. f_equal.
  unfold lastn. destruct (decide (length l < length h)%nat).
  - replace (length h - length l)%nat with (S (length h - (length l + 1))) by lia. cbn [replicate app tail].
    do 2 f_equal. replace (length l - length h)%nat with 0%nat by lia.
    by replace (length l - (length h - 1))%nat with 0%nat by lia.
  - replace (length h - length l)%nat with 0%nat by lia.
    replace (length h - (length l + 1))%nat with 0%nat by lia. cbn [replicate app].
    replace (length l - (length h - 1))%nat with (S (length l - length h)) by lia.
    rewrite tail_drop, <- fmap_drop, drop_drop. do 2 f_equal. lia.
Qed.

Lemma rotate_lookup {A} i (h : list A) j : (i < length h)%nat -> (j < length h)%nat ->
  rotate i h !! j = h !! ((i + j) mod length h)%nat.
Proof.
  intros Hi Hj. unfold rotate. destruct (decide (j < length h - i)%nat).
  - rewrite lookup_app_l by (rewrite length_drop; lia). rewrite lookup_drop, Nat.mod_small by lia.
    done.
  - rewrite lookup_app_r by (rewrite length_drop; lia). rewrite length_drop, lookup_take_lt by lia.
    replace (i + j)%nat with (j - (length h - i) + 1 * length h)%nat by lia.
    rewrite Nat.Div0.mod_add, Nat.mod_small by lia. done.
Qed.

Lemma history_rotate b : (eventHistoryIdx b < eventHistorySize b)%nat ->
  history_entries b = rotate (eventHistoryIdx b) (eventHistory b).
Proof.
  intros Hi. unfold history_entries, eventHistorySize in *.
  assert (Hlen : length (rotate (eventHistoryIdx b) (eventHistory b)) = length (eventHistory b)).
  { unfold rotate. rewrite length_app, length_drop, length_take. lia. }
  apply list_eq. intros j. rewrite list_lookup_fmap.
  destruct (decide (j < length (eventHistory b))%nat) as [Hj|Hj].
  - rewrite lookup_seq_lt, rotate_lookup by done. cbn [fmap option_fmap option_map Nat.add]. 
    destruct (lookup_lt_is_Some_2 (eventHistory b) ((eventHistoryIdx b + j) mod length (eventHistory b)))
      as [x Hx]; [apply Nat.mod_upper_bound; lia|].  rewrite Hx. done.
  - rewrite lookup_seq_ge by lia. symmetry. apply lookup_ge_None. lia.
Qed.

Lemma omap_wanted types filter k l :
  omap (fun o => e ← o; if wants types filter e then Some e else None)
    (replicate k None ++ (Some <$> l)) = List.filter (wants types filter) l.
Proof.
  rewrite omap_app. replace (omap _ (replicate k None)) with (@nil Event) by (induction k; done).
  cbn [app]. induction l as [|e l IH]; [done|]. cbn. destruct (wants types filter e); [|done].
  by rewrite <- IH.
Qed.

Lemma recent_events n types filter b l : ring (eventHistory b) (eventHistoryIdx b) l ->
  getRecentEvents n types filter b =
  lastn (if (n <=? 0) || (Z.of_nat (eventHistorySize b) <? n) then eventHistorySize b else Z.to_nat n)
    (List.filter (wants types filter) (lastn (eventHistorySize b) l)).
Proof.
  intros [Hi Hr]. unfold getRecentEvents. rewrite history_rotate, Hr, omap_wanted by done. done.
Qed.

(** * Loops over the subscribers *)

(** What the broadcast of an event does to a subscription. *)
Definition served (e : Event) (s : Subscription) : Subscription :=
  if wants (EventTypes s) (SubFilter s) e then snd (try_send e s) else s.

(** Everything but the heap and the statistics of the bus. *)
Definition frame (b : EventBus) :=
  (subscribers b, publishCh b, publishCap b, ctx_cancelled b, done b, eventHistory b, eventHistoryIdx b).

Lemma deliver_spec e b p s : subs b !! p = Some s -> chan_closed s = false ->
  exists b', deliver e b p = Some b' /\ subs b' = <[p := served e s]> (subs b) /\ frame b' = frame b.
Proof.
  intros Hs Ho. unfold deliver, served. rewrite Hs, Ho. destruct (wants _ _ e).
  - destruct (try_send e s) as [sent s'] eqn:Ht. eexists. split; [done|]. done.
  - exists b. by rewrite insert_id.
Qed.

Lemma served_closed e s : chan_closed (served e s) = chan_closed s.
Proof. unfold served, try_send. by repeat case_match. Qed.

Lemma deliver_all_spec e ps b : NoDup ps ->
  (forall p, p ∈ ps -> exists s, subs b !! p = Some s /\ chan_closed s = false) ->
  exists b', deliver_all e ps b = Some b' /\ frame b' = frame b /\
    forall p, subs b' !! p = if decide (p ∈ ps) then served e <$> subs b !! p else subs b !! p.
Proof.
  revert b. induction ps as [|p ps IH]; intros b Hnd Hopen; cbn [deliver_all].
  { exists b. split_and!; [done..|]. intros p. by rewrite decide_False by apply not_elem_of_nil. }
  apply NoDup_cons in Hnd as [Hp Hnd].
  destruct (Hopen p) as (s & Hs & Ho); [set_solver|].
  destruct (deliver_spec e b p s Hs Ho) as (b1 & -> & Hsub & Hf). cbn.
  destruct (IH b1 Hnd) as (b' & -> & Hf' & Hget).
  { intros q Hq. rewrite Hsub, lookup_insert_ne by set_solver. apply Hopen. set_solver. }
  exists b'. split_and!; [done | congruence|]. intros q. rewrite Hget, Hsub.
  destruct (decide (q = p)) as [->|Hne].
  - rewrite decide_False, decide_True by set_solver. by rewrite lookup_insert_eq, Hs.
  - rewrite lookup_insert_ne by done. repeat case_decide; set_solver.
Qed.

Lemma close_all_spec ps m : NoDup ps ->
  (forall p, p ∈ ps -> exists s, m !! p = Some s /\ chan_closed s = false) ->
  exists m', foldl close_sub (Some m) ps = Some m' /\
    forall p, m' !! p = if decide (p ∈ ps) then close_chan <$> m !! p else m !! p.
Proof.
  revert m. induction ps as [|p ps IH]; intros m Hnd Hopen; cbn [foldl].
  { exists m. split; [done|]. intros p. by rewrite decide_False by apply not_elem_of_nil. }
  apply NoDup_cons in Hnd as [Hp Hnd].
  destruct (Hopen p) as (s & Hs & Ho); [set_solver|].
  cbn. rewrite Hs. cbn. rewrite Ho.
  destruct (IH (<[p := close_chan s]> m) Hnd) as (m' & -> & Hget).
  { intros q Hq. rewrite lookup_insert_ne by set_solver. apply Hopen. set_solver. }
  exists m'. split; [done|]. intros q. rewrite Hget.
  destruct (decide (q = p)) as [->|Hne].
  - rewrite decide_False, decide_True by set_solver. by rewrite lookup_insert_eq, Hs.
  - rewrite lookup_insert_ne by done. repeat case_decide; set_solver.
Qed.

(** * The invariant of the bus *)

Definition replay_ptr (c : call) : option ptr :=
  match c with ReadHistory p _ | SendHistory p _ => Some p | _ => None end.

(** [p] is registered, under some id. *)
Definition live (b : EventBus) (p : ptr) : Prop := exists id, subscribers b !! id = Some p.

(** The registered subscriptions are distinct open channels of the heap; the replays under
    way are those of subscriptions that asked for one; the history is the ring of the
    stored events, which are the broadcast ones and the one the main loop holds. *)
Record wf (w : world) : Prop := mkWf {
  wf_open : forall p, live (bus w) p -> exists s, subs (bus w) !! p = Some s /\ chan_closed s = false;
  wf_inj : forall id id' p, subscribers (bus w) !! id = Some p ->
    subscribers (bus w) !! id' = Some p -> id = id';
  wf_replay : forall c p, c ∈ calls w -> replay_ptr c = Some p ->
    p ∈ replaying w /\ is_Some (subs (bus w) !! p);
  wf_heap : forall p, subs (bus w) !! p = None -> (p ∉ replaying w) /\ taken w !! p = None;
  wf_ring : ring (eventHistory (bus w)) (eventHistoryIdx (bus w)) (stored w);
  wf_sent : stored w = sent w ++ option_list (current w);
}.

(** What the subscriber of [p] has received or will receive from the buffer, and what was
    broadcast for it since it was registered. *)
Definition got (w : world) (p : ptr) (s : Subscription) : list Event := taken_by w p ++ chan_buf s.

Definition due (w : world) (p : ptr) (s : Subscription) : list Event :=
  List.filter (wants (EventTypes s) (SubFilter s)) (drop (default 0%nat (since w !! p)) (sent w)).

(** The account of a subscription: its buffer respects the capacity and, without replay,
    it got part of what was due, in order; while registered, all of it but the dropped. *)
Record account (w : world) (p : ptr) (s : Subscription) : Prop := mkAccount {
  acc_cap : (0 < chan_cap s /\ length (chan_buf s) <= chan_cap s)%nat;
  acc_since : (default 0 (since w !! p) <= length (sent w))%nat;
  acc_sub : p ∉ replaying w -> sublist (got w p s) (due w p s);
  acc_count : p ∉ replaying w -> EventsReceived s = u64 (Z.of_nat (length (got w p s)));
  acc_drop : p ∉ replaying w -> live (bus w) p -> exists d : nat,
    EventsDropped s = u64 (Z.of_nat d) /\ (length (got w p s) + d = length (due w p s))%nat;
}.

Definition accounts (w : world) : Prop := forall p s, subs (bus w) !! p = Some s -> account w p s.


Definition inv (w : world) : Prop := wf w /\ accounts w.

Lemma order_live b ps p : order_of b ps -> p ∈ ps <-> live b p.
Proof.
  intros Ho. rewrite Ho, list_elem_of_fmap. split.
  - intros ([id q] & -> & Hin). apply elem_of_map_to_list in Hin. by exists id.
  - intros [id Hid]. exists (id, p). split; [done|]. by apply elem_of_map_to_list.
Qed.

Lemma order_nodup w ps : wf w -> order_of (bus w) ps -> NoDup ps.
Proof.
  intros Hwf Ho. rewrite Ho. apply NoDup_fmap_2_strong; [|apply NoDup_map_to_list].
  intros [id p] [id' p'] H1 H2 Heq. cbn in Heq. subst p'.
  apply elem_of_map_to_list in H1, H2. f_equal. by apply (wf_inj w Hwf _ _ p).
Qed.

Lemma order_open w ps : wf w -> order_of (bus w) ps ->
  forall p, p ∈ ps -> exists s, subs (bus w) !! p = Some s /\ chan_closed s = false.
Proof. intros Hwf Ho p Hp. apply (wf_open w Hwf), (order_live _ _ _ Ho), Hp. Qed.

(** Steps that leave the heap and the record of what happened as they are. *)
Lemma inv_same w b cs : inv w ->
  subs b = subs (bus w) -> subscribers b = subscribers (bus w) ->
  eventHistory b = eventHistory (bus w) -> eventHistoryIdx b = eventHistoryIdx (bus w) ->
  (forall c p, c ∈ cs -> replay_ptr c = Some p -> exists c', c' ∈ calls w /\ replay_ptr c' = Some p) ->
  inv (set_calls cs (set_bus b w)).
Proof.
  intros [Hwf Hacc] Hs Hm Hh Hi Hc. split.
  - destruct Hwf. constructor; cbn; unfold live in *; rewrite ?Hs, ?Hm, ?Hh, ?Hi; try done.
    intros c p Hin Hp. destruct (Hc c p Hin Hp) as (c' & Hin' & Hp'). eauto.
  - intros p s. cbn. rewrite Hs. intros Hp. destruct (Hacc p s Hp). constructor; cbn; try done.
    unfold live in *. cbn. by rewrite Hm.
Qed.

Lemma inv_same_bus w b : inv w -> subs b = subs (bus w) -> subscribers b = subscribers (bus w) ->
  eventHistory b = eventHistory (bus w) -> eventHistoryIdx b = eventHistoryIdx (bus w) ->
  inv (set_bus b w).
Proof. intros Hinv Hs Hm Hh Hi. apply (inv_same w b (calls w)); eauto. Qed.

Lemma inv_same_calls w cs : inv w ->
  (forall c p, c ∈ cs -> replay_ptr c = Some p -> exists c', c' ∈ calls w /\ replay_ptr c' = Some p) ->
  inv (set_calls cs w).
Proof. intros Hinv Hc. by apply (inv_same w (bus w) cs). Qed.

Lemma inv_take w e b : inv w -> current w = None -> Run_take (bus w) = Some (e, b) ->
  inv (mkWorld b (Some e) (calls w) (stored w ++ [e]) (sent w) (since w) (replaying w) (taken w)).
Proof.
  intros [Hwf Hacc] Hc. unfold Run_take. destruct (publishCh (bus w)) as [|e' rest]; [done|].
  intros [= -> <-]. split.
  - destruct Hwf as [? ? ? ? ? Hsent]. constructor; cbn; try done.
    + by apply ring_store.
    + by rewrite Hsent, Hc, app_nil_r.
  - intros p s Hp. destruct (Hacc p s Hp). by constructor.
Qed.

(** Closing the subscriptions [ps] and forgetting them. *)
Lemma inv_close w b (ps : list ptr) : inv w ->
  (forall p, subs b !! p = if decide (p ∈ ps) then close_chan <$> subs (bus w) !! p else subs (bus w) !! p) ->
  (forall id p, subscribers b !! id = Some p -> subscribers (bus w) !! id = Some p /\ p ∉ ps) ->
  eventHistory b = eventHistory (bus w) -> eventHistoryIdx b = eventHistoryIdx (bus w) ->
  inv (set_bus b w).
Proof.
  intros [Hwf Hacc] Hget Hsub Hh Hi. split.
  - destruct Hwf as [Hopen Hinj Hrep Hheap Hring Hsent]. constructor; cbn; rewrite ?Hh, ?Hi; try done.
    + intros p [id Hid]. destruct (Hsub _ _ Hid) as [Hid' Hp]. rewrite Hget, decide_False by done.
      apply Hopen. by exists id.
    + intros id id' p H1 H2. apply Hsub in H1 as [H1 _], H2 as [H2 _]. by apply (Hinj _ _ p).
    + intros c p Hc Hp. destruct (Hrep c p Hc Hp) as [? Hs]. split; [done|]. rewrite Hget.
      case_decide; [by apply fmap_is_Some | done].
    + intros p. rewrite Hget. intros Hp. apply Hheap. case_decide; [by apply fmap_None in Hp | done].
  - intros p s Hp. cbn in Hp. rewrite Hget in Hp. case_decide as Hin.
    + apply fmap_Some in Hp as (s0 & Hs0 & ->). destruct (Hacc p s0 Hs0).
      constructor; cbn; try done. intros _ [id Hid]. by apply Hsub in Hid as [_ ?].
    + destruct (Hacc p s Hp) as [? ? ? ? Hdrop]. constructor; cbn; try done.
      intros Hr [id Hid]. apply Hdrop; [done|]. exists id. by apply Hsub in Hid as [? _].
Qed.

Lemma Run_stop_spec w : wf w -> exists b, Run_stop (bus w) = Some b /\ done b = true /\
  (inv w -> inv (set_bus b w)) /\
  forall p, live (bus w) p -> exists s, subs b !! p = Some s /\ chan_closed s = true.
Proof.
  intros Hwf. unfold Run_stop, closeAllSubscriptions.
  set (ps := (map_to_list (subscribers (bus w))).*2).
  assert (Ho : order_of (bus w) ps) by (unfold order_of; reflexivity).
  destruct (close_all_spec ps (subs (bus w)) (order_nodup w ps Hwf Ho) (order_open w ps Hwf Ho))
    as (m & -> & Hget).
  eexists. split; [reflexivity|]. split; [done|]. split.
  - intros Hinv. eapply (inv_close w _ ps); cbn; done || (intros id p Hid; by rewrite lookup_empty in Hid).
  - intros p Hp. cbn. rewrite Hget, decide_True by by apply (order_live _ _ _ Ho).
    destruct (wf_open w Hwf p Hp) as (s & -> & _). by eexists.
Qed.

Lemma Unsubscribe_spec w id : wf w -> exists b, Unsubscribe id (bus w) = Some b /\
  (inv w -> inv (set_bus b w)).
Proof.
  intros Hwf. unfold Unsubscribe. destruct (subscribers (bus w) !! id) as [p|] eqn:Hid.
  2: { eexists. split; [done|]. intros Hinv. by apply inv_same_bus. }
  destruct (wf_open w Hwf p) as (s & Hs & Ho); [by exists id|].
  cbn [close_sub mbind option_bind]. rewrite Hs. cbn [mbind option_bind]. rewrite Ho. eexists. split; [reflexivity|].
  intros Hinv. apply (inv_close w _ [p]); cbn; try done.
  - intros q. destruct (decide (q = p)) as [->|Hne].
    + rewrite lookup_insert_eq, decide_True by set_solver. by rewrite Hs.
    + by rewrite lookup_insert_ne, decide_False by set_solver.
  - intros id' q Hq. apply lookup_delete_Some in Hq as [Hne Hq]. split; [done|].
    intros ->%list_elem_of_singleton. by apply Hne, (wf_inj w Hwf _ _ p).
Qed.

Lemma frame_eq b b' : frame b' = frame b -> subscribers b' = subscribers b /\
  eventHistory b' = eventHistory b /\ eventHistoryIdx b' = eventHistoryIdx b.
Proof. unfold frame. by intros [= -> _ _ _ _ -> ->]. Qed.

Lemma u64_succ n : u64 (u64 (Z.of_nat n) + 1) = u64 (Z.of_nat (n + 1)).
Proof. unfold u64. rewrite Zplus_mod_idemp_l. do 2 f_equal. lia. Qed.

(** The broadcast gives a registered subscription its due or counts a drop. *)
Lemma account_served w w' p s e :
  account w p s -> live (bus w) p -> sent w' = sent w ++ [e] ->
  since w' = since w -> replaying w' = replaying w -> taken w' = taken w ->
  account w' p (served e s).
Proof.
  intros [Hcap Hsince Hsub Hcount Hdrop] Hlive Hsent Hs Hr Ht.
  assert (Hdue : forall s', EventTypes s' = EventTypes s -> SubFilter s' = SubFilter s ->
    due w' p s' = due w p s ++ (if wants (EventTypes s) (SubFilter s) e then [e] else [])).
  { intros s' E1 E2. unfold due. rewrite Hsent, Hs, drop_app_le, List.filter_app, E1, E2 by done. done. }
  assert (Hgot : forall s' l, chan_buf s' = chan_buf s ++ l -> got w' p s' = got w p s ++ l).
  { intros s' l E1. unfold got, taken_by. by rewrite Ht, E1, app_assoc. }
  assert (Hlen : (default 0%nat (since w' !! p) <= length (sent w'))%nat).
  { rewrite Hs, Hsent, length_app. cbn. lia. }
  unfold served. destruct (wants _ _ e) eqn:Hw.
  - unfold try_send. destruct (length (chan_buf s) <? chan_cap s)%nat eqn:Hroom; cbn [snd];
      constructor; rewrite ?Hr; try done.
    + cbn. rewrite length_app. apply Nat.ltb_lt in Hroom. cbn. lia.
    + intros Hp. rewrite Hdue, (Hgot _ [e]) by done. apply sublist_app; auto.
    + intros Hp. cbn [EventsReceived]. rewrite (Hgot _ [e]), length_app, Hcount by done.
      apply u64_succ.
    + intros Hp _. destruct (Hdrop Hp Hlive) as (d & Hd & Hl). exists d. split; [done|].
      rewrite Hdue, (Hgot _ [e]), !length_app by done. cbn. lia.
    + intros Hp. rewrite Hdue, (Hgot _ []), app_nil_r by (by rewrite ?app_nil_r).
      by apply sublist_inserts_r, Hsub.
    + intros Hp. cbn [EventsReceived]. rewrite (Hgot _ []), app_nil_r by (by rewrite ?app_nil_r). auto.
    + intros Hp _. destruct (Hdrop Hp Hlive) as (d & Hd & Hl). exists (d + 1)%nat.
      cbn [EventsDropped]. rewrite Hd. split; [apply u64_succ|].
      rewrite Hdue, (Hgot _ []), app_nil_r, length_app by (by rewrite ?app_nil_r). cbn. lia.
  - assert (Hg : got w' p s = got w p s) by (rewrite (Hgot _ []); by rewrite ?app_nil_r).
    assert (Hd : due w' p s = due w p s) by (rewrite Hdue; by rewrite ?app_nil_r).
    constructor; rewrite ?Hr, ?Hg, ?Hd; auto.
Qed.

(** A subscription that is no longer registered keeps what it got. *)
Lemma account_unserved w w' p s e :
  account w p s -> ~ live (bus w') p -> sent w' = sent w ++ [e] ->
  since w' = since w -> replaying w' = replaying w -> taken w' = taken w ->
  account w' p s.
Proof.
  intros [Hcap Hsince Hsub Hcount Hdrop] Hlive Hsent Hs Hr Ht.
  assert (Hg : got w' p s = got w p s) by (unfold got, taken_by; by rewrite Ht).
  constructor; rewrite ?Hr, ?Hg; try done.
  - rewrite Hs, Hsent, length_app. cbn. lia.
  - intros Hp. unfold due. rewrite Hsent, Hs, drop_app_le, List.filter_app by done.
    by apply sublist_inserts_r, Hsub.
Qed.

Lemma broadcast_spec w e ps : wf w -> order_of (bus w) ps ->
  exists b, broadcastEvent e ps (bus w) = Some b /\ frame b = frame (bus w) /\
    forall p, subs b !! p = if decide (p ∈ ps) then served e <$> subs (bus w) !! p
                            else subs (bus w) !! p.
Proof. intros Hwf Ho. apply deliver_all_spec; [by eapply order_nodup | by apply order_open]. Qed.

Lemma inv_broadcast w e ps b : inv w -> current w = Some e -> order_of (bus w) ps ->
  broadcastEvent e ps (bus w) = Some b ->
  inv (mkWorld b None (calls w) (stored w) (sent w ++ [e]) (since w) (replaying w) (taken w)).
Proof.
  intros [Hwf Hacc] Hc Ho Hb.
  destruct (broadcast_spec w e ps Hwf Ho) as (b' & Hb' & Hf & Hget).
  rewrite Hb in Hb'. injection Hb' as <-. apply frame_eq in Hf as (Hm & Hh & Hi). split.
  - destruct Hwf as [Hopen Hinj Hrep Hheap Hring Hsent].
    constructor; cbn; rewrite ?Hm, ?Hh, ?Hi; try done.
    + intros p Hp. assert (Hp' : live (bus w) p) by (unfold live in *; by rewrite <- Hm).
      destruct (Hopen p Hp') as (s & Hs & Hop).
      rewrite Hget, decide_True by by apply (order_live _ _ _ Ho). rewrite Hs. cbn.
      eexists. split; [done|]. by rewrite served_closed.
    + intros c p Hin Hp. destruct (Hrep c p Hin Hp) as [? Hs]. split; [done|]. rewrite Hget.
      case_decide; [by apply fmap_is_Some | done].
    + intros p. rewrite Hget. intros Hp. apply Hheap. case_decide; [by apply fmap_None in Hp | done].
    + rewrite Hsent, Hc. cbn. by rewrite app_nil_r.
  - intros p s Hp. cbn in Hp. rewrite Hget in Hp. case_decide as Hin.
    + apply fmap_Some in Hp as (s0 & Hs0 & ->).
      eapply account_served; [by apply Hacc | by apply (order_live _ _ _ Ho) | done..].
    + eapply account_unserved; [by apply Hacc | | done..].
      intros Hl. apply Hin, (order_live _ _ _ Ho). unfold live in *. cbn in Hl. by rewrite <- Hm.
Qed.

Lemma inv_register w p id types filter size count cs : inv w ->
  calls w ≡ₚ Registering id types filter size count :: cs -> subs (bus w) !! p = None ->
  inv (mkWorld (register p id types filter size (bus w)) (current w)
      (if 0 <? count then ReadHistory p count :: cs else cs) (stored w) (sent w)
      (<[p := length (sent w)]> (since w))
      (if 0 <? count then {[p]} ∪ replaying w else replaying w) (taken w)).
Proof.
  intros [Hwf Hacc] Hcalls Hp.
  assert (Hold : forall id' q, subscribers (bus w) !! id' = Some q -> q <> p).
  { intros id' q Hq ->. destruct (wf_open w Hwf p) as (s & Hs & _); [by exists id'|]. congruence. }
  destruct (wf_heap w Hwf p Hp) as [Hnr Hnt]. split.
  - destruct Hwf as [Hopen Hinj Hrep Hheap Hring Hsent]. constructor; cbn; try done.
    + intros q [id' Hq]. cbn in Hq. apply lookup_insert_Some in Hq as [[_ <-]|[_ Hq]].
      * rewrite lookup_insert_eq. by eexists.
      * rewrite lookup_insert_ne by (intros <-; by eapply Hold). apply Hopen. by exists id'.
    + intros id1 id2 q H1 H2. apply lookup_insert_Some in H1 as [[<- <-]|[? H1]],
        H2 as [[<- H2]|[? H2]]; try done; [by apply Hold in H2 | subst q; by apply Hold in H1 | eauto].
    + intros c q Hc Hq.
      assert (Hor : (q = p /\ (0 <? count) = true) \/ (q ∈ replaying w /\ is_Some (subs (bus w) !! q))).
      { destruct (0 <? count); [apply elem_of_cons in Hc as [->|Hc]; [left; by injection Hq|]|];
          right; eapply (Hrep c); try done; rewrite Hcalls; set_solver. }
      destruct Hor as [[-> ->]|[Hin Hs]]; [split; [set_solver | rewrite lookup_insert_eq; eauto]|].
      split; [destruct (0 <? count); set_solver|]. rewrite lookup_insert_is_Some. destruct (decide (p = q)); eauto.
    + intros q Hq. apply lookup_insert_None in Hq as [Hq Hne]. destruct (Hheap q Hq).
      split; [destruct (0 <? count); set_solver | done].
  - intros q s Hq. cbn in Hq. apply lookup_insert_Some in Hq as [[<- <-]|[Hne Hq]].
    + constructor; cbn; rewrite ?lookup_insert_eq.
      * destruct (size <=? 0) eqn:Hz; lia.
      * done.
      * intros _. unfold got, taken_by. cbn. rewrite Hnt. apply sublist_nil_l.
      * intros _. unfold got, taken_by. cbn. by rewrite Hnt.
      * intros _ _. exists 0%nat. unfold got, due, taken_by. cbn.
        rewrite Hnt, lookup_insert_eq. cbn. by rewrite drop_all.
    + destruct (Hacc q s Hq) as [Hcap Hsince Hsub Hcount Hdrop].
      assert (Hdue : forall b c ca st r, due (mkWorld b c ca st (sent w)
        (<[p:=length (sent w)]> (since w)) r (taken w)) q s = due w q s).
      { intros. unfold due. cbn. by rewrite lookup_insert_ne. }
      assert (Hr : q ∉ (if 0 <? count then {[p]} ∪ replaying w else replaying w) -> q ∉ replaying w)
        by (destruct (0 <? count); set_solver).
      constructor; cbn [since sent replaying bus]; rewrite ?Hdue; auto.
      * by rewrite lookup_insert_ne.
      * intros Hn [id' Hl]. apply Hdrop; [auto|]. exists id'. cbn in Hl.
        by apply lookup_insert_Some in Hl as [[_ ?]|[_ ?]].
Qed.

(** Updating the subscription of one pointer, keeping it open or closed. *)
Lemma wf_set_sub w p s s' cs tk : wf w -> subs (bus w) !! p = Some s ->
  chan_closed s' = chan_closed s ->
  (forall c q, c ∈ cs -> replay_ptr c = Some q -> exists c', c' ∈ calls w /\ replay_ptr c' = Some q) ->
  (forall q, q <> p -> tk !! q = taken w !! q) ->
  wf (mkWorld (set_sub p s' (bus w)) (current w) cs (stored w) (sent w) (since w) (replaying w) tk).
Proof.
  intros [Hopen Hinj Hrep Hheap Hring Hsent] Hs Hc Hcs Htk. constructor; cbn; try done.
  - intros q Hq. destruct (Hopen q Hq) as (s0 & Hs0 & Ho).
    destruct (decide (p = q)) as [<-|Hne].
    + rewrite lookup_insert_eq. eexists. split; [done|]. congruence.
    + rewrite lookup_insert_ne by done. eauto.
  - intros c q Hin Hq. destruct (Hcs c q Hin Hq) as (c' & Hin' & Hq').
    destruct (Hrep c' q Hin' Hq') as [? Hq'']. split; [done|]. rewrite lookup_insert_is_Some.
    destruct (decide (p = q)); eauto.
  - intros q Hq. apply lookup_insert_None in Hq as [Hq Hne]. rewrite Htk by done. by apply Hheap.
Qed.

Lemma inv_replay_send w p e es cs b : inv w -> calls w ≡ₚ SendHistory p (e :: es) :: cs ->
  replay_one e p (bus w) = Some b ->
  inv (set_calls (SendHistory p es :: cs) (set_bus b w)).
Proof.
  intros [Hwf Hacc] Hcalls. unfold replay_one.
  destruct (subs (bus w) !! p) as [s|] eqn:Hs; [cbn|done].
  destruct (chan_closed s) eqn:Ho; [done|]. intros [= <-].
  assert (Hp : p ∈ replaying w).
  { destruct (wf_replay w Hwf (SendHistory p (e :: es)) p); [rewrite Hcalls; set_solver|done..]. }
  split.
  - apply (wf_set_sub w p s); try done; [unfold try_send; by case_match|].
    intros c q Hc Hq. apply elem_of_cons in Hc as [->|Hc].
    + exists (SendHistory p (e :: es)). rewrite Hcalls. split; [set_solver | done].
    + exists c. rewrite Hcalls. split; [set_solver | done].
  - intros q sq Hq. cbn in Hq. apply lookup_insert_Some in Hq as [[<- <-]|[Hne Hq]].
    + destruct (Hacc p s Hs) as [Hcap Hsince _ _ _].
      constructor; cbn; try done. unfold try_send.
      destruct (length (chan_buf s) <? chan_cap s)%nat eqn:Hroom; [|done]. cbn.
      rewrite length_app. apply Nat.ltb_lt in Hroom. cbn. lia.
    + by destruct (Hacc q sq Hq).
Qed.

Lemma inv_receive w p e b : inv w -> receive p (bus w) = Some (e, b) ->
  inv (mkWorld b (current w) (calls w) (stored w) (sent w) (since w) (replaying w)
         (<[p := taken_by w p ++ [e]]> (taken w))).
Proof.
  intros [Hwf Hacc]. unfold receive. destruct (subs (bus w) !! p) as [s|] eqn:Hs; [cbn|done].
  destruct (chan_buf s) as [|e' rest] eqn:Hb; [done|]. intros [= -> <-]. split.
  - apply (wf_set_sub w p s); try done; [eauto|]. intros q Hq. by rewrite lookup_insert_ne.
  - intros q sq Hq. cbn in Hq. apply lookup_insert_Some in Hq as [[<- <-]|[Hne Hq]].
    + destruct (Hacc p s Hs) as [Hcap Hsince Hsub Hcount Hdrop].
      match goal with |- account ?w' p ?s' => assert (Hg : got w' p s' = got w p s) end.
      { unfold got, taken_by at 1. cbn. rewrite lookup_insert_eq. cbn.
        by rewrite Hb, <- app_assoc. }
      constructor; rewrite ?Hg; try done. cbn. rewrite Hb in Hcap. cbn in Hcap. lia.
    + assert (Hg : forall b' c cl st se si r,
        got (mkWorld b' c cl st se si r (<[p := taken_by w p ++ [e]]> (taken w))) q sq = got w q sq).
      { intros. unfold got, taken_by. cbn. by rewrite lookup_insert_ne. }
      destruct (Hacc q sq Hq). constructor; rewrite ?Hg; done.
Qed.

Lemma inv_init n k : (0 < n)%nat -> inv (init n k).
Proof.
  intros Hn. split; [|by intros p s Hp]. constructor; cbn; try done.
  - by intros p [id Hid].
  - intros c p Hc. by apply not_elem_of_nil in Hc.
  - apply ring_init. unfold DefaultEventHistorySize. case_match; lia.
Qed.

Lemma inv_next w w' : inv w -> next w w' -> inv w'.
Proof.
  intros Hinv Hstep. assert (Hwf : wf w) by apply Hinv. unfold next in Hstep.
  inversion Hstep as
    [? e Hx|? e cs Hc|? e b Hd Hcur Ht|? e ps Hcur Ho|? Hd Hcur Hx|?|? id ty f sz ct Hx
    |? p id ty f sz ct cs Hc Hp|? p ct s cs Hc Hs|? p e es cs Hc|? p cs Hc|? id|? p e b Hr];
    subst; clear Hstep.
  - apply inv_same_calls; [done|]. intros c p [->|Hc]%elem_of_cons Hp; [done | eauto].
  - apply inv_same; try done; try (unfold publish_send; by case_match).
    intros c p Hin Hp. exists c. rewrite Hc. split; [set_solver | done].
  - by apply inv_take.
  - destruct (broadcastEvent e ps (bus w)) eqn:Hb; [|done]. cbn in *. simplify_eq.
    by eapply inv_broadcast.
  - destruct (Run_stop_spec w Hwf) as (b & Hb & _ & Hi & _).
    match goal with H : _ = Running _ |- _ => rewrite Hb in H; injection H as <- end. auto.
  - by apply inv_same_bus.
  - apply inv_same_calls; [done|]. intros c p [->|Hc]%elem_of_cons Hp; [done | eauto].
  - by eapply inv_register.
  - apply inv_same_calls; [done|]. intros c q Hin Hq. apply elem_of_cons in Hin as [->|Hin].
    + exists (ReadHistory p ct). rewrite Hc. split; [set_solver | done].
    + exists c. rewrite Hc. split; [set_solver | done].
  - destruct (replay_one e p (bus w)) eqn:Hb; [|done]. cbn in *. simplify_eq.
    by eapply inv_replay_send.
  - apply inv_same_calls; [done|]. intros c q Hin Hq. exists c. rewrite Hc. split; [set_solver | done].
  - destruct (Unsubscribe_spec w id Hwf) as (b & Hb & Hi).
    match goal with H : _ = Running _ |- _ => rewrite Hb in H; injection H as <- end. auto.
  - by apply inv_receive.
Qed.

Lemma inv_reachable w : reachable w -> inv w.
Proof.
  intros (n & k & Hn & Hr).
  assert (Hi : inv (init n k)) by by apply inv_init.
  induction Hr as [|x y z Hxy _ IH]; [done | by eapply IH, inv_next].
Qed.

(** * What the bus promises *)

Lemma sublist_full {A} (l k : list A) : sublist l k -> (length k <= length l)%nat -> l = k.
Proof.
  induction 1 as [|x l k Hs IH|x l k Hs IH]; cbn; [done | intros; f_equal; apply IH; lia|].
  apply sublist_length in Hs. lia.
Qed.

(** C22: the history is the list of the last events of the bus, the oldest first, and
    [getRecentEvents] returns the last [n] of those of the wanted types that the filter
    accepts; a count that is not positive or exceeds the history size means all of them. *)
Theorem history_recent w n types filter : reachable w ->
  getRecentEvents n types filter (bus w) =
  lastn (if (n <=? 0) || (Z.of_nat (eventHistorySize (bus w)) <? n)
         then eventHistorySize (bus w) else Z.to_nat n)
    (List.filter (wants types filter) (lastn (eventHistorySize (bus w)) (stored w))).
Proof. intros Hr. apply recent_events, (wf_ring w), inv_reachable, Hr. Qed.

(** C15: without replay, a subscriber gets the events of its types that its filter accepts
    and that are broadcast after it was registered, in order and each once, and what it
    misses is counted: the buffer respects its capacity, [EventsReceived] is the number of
    events sent to it, and while it is registered [EventsDropped] is the number of the
    others, so with none dropped (fewer than 2^64) it got exactly its events. *)
Theorem delivery w p s : reachable w -> subs (bus w) !! p = Some s -> p ∉ replaying w ->
  (length (chan_buf s) <= chan_cap s)%nat /\
  sublist (got w p s) (due w p s) /\
  EventsReceived s = u64 (Z.of_nat (length (got w p s))) /\
  (live (bus w) p ->
   (exists d : nat, EventsDropped s = u64 (Z.of_nat d) /\
      (length (got w p s) + d = length (due w p s))%nat) /\
   (EventsDropped s = 0 -> Z.of_nat (length (sent w)) < two64 -> got w p s = due w p s)).
Proof.
  intros Hr Hs Hp. destruct (inv_reachable w Hr) as [_ Hacc].
  destruct (Hacc p s Hs) as [Hcap Hsince Hsub Hcount Hdrop].
  split_and!; [lia | auto | auto |]. intros Hl. destruct (Hdrop Hp Hl) as (d & Hd & Hlen).
  split; [eauto|]. intros H0 Hlim. apply sublist_full; [auto|].
  assert (Hdue : (length (due w p s) <= length (sent w))%nat).
  { unfold due. etransitivity; [apply List.filter_length_le|]. rewrite length_drop. lia. }
  assert (Hd0 : u64 (Z.of_nat d) = Z.of_nat d) by (apply Z.mod_small; lia). lia.
Qed.

(** C16: the only panic of the bus is a replay that sends to a channel which was closed
    after the subscription was registered: broadcasting, unsubscribing and stopping never
    panic, in any interleaving. *)
Theorem only_replay_panics w : reachable w -> step w Panicked ->
  exists p e es cs s, calls w ≡ₚ SendHistory p (e :: es) :: cs /\
    subs (bus w) !! p = Some s /\ chan_closed s = true.
Proof.
  intros Hr Hstep. destruct (inv_reachable w Hr) as [Hwf _].
  inversion Hstep as [| | |? e ps Hcur Ho|? Hd Hcur Hx| | | | |? p e es cs Hc| |? id|];
    subst; clear Hstep; match goal with H : _ = Panicked |- _ => rename H into Heq end.
  - destruct (broadcast_spec w e ps Hwf Ho) as (b & Hb & _). by rewrite Hb in Heq.
  - destruct (Run_stop_spec w Hwf) as (b & Hb & _). by rewrite Hb in Heq.
  - exists p, e, es, cs.
    destruct (wf_replay w Hwf (SendHistory p (e :: es)) p) as [_ [s Hs]];
      [rewrite Hc; set_solver | done|].
    exists s. split_and!; [done..|]. unfold replay_one in Heq. rewrite Hs in Heq. cbn in Heq.
    by destruct (chan_closed s).
  - destruct (Unsubscribe_spec w id Hwf) as (b & Hb & _). by rewrite Hb in Heq.
Qed.

(** An open subscription that is registered under no id, and what it got. *)
Definition orphan (w : world) (p : ptr) (g : list Event) : Prop :=
  exists s, subs (bus w) !! p = Some s /\ chan_closed s = false /\ (~ live (bus w) p) /\
    (p ∉ replaying w) /\ got w p s = g.

Lemma orphan_keep w w' p g : orphan w p g ->
  subs (bus w') !! p = subs (bus w) !! p -> (live (bus w') p -> live (bus w) p) ->
  (p ∉ replaying w -> p ∉ replaying w') -> taken_by w' p = taken_by w p -> orphan w' p g.
Proof.
  intros (s & Hs & Ho & Hl & Hr & Hg) Hsub Hlive Hrep Ht. exists s. rewrite Hsub.
  split_and!; auto. unfold got in *. by rewrite Ht.
Qed.

(** The operations of the bus that close or serve subscriptions leave an orphan alone. *)
Lemma Run_stop_orphan w b p : wf w -> Run_stop (bus w) = Some b -> ~ live (bus w) p ->
  subs b !! p = subs (bus w) !! p /\ ~ live b p.
Proof.
  intros Hwf Hb Hl. unfold Run_stop, closeAllSubscriptions in Hb.
  set (ps := (map_to_list (subscribers (bus w))).*2) in *.
  assert (Ho : order_of (bus w) ps) by (unfold order_of; reflexivity).
  destruct (close_all_spec ps (subs (bus w)) (order_nodup w ps Hwf Ho) (order_open w ps Hwf Ho))
    as (m & Hm & Hget). rewrite Hm in Hb. injection Hb as <-. cbn.
  rewrite Hget, decide_False by (by intros Hin%(order_live _ _ _ Ho)).
  split; [done|]. intros [id Hid]. cbn in Hid. by rewrite lookup_empty in Hid.
Qed.

Lemma Unsubscribe_orphan b b' id p : Unsubscribe id b = Some b' -> ~ live b p ->
  subs b' !! p = subs b !! p /\ ~ live b' p.
Proof.
  unfold Unsubscribe. destruct (subscribers b !! id) as [q|] eqn:Hid; [|by intros [= <-]].
  intros Hb Hl. assert (Hne : p <> q) by (intros ->; apply Hl; by exists id).
  cbn [close_sub mbind option_bind] in Hb.
  destruct (subs b !! q) as [sq|]; [cbn in Hb|done].
  destruct (chan_closed sq); [done|]. injection Hb as <-. cbn. rewrite lookup_insert_ne by done.
  split; [done|]. intros [id' Hid']. cbn in Hid'. apply lookup_delete_Some in Hid' as [_ ?].
  apply Hl. by exists id'.
Qed.

Lemma Unsubscribe_frame b b' id : Unsubscribe id b = Some b' ->
  publishCh b' = publishCh b /\ ctx_cancelled b' = ctx_cancelled b.
Proof.
  unfold Unsubscribe. destruct (subscribers b !! id) as [q|]; [|by intros [= <-]].
  destruct (close_sub _ q) as [m|]; [|done]. by intros [= <-].
Qed.

Lemma orphan_receive w p q g e b : orphan w p g -> receive q (bus w) = Some (e, b) ->
  orphan (mkWorld b (current w) (calls w) (stored w) (sent w) (since w) (replaying w)
            (<[q := taken_by w q ++ [e]]> (taken w))) p g.
Proof.
  intros Horph. unfold receive. destruct (subs (bus w) !! q) as [sq|] eqn:Hsq; [cbn|done].
  destruct (chan_buf sq) as [|e' rest] eqn:Hb; [done|]. intros [= -> <-].
  destruct (decide (q = p)) as [->|Hne].
  - destruct Horph as (s & Hs & Ho & Hl & Hr & Hg). rewrite Hs in Hsq. injection Hsq as <-.
    eexists. cbn. rewrite lookup_insert_eq. split_and!; try done.
    unfold got, taken_by. cbn. rewrite lookup_insert_eq. cbn. rewrite <- app_assoc. cbn.
    by rewrite <- Hb.
  - apply (orphan_keep w); try done; [cbn; by rewrite lookup_insert_ne|].
    unfold taken_by. cbn. by rewrite lookup_insert_ne.
Qed.

Lemma orphan_next w w' p g : inv w -> next w w' -> orphan w p g -> orphan w' p g.
Proof.
  intros [Hwf Hacc] Hstep Horph. pose proof Horph as (s & Hs & Hopen & Hl & Hr & Hg).
  unfold next in Hstep.
  inversion Hstep as
    [? e Hx|? e cs Hc|? e b Hd Hcur Ht|? e ps Hcur Ho|? Hd Hcur Hx|?|? id ty f sz ct Hx
    |? q id ty f sz ct cs Hc Hp|? q ct s0 cs Hc Hs0|? q e es cs Hc|? q cs Hc|? id|? q e b Hrc];
    subst; clear Hstep; try (by exists s).
  - exists s. unfold publish_send. by case_match.
  - unfold Run_take in Ht. destruct (publishCh (bus w)); [done|]. injection Ht as <- <-. by exists s.
  - destruct (broadcast_spec w e ps Hwf Ho) as (b & Hb & Hf & Hget).
    apply frame_eq in Hf as (Hm & _ & _). rewrite Hb in *. cbn in *. simplify_eq.
    apply (orphan_keep w); try done; cbn; [|unfold live; by rewrite Hm].
    rewrite Hget, decide_False; [done|]. by intros Hin%(order_live _ _ _ Ho).
  - destruct (Run_stop (bus w)) as [b|] eqn:Hb; [|done]. cbn in *. simplify_eq.
    destruct (Run_stop_orphan w b p Hwf Hb Hl). by apply (orphan_keep w).
  - assert (Hne : p <> q) by congruence.
    apply (orphan_keep w); try done; cbn; [by rewrite lookup_insert_ne| |].
    + intros [id' Hid']. cbn in Hid'. apply lookup_insert_Some in Hid' as [[_ ?]|[_ ?]]; [done|].
      by exists id'.
    + destruct (0 <? ct); set_solver.
  - assert (Hne : p <> q).
    { intros <-. apply Hr. destruct (wf_replay w Hwf (SendHistory p (e :: es)) p) as [? _];
        [rewrite Hc; set_solver | done..]. }
    destruct (replay_one e q (bus w)) as [b|] eqn:Hb; [|done]. cbn in *. simplify_eq.
    unfold replay_one in Hb. destruct (subs (bus w) !! q) as [sq|]; [cbn in Hb|done].
    destruct (chan_closed sq); [done|]. injection Hb as <-.
    apply (orphan_keep w); try done. cbn. by rewrite lookup_insert_ne.
  - destruct (Unsubscribe id (bus w)) as [b|] eqn:Hb; [|done]. cbn in *. simplify_eq.
    destruct (Unsubscribe_orphan _ _ _ p Hb Hl). by apply (orphan_keep w).
  - by apply orphan_receive.
Qed.

(** Subscribing with an id that is in use forgets the old subscription: from then on,
    whatever happens, its channel is never closed and gets no further event. *)
Theorem resubscribe_orphans (w w' : world) (p q : ptr) s id types filter size cs :
  reachable w -> subscribers (bus w) !! id = Some p -> subs (bus w) !! p = Some s ->
  p ∉ replaying w -> calls w ≡ₚ Registering id types filter size 0 :: cs ->
  subs (bus w) !! q = None ->
  rtc next (mkWorld (register q id types filter size (bus w)) (current w) cs (stored w) (sent w)
             (<[q := length (sent w)]> (since w)) (replaying w) (taken w)) w' ->
  exists s', subs (bus w') !! p = Some s' /\ chan_closed s' = false /\
    (~ live (bus w') p) /\ got w' p s' = got w p s.
Proof.
  intros Hr Hid Hs Hp Hc Hq Hrun. destruct (inv_reachable w Hr) as [Hwf Hacc].
  destruct (wf_open w Hwf p) as (s0 & Hs0 & Ho); [by exists id|].
  rewrite Hs in Hs0. injection Hs0 as <-. assert (Hne : p <> q) by congruence.
  match type of Hrun with rtc _ ?x _ => set (w1 := x) in Hrun end.
  assert (Hi1 : inv w1) by (apply (inv_register w q id types filter size 0 cs); [split|..]; done).
  assert (Ho1 : orphan w1 p (got w p s)).
  { exists s. cbn. rewrite lookup_insert_ne by done. split_and!; try done.
    intros [id' Hid']. cbn in Hid'. apply lookup_insert_Some in Hid' as [[_ ?]|[Hn ?]]; [done|].
    by apply Hn, (wf_inj w Hwf _ _ p). }
  assert (Hend : orphan w' p (got w p s)).
  { clearbody w1. clear -Hrun Hi1 Ho1.
    induction Hrun as [|x y z Hxy _ IH]; [done | apply IH; [by eapply inv_next | by eapply orphan_next]]. }
  destruct Hend as (s' & ? & ? & ? & ? & ?). eauto.
Qed.

(** ** Stopping *)

Definition publishing (c : call) : option Event := match c with Publishing e => Some e | _ => None end.

(** The events the main loop may still take once the bus is cancelled: those of the
    channel and of the publishers that have passed the check. *)
Definition pending (w : world) : nat :=
  (length (publishCh (bus w)) + length (omap publishing (calls w)))%nat.

Lemma pending_next w w' : inv w -> next w w' -> ctx_cancelled (bus w) = true ->
  ctx_cancelled (bus w') = true /\
  (length (stored w') + pending w' <= length (stored w) + pending w)%nat.
Proof.
  intros [Hwf Hacc] Hstep Hx. unfold next in Hstep. unfold pending.
  assert (Hperm : forall c cs, calls w ≡ₚ c :: cs -> length (omap publishing (calls w)) =
    (length (option_list (publishing c)) + length (omap publishing cs))%nat).
  { intros c cs ->. cbn. by destruct (publishing c). }
  inversion Hstep as
    [? e Hy|? e cs Hc|? e b Hd Hcur Ht|? e ps Hcur Ho|? Hd Hcur Hy|?|? id ty f sz ct Hy
    |? q id ty f sz ct cs Hc Hp|? q ct s0 cs Hc Hs0|? q e es cs Hc|? q cs Hc|? id|? q e b Hrc];
    subst; clear Hstep; try (apply Hperm in Hc; rewrite Hc); cbn [publishing option_list] in *.
  - congruence.
  - unfold publish_send. cbn. case_match; cbn; rewrite ?length_app; cbn; split; try done; lia.
  - unfold Run_take in Ht. destruct (publishCh (bus w)); [done|]. injection Ht as <- <-. cbn.
    rewrite length_app. cbn. split; [done | lia].
  - destruct (broadcast_spec w e ps Hwf Ho) as (b & Hb & Hf & Hget).
    unfold frame in Hf. injection Hf as _ Hpc _ Hcx _ _ _.
    match goal with H : _ = Running _ |- _ => rewrite Hb in H; injection H as <- end.
    cbn. rewrite Hpc, Hcx. split; [done | lia].
  - unfold Run_stop, closeAllSubscriptions in *.
    destruct (foldl close_sub _ _) as [m|]; [|done]. cbn in *. simplify_eq. cbn. split; [done | lia].
  - cbn. split; [done | lia].
  - cbn. split; [done | lia].
  - cbn. split; [done|]. destruct (0 <? ct); cbn; lia.
  - cbn. split; [done | lia].
  - unfold replay_one in *. destruct (subs (bus w) !! q) as [sq|]; [cbn in *|done].
    destruct (chan_closed sq); [done|]. cbn in *. simplify_eq. cbn. split; [done | lia].
  - cbn. split; [done | lia].
  - destruct (Unsubscribe id (bus w)) as [b|] eqn:Hb; [|done]. cbn in *. simplify_eq.
    apply Unsubscribe_frame in Hb as [Hpc Hcx]. cbn. rewrite Hpc, Hcx. split; [done | lia].
  - unfold receive in Hrc. destruct (subs (bus w) !! q) as [sq|] eqn:Hsq; [cbn in Hrc|done].
    destruct (chan_buf sq) as [|e' rest] eqn:Hb; [done|]. injection Hrc as -> <-. cbn. split; [done | lia].
Qed.

Lemma stop_enabled w : inv w -> ctx_cancelled (bus w) = true -> done (bus w) = false ->
  exists w', rtc next w w' /\ done (bus w') = true /\
  forall p, live (bus w) p -> exists s, subs (bus w') !! p = Some s /\ chan_closed s = true.
Proof.
  intros Hinv Hx Hd.
  assert (Hstop : forall x, inv x -> ctx_cancelled (bus x) = true -> done (bus x) = false ->
    current x = None -> exists w', rtc next x w' /\ done (bus w') = true /\
  forall p, live (bus x) p -> exists s, subs (bus w') !! p = Some s /\ chan_closed s = true).
  { intros x [Hwf _] Hx' Hd' Hc'. destruct (Run_stop_spec x Hwf) as (b & Hb & Hdone & _ & Hcl).
    exists (set_bus b x). split; [|done]. apply rtc_once. unfold next.
    replace (Running (set_bus b x)) with (run (fun b => set_bus b x) (Run_stop (bus x)))
      by by rewrite Hb. by apply step_stop. }
  destruct (current w) as [e|] eqn:Hcur; [|by apply Hstop].
  destruct Hinv as [Hwf Hacc].
  assert (Ho : order_of (bus w) (map_to_list (subscribers (bus w))).*2) by (unfold order_of; reflexivity).
  destruct (broadcast_spec w e _ Hwf Ho) as (b & Hb & Hf & _).
  set (w1 := mkWorld b None (calls w) (stored w) (sent w ++ [e]) (since w) (replaying w) (taken w)).
  assert (Hi1 : inv w1) by (eapply inv_broadcast; [split|..]; done).
  unfold frame in Hf. injection Hf as Hm _ _ Hcx Hdn _ _.
  destruct (Hstop w1) as (w' & Hrun & Hdone & Hcl); try done; [cbn; congruence..|].
  exists w'. split; [|split; [done|]].
  - eapply rtc_l; [|exact Hrun]. unfold next.
    replace (Running w1) with (run (fun b => mkWorld b None (calls w) (stored w) (sent w ++ [e])
      (since w) (replaying w) (taken w)) (broadcastEvent e (map_to_list (subscribers (bus w))).*2 (bus w)))
      by by rewrite Hb. by apply step_broadcast.
  - intros p [id Hid]. apply Hcl. exists id. cbn. by rewrite Hm.
Qed.

(** C23: once the bus is cancelled, the main loop takes at most the events already queued
    or past the check of [Publish], and as long as it has not ended it can end, by finishing
    its broadcast and closing every registered subscription. *)
Theorem stop_returns w w' : reachable w -> ctx_cancelled (bus w) = true -> rtc next w w' ->
  (length (stored w') <= length (stored w) + pending w)%nat /\
  (done (bus w') = false -> exists w'', rtc next w' w'' /\ done (bus w'') = true /\
  forall p, live (bus w') p -> exists s, subs (bus w'') !! p = Some s /\ chan_closed s = true).
Proof.
  intros Hr Hx Hrun.
  assert (Hi : inv w) by by apply inv_reachable.
  enough (inv w' /\ ctx_cancelled (bus w') = true /\
    (length (stored w') + pending w' <= length (stored w) + pending w)%nat) as (Hi' & Hx' & Hle).
  { split; [lia|]. intros Hd. by apply stop_enabled. }
  clear Hr. induction Hrun as [w|x y z Hxy _ IH]; [split_and!; done || lia|].
  destruct (pending_next x y Hi Hxy Hx) as [Hx' Hle].
  destruct IH as (? & ? & ?); [done | by eapply inv_next|]. split_and!; try done. lia.
Qed.

(** * Executable schedules *)

(** What happens next; a call under way is named by its position. *)
Inductive choice :=
| CPublish (e : Event) | CSend (i : nat) | CTake | CBroadcast | CStop | CCancel
| CSubscribe (id : SubscriptionID) (types : list string) (filter : option Filter) (size count : Z)
| CRegister (i : nat) (p : ptr) | CRead (i : nat) | CReplay (i : nat)
| CUnsubscribe (id : SubscriptionID) | CReceive (p : ptr).

Definition guard_some {A} (b : bool) (x : A) : option A := if b then Some x else None.

Definition is_None {A} (o : option A) : bool := match o with None => true | Some _ => false end.

Definition perform (c : choice) (w : world) : option result :=
  match c with
  | CPublish e => guard_some (negb (ctx_cancelled (bus w)))
      (Running (set_calls (Publishing e :: calls w) w))
  | CSend i => c ← calls w !! i;
      match c with
      | Publishing e => Some (Running (set_calls (delete i (calls w))
                                         (set_bus (snd (publish_send e (bus w))) w)))
      | _ => None
      end
  | CTake =>
      match done (bus w), current w, Run_take (bus w) with
      | false, None, Some (e, b) => Some (Running (mkWorld b (Some e) (calls w) (stored w ++ [e])
                                             (sent w) (since w) (replaying w) (taken w)))
      | _, _, _ => None
      end
  | CBroadcast => e ← current w;
      Some (run (fun b => mkWorld b None (calls w) (stored w) (sent w ++ [e]) (since w)
                            (replaying w) (taken w))
              (broadcastEvent e (map_to_list (subscribers (bus w))).*2 (bus w)))
  | CStop => guard_some (negb (done (bus w)) && is_None (current w) && ctx_cancelled (bus w))
      (run (fun b => set_bus b w) (Run_stop (bus w)))
  | CCancel => Some (Running (set_bus (cancel (bus w)) w))
  | CSubscribe id types filter size count => guard_some (Subscribe_check filter (bus w))
      (Running (set_calls (Registering id types filter size count :: calls w) w))
  | CRegister i p => c ← calls w !! i;
      match c with
      | Registering id types filter size count =>
          let cs := delete i (calls w) in
          guard_some (is_None (subs (bus w) !! p))
            (Running (mkWorld (register p id types filter size (bus w)) (current w)
               (if 0 <? count then ReadHistory p count :: cs else cs) (stored w) (sent w)
               (<[p := length (sent w)]> (since w))
               (if 0 <? count then {[p]} ∪ replaying w else replaying w) (taken w)))
      | _ => None
      end
  | CRead i => c ← calls w !! i;
      match c with
      | ReadHistory p count => s ← subs (bus w) !! p;
          Some (Running (set_calls (SendHistory p
            (getRecentEvents count (EventTypes s) (SubFilter s) (bus w)) :: delete i (calls w)) w))
      | _ => None
      end
  | CReplay i => c ← calls w !! i;
      match c with
      | SendHistory p (e :: es) =>
          Some (run (fun b => set_calls (SendHistory p es :: delete i (calls w)) (set_bus b w))
                  (replay_one e p (bus w)))
      | SendHistory p [] => Some (Running (set_calls (delete i (calls w)) w))
      | _ => None
      end
  | CUnsubscribe id => Some (run (fun b => set_bus b w) (Unsubscribe id (bus w)))
  | CReceive p => '(e, b) ← receive p (bus w);
      Some (Running (mkWorld b (current w) (calls w) (stored w) (sent w) (since w) (replaying w)
                       (<[p := taken_by w p ++ [e]]> (taken w))))
  end.

Lemma perform_sound c w r : perform c w = Some r -> step w r.
Proof.
  assert (Hperm : forall i c, calls w !! i = Some c -> calls w ≡ₚ c :: delete i (calls w))
    by (intros; by apply delete_Permutation).
  destruct c as [e|i| | | | |id ty f sz ct|i p|i|i|id|p]; cbn [perform]; unfold guard_some.
  - destruct (ctx_cancelled (bus w)) eqn:?; [done|]. intros [= <-]. by apply step_publish.
  - destruct (calls w !! i) as [[]|] eqn:Hi; cbn; try done. intros [= <-].
    by eapply step_publish_send, Hperm.
  - destruct (done (bus w)) eqn:?; [done|]. destruct (current w) eqn:?; [done|].
    destruct (Run_take (bus w)) as [[e b]|] eqn:?; [|done]. intros [= <-]. by apply step_take.
  - destruct (current w) eqn:?; cbn; [|done]. intros [= <-]. apply step_broadcast; [done|].
    unfold order_of. reflexivity.
  - destruct (done (bus w)) eqn:?; [done|]. destruct (current w) eqn:?; cbn; [done|].
    destruct (ctx_cancelled (bus w)) eqn:?; [|done].
    intros [= <-]. by apply step_stop.
  - intros [= <-]. apply step_cancel.
  - destruct (Subscribe_check f (bus w)) eqn:?; [|done]. intros [= <-]. by apply step_subscribe.
  - destruct (calls w !! i) as [[]|] eqn:Hi; cbn; try done.
    destruct (subs (bus w) !! p) eqn:?; cbn; [done|]. intros [= <-].
    eapply step_register; [by apply Hperm | done].
  - destruct (calls w !! i) as [[]|] eqn:Hi; cbn; try done.
    destruct (subs (bus w) !! p) eqn:?; cbn; [|done]. intros [= <-].
    eapply step_replay_read; [by apply Hperm | done].
  - destruct (calls w !! i) as [[| | |p [|e es]]|] eqn:Hi; cbn; try done; intros [= <-].
    + eapply step_replay_end, Hperm, Hi.
    + eapply step_replay_send, Hperm, Hi.
  - intros [= <-]. apply step_unsubscribe.
  - destruct (receive p (bus w)) as [[e b]|] eqn:?; cbn; [|done]. intros [= <-]. by apply step_receive.
Qed.

Fixpoint play (cs : list choice) (w : world) : option world :=
  match cs with
  | [] => Some w
  | c :: cs => r ← perform c w; match r with Running w' => play cs w' | Panicked => None end
  end.

Lemma play_sound cs w w' : play cs w = Some w' -> rtc next w w'.
Proof.
  revert w. induction cs as [|c cs IH]; intros w; cbn; [by intros [= ->]|].
  destruct (perform c w) as [[w1|]|] eqn:Hc; cbn; try done. intros Hw.
  eapply rtc_l; [by apply (perform_sound c) | by apply IH].
Qed.

Lemma play_reachable n k cs w : (0 < n)%nat -> play cs (init n k) = Some w -> reachable w.
Proof. intros Hn Hw. exists n, k. split; [done | by eapply play_sound]. Qed.

(** The world a schedule leads to. *)
Definition played (n : nat) (k : Z) (cs : list choice) : world := default (init n k) (play cs (init n k)).

Lemma played_reachable n k cs : (0 < n)%nat -> reachable (played n k cs).
Proof.
  intros Hn. unfold played. destruct (play cs (init n k)) eqn:Hp; cbn.
  - by eapply play_reachable.
  - exists n, k. by split.
Qed.

(** One event published, taken and broadcast. *)
Definition one_event (e : Event) : list choice := [CPublish e; CSend 0; CTake; CBroadcast].

Definition late_unsubscribe : list choice :=
  one_event (EvBlock 1) ++
  [CSubscribe "a" [EventTypeBlock] None 4 1; CRegister 0 0; CRead 0; CUnsubscribe "a"].

(** A replay can panic: [SubscribeWithOptions] replays after it has registered the
    subscription and holds no lock, so an [Unsubscribe] of the id in between closes the
    channel the replay sends to. *)
Theorem replay_panics : exists w, reachable w /\ step w Panicked.
Proof.
  exists (played 1 1 late_unsubscribe). split; [apply played_reachable; lia|].
  apply (perform_sound (CReplay 0)). by vm_compute.
Qed.

(** The same event twice: it is broadcast to the registered subscription, and then
    replayed from the history. *)
Definition register_then_event : list choice :=
  [CSubscribe "a" [EventTypeBlock] None 4 1; CRegister 0 0] ++
  [CPublish (EvBlock 1); CSend 0; CTake; CBroadcast; CRead 0; CReplay 0].

(** A bus that stops between the check of [Subscribe] and the registration. *)
Definition late_registration : list choice :=
  [CSubscribe "a" [EventTypeBlock] None 4 0; CCancel; CStop; CRegister 0 0].

(** Two races of [SubscribeWithOptions]: an event broadcast after the registration and
    before the history is read is delivered twice; a subscription registered after the bus
    has stopped stays registered and open, though nothing will ever be sent on it. *)
Theorem subscribe_races :
  (exists w p s e, reachable w /\ subs (bus w) !! p = Some s /\ sent w = [e] /\
    chan_buf s = [e; e]) /\
  (exists w p s, reachable w /\ done (bus w) = true /\ subs (bus w) !! p = Some s /\
    live (bus w) p /\ chan_closed s = false).
Proof.
  split.
  - exists (played 1 1 register_then_event), 0%nat. eexists _, _.
    split; [apply played_reachable; lia|]. split; [by vm_compute|]. split; by vm_compute.
  - exists (played 1 1 late_registration), 0%nat. eexists.
    split; [apply played_reachable; lia|]. split; [by vm_compute|]. split; [by vm_compute|].
    split; [|by vm_compute]. exists "a"%string. by vm_compute.
Qed.

(** * Witnesses *)

Definition two_events : list choice :=
  [CSubscribe "a" [EventTypeBlock] None 1 0; CRegister 0 0] ++ one_event (EvBlock 1) ++
  [CReceive 0] ++ one_event (EvBlock 2).

Lemma history_recent_witness :
  getRecentEvents 1 {[EventTypeBlock]} None (bus (played 1 1 two_events)) = [EvBlock 2].
Proof.
  rewrite (history_recent (played 1 1 two_events) 1 {[EventTypeBlock]} None);
    [by vm_compute | apply played_reachable; lia].
Defined.

Lemma delivery_witness : exists s, subs (bus (played 1 1 two_events)) !! 0%nat = Some s /\
  got (played 1 1 two_events) 0 s = [EvBlock 1; EvBlock 2].
Proof.
  eexists. split; [by vm_compute|].
  match goal with |- got ?w _ ?s = _ => destruct (delivery w 0 s) as (_ & _ & _ & Hlive) end;
    [apply played_reachable; lia | by vm_compute | by vm_compute |].
  destruct Hlive as [_ Heq]; [exists "a"%string; by vm_compute|].
  rewrite Heq; by vm_compute.
Defined.

Lemma only_replay_panics_witness : exists p e es cs s,
  calls (played 1 1 late_unsubscribe) ≡ₚ SendHistory p (e :: es) :: cs /\
  subs (bus (played 1 1 late_unsubscribe)) !! p = Some s /\ chan_closed s = true.
Proof.
  apply (only_replay_panics (played 1 1 late_unsubscribe)); [apply played_reachable; lia|].
  apply (perform_sound (CReplay 0)). by vm_compute.
Defined.

(** A second subscription with the same id. *)
Definition same_id : list choice :=
  [CSubscribe "a" [EventTypeBlock] None 1 0; CRegister 0 0;
   CSubscribe "a" [EventTypeBlock] None 1 0].

Definition open_sub : Subscription := mkSub {[EventTypeBlock]} None [] 1 false 0 0.

Lemma resubscribe_orphans_witness :
  let w := played 1 1 same_id in
  let w1 := mkWorld (register 1 "a" [EventTypeBlock] None 1 (bus w)) None [] [] []
              (<[1%nat := 0%nat]> (since w)) ∅ ∅ in
  exists s', subs (bus w1) !! 0%nat = Some s' /\ chan_closed s' = false /\
    (~ live (bus w1) 0%nat) /\ got w1 0 s' = [].
Proof.
  intros w w1.
  apply (resubscribe_orphans w w1 0 1 open_sub "a" [EventTypeBlock] None 1 []);
    [apply played_reachable; lia | by vm_compute | by vm_compute | | | by vm_compute |].
  - apply (bool_decide_unpack _). by vm_compute.
  - by vm_compute.
  - apply rtc_refl.
Defined.

Lemma stop_returns_witness : exists w'', rtc next (played 1 1 [CCancel]) w'' /\ done (bus w'') = true.
Proof.
  destruct (stop_returns (played 1 1 [CCancel]) (played 1 1 [CCancel])) as [_ H];
    [apply played_reachable; lia | by vm_compute | apply rtc_refl |].
  destruct H as (w'' & ? & ? & _); [by vm_compute|]. by exists w''.
Defined.
