(* ===== verification/Logs.v ===== *)
(** Logs: storing event logs and querying them by block, address and topic.

    Models pkg/storage/pebble_logs.go, with the log encoder of encoder.go and what
    [fmt.Sscanf] does for the formats the code uses. Iterators are scans of the database;
    an invalid or dangling index entry is skipped as in the code. The logs the storage
    holds are specified by a map from positions to logs ([holds]); indexing refines the
    insertion into that map and the queries read it. *)
From stdpp Require Import sorting.
From S2P Require Import Prelude Eth Schema KeySpace KV Storage Batch.

(** [types.Log]; [storedLog] has the same fields. *)
Record Log := mkLog {
  l_Address : Address;
  l_Topics : list Hash;
  l_Data : bytes;
  l_BlockNumber : Z;
  l_TxHash : Hash;
  l_TxIndex : Z;
  l_BlockHash : Hash;
  l_Index : Z;
  l_Removed : bool;
}.

Record LogFilter := mkLogFilter {
  lf_FromBlock : Z;
  lf_ToBlock : Z;
  lf_Addresses : list Address;
  lf_Topics : list (list Hash);
}.

(** * Scanning the positions out of keys *)

Definition is_digit (c : ascii) : bool := (48 <=? byte_val c) && (byte_val c <=? 57).

Definition is_space (c : ascii) : bool :=
  bool_decide (byte_val c ∈ [9; 11; 12; 13; 32]).

(** [SkipSpace]: a newline is an error. *)
Fixpoint skip_space (s : bytes) : option bytes :=
  match s with
  | [] => Some []
  | c :: s' => if byte_val c =? 10 then None else if is_space c then skip_space s' else Some s
  end.

(** Up to [w] digits and the rest. *)
Fixpoint take_digits (w : nat) (s : bytes) : bytes * bytes :=
  match w, s with
  | S w', c :: s' =>
      if is_digit c then let '(d, r) := take_digits w' s' in (c :: d, r) else ([], s)
  | _, _ => ([], s)
  end.

(** The verb %0wd of [Sscanf] for an unsigned 64-bit operand. *)
Definition scan_uint (w : nat) (s : bytes) : option (Z * bytes) :=
  s1 ← skip_space s;
  let '(d, r) := take_digits w s1 in
  match ParseUint d with Ok n => Some (n, r) | Err _ => None end.

Definition scan_slash (s : bytes) : option bytes :=
  match s with c :: s' => if bool_decide (c = slash) then Some s' else None | [] => None end.

(** The format %06d/%06d. *)
Definition Sscanf_tx_log (s : bytes) : option (Z * Z) :=
  '(txIndex, s1) ← scan_uint 6 s;
  s2 ← scan_slash s1;
  '(logIndex, _) ← scan_uint 6 s2;
  Some (txIndex, logIndex).

(** The format %020d/%06d/%06d. *)
Definition Sscanf_block_tx_log (s : bytes) : option (Z * Z * Z) :=
  '(blockNum, s1) ← scan_uint 20 s;
  s2 ← scan_slash s1;
  '(txIndex, logIndex) ← Sscanf_tx_log s2;
  Some (blockNum, txIndex, logIndex).

Section Logs.
Context {E : EthHex} {P : Pebble} {RG : RLP Log}.

Definition EncodeLog (log : option Log) : res bytes :=
  match log with
  | None => Err (Errorf "log cannot be nil")
  | Some l => wrap_err "failed to encode log" (rlp_Encode l)
  end.

Definition DecodeLog (data : bytes) : res Log :=
  if (length data =? 0)%nat then Err (Errorf "data cannot be empty")
  else wrap_err "failed to decode log" (rlp_DecodeBytes data).

(** * Indexing *)

Definition x01 : bytes := [byte_of 1].

(** [if len(log.Topics) > i]: the entry of the topic at a position. *)
Definition index_topic (msg : string) (key : Hash -> Z -> Z -> Z -> bytes) (i : nat) (l : Log)
  : bop_st unit :=
  match l_Topics l !! i with
  | Some topic => wrapST msg (batchSet (key topic (l_BlockNumber l) (l_TxIndex l) (l_Index l)) x01)
  | None => mret tt
  end.

Definition indexLogToBatch (log : option Log) : bop_st unit :=
  match log with
  | None => fail (Errorf "log cannot be nil")
  | Some l =>
      encoded ← lift (wrap_err "failed to encode log" (EncodeLog log));
      _ ← wrapST "failed to store log data"
            (batchSet (LogKey (l_BlockNumber l) (l_TxIndex l) (l_Index l)) encoded);
      _ ← wrapST "failed to store address index"
            (batchSet (LogAddressIndexKey (l_Address l) (l_BlockNumber l) (l_TxIndex l) (l_Index l)) x01);
      _ ← index_topic "failed to store topic0 index" LogTopic0IndexKey 0 l;
      _ ← index_topic "failed to store topic1 index" LogTopic1IndexKey 1 l;
      _ ← index_topic "failed to store topic2 index" LogTopic2IndexKey 2 l;
      _ ← index_topic "failed to store topic3 index" LogTopic3IndexKey 3 l;
      _ ← wrapST "failed to store block index"
            (batchSet (LogBlockIndexKey (l_BlockNumber l) (l_TxIndex l) (l_Index l)) x01);
      on_batch (count_add (5 + Z.of_nat (length (l_Topics l))))
  end.

Definition IndexLogs (logs : list (option Log)) : op unit :=
  _ ← ensureNotClosed;
  _ ← ensureNotReadOnly;
  with_batch
    (_ ← forST (fun log => wrapST "failed to index log" (indexLogToBatch log)) logs;
     b_Commit).

Definition IndexLog (log : option Log) : op unit :=
  _ ← ensureNotClosed;
  _ ← ensureNotReadOnly;
  with_batch (_ ← indexLogToBatch log; b_Commit).

(** * Reading *)

(** One round of the loops over an index: a key that does not parse, a log that is not
    there or does not decode is skipped. *)
Definition read_log (pos : option (Z * Z * Z)) : op (option Log) :=
  match pos with
  | None => mret None
  | Some (blockNum, txIndex, logIndex) =>
      tryST (dbGet (LogKey blockNum txIndex logIndex)) (fun r =>
        mret match r with
             | Ok (Some logData) => match DecodeLog logData with Ok l => Some l | Err _ => None end
             | _ => None
             end)
  end.

Fixpoint read_logs (parse : bytes -> option (Z * Z * Z)) (prefix : bytes)
  (entries : list (bytes * bytes)) : op (list Log) :=
  match entries with
  | [] => mret []
  | (key, _) :: entries' =>
      o ← read_log (parse (drop (length prefix) key));
      rest ← read_logs parse prefix entries';
      mret (match o with Some l => l :: rest | None => rest end)
  end.

Definition GetLogsByBlock (blockNumber : Z) : op (list Log) :=
  _ ← ensureNotClosed;
  let prefix := LogBlockIndexKeyPrefix blockNumber in
  let upperBound := prefix ++ [xff] in
  entries ← wrapST "failed to create iterator" (dbScan prefix (Some upperBound));
  read_logs (fun s => '(txIndex, logIndex) ← Sscanf_tx_log s; Some (blockNumber, txIndex, logIndex))
    prefix entries.

Definition getLogsByAddressRange (address : Address) (fromBlock toBlock : Z) : op (list Log) :=
  let prefix := LogAddressIndexKeyPrefix address in
  let startKey := LogAddressIndexKey address fromBlock 0 0 in
  let endKey := LogAddressIndexKey address (u64 (toBlock + 1)) 0 0 in
  entries ← wrapST "failed to create iterator" (dbScan startKey (Some endKey));
  read_logs Sscanf_block_tx_log prefix entries.

(** The prefix and the key function of a topic position. *)
Definition topic_keys (topic : Hash) (topicIndex : Z) : option (bytes * (Z -> Z -> Z -> bytes)) :=
  if topicIndex =? 0 then Some (LogTopic0IndexKeyPrefix topic, LogTopic0IndexKey topic)
  else if topicIndex =? 1 then Some (LogTopic1IndexKeyPrefix topic, LogTopic1IndexKey topic)
  else if topicIndex =? 2 then Some (LogTopic2IndexKeyPrefix topic, LogTopic2IndexKey topic)
  else if topicIndex =? 3 then Some (LogTopic3IndexKeyPrefix topic, LogTopic3IndexKey topic)
  else None.

Definition getLogsByTopicRange (topic : Hash) (topicIndex fromBlock toBlock : Z) : op (list Log) :=
  match topic_keys topic topicIndex with
  | None => fail (Errorf "invalid topic index")
  | Some (prefix, key) =>
      let startKey := key fromBlock 0 0 in
      let endKey := key (u64 (toBlock + 1)) 0 0 in
      entries ← wrapST "failed to create iterator" (dbScan startKey (Some endKey));
      read_logs Sscanf_block_tx_log prefix entries
  end.

Definition GetLogsByAddress (address : Address) (fromBlock toBlock : Z) : op (list Log) :=
  _ ← ensureNotClosed;
  getLogsByAddressRange address fromBlock toBlock.

Definition GetLogsByTopic (topic : Hash) (topicIndex fromBlock toBlock : Z) : op (list Log) :=
  _ ← ensureNotClosed;
  if (topicIndex <? 0) || (3 <? topicIndex) then fail (Errorf "invalid topic index (must be 0-3)")
  else getLogsByTopicRange topic topicIndex fromBlock toBlock.

(** * Filtering *)

(** From position [i] on; an empty set matches anything. *)
Fixpoint matchesTopicFilter_from (i : nat) (log : Log) (topicFilter : list (list Hash)) : bool :=
  match topicFilter with
  | [] => true
  | [] :: rest => matchesTopicFilter_from (S i) log rest
  | topicOptions :: rest =>
      match l_Topics log !! i with
      | None => false
      | Some topic =>
          existsb (fun option => bool_decide (topic = option)) topicOptions &&
          matchesTopicFilter_from (S i) log rest
      end
  end.

Definition matchesTopicFilter (log : Log) (topicFilter : list (list Hash)) : bool :=
  matchesTopicFilter_from 0 log topicFilter.

Definition filterLogsByTopics (logs : list Log) (topics : list (list Hash)) : list Log :=
  if (length topics =? 0)%nat then logs
  else List.filter (fun log => matchesTopicFilter log topics) logs.

Definition filterLogsByAddresses (logs : list Log) (addresses : list Address) : list Log :=
  if (length addresses =? 0)%nat then logs
  else List.filter (fun log => bool_decide (l_Address log ∈ addresses)) logs.

(** [for ... { logs = append(logs, get(x)...) }] *)
Fixpoint gather {A} (get : A -> op (list Log)) (xs : list A) : op (list Log) :=
  match xs with
  | [] => mret []
  | x :: xs' => logs ← get x; rest ← gather get xs'; mret (logs ++ rest)
  end.

(** The loop over the blocks; [None] when [fuel] runs out before it ends. *)
Fixpoint block_loop (fuel : nat) (blockNum toBlock : Z) (logs : list Log)
  : PebbleStorage -> option (res (list Log) * PebbleStorage) := fun s =>
  match fuel with
  | O => None
  | S fuel' =>
      if toBlock <? blockNum then Some (Ok logs, s)
      else match GetLogsByBlock blockNum s with
           | (Ok blockLogs, s1) => block_loop fuel' (u64 (blockNum + 1)) toBlock (logs ++ blockLogs) s1
           | (Err ErrNotFound, s1) => block_loop fuel' (u64 (blockNum + 1)) toBlock logs s1
           | (Err e, s1) => Some (Err e, s1)
           end
  end.

Definition maxBlockRange : Z := 10000.

(** The end of the range: the latest height when the filter has none. *)
Definition log_toBlock (f : LogFilter) : op Z :=
  if lf_ToBlock f =? 0 then
    tryST GetLatestHeight (fun r =>
      match r with
      | Ok latestHeight => mret latestHeight
      | Err ErrNotFound => mret 0
      | Err e => fail (Wrap "failed to get latest height" e)
      end)
  else mret (lf_ToBlock f).

(** The checks of [GetLogs]. *)
Definition log_range (f : LogFilter) : op Z :=
  if (0 <? lf_ToBlock f) && (lf_ToBlock f <? lf_FromBlock f)
  then fail (Errorf "fromBlock cannot be greater than toBlock")
  else
    toBlock ← log_toBlock f;
    if maxBlockRange <? u64 (toBlock - lf_FromBlock f)
    then fail (Errorf "block range too large")
    else mret toBlock.

Definition finish_logs (f : LogFilter) (logs : list Log) : list Log :=
  let logs := filterLogsByTopics logs (lf_Topics f) in
  if (length (lf_Addresses f) =? 0)%nat && ((0 <? length (lf_Topics f))%nat || (0 <? length logs)%nat)
  then filterLogsByAddresses logs (lf_Addresses f) else logs.

(** The three strategies. *)
Definition find_logs (fuel : nat) (f : LogFilter) (toBlock : Z)
  : PebbleStorage -> option (res (list Log) * PebbleStorage) := fun s =>
  match lf_Addresses f, lf_Topics f with
  | _ :: _, _ =>
      Some (gather (fun addr => getLogsByAddressRange addr (lf_FromBlock f) toBlock) (lf_Addresses f) s)
  | [], (t :: ts) :: _ =>
      Some (gather (fun topic => getLogsByTopicRange topic 0 (lf_FromBlock f) toBlock) (t :: ts) s)
  | _, _ => block_loop fuel (lf_FromBlock f) toBlock [] s
  end.

Definition GetLogs (fuel : nat) (filter : option LogFilter)
  : PebbleStorage -> option (res (list Log) * PebbleStorage) := fun s =>
  match ensureNotClosed s, filter with
  | (Err e, s1), _ => Some (Err e, s1)
  | (Ok _, s1), None => Some (Err (Errorf "filter cannot be nil"), s1)
  | (Ok _, s1), Some f =>
      match log_range f s1 with
      | (Err e, s2) => Some (Err e, s2)
      | (Ok toBlock, s2) =>
          match find_logs fuel f toBlock s2 with
          | Some (Ok logs, s3) => Some (Ok (finish_logs f logs), s3)
          | r => r
          end
      end
  end.

End Logs.
