(* ===== verification/LogQueries.v ===== *)
(** LogQueries: the log queries return what was indexed.

    The index entries of a log lie in families, by address, by topic and by block, which
    all continue with the position of the log ([base], [pos_bytes]). [holds] relates the
    database to a map from positions to logs; indexing inserts into the map and a scan of
    a family lists its logs in the order of the chain. *)
From stdpp Require Import sorting.
From S2P Require Import Prelude Eth Schema KeySpace KV Storage Batch PrefixOps.
From S2P Require Import StorageFacts StorageProps StorageReads Instances AddressIndex Logs.

Abbreviation position := (Z * Z * Z)%type.

Definition pos (l : Log) : position := (l_BlockNumber l, l_TxIndex l, l_Index l).

Definition pos_bytes (p : position) : bytes :=
  let '(b, t, i) := p in fmt_0d 20 b ++ lit "/" ++ fmt_0d 6 t ++ lit "/" ++ fmt_0d 6 i.

(** The numbers print on their widths: six digits for the indexes. *)
Definition pos_fits (p : position) : Prop :=
  let '(b, t, i) := p in is_u64 b /\ fits6 t /\ fits6 i.

Lemma pos_before p q : pos_fits p -> pos_fits q -> log_before p q ->
  bytes_ltb (pos_bytes p) (pos_bytes q) = true.
Proof.
  destruct p as [[b1 t1] i1], q as [[b2 t2] i2]. unfold pos_fits, fits6, pos_bytes.
  intros (Hb1%u64_fits20 & Ht1 & Hi1) (Hb2%u64_fits20 & Ht2 & Hi2) [?|[-> [?|[-> ?]]]].
  - apply fmt_0d_ltb; lia.
  - rewrite !bytes_ltb_app. apply fmt_0d_ltb; lia.
  - rewrite !bytes_ltb_app. rewrite <- (app_nil_r (fmt_0d 6 i1)), <- (app_nil_r (fmt_0d 6 i2)).
    apply fmt_0d_ltb; lia.
Qed.

Lemma log_before_total p q : log_before p q \/ p = q \/ log_before q p.
Proof.
  destruct p as [[b1 t1] i1], q as [[b2 t2] i2]. unfold log_before.
  destruct (Z.lt_total b1 b2) as [?|[->|?]]; [tauto| |tauto].
  destruct (Z.lt_total t1 t2) as [?|[->|?]]; [tauto| |tauto].
  destruct (Z.lt_total i1 i2) as [?|[->|?]]; tauto.
Qed.

Lemma pos_ltb p q : pos_fits p -> pos_fits q ->
  bytes_ltb (pos_bytes p) (pos_bytes q) = true <-> log_before p q.
Proof.
  intros Hp Hq. split; [|by apply pos_before]. intros Hlt.
  destruct (log_before_total p q) as [?|[<-|Hb]]; [done| |].
  - by rewrite bytes_ltb_irrefl in Hlt.
  - apply pos_before in Hb; [|done..]. pose proof (bytes_ltb_trans _ _ _ Hlt Hb) as H.
    by rewrite bytes_ltb_irrefl in H.
Qed.

Lemma pos_bytes_inj p q : pos_bytes p = pos_bytes q -> p = q.
Proof.
  destruct p as [[b1 t1] i1], q as [[b2 t2] i2]. unfold pos_bytes. intros H.
  apply slash_app_inj in H as [->%fmt_0d_inj H]; auto with go.
  apply slash_app_inj in H as [->%fmt_0d_inj ->%fmt_0d_inj]; auto with go.
Qed.

(** * Scanning a position *)

Lemma digit_is_digit c : is_digit_byte 10 c -> is_digit c = true /\ is_space c = false /\ byte_val c <> 10.
Proof.
  intros (d & Hd & ->). unfold is_digit, is_space. rewrite byte_val_digit by lia.
  destruct (Z.ltb_spec d 10); [|lia]. split; [lia|]. split; [|lia].
  apply bool_decide_eq_false. set_unfold. lia.
Qed.

Lemma take_digits_all d r : Forall (is_digit_byte 10) d -> take_digits (length d) (d ++ r) = (d, r).
Proof.
  induction 1 as [|c d Hc _ IH]; cbn [length take_digits app]; [by destruct r|].
  by rewrite (proj1 (digit_is_digit c Hc)), IH.
Qed.

Lemma skip_space_digits d r : Forall (is_digit_byte 10) d -> d <> [] -> skip_space (d ++ r) = Some (d ++ r).
Proof.
  intros Hd Hne. destruct Hd as [|c d Hc _]; [done|]. cbn.
  destruct (digit_is_digit c Hc) as (_ & -> & Hn). by destruct (Z.eqb_spec (byte_val c) 10).
Qed.

Lemma scan_uint_fmt w z r : (1 <= w)%nat -> is_u64 z -> z < 10 ^ Z.of_nat w ->
  scan_uint w (fmt_0d w z ++ r) = Some (z, r).
Proof.
  intros Hw Hz Hlt. unfold fmt_0d. rewrite fmt_int_fixed by (auto with go; unfold is_u64 in Hz; lia).
  set (d := fixed_digits 10 w z).
  assert (Hd : Forall (is_digit_byte 10) d) by (apply fixed_digits_chars; auto with go).
  assert (Hlen : length d = w) by apply length_fixed_digits.
  assert (Hne : d <> []) by (intros ->; cbn in Hlen; lia).
  unfold scan_uint. rewrite skip_space_digits by done. cbn [mbind option_bind].
  rewrite <- Hlen at 1. rewrite take_digits_all by done.
  assert (Hval : digits_val 10 d = z).
  { unfold d. rewrite digits_val_fixed by auto with go. apply Z.mod_small. unfold is_u64 in Hz. lia. }
  unfold ParseUint. destruct d as [|c d']; [done|].
  rewrite ParseUint_go_digits; [|lia|done|].
  - change (fold_left _ _ 0) with (digits_val 10 (c :: d')). by rewrite Hval.
  - change (fold_left _ _ 0) with (digits_val 10 (c :: d')). rewrite Hval. unfold is_u64 in Hz. lia.
Qed.

Lemma fits6_u64 z : fits6 z -> is_u64 z /\ z < 10 ^ Z.of_nat 6.
Proof. unfold fits6, is_u64, two64. lia. Qed.

Lemma Sscanf_tx_log_fmt t i : fits6 t -> fits6 i ->
  Sscanf_tx_log (fmt_0d 6 t ++ lit "/" ++ fmt_0d 6 i) = Some (t, i).
Proof.
  intros [Ht Ht']%fits6_u64 [Hi Hi']%fits6_u64. unfold Sscanf_tx_log.
  rewrite scan_uint_fmt by (done || lia). cbn [mbind option_bind].
  change (lit "/" ++ fmt_0d 6 i) with (slash :: fmt_0d 6 i). cbn [scan_slash].
  rewrite bool_decide_eq_true_2 by done. cbn [mbind option_bind].
  rewrite <- (app_nil_r (fmt_0d 6 i)), scan_uint_fmt by (done || lia). done.
Qed.

Lemma Sscanf_pos p : pos_fits p -> Sscanf_block_tx_log (pos_bytes p) = Some p.
Proof.
  destruct p as [[b t] i]. intros (Hb & Ht & Hi). unfold Sscanf_block_tx_log, pos_bytes.
  pose proof (u64_fits20 b Hb) as [_ Hb20]. rewrite scan_uint_fmt by (done || lia). cbn [mbind option_bind].
  change (lit "/" ++ fmt_0d 6 t ++ lit "/" ++ fmt_0d 6 i)
    with (slash :: fmt_0d 6 t ++ lit "/" ++ fmt_0d 6 i). cbn [scan_slash].
  rewrite bool_decide_eq_true_2 by done. cbn [mbind option_bind]. by rewrite Sscanf_tx_log_fmt.
Qed.

(** * Families of index entries *)

Inductive family := FAddr (a : Address) | FTopic (i : nat) (t : Hash) | FBlock.

#[export] Instance family_eq_dec : EqDecision family.
Proof. solve_decision. Defined.

Section Families.
Context {E : EthHex} {P : Pebble} {RG : RLP Log}.
Context (HE : EthHexLaws E) (HP : PebbleLaws P) (HG : RLPLaws Log RG).
(** Every field of a log is part of its encoding. *)
Context (Himage : forall l : Log, rlp_image l = l).

Definition base (f : family) : bytes :=
  match f with
  | FAddr a => LogAddressIndexKeyPrefix a
  | FTopic 0 t => LogTopic0IndexKeyPrefix t
  | FTopic 1 t => LogTopic1IndexKeyPrefix t
  | FTopic 2 t => LogTopic2IndexKeyPrefix t
  | FTopic _ t => LogTopic3IndexKeyPrefix t
  | FBlock => prefixIdxLogsBlock
  end.

Definition real (f : family) : Prop := match f with FTopic i _ => (i < 4)%nat | _ => True end.

(** The log has an entry in the family. *)
Definition member (f : family) (l : Log) : Prop :=
  match f with
  | FAddr a => l_Address l = a
  | FTopic i t => l_Topics l !! i = Some t
  | FBlock => True
  end.

Definition log_key (p : position) : bytes := let '(b, t, i) := p in LogKey b t i.

Lemma base_inj f1 f2 k1 k2 : real f1 -> real f2 -> base f1 ++ k1 = base f2 ++ k2 ->
  f1 = f2 /\ k1 = k2.
Proof.
  intros H1 H2 Heq.
  destruct f1 as [a1|[|[|[|[|]]]] t1|], f2 as [a2|[|[|[|[|]]]] t2|]; cbn in H1, H2; try lia;
    cbn [base] in Heq; try discriminate Heq;
    try (by apply (inj (app prefixIdxLogsBlock)) in Heq);
    unfold LogAddressIndexKeyPrefix, LogTopic0IndexKeyPrefix, LogTopic1IndexKeyPrefix,
      LogTopic2IndexKeyPrefix, LogTopic3IndexKeyPrefix in Heq;
    rewrite <- !app_assoc in Heq; apply (inj (app _)) in Heq; cbn [app] in Heq;
    apply slash_app_inj in Heq as [Heq ->]; auto with go;
    first [apply Address_Hex_inj in Heq | apply Hash_Hex_inj in Heq]; by subst.
Qed.

Lemma log_key_inj p q : log_key p = log_key q -> p = q.
Proof.
  destruct p as [[b1 t1] i1], q as [[b2 t2] i2]. unfold log_key, LogKey. intros H.
  apply (inj (app _)) in H. by apply pos_bytes_inj.
Qed.

Lemma log_key_base p f k : log_key p <> base f ++ k.
Proof. destruct p as [[b t] i], f as [a|[|[|[|]]] t'|]; intros H; discriminate H. Qed.

(** The families of a log, in the order they are written. *)
Definition families (l : Log) : list family :=
  FAddr (l_Address l) ::
  omap (fun i => FTopic i <$> l_Topics l !! i) [0; 1; 2; 3]%nat ++ [FBlock].

Lemma elem_of_families f l : f ∈ families l <-> real f /\ member f l.
Proof.
  unfold families. rewrite elem_of_cons, elem_of_app, list_elem_of_omap, list_elem_of_singleton. split.
  - intros [->|[(i & Hi & Hf)| ->]]; [done| |done].
    apply fmap_Some in Hf as (t & Ht & ->). split; [|done]. set_unfold. cbn. lia.
  - intros [Hr Hm]. destruct f as [a|i t|]; cbn in Hm; [by left; subst| |by right; right].
    right. left. exists i. cbn in Hr. split; [set_unfold; lia|]. by rewrite Hm.
Qed.

Definition index_ops (l : Log) (d : bytes) : list bop :=
  (log_key (pos l), Some d) ::
  ((fun f => (base f ++ pos_bytes (pos l), Some x01)) <$> families l).

(** The keys that are written are the entries of the families. *)
Lemma addr_index_key l : LogAddressIndexKey (l_Address l) (l_BlockNumber l) (l_TxIndex l) (l_Index l)
  = base (FAddr (l_Address l)) ++ pos_bytes (pos l).
Proof. cbn [base]. unfold LogAddressIndexKey, LogAddressIndexKeyPrefix. by rewrite <- !app_assoc. Qed.

Lemma block_index_key l : LogBlockIndexKey (l_BlockNumber l) (l_TxIndex l) (l_Index l)
  = base FBlock ++ pos_bytes (pos l).
Proof. done. Qed.

Lemma topic_index_key (i : nat) t b x n : 
  match i with
  | 0%nat => LogTopic0IndexKey t b x n | 1%nat => LogTopic1IndexKey t b x n
  | 2%nat => LogTopic2IndexKey t b x n | _ => LogTopic3IndexKey t b x n
  end = base (FTopic i t) ++ pos_bytes (b, x, n).
Proof.
  destruct i as [|[|[|i]]]; cbn [base];
    unfold LogTopic0IndexKey, LogTopic1IndexKey, LogTopic2IndexKey, LogTopic3IndexKey,
      LogTopic0IndexKeyPrefix, LogTopic1IndexKeyPrefix, LogTopic2IndexKeyPrefix,
      LogTopic3IndexKeyPrefix, pos_bytes; by rewrite <- !app_assoc.
Qed.

(** What [indexLogToBatch] puts into the batch. *)
Lemma index_topic_batched msg key i l sb r sb' :
  (forall t, key t (l_BlockNumber l) (l_TxIndex l) (l_Index l) = base (FTopic i t) ++ pos_bytes (pos l)) ->
  is_u64 (b_txCount (snd sb)) -> index_topic msg key i l sb = (Ok r, sb') ->
  batched sb ((fun f => (base f ++ pos_bytes (pos l), Some x01)) <$>
    omap (fun i => FTopic i <$> l_Topics l !! i) [i]) 0 0 sb'.
Proof.
  intros Hkey Hu. unfold index_topic. cbn [omap list_omap].
  destruct (l_Topics l !! i) as [t|]; cbn [fmap option_fmap option_map].
  - intros H. apply wrapST_ok in H. apply (batchSet_ok _ _ _ _ _ Hu) in H. by rewrite Hkey in H.
  - intros [= <- <-]. unfold batched. destruct sb as [s b]. cbn in *.
    rewrite app_nil_r, !Z.add_0_r, u64_id by done. by destruct b.
Qed.

Lemma indexLogToBatch_batched l sb r sb' : is_u64 (b_txCount (snd sb)) ->
  indexLogToBatch (Some l) sb = (Ok r, sb') ->
  exists d, rlp_Encode l = Ok d /\ batched sb (index_ops l d) (5 + Z.of_nat (length (l_Topics l))) 0 sb'.
Proof.
  intros Hu H. unfold indexLogToBatch, EncodeLog in H. inv_op.
  repeat match goal with
  | Hb : batchSet _ _ ?sb0 = (Ok _, _), Hx : is_u64 (b_txCount (snd ?sb0)) |- _ =>
      apply (batchSet_ok _ _ _ _ _ Hx) in Hb; pose proof (batched_u64 _ _ _ _ _ Hb)
  | Hb : index_topic _ _ _ _ ?sb0 = (Ok _, _), Hx : is_u64 (b_txCount (snd ?sb0)) |- _ =>
      apply index_topic_batched in Hb; [|intros t; match goal with |- _ = base (FTopic ?i _) ++ _ => apply (topic_index_key i) end | exact Hx];
      pose proof (batched_u64 _ _ _ _ _ Hb)
  | Hb : on_batch (count_add _) ?sb0 = (Ok _, _), Hx : is_u64 (b_txCount (snd ?sb0)) |- _ =>
      apply (count_add_ok _ _ _ _ Hx) in Hb
  end.
  eexists. split; [done|].
  repeat match goal with
  | H1 : batched sb _ _ _ ?sb1, H2 : batched ?sb1 _ _ _ _ |- _ =>
      pose proof (batched_trans _ _ _ _ _ _ _ _ _ H1 H2); clear H1 H2
  end.
  match goal with Hb : batched sb ?o ?c ?n sb' |- _ =>
    replace (index_ops l r0) with o; [replace (5 + _) with c by lia; exact Hb|] end.
  unfold index_ops, families. change [0; 1; 2; 3]%nat with ([0] ++ [1] ++ [2] ++ [3])%nat.
  rewrite !omap_app. cbn [fmap list_fmap]. rewrite !fmap_app, <- !app_assoc, app_nil_r.
  cbn [list_fmap]. by rewrite <- addr_index_key.
Qed.

(** * What the database holds *)

(** The database holds exactly the logs of [L]. *)
Record holds (L : gmap position Log) (g : bytes -> res (option bytes)) : Prop := mkHolds {
  holds_log : forall p l, L !! p = Some l -> pos_fits p /\ p = pos l /\
    exists d, rlp_Encode l = Ok d /\ g (log_key p) = Ok (Some d);
  holds_index : forall f k v, real f -> g (base f ++ k) = Ok (Some v) <->
    v = x01 /\ exists p l, L !! p = Some l /\ member f l /\ k = pos_bytes p;
}.

Lemma last_write_sets keys v k :
  last_write ((fun k => (k, Some v)) <$> keys) k = if decide (k ∈ keys) then Some (Some v) else None.
Proof.
  induction keys as [|k' keys IH]; [done|]. cbn. rewrite IH.
  repeat case_decide; subst; set_solver.
Qed.

Lemma last_write_index_ops l d k : last_write (index_ops l d) k =
  if decide (k ∈ (fun f => base f ++ pos_bytes (pos l)) <$> families l) then Some (Some x01)
  else if decide (log_key (pos l) = k) then Some (Some d) else None.
Proof.
  unfold index_ops. cbn [last_write].
  replace ((fun f => (base f ++ pos_bytes (pos l), Some x01)) <$> families l)
    with ((fun k => (k, Some x01)) <$> ((fun f => base f ++ pos_bytes (pos l)) <$> families l))
    by by rewrite <- list_fmap_compose.
  rewrite last_write_sets. by repeat case_decide.
Qed.

(** Indexing a log inserts it, unless another log was indexed at its position. *)
Lemma holds_insert L g g' l d : holds L g -> pos_fits (pos l) -> rlp_Encode l = Ok d ->
  (forall l0, L !! pos l = Some l0 -> l0 = l) ->
  (forall k, g' k = match last_write (index_ops l d) k with Some o => Ok o | None => g k end) ->
  holds (<[pos l := l]> L) g'.
Proof.
  intros [Hlog Hidx] Hfit Henc Hsame Hg'. split.
  - intros p l' Hp. rewrite Hg', last_write_index_ops.
    rewrite decide_False by (intros (f & Hf & _)%list_elem_of_fmap; by apply log_key_base in Hf).
    apply lookup_insert_Some in Hp as [[<- <-]|[Hne Hp]].
    + split_and!; [done..|]. exists d. by rewrite decide_True.
    + destruct (Hlog p l' Hp) as (Hf & -> & d' & Hd' & Hget). split_and!; [done..|].
      exists d'. rewrite decide_False; [done|]. by intros Heq%log_key_inj.
  - intros f k v Hf. rewrite Hg', last_write_index_ops.
    rewrite (decide_False (P := log_key (pos l) = _)) by apply log_key_base.
    case_decide as Hin.
    + apply list_elem_of_fmap in Hin as (f' & Heq & Hf').
      apply elem_of_families in Hf' as [Hr' Hm'].
      apply base_inj in Heq as [<- ->]; [|done..]. split.
      * intros [= <-]. split; [done|]. exists (pos l), l. by rewrite lookup_insert_eq.
      * by intros [-> _].
    + rewrite Hidx by done. split; intros (-> & p & l' & Hp & Hm & ->); (split; [done|]).
      * exists p, l'. split; [|done]. destruct (decide (p = pos l)) as [->|Hne].
        -- rewrite lookup_insert_eq. by rewrite (Hsame l' Hp).
        -- by rewrite lookup_insert_ne.
      * apply lookup_insert_Some in Hp as [[<- <-]|[Hne Hp]]; [|by exists p, l'].
        destruct Hin. apply list_elem_of_fmap. exists f. split; [done|]. by apply elem_of_families.
Qed.

Definition insert_logs (L : gmap position Log) (ls : list Log) : gmap position Log :=
  fold_left (fun L l => <[pos l := l]> L) ls L.

(** No two different logs at one position, and each log fits the widths of the keys. *)
Definition consistent (L : gmap position Log) (ls : list Log) : Prop :=
  forall l, l ∈ ls -> pos_fits (pos l) /\ (forall l0, L !! pos l = Some l0 -> l0 = l) /\
    forall l', l' ∈ ls -> pos l' = pos l -> l' = l.

Lemma consistent_cons L l ls : consistent L (l :: ls) -> consistent (<[pos l := l]> L) ls.
Proof.
  intros Hc x Hx. destruct (Hc x) as (Hfit & HL & Hls); [by right|].
  split_and!; [done| |intros; apply Hls; [by right|done]].
  intros l0 Hl0. apply lookup_insert_Some in Hl0 as [[Heq <-]|[_ Hl0]]; [|by apply HL].
  apply Hls; [by left | done].
Qed.

Lemma holds_insert_logs L g g' ls : holds L g -> consistent L ls ->
  Forall (fun l => rlp_Encode l = Ok (enc l)) ls ->
  (forall k, g' k = match last_write (flat_map (fun l => index_ops l (enc l)) ls) k with
                    | Some o => Ok o | None => g k end) ->
  holds (insert_logs L ls) g'.
Proof.
  revert L g. induction ls as [|l ls IH]; intros L g Hh Hc Henc Hg.
  { cbn in *. destruct Hh as [H1 H2]. split; intros; rewrite Hg in *; eauto. }
  inversion_clear Henc as [|? ? Hl Hls]. cbn [flat_map] in Hg.
  apply (IH _ (fun k => match last_write (index_ops l (enc l)) k with Some o => Ok o | None => g k end)).
  - destruct (Hc l) as (Hfit & HL & _); [by left|]. by apply (holds_insert L g _ l (enc l)).
  - by apply consistent_cons.
  - done.
  - intros k. rewrite Hg, last_write_app. by destruct (last_write (flat_map _ ls) k).
Qed.

Lemma indexLogs_batched logs sb r sb' : is_u64 (b_txCount (snd sb)) ->
  forST (fun log => wrapST "failed to index log" (indexLogToBatch log)) logs sb = (Ok r, sb') ->
  exists ls c, logs = Some <$> ls /\ Forall (fun l => rlp_Encode l = Ok (enc l)) ls /\
    batched sb (flat_map (fun l => index_ops l (enc l)) ls) c 0 sb'.
Proof.
  revert sb. induction logs as [|o logs IH]; intros sb Hu H; cbn [forST] in H.
  { inv_op. exists [], 0. split_and!; [done..|]. destruct sb' as [s b]. unfold batched. cbn in *.
    rewrite app_nil_r, !Z.add_0_r, u64_id by done. by destruct b. }
  inv_op. destruct o as [l|]; [|discriminate H0].
  apply indexLogToBatch_batched in H0 as (d & Hd & Hb); [|done].
  apply IH in H as (ls & c & -> & Henc & Hbs); [|by eapply batched_u64].
  assert (Hde : d = enc l) by (unfold enc; by rewrite Hd). subst d.
  eexists (l :: ls), _. split_and!; [done | by constructor |].
  exact (batched_trans _ _ _ _ _ _ _ _ _ Hb Hbs).
Qed.

Lemma IndexLogs_holds L logs s r s' : is_u64 (txCount s) -> holds L (db_get (db s)) ->
  IndexLogs logs s = (Ok r, s') ->
  exists ls, logs = Some <$> ls /\ closed s' = false /\
    (consistent L ls -> holds (insert_logs L ls) (db_get (db s'))).
Proof.
  intros Hu Hh H. unfold IndexLogs in H. inv_op.
  apply with_batch_ok in H as (b' & H). inv_op.
  match goal with Hf : forST _ _ _ = _ |- _ =>
    apply indexLogs_batched in Hf as (ls & c & -> & Henc & Hb); [|done] end.
  unfold batched in Hb. subst.
  match goal with Hc : b_Commit _ = _ |- _ => apply (b_Commit_applied HP) in Hc; [|done|done]; rename Hc into Hap end.
  cbn in Hap. destruct Hap as [Hfr Hget]. exists ls. split; [done|]. split; [by rewrite Hfr|].
  intros Hcons. eapply holds_insert_logs; [done..|]. intros k. rewrite Hget. unfold pending.
  by rewrite app_nil_r.
Qed.

(** * Queries *)

(** The entries of a family in a range are those of the logs whose positions are. *)
Lemma scan_family L s f a b entries s' : holds L (db_get (db s)) -> real f ->
  dbScan (base f ++ a) (Some (base f ++ b)) s = (Ok entries, s') ->
  StronglySorted key_lt entries /\ forall k v, (k, v) ∈ entries <->
    v = x01 /\ exists p l, L !! p = Some l /\ member f l /\
      in_range a (Some b) (pos_bytes p) /\ k = base f ++ pos_bytes p.
Proof.
  intros [_ Hidx] Hf [Hs _]%dbScan_ok. split; [by eapply db_scan_sorted|].
  intros k v. rewrite (db_scan_elem _ _ _ _ _ _ Hs), in_range_app. split.
  - intros ((r & -> & Hr) & Hg). apply Hidx in Hg as (-> & p & l & Hp & Hm & ->); [|done].
    split; [done|]. by exists p, l.
  - intros (-> & p & l & Hp & Hm & Hr & ->). split; [by exists (pos_bytes p)|].
    apply Hidx; [done|]. split; [done|]. by exists p, l.
Qed.

Lemma read_log_held L s p l : holds L (db_get (db s)) -> L !! p = Some l ->
  read_log (Some p) s = (Ok (Some l), s).
Proof.
  intros [Hlog _] Hp. destruct (Hlog p l Hp) as (_ & _ & d & Hd & Hg).
  destruct p as [[b t] i]. unfold read_log, tryST, dbGet. cbn [log_key] in Hg. rewrite Hg. cbn.
  unfold DecodeLog. apply rlp_encode_nonempty in Hd as Hne.
  replace (length d =? 0)%nat with false by (symmetry; apply Nat.eqb_neq; by destruct d).
  apply rlp_decode_encode in Hd. rewrite Hd. cbn. by rewrite Himage.
Qed.

(** The loops read the log of every entry. *)
Lemma read_logs_held L s f parse prefix entries : holds L (db_get (db s)) ->
  (forall k v, (k, v) ∈ entries -> exists p l, L !! p = Some l /\ member f l /\
     k = base f ++ pos_bytes p /\ parse (drop (length prefix) k) = Some p) ->
  exists out, read_logs parse prefix entries s = (Ok out, s) /\
    Forall2 (fun kv l => L !! pos l = Some l /\ member f l /\ fst kv = base f ++ pos_bytes (pos l))
      entries out.
Proof.
  intros Hh. induction entries as [|[k v] entries IH]; intros Hin; cbn [read_logs].
  { by exists []. }
  destruct (Hin k v) as (p & l & Hp & Hm & -> & Hparse); [by left|].
  destruct IH as (out & Hout & Hall); [intros; eapply Hin; by right|].
  exists (l :: out). rewrite Hparse. unfold mbind, ST_bind. rewrite (read_log_held L s p l) by done.
  cbn. rewrite Hout. split; [done|]. destruct Hh as [Hlog _].
  destruct (Hlog p l Hp) as (_ & -> & _). by constructor.
Qed.

(** The logs of a family that satisfy [Q], in the order of the chain. *)
Definition listed (L : gmap position Log) (Q : Log -> Prop) (out : list Log) : Prop :=
  StronglySorted log_before (pos <$> out) /\ forall l, l ∈ out <-> L !! pos l = Some l /\ Q l.

Lemma Forall2_elem {A B} (R : A -> B -> Prop) l k y : Forall2 R l k -> y ∈ k -> exists x, x ∈ l /\ R x y.
Proof.
  induction 1 as [|x z l k Hxz _ IH]; [by intros ?%not_elem_of_nil|].
  intros [->|Hy]%elem_of_cons; [exists x; split; [by left | done]|].
  destruct (IH Hy) as (x' & ? & ?). exists x'. split; [by right | done].
Qed.

Lemma family_query L s f a b parse prefix entries s' : holds L (db_get (db s)) -> real f ->
  dbScan (base f ++ a) (Some (base f ++ b)) s = (Ok entries, s') ->
  (forall p l, L !! p = Some l -> in_range a (Some b) (pos_bytes p) ->
     parse (drop (length prefix) (base f ++ pos_bytes p)) = Some p) ->
  exists out, read_logs parse prefix entries s = (Ok out, s) /\
    listed L (fun l => member f l /\ in_range a (Some b) (pos_bytes (pos l))) out.
Proof.
  intros Hh Hf Hscan Hparse. destruct (scan_family L s f a b entries s' Hh Hf Hscan) as [Hsort Hel].
  destruct (read_logs_held L s f parse prefix entries Hh) as (out & Hout & Hall).
  { intros k v Hkv. apply Hel in Hkv as (_ & p & l & Hp & Hm & Hr & ->).
    exists p, l. split_and!; eauto. }
  exists out. split; [done|]. split.
  - clear Hout Hel Hscan. revert out Hall. induction Hsort as [|kv entries _ IH Hfirst];
      intros out Hall; inversion_clear Hall as [|? l ? out' Hl Hrest]; [constructor|].
    cbn. constructor; [by apply IH|]. apply Forall_fmap, Forall_forall. intros l' Hl'.
    destruct (Forall2_elem _ _ _ _ Hrest Hl') as (kv' & Hkv' & HL' & _ & Hk').
    destruct Hl as (HL & _ & Hk). rewrite Forall_forall in Hfirst. specialize (Hfirst kv' Hkv').
    unfold key_lt in Hfirst. rewrite Hk, Hk', bytes_ltb_app in Hfirst.
    destruct Hh as [Hlog _]. apply Hlog in HL as [Hfit _], HL' as [Hfit' _].
    change (log_before (pos l) (pos l')). by apply (pos_ltb (pos l) (pos l')).
  - intros l. split.
    + intros Hl. destruct (Forall2_elem _ _ _ _ Hall Hl) as ([k v] & Hkv & HL & Hm & Hk).
      cbn [fst] in Hk. apply Hel in Hkv as (_ & p & l' & _ & _ & Hr & Hk').
      rewrite Hk in Hk'. apply (inj (app _)) in Hk'. by rewrite Hk'.
    + intros (HL & Hm & Hr).
      assert (Hkv : (base f ++ pos_bytes (pos l), x01) ∈ entries).
      { apply Hel. split; [done|]. by exists (pos l), l. }
      destruct (Forall2_elem (fun l kv => L !! pos l = Some l /\ member f l /\
        fst kv = base f ++ pos_bytes (pos l)) out entries _ (proj2 (Forall2_flip _ _ _) Hall) Hkv)
        as (l' & Hl' & HL' & _ & Hk).
      cbn [fst] in Hk. apply (inj (app _)), pos_bytes_inj in Hk. rewrite Hk in HL. congruence.
Qed.

(** ** The ranges *)

Lemma in_block_range b1 b2 p : pos_fits p -> is_u64 b1 -> is_u64 b2 ->
  in_range (pos_bytes (b1, 0, 0)) (Some (pos_bytes (b2, 0, 0))) (pos_bytes p) <->
  b1 <= fst (fst p) < b2.
Proof.
  intros Hp H1 H2. assert (H0 : fits6 0) by (unfold fits6; lia).
  assert (Hf1 : pos_fits (b1, 0, 0)) by done. assert (Hf2 : pos_fits (b2, 0, 0)) by done.
  unfold in_range, bytes_leb. rewrite negb_true_iff, <- not_true_iff_false, !pos_ltb by done.
  destruct p as [[b t] i]. destruct Hp as (_ & Ht & Hi). unfold fits6 in *. cbn [log_before fst]. lia.
Qed.

Lemma in_one_block n p : pos_fits p ->
  in_range (fmt_0d 20 n ++ lit "/") (Some ((fmt_0d 20 n ++ lit "/") ++ [xff])) (pos_bytes p) <->
  fst (fst p) = n.
Proof.
  intros Hp. rewrite in_range_xff. destruct p as [[b t] i]. cbn [fst]. unfold pos_bytes. split.
  - intros (rest & Heq & _). rewrite <- app_assoc in Heq.
    apply slash_app_inj in Heq as [Heq _]; auto with go. by apply fmt_0d_inj in Heq.
  - intros ->. exists (fmt_0d 6 t ++ lit "/" ++ fmt_0d 6 i). split; [by rewrite <- !app_assoc|].
    destruct (fmt_0d 6 t) as [|c r] eqn:Ht; [done|]. cbn. by eapply fmt_0d_head.
Qed.

Lemma drop_base f k : drop (length (base f)) (base f ++ k) = k.
Proof. apply drop_app_length. Qed.

Lemma topic_keys_base t i : 0 <= i <= 3 -> topic_keys t i =
  Some (base (FTopic (Z.to_nat i) t),
        match Z.to_nat i with
        | 0%nat => LogTopic0IndexKey t | 1%nat => LogTopic1IndexKey t
        | 2%nat => LogTopic2IndexKey t | _ => LogTopic3IndexKey t
        end).
Proof.
  intros Hi. assert (i = 0 \/ i = 1 \/ i = 2 \/ i = 3) as [-> | [-> | [-> | ->]]] by lia; done.
Qed.

(** Blocks from [b1] to [b2]. *)
Definition in_blocks_range (b1 b2 : Z) (l : Log) : Prop := b1 <= l_BlockNumber l <= b2.

Lemma listed_iff L Q R out : listed L Q out ->
  (forall l, L !! pos l = Some l -> Q l <-> R l) -> listed L R out.
Proof.
  intros [Hs Hel] HQ. split; [done|]. intros l. rewrite Hel.
  split; intros [HL HX]; (split; [done|]); by apply (HQ l HL).
Qed.

Lemma range_query L s f b1 b2 r s' : holds L (db_get (db s)) -> real f -> is_u64 b1 -> 0 <= b2 < two64 - 1 ->
  (entries ← wrapST "failed to create iterator"
     (dbScan (base f ++ pos_bytes (b1, 0, 0)) (Some (base f ++ pos_bytes (u64 (b2 + 1), 0, 0))));
   read_logs Sscanf_block_tx_log (base f) entries) s = (Ok r, s') ->
  s' = s /\ listed L (fun l => member f l /\ in_blocks_range b1 b2 l) r.
Proof.
  intros Hh Hf H1 H2 H. assert (Hu : u64 (b2 + 1) = b2 + 1) by (apply u64_id; unfold is_u64; lia).
  assert (H2' : is_u64 (b2 + 1)) by (unfold is_u64; lia). rewrite Hu in H.
  unfold mbind at 1, ST_bind at 1 in H.
  destruct (wrapST _ _ s) as [[entries|e] s1] eqn:Hscan; [|done].
  apply wrapST_ok in Hscan. assert (s1 = s) as -> by (apply dbScan_ok in Hscan; tauto).
  destruct (family_query L s f _ _ Sscanf_block_tx_log (base f) entries s Hh Hf Hscan)
    as (out & Hout & Hl).
  { intros p l Hp _. rewrite drop_base. apply Sscanf_pos. by apply (holds_log L _ Hh) in Hp as [? _]. }
  rewrite Hout in H. injection H as <- <-. split; [done|].
  eapply listed_iff; [exact Hl|]. intros l HL. apply (holds_log L _ Hh) in HL as (Hfit & _).
  rewrite (in_block_range b1 (b2 + 1) (pos l)) by done. unfold in_blocks_range. cbn [pos fst]. intuition lia.
Qed.

Lemma address_query L s a b1 b2 r s' : holds L (db_get (db s)) -> is_u64 b1 -> 0 <= b2 < two64 - 1 ->
  getLogsByAddressRange a b1 b2 s = (Ok r, s') ->
  s' = s /\ listed L (fun l => l_Address l = a /\ in_blocks_range b1 b2 l) r.
Proof.
  intros Hh H1 H2 H. apply (range_query L s (FAddr a) b1 b2 r s'); [done..|].
  rewrite <- H. unfold getLogsByAddressRange, LogAddressIndexKey, base, LogAddressIndexKeyPrefix, pos_bytes.
  rewrite <- !app_assoc. done.
Qed.

Lemma topic_query L s t i b1 b2 r s' : holds L (db_get (db s)) -> is_u64 b1 -> 0 <= b2 < two64 - 1 ->
  0 <= i <= 3 -> getLogsByTopicRange t i b1 b2 s = (Ok r, s') ->
  s' = s /\ listed L (fun l => l_Topics l !! Z.to_nat i = Some t /\ in_blocks_range b1 b2 l) r.
Proof.
  intros Hh H1 H2 Hi H. apply (range_query L s (FTopic (Z.to_nat i) t) b1 b2 r s'); try done; [cbn; lia|].
  rewrite <- H. unfold getLogsByTopicRange. rewrite topic_keys_base by done.
  rewrite <- !(topic_index_key (Z.to_nat i)). by destruct (Z.to_nat i) as [|[|[|]]].
Qed.

Lemma block_query L s n r s' : holds L (db_get (db s)) -> GetLogsByBlock n s = (Ok r, s') ->
  s' = s /\ listed L (fun l => l_BlockNumber l = n) r.
Proof.
  intros Hh H. unfold GetLogsByBlock in H. inv_op.
  match goal with Hs : db_scan _ _ _ = Ok ?l |- _ =>
    assert (Hscan : dbScan (base FBlock ++ (fmt_0d 20 n ++ lit "/"))
      (Some (base FBlock ++ ((fmt_0d 20 n ++ lit "/") ++ [xff]))) s = (Ok l, s))
      by (unfold dbScan; rewrite <- Hs; unfold LogBlockIndexKeyPrefix; by rewrite <- !app_assoc)
  end.
  match goal with Hr : read_logs ?parse ?prefix _ _ = _ |- _ =>
    destruct (family_query L s FBlock _ _ parse prefix _ s Hh I Hscan) as (out & Hout & Hl)
  end.
  - intros p l Hp Hr. apply (holds_log L _ Hh) in Hp as (Hfit & -> & _).
    apply in_one_block in Hr; [|done]. cbn in Hr. subst n.
    destruct Hfit as (Hb & Ht & Hi).
    assert (Heq : base FBlock ++ pos_bytes (pos l) = LogBlockIndexKeyPrefix (l_BlockNumber l) ++
      (fmt_0d 6 (l_TxIndex l) ++ lit "/" ++ fmt_0d 6 (l_Index l)))
      by (unfold LogBlockIndexKeyPrefix; by rewrite <- !app_assoc).
    rewrite Heq, drop_app_length. by rewrite Sscanf_tx_log_fmt.
  - rewrite Hout in *. simplify_eq. split; [done|]. eapply listed_iff; [exact Hl|].
    intros l HL. apply (holds_log L _ Hh) in HL as (Hfit & _). rewrite in_one_block by done.
    cbn. tauto.
Qed.

(** ** [GetLogs] *)

Lemma log_before_irrefl p : ~ log_before p p.
Proof. destruct p as [[b t] i]. cbn. lia. Qed.

Lemma listed_nodup L Q out : listed L Q out -> NoDup out.
Proof.
  intros [Hs _]. apply (NoDup_fmap_1 pos). induction Hs as [|p l Hs IH Hf]; constructor; [|done].
  intros Hp. rewrite Forall_forall in Hf. by apply (log_before_irrefl p), Hf.
Qed.

(** The topics a filter asks for, position by position. *)
Definition topics_match (topics : list (list Hash)) (l : Log) : Prop :=
  forall i set, topics !! i = Some set -> set <> [] -> exists t, l_Topics l !! i = Some t /\ t ∈ set.

Lemma matches_from_spec i l topics : matchesTopicFilter_from i l topics = true <->
  forall j set, topics !! j = Some set -> set <> [] ->
    exists t, l_Topics l !! (i + j)%nat = Some t /\ t ∈ set.
Proof.
  revert i. induction topics as [|set topics IH]; intros i.
  { split; [intros _ j set Hj; by rewrite lookup_nil in Hj | done]. }
  assert (Hsplit : (forall j s, (set :: topics) !! j = Some s -> s <> [] ->
      exists t, l_Topics l !! (i + j)%nat = Some t /\ t ∈ s) <->
    (set <> [] -> exists t, l_Topics l !! i = Some t /\ t ∈ set) /\
    matchesTopicFilter_from (S i) l topics = true).
  { rewrite IH. split.
    - intros H. split; [intros Hs; specialize (H 0%nat set eq_refl Hs); by rewrite Nat.add_0_r in H|].
      intros j s Hj Hs. specialize (H (S j) s Hj Hs). by rewrite Nat.add_succ_r in H.
    - intros [H1 H2] [|j] s Hj Hs; [injection Hj as <-; rewrite Nat.add_0_r; auto|].
      rewrite Nat.add_succ_r. by apply H2. }
  rewrite Hsplit. clear Hsplit. cbn [matchesTopicFilter_from].
  destruct set as [|x set]; [intuition congruence|].
  destruct (l_Topics l !! i) as [t|]; [|split; [done|intros [(t & ? & _) _]; done]].
  rewrite andb_true_iff, existsb_exists. split; intros [H ?]; (split; [|done]).
  - intros _. destruct H as (y & Hy & Heq%bool_decide_eq_true). exists t. split; [done|].
    apply list_elem_of_In. by subst.
  - destruct H as (t' & [= <-] & Hin); [done|]. exists t.
    split; [by apply list_elem_of_In | by apply bool_decide_eq_true].
Qed.

Lemma matchesTopicFilter_spec l topics : matchesTopicFilter l topics = true <-> topics_match topics l.
Proof. apply (matches_from_spec 0). Qed.

(** The last steps of [GetLogs] keep the logs whose topics match. *)
Lemma finish_logs_filter f logs :
  finish_logs f logs = List.filter (fun l => matchesTopicFilter l (lf_Topics f)) logs.
Proof.
  assert (Hid : List.filter (fun l => matchesTopicFilter l []) logs = logs).
  { induction logs as [|l logs IH]; cbn; [done|]. by f_equal. }
  unfold finish_logs, filterLogsByTopics, filterLogsByAddresses.
  destruct (lf_Addresses f); cbn [length Nat.eqb andb]; [case_match|];
    (destruct (lf_Topics f); [by rewrite Hid | done]).
Qed.

Lemma elem_of_finish f logs l :
  l ∈ finish_logs f logs <-> l ∈ logs /\ topics_match (lf_Topics f) l.
Proof.
  rewrite finish_logs_filter, <- matchesTopicFilter_spec, !list_elem_of_In. apply List.filter_In.
Qed.

Lemma finish_nodup f logs : NoDup logs -> NoDup (finish_logs f logs).
Proof. rewrite finish_logs_filter. rewrite !NoDup_ListNoDup. apply List.NoDup_filter. Qed.

Lemma gather_spec {A} L (get : A -> op (list Log)) (Q : A -> Log -> Prop) xs s r s' :
  (forall x o s1, get x s = (Ok o, s1) -> s1 = s /\ listed L (Q x) o) ->
  gather get xs s = (Ok r, s') ->
  s' = s /\ (forall l, l ∈ r <-> L !! pos l = Some l /\ exists x, x ∈ xs /\ Q x l) /\
  (NoDup xs -> (forall x y l, Q x l -> Q y l -> x = y) -> NoDup r).
Proof.
  intros Hget. revert r s'. induction xs as [|x xs IH]; intros r s' H; cbn [gather] in H.
  { inv_op. split_and!; [done| |constructor].
    intros l. split; [by intros ?%not_elem_of_nil | by intros (_ & x & ?%not_elem_of_nil & _)]. }
  inv_op. match goal with Hx : get x s = _ |- _ => apply Hget in Hx as [-> Hl] end.
  match goal with Hg : gather _ _ _ = _ |- _ => apply IH in Hg as (-> & Hel & Hnd) end.
  split; [done|]. split.
  - intros l. rewrite elem_of_app, Hel, (proj2 Hl l). setoid_rewrite elem_of_cons. naive_solver.
  - intros [Hx Hxs]%NoDup_cons Hinj. apply NoDup_app. split_and!; [by eapply listed_nodup| |auto].
    intros l [_ Hq]%(proj2 Hl) (_ & y & Hy & Hqy)%Hel. by rewrite (Hinj x y l Hq Hqy) in Hx.
Qed.

Lemma read_logs_total parse prefix entries s : exists out, read_logs parse prefix entries s = (Ok out, s).
Proof.
  induction entries as [|[k v] entries (out & IH)]; [by eexists|]. cbn [read_logs].
  assert (Hr : forall p, exists o, read_log p s = (Ok o, s)) by (intros [[[b t] i]|]; by eexists).
  destruct (Hr (parse (drop (length prefix) k))) as [o Ho].
  unfold mbind, ST_bind. rewrite Ho, IH. by eexists.
Qed.

Lemma GetLogsByBlock_cases n s : closed s = false ->
  (exists out, GetLogsByBlock n s = (Ok out, s)) \/
  (exists msg e, GetLogsByBlock n s = (Err (Wrap msg e), s)).
Proof.
  intros Hc. unfold GetLogsByBlock, mbind, ST_bind, ensureNotClosed, wrapST, dbScan. rewrite Hc.
  destruct (db_scan _ _ _) as [entries|e]; [left|right; by do 2 eexists].
  apply read_logs_total.
Qed.

Lemma listed_app L Q1 Q2 l1 l2 : listed L Q1 l1 -> listed L Q2 l2 ->
  (forall x y, Q1 x -> Q2 y -> log_before (pos x) (pos y)) -> listed L (fun l => Q1 l \/ Q2 l) (l1 ++ l2).
Proof.
  intros [Hs1 H1] [Hs2 H2] Hb. split.
  - rewrite fmap_app. apply StronglySorted_app. split_and!; [|done..].
    intros p q (x & -> & Hx)%list_elem_of_fmap (y & -> & Hy)%list_elem_of_fmap.
    apply Hb; [by apply H1 | by apply H2].
  - intros l. rewrite elem_of_app, H1, H2. tauto.
Qed.

Lemma listed_none L (Q : Log -> Prop) : (forall l, L !! pos l = Some l -> ~ Q l) -> listed L Q [].
Proof.
  intros HQ. split; [constructor|]. intros l. split; [by intros ?%not_elem_of_nil|].
  intros [HL Hq]. by destruct (HQ l HL).
Qed.

Lemma block_loop_spec L s b2 fuel b1 logs : holds L (db_get (db s)) -> closed s = false ->
  0 <= b1 -> b2 < two64 - 1 -> (0 < fuel)%nat -> b2 + 1 - b1 < Z.of_nat fuel ->
  exists r, block_loop fuel b1 b2 logs s = Some (r, s) /\
    forall out, r = Ok out -> exists new, out = logs ++ new /\ listed L (in_blocks_range b1 b2) new.
Proof.
  intros Hh Hc. revert b1 logs.
  induction fuel as [|fuel IH]; intros b1 logs H1 H2 H0 Hf; cbn [block_loop]; [lia|].
  destruct (Z.ltb_spec b2 b1) as [Hlt|Hge].
  - eexists. split; [done|]. intros out [= <-]. exists []. rewrite app_nil_r. split; [done|].
    apply listed_none. unfold in_blocks_range. lia.
  - destruct (GetLogsByBlock_cases b1 s Hc) as [[o Ho]|(msg & e & He)].
    2: { rewrite He. by eexists. }
    rewrite Ho. apply block_query with (L := L) in Ho as [_ Hl]; [|done].
    rewrite u64_id by (unfold is_u64; lia).
    destruct (IH (b1 + 1) (logs ++ o)) as (r & -> & Hr); [lia..|].
    exists r. split; [done|]. intros out Hout. destruct (Hr out Hout) as (new & -> & Hnew).
    exists (o ++ new). split; [by rewrite app_assoc|].
    eapply listed_iff; [eapply (listed_app L _ _ o new Hl Hnew)|].
    + intros x y Hx Hy. left. unfold in_blocks_range in Hy. lia.
    + intros l _. unfold in_blocks_range. lia.
Qed.

Lemma GetLatestHeight_state s : snd (GetLatestHeight s) = s.
Proof.
  unfold GetLatestHeight, mbind, ST_bind, ensureNotClosed, wrapST, dbGet.
  destruct (closed s); [done|]. by destruct (db_get (db s) LatestHeightKey) as [[v|]|].
Qed.

(** The steps of [GetLogs] that only read leave the storage as it is. *)
Lemma log_toBlock_state f s : snd (log_toBlock f s) = s.
Proof.
  unfold log_toBlock. case_match; [|done]. unfold tryST.
  pose proof (GetLatestHeight_state s) as Hfr. destruct (GetLatestHeight s) as [h s2].
  cbn in Hfr. subst s2. by destruct h as [h|[]].
Qed.

Lemma log_range_state f s : snd (log_range f s) = s.
Proof.
  unfold log_range. destruct (_ && _); [done|]. unfold mbind, ST_bind.
  pose proof (log_toBlock_state f s) as Hst. destruct (log_toBlock f s) as [[t|e] s1]; cbn in Hst;
    subst s1; [by case_match | done].
Qed.

Lemma log_range_ok f s b2 : fst (log_range f s) = Ok b2 -> u64 (b2 - lf_FromBlock f) <= maxBlockRange.
Proof.
  unfold log_range. destruct (_ && _); [done|]. unfold mbind, ST_bind.
  destruct (log_toBlock f s) as [[t|e] s1]; [|done].
  destruct (Z.ltb_spec maxBlockRange (u64 (t - lf_FromBlock f))) as [|Hle]; [done|].
  cbn. intros [= <-]. done.
Qed.

Lemma find_logs_spec L s f b2 fuel : holds L (db_get (db s)) -> closed s = false ->
  is_u64 (lf_FromBlock f) -> 0 <= b2 < two64 - 1 ->
  (0 < fuel)%nat -> b2 + 1 - lf_FromBlock f < Z.of_nat fuel ->
  exists r s', find_logs fuel f b2 s = Some (r, s') /\ forall out, r = Ok out -> s' = s /\
    (forall l, topics_match (lf_Topics f) l -> l ∈ out <->
       L !! pos l = Some l /\ in_blocks_range (lf_FromBlock f) b2 l /\
       (lf_Addresses f = [] \/ l_Address l ∈ lf_Addresses f)) /\
    (NoDup (lf_Addresses f) -> NoDup (default [] (head (lf_Topics f))) -> NoDup out).
Proof.
  intros Hh Hc Hu Hb2 H0 Hfuel. unfold find_logs. destruct (lf_Addresses f) as [|a addrs] eqn:Ha.
  - assert (Hloop : exists r s', block_loop fuel (lf_FromBlock f) b2 [] s = Some (r, s') /\
      forall out, r = Ok out -> s' = s /\ (forall l, l ∈ out <-> L !! pos l = Some l /\
        in_blocks_range (lf_FromBlock f) b2 l) /\ NoDup out).
    { destruct (block_loop_spec L s b2 fuel (lf_FromBlock f) []) as (r & Hr & Hout);
        [done..|unfold is_u64 in Hu; lia|lia|done|done|].
      exists r, s. split; [done|]. intros out Heq. destruct (Hout out Heq) as (new & -> & Hl).
      split_and!; [done | apply Hl | by eapply listed_nodup]. }
    destruct (lf_Topics f) as [|[|t ts] topics] eqn:Ht.
    1-2: destruct Hloop as (r & s' & Hr & Hout); exists r, s'; split; [done|]; intros out Heq;
      destruct (Hout out Heq) as (-> & Hel & Hnd); split_and!; [done | intros l _; rewrite Hel; tauto | done].
    destruct (gather _ (t :: ts) s) as [r s'] eqn:Hg. exists r, s'. split; [done|].
    intros out ->. eapply (gather_spec L _ (fun t l => l_Topics l !! 0%nat = Some t /\
      in_blocks_range (lf_FromBlock f) b2 l)) in Hg as (-> & Hel & Hnd).
    2: { intros x o s1 Hx. by apply (topic_query L) in Hx. }
    split_and!; [done| |].
    + intros l Hm. rewrite Hel. split; [intros (? & x & _ & _ & ?); tauto|]. intros (? & ? & _).
      split; [done|]. destruct (Hm 0%nat (t :: ts)) as (x & Hx & Hin); [done..|]. by exists x.
    + intros _ Hts. apply Hnd; [done|]. intros x y l [Hx _] [Hy _]. congruence.
  - destruct (gather _ (a :: addrs) s) as [r s'] eqn:Hg. exists r, s'. split; [done|].
    intros out ->. eapply (gather_spec L _ (fun a l => l_Address l = a /\
      in_blocks_range (lf_FromBlock f) b2 l)) in Hg as (-> & Hel & Hnd).
    2: { intros x o s1 Hx. by apply (address_query L) in Hx. }
    split_and!; [done| |].
    + intros l _. rewrite Hel. split; [intros (? & x & Hx & <- & ?); auto|].
      intros (? & ? & [?|?]); [done|]. split; [done|]. by exists (l_Address l).
    + intros Has _. apply Hnd; [done|]. intros x y l [<- _] [<- _]. done.
Qed.

(** * Properties *)

(** C13: indexing refines insertion, for logs that are consistent with the stored ones and
    with each other: no position has two different logs, given or stored, and the positions
    fit the widths of the keys ([consistent]). Where the database holds exactly the logs of a
    map from positions to logs, after a successful [IndexLogs] of such logs it holds exactly
    that map with them inserted. Without the condition it does not: [reindex_stale] replaces
    the log at a position, as a reorganisation does, and the entries of the old log stay. *)
Theorem IndexLogs_refines L logs s s' : is_u64 (txCount s) -> holds L (db_get (db s)) ->
  IndexLogs (Some <$> logs) s = (Ok tt, s') -> consistent L logs ->
  holds (insert_logs L logs) (db_get (db s')).
Proof.
  intros Hu Hh H Hc. destruct (IndexLogs_holds L _ s tt s' Hu Hh H) as (ls & Heq & _ & Hholds).
  apply (inj (fmap Some)) in Heq as <-. by apply Hholds.
Qed.

(** C27: the log queries. Where the database holds the logs of [L], the query by block
    returns exactly the logs of the block, the queries by address and by topic exactly
    those of the address, or with the topic at the position, in the block range; each log
    once, in the order of block, transaction and log index. *)
Theorem log_queries_exact L s n a t i b1 b2 : holds L (db_get (db s)) -> is_u64 b1 ->
  0 <= b2 < two64 - 1 -> 0 <= i <= 3 ->
  (forall r s', GetLogsByBlock n s = (Ok r, s') -> listed L (fun l => l_BlockNumber l = n) r) /\
  (forall r s', GetLogsByAddress a b1 b2 s = (Ok r, s') ->
     listed L (fun l => l_Address l = a /\ in_blocks_range b1 b2 l) r) /\
  (forall r s', GetLogsByTopic t i b1 b2 s = (Ok r, s') ->
     listed L (fun l => l_Topics l !! Z.to_nat i = Some t /\ in_blocks_range b1 b2 l) r).
Proof.
  intros Hh H1 H2 Hi. split_and!; intros r s' H.
  - by apply (block_query L) in H as [_ H].
  - unfold GetLogsByAddress in H. inv_op.
    match goal with Hq : getLogsByAddressRange _ _ _ _ = _ |- _ => by apply (address_query L) in Hq as [_ Hq] end.
  - unfold GetLogsByTopic in H. inv_op.
    replace ((i <? 0) || (3 <? i)) with false in * by lia.
    match goal with Hq : getLogsByTopicRange _ _ _ _ _ = _ |- _ => by apply (topic_query L) in Hq as [_ Hq] end.
Qed.

(** C14: when the checks of [GetLogs] accept the range of the filter and its end [b2] lies
    below 2^64-1, [GetLogs] of an open storage ends, with at most 10001 rounds of its loop,
    and when it succeeds it returns exactly the stored logs that match the filter: in the
    block range, of one of the addresses when there are any, with one of the topics at every
    position that has some. Each log comes once when neither the addresses nor the first
    topics of the filter have duplicates. [GetLogs_range_ends] has the ranges left out. *)
Theorem GetLogs_exact L s f b2 fuel : holds L (db_get (db s)) -> closed s = false ->
  is_u64 (lf_FromBlock f) -> fst (log_range f s) = Ok b2 -> 0 <= b2 < two64 - 1 ->
  10002 <= Z.of_nat fuel ->
  exists r s', GetLogs fuel (Some f) s = Some (r, s') /\ forall out, r = Ok out -> s' = s /\
    (forall l, l ∈ out <-> L !! pos l = Some l /\ in_blocks_range (lf_FromBlock f) b2 l /\
       (lf_Addresses f = [] \/ l_Address l ∈ lf_Addresses f) /\ topics_match (lf_Topics f) l) /\
    (NoDup (lf_Addresses f) -> NoDup (default [] (head (lf_Topics f))) -> NoDup out).
Proof.
  intros Hh Hc Hu Hr Hb2 Hfuel. unfold GetLogs, ensureNotClosed. rewrite Hc.
  pose proof (log_range_state f s) as Hst. destruct (log_range f s) as [r1 s1] eqn:Hrange.
  cbn in Hr, Hst. subst r1 s1.
  assert (Hle : b2 + 1 - lf_FromBlock f < Z.of_nat fuel).
  { pose proof (log_range_ok f s b2) as Hle. rewrite Hrange in Hle. specialize (Hle eq_refl).
    destruct (Z_lt_le_dec b2 (lf_FromBlock f)); [lia|].
    rewrite u64_id in Hle by (unfold is_u64 in *; lia). unfold maxBlockRange in Hle. lia. }
  destruct (find_logs_spec L s f b2 fuel Hh Hc Hu Hb2 ltac:(lia) Hle) as (r & s' & -> & Hout).
  destruct r as [logs|e]; [|by eexists _, _]. eexists _, _. split; [done|]. intros out [= <-].
  destruct (Hout logs eq_refl) as (-> & Hel & Hnd). split_and!; [done| |].
  - intros l. rewrite elem_of_finish. split.
    + intros [Hl Hm]. apply Hel in Hl; tauto.
    + intros (HL & Hin & Ha & Hm). split; [apply Hel; tauto | done].
  - intros Ha Ht. by apply finish_nodup, Hnd.
Qed.




Lemma read_logs_elem parse prefix entries s r s' k v l : read_logs parse prefix entries s = (Ok r, s') ->
  (k, v) ∈ entries -> read_log (parse (drop (length prefix) k)) s = (Ok (Some l), s) -> l ∈ r.
Proof.
  revert r s'. induction entries as [|[k0 v0] entries IH]; intros r s' H Hin Hl;
    [by apply not_elem_of_nil in Hin|]. cbn [read_logs] in H.
  destruct (read_logs_total parse prefix entries s) as [out Hout].
  assert (Hr : forall p, exists o, read_log p s = (Ok o, s)) by (intros [[[b t] i]|]; by eexists).
  destruct (Hr (parse (drop (length prefix) k0))) as [o Ho].
  unfold mbind, ST_bind in H. rewrite Ho, Hout in H. injection H as <- <-.
  apply elem_of_cons in Hin as [[= -> ->]|Hin].
  - rewrite Hl in Ho. injection Ho as <-. by left.
  - assert (Hlr : l ∈ out) by by eapply IH. destruct o; [by right | done].
Qed.

(** An entry of an address whose log is there is served, whoever emitted the log. *)
Lemma address_entry_served a b1 b2 s r s' l : is_u64 b1 -> 0 <= b2 < two64 - 1 ->
  pos_fits (pos l) -> in_blocks_range b1 b2 l ->
  db_get (db s) (base (FAddr a) ++ pos_bytes (pos l)) = Ok (Some x01) ->
  rlp_Encode l = Ok (enc l) -> db_get (db s) (log_key (pos l)) = Ok (Some (enc l)) ->
  getLogsByAddressRange a b1 b2 s = (Ok r, s') -> l ∈ r.
Proof.
  intros H1 H2 Hfit Hin Hentry Henc Hlog Hq. unfold getLogsByAddressRange in Hq. inv_op.
  match goal with Hs : db_scan _ ?lo ?hi = Ok ?l |- _ => rename Hs into Hscan end.
  match goal with Hr : read_logs _ _ _ _ = _ |- _ => eapply (read_logs_elem _ _ _ _ _ _ _ x01 l Hr) end.
  - apply (db_scan_elem _ _ _ _ _ _ Hscan). split; [|exact Hentry].
    assert (Hk : forall b, LogAddressIndexKey a b 0 0 = base (FAddr a) ++ pos_bytes (b, 0, 0)).
    { intros b. cbn [base]. unfold LogAddressIndexKey, LogAddressIndexKeyPrefix. by rewrite <- !app_assoc. }
    rewrite !Hk. apply in_range_app. eexists. split; [done|].
    rewrite u64_id by (unfold is_u64; lia). apply in_block_range; [done..|unfold is_u64; lia|].
    unfold in_blocks_range in Hin. cbn. lia.
  - change (LogAddressIndexKeyPrefix a) with (base (FAddr a)).
    rewrite drop_base, Sscanf_pos by done.
    unfold read_log. cbn [pos]. unfold tryST, dbGet. change (LogKey _ _ _) with (log_key (pos l)).
    rewrite Hlog. cbn. unfold DecodeLog.
    apply rlp_encode_nonempty in Henc as Hne. apply rlp_decode_encode in Henc.
    replace (length (enc l) =? 0)%nat with false by (symmetry; apply Nat.eqb_neq; by destruct (enc l)).
    rewrite Henc. cbn. by rewrite Himage.
Qed.

Lemma IndexLogs_one l s s1 : is_u64 (txCount s) -> IndexLogs [Some l] s = (Ok tt, s1) ->
  rlp_Encode l = Ok (enc l) /\
  forall k, db_get (db s1) k = pending s (index_ops l (enc l)) k.
Proof.
  intros Hu H. unfold IndexLogs in H. inv_op.
  apply with_batch_ok in H as (b' & H). inv_op. match goal with Hf : forST _ _ _ = _ |- _ =>
    apply indexLogs_batched in Hf as (ls & c & Heq & Henc & Hb); [|done] end.
  destruct ls as [|l' [|]]; try discriminate Heq. injection Heq as <-.
  unfold batched in Hb. subst.
  match goal with Hc : b_Commit _ = _ |- _ => apply (b_Commit_applied HP) in Hc as [_ Hget]; [|done|done] end.
  cbn [fst snd b_ops b_txCount NewBatch flat_map] in Hget. rewrite !app_nil_r in Hget.
  by apply Forall_cons in Henc as [Henc _].
Qed.

(** Indexing another log at a position leaves the entries of the first one behind:
    after a reorganisation the query by the address of the replaced log returns the new
    log, which another contract emitted. *)
Theorem reindex_stale L s s1 s' l0 l b1 b2 r : is_u64 (txCount s) -> holds L (db_get (db s)) ->
  L !! pos l = Some l0 -> l_Address l0 <> l_Address l -> is_u64 b1 -> 0 <= b2 < two64 - 1 ->
  in_blocks_range b1 b2 l -> IndexLogs [Some l] s = (Ok tt, s1) ->
  getLogsByAddressRange (l_Address l0) b1 b2 s1 = (Ok r, s') -> l ∈ r.
Proof.
  intros Hu Hh HL Hne H1 H2 Hin Hidx Hq.
  apply IndexLogs_one in Hidx as [Henc Hget]; [|done].
  destruct (holds_log L _ Hh _ _ HL) as (Hfit & _).
  eapply (address_entry_served _ b1 b2 s1); try done; rewrite Hget; unfold pending;
    rewrite last_write_index_ops.
  - rewrite decide_False, decide_False; [|apply log_key_base|].
    + apply (holds_index L _ Hh); [done|]. split; [done|]. by exists (pos l), l0.
    + intros (f' & Heq & Hf')%list_elem_of_fmap. apply elem_of_families in Hf' as [Hr' Hm'].
      apply base_inj in Heq as [<- _]; [|done..]. by cbn in Hm'.
  - rewrite decide_False by (intros (f & Hf & _)%list_elem_of_fmap; by apply log_key_base in Hf).
    by rewrite decide_True.
Qed.
End Families.

(** * Witnesses *)

#[export] Instance log_eq_dec : EqDecision Log.
Proof. solve_decision. Defined.
#[export] Instance log_countable : Countable Log.
Proof.
  apply (inj_countable'
    (fun l => (l_Address l, l_Topics l, l_Data l, l_BlockNumber l, l_TxHash l, l_TxIndex l,
               l_BlockHash l, l_Index l, l_Removed l))
    (fun '(a, t, d, b, h, x, bh, i, r) => mkLog a t d b h x bh i r)). by intros [].
Defined.
#[export] Instance mem_log_rlp : RLP Log := count_rlp (fun l => l).

Definition mem_log1 : Log :=
  mkLog (sample_address 1) [sample_hash 1] [] 5 (sample_hash 9) 0 (sample_hash 10) 0 false.
Definition mem_log2 : Log :=
  mkLog (sample_address 2) [sample_hash 1; sample_hash 2] [] 6 (sample_hash 9) 1 (sample_hash 10) 3 false.

(** The log of another contract at the position of the first. *)
Definition mem_log3 : Log :=
  mkLog (sample_address 3) [] [] 5 (sample_hash 9) 0 (sample_hash 11) 0 false.

Definition mem_indexed : PebbleStorage := snd (IndexLogs [Some mem_log1; Some mem_log2] mem_storage).

Definition mem_logs : gmap position Log := insert_logs ∅ [mem_log1; mem_log2].

Lemma mem_empty_holds : holds ∅ (db_get (db mem_storage)).
Proof.
  split; [intros p l Hp; by rewrite lookup_empty in Hp|]. intros f k v _. split; [|].
  - cbn. rewrite lookup_empty. discriminate.
  - intros (_ & p & l & Hp & _). by rewrite lookup_empty in Hp.
Qed.

Lemma mem_logs_consistent : consistent ∅ [mem_log1; mem_log2].
Proof.
  assert (Hf : pos_fits (pos mem_log1) /\ pos_fits (pos mem_log2))
    by (vm_compute; repeat split; (reflexivity || discriminate)).
  intros l Hl. split; [|split].
  - apply elem_of_cons in Hl as [->|Hl]; [apply Hf|]. apply list_elem_of_singleton in Hl as ->. apply Hf.
  - intros l0 H0. by rewrite lookup_empty in H0.
  - intros l' Hl' Heq. set_unfold. destruct Hl as [->|[->|[]]], Hl' as [->|[->|[]]]; done.
Qed.

Lemma mem_index_ok logs s : readOnly s = false -> closed s = false -> txCount s = 0 ->
  logs = [mem_log1; mem_log2] \/ logs = [mem_log3] ->
  IndexLogs (Some <$> logs) s = (Ok tt, snd (IndexLogs (Some <$> logs) s)).
Proof.
  destruct s as [d ro cl sq n]. cbn [readOnly closed txCount]. intros -> -> -> Hlogs.
  rewrite (surjective_pairing (IndexLogs _ _)) at 1. f_equal. destruct Hlogs as [-> | ->]; by lazy.
Qed.

Lemma mem_indexed_holds : holds mem_logs (db_get (db mem_indexed)).
Proof.
  destruct (IndexLogs_holds lower_hex_laws mem_pebble_laws (count_rlp_laws (fun l : Log => l))
    (fun l => eq_refl) ∅ (Some <$> [mem_log1; mem_log2])
    mem_storage tt mem_indexed) as (ls & Heq & _ & Hh).
  - split; [done | reflexivity].
  - apply mem_empty_holds.
  - apply mem_index_ok; auto.
  - apply (inj (fmap Some)) in Heq as <-. apply Hh, mem_logs_consistent.
Qed.

Lemma mem_address_ok a b1 b2 (s : PebbleStorage (P := mem_pebble)) :
  exists out, getLogsByAddressRange a b1 b2 s = (Ok out, s).
Proof. apply read_logs_total. Qed.


Lemma IndexLogs_refines_witness : holds mem_logs (db_get (db mem_indexed)).
Proof.
  apply (IndexLogs_refines lower_hex_laws mem_pebble_laws (count_rlp_laws (fun l : Log => l))
    (fun l => eq_refl) ∅ [mem_log1; mem_log2] mem_storage mem_indexed).
  - split; [done | reflexivity].
  - apply mem_empty_holds.
  - apply mem_index_ok; auto.
  - apply mem_logs_consistent.
Defined.

Lemma mem_logs_lookup l : l = mem_log1 \/ l = mem_log2 -> mem_logs !! pos l = Some l.
Proof. intros [-> | ->]; by vm_compute. Qed.

Lemma mem_listed (Q : Log -> Prop) out l : listed mem_logs Q out -> l = mem_log1 \/ l = mem_log2 ->
  Q l -> l ∈ out.
Proof. intros [_ Hel] Hl HQ. apply Hel. split; [|done]. by apply mem_logs_lookup. Qed.

Lemma mem_open : closed mem_indexed = false.
Proof. by lazy. Qed.

Lemma log_queries_exact_witness : exists out, 
  GetLogsByAddress (sample_address 2) 0 10 mem_indexed = (Ok out, mem_indexed) /\ mem_log2 ∈ out.
Proof.
  destruct (mem_address_ok (sample_address 2) 0 10 mem_indexed) as [out Hout]. exists out.
  assert (Hq : GetLogsByAddress (sample_address 2) 0 10 mem_indexed = (Ok out, mem_indexed)).
  { unfold GetLogsByAddress, mbind, ST_bind, ensureNotClosed.
    rewrite mem_open. exact Hout. }
  split; [exact Hq|].
  destruct (log_queries_exact mem_pebble_laws (count_rlp_laws (fun l : Log => l))
    (fun l => eq_refl) mem_logs mem_indexed 5 (sample_address 2) (sample_hash 1) 0 0 10
    mem_indexed_holds) as (_ & Ha & _);
    [split; [done | reflexivity] | split; [done | reflexivity] | split; done |].
  apply Ha in Hq. eapply mem_listed; [exact Hq | by right | split; [done | split; done]].
Defined.

Definition mem_filter : LogFilter := mkLogFilter 0 10 [sample_address 2] [[]; [sample_hash 2]].

Lemma mem_filter_range (s : PebbleStorage (P := mem_pebble)) : log_range mem_filter s = (Ok 10, s).
Proof. reflexivity. Qed.

Lemma mem_filter_find (s : PebbleStorage (P := mem_pebble)) fuel out : closed s = false ->
  getLogsByAddressRange (sample_address 2) 0 10 s = (Ok out, s) ->
  GetLogs fuel (Some mem_filter) s = Some (Ok (finish_logs mem_filter (out ++ [])), s).
Proof.
  intros Hc H. unfold GetLogs, ensureNotClosed. rewrite Hc, mem_filter_range.
  unfold find_logs. cbn [lf_Addresses mem_filter gather]. unfold mbind, ST_bind.
  change (lf_FromBlock mem_filter) with 0. by rewrite H.
Qed.

Lemma GetLogs_exact_witness : exists out s',
  GetLogs (Z.to_nat 10002) (Some mem_filter) mem_indexed = Some (Ok out, s') /\ mem_log2 ∈ out.
Proof.
  destruct (GetLogs_exact mem_pebble_laws (count_rlp_laws (fun l : Log => l))
    (fun l => eq_refl) mem_logs mem_indexed mem_filter 10 (Z.to_nat 10002) mem_indexed_holds)
    as (r & s' & Hg & Hout);
    [by lazy | split; [done | reflexivity] | by lazy | split; [done | reflexivity] | by rewrite Z2Nat.id |].
  assert (Hr : exists out, r = Ok out).
  { destruct (mem_address_ok (sample_address 2) 0 10 mem_indexed) as [out Ho].
    rewrite (mem_filter_find mem_indexed _ out mem_open Ho) in Hg. injection Hg as <- _. by eexists. }
  destruct Hr as [out ->]. exists out, s'. split; [exact Hg|].
  destruct (Hout out eq_refl) as (_ & Hel & _). apply Hel.
  split; [|split; [|split]]; [apply mem_logs_lookup; right; reflexivity | clear .. ].
  - split; vm_compute; discriminate.
  - right. by left.
  - intros [|[|i]] set Hi Hne; cbn in Hi; simplify_eq.
    exists (sample_hash 2). split; [done | by left].
Defined.



Lemma reindex_stale_witness : exists r, getLogsByAddressRange (sample_address 1) 0 10
    (snd (IndexLogs [Some mem_log3] mem_indexed)) = (Ok r, snd (IndexLogs [Some mem_log3] mem_indexed)) /\
  mem_log3 ∈ r.
Proof.
  destruct (mem_address_ok (sample_address 1) 0 10 (snd (IndexLogs [Some mem_log3] mem_indexed))) as [r Hr].
  exists r. split; [exact Hr|].
  apply (reindex_stale lower_hex_laws mem_pebble_laws (count_rlp_laws (fun l : Log => l))
    (fun l => eq_refl) mem_logs mem_indexed (snd (IndexLogs [Some mem_log3] mem_indexed))
    (snd (IndexLogs [Some mem_log3] mem_indexed)) mem_log1 mem_log3 0 10 r).
  - split; by lazy.
  - apply mem_indexed_holds.
  - by vm_compute.
  - intros H. apply (f_equal (fun a : Address => `a)) in H. by vm_compute in H.
  - split; [done | reflexivity].
  - split; [done | reflexivity].
  - split; done.
  - apply (mem_index_ok [mem_log3]); [by lazy..|auto].
  - exact Hr.
Defined.
