(* ===== verification/Guards.v ===== *)
(** Guards: what a closed or read-only storage, and a closed batch, refuse.

    The lists below have every method of [PebbleStorage] that Storage.v, Batch.v, PrefixOps.v
    and Logs.v model ([Close] aside, which has no guard), the methods that only read and those that write, and every method of
    [pebbleBatch] that adds to a batch or commits it. A batch looks at its own state only:
    [NewBatch] does not ask whether the storage is closed or read-only, and neither does
    [Commit]; what a batch taken from such a storage does is left to the database. *)
From S2P Require Import Prelude Eth Schema KV Chain Storage Batch PrefixOps Logs.
From S2P Require Import Instances LogQueries.

Section Guards.
Context {E : EthHex} {P : Pebble} {C : ChainTypes}
  {RB : RLP Block} {RT : RLP Tx} {RR : RLP Receipt} {RL : RLP TxLocation} {RG : RLP Log}.

(** The method [m] returns the error and changes nothing. *)
Definition refused {A} (e : error) (s : PebbleStorage) (m : op A) : Prop := m s = (Err e, s).

Definition all_hold (l : list Prop) : Prop := foldr and True l.

(** The arguments of the methods. *)
Record args := mkArgs {
  a_height : Z; a_hash : Hash; a_addr : Address; a_key : bytes; a_value : bytes;
  a_limit : Z; a_offset : Z; a_from : Z; a_to : Z; a_topic : Hash; a_position : Z;
  a_block : option Block; a_blocks : list (option Block);
  a_tx : option Tx; a_location : option TxLocation;
  a_receipt : option Receipt; a_receipts : list (option Receipt);
  a_log : option Log; a_logs : list (option Log);
}.

(** The methods that only read, but for the four of another shape in [guards_refuse];
    [fn] is the callback of [Iterate] and [acc] its state. *)
Definition readers_refused {A} (e : error) (s : PebbleStorage)
  (fn : A -> bytes -> bytes -> A * bool) (acc : A) (a : args) : list Prop :=
  [refused e s GetLatestHeight; refused e s (GetBlock (a_height a)); refused e s (GetBlockByHash (a_hash a));
   refused e s (HasBlock (a_height a)); refused e s (GetTransaction (a_hash a));
   refused e s (HasTransaction (a_hash a));
   refused e s (GetTransactionsByAddress (a_addr a) (a_limit a) (a_offset a));
   refused e s (GetReceipt (a_hash a)); refused e s (HasReceipt (a_hash a));
   refused e s (GetReceiptsByBlockHash (a_hash a)); refused e s (GetReceiptsByBlockNumber (a_height a));
   refused e s (GetMissingReceipts (a_height a));
   refused e s (Get (a_key a)); refused e s (Has (a_key a)); refused e s (Iterate (a_key a) fn acc);
   refused e s (CountByPrefix (a_key a));
   refused e s (GetLogsByBlock (a_height a)); refused e s (GetLogsByAddress (a_addr a) (a_from a) (a_to a));
   refused e s (GetLogsByTopic (a_topic a) (a_position a) (a_from a) (a_to a))].

Definition writers_refused (e : error) (s : PebbleStorage) (a : args) : list Prop :=
  [refused e s (SetLatestHeight (a_height a)); refused e s (SetBlock (a_block a));
   refused e s (SetBlockWithReceipts (a_block a) (a_receipts a)); refused e s (SetBlocks (a_blocks a));
   refused e s (DeleteBlock (a_height a)); refused e s (SetTransaction (a_tx a) (a_location a));
   refused e s (AddTransactionToAddressIndex (a_addr a) (a_hash a));
   refused e s (SetReceipt (a_receipt a)); refused e s (SetReceipts (a_receipts a));
   refused e s (Put (a_key a) (a_value a)); refused e s (Delete (a_key a)); refused e s (DeleteByPrefix (a_key a));
   refused e s (IndexLogs (a_logs a)); refused e s (IndexLog (a_log a))].

(** The list methods of a batch stop at the first element; without one they do nothing. *)
Definition batch_methods (a : args) : list (bop_st unit) :=
  [b_SetLatestHeight (a_height a); b_SetTransaction (a_tx a) (a_location a);
   b_SetBlock (a_block a); b_SetBlocks (a_block a :: a_blocks a);
   b_SetReceipt (a_receipt a); b_SetReceipts (a_receipt a :: a_receipts a);
   b_AddTransactionToAddressIndex (a_addr a) (a_hash a); b_DeleteBlock (a_height a); b_Commit].

Lemma refused_closed {A} s (k : unit -> op A) :
  closed s = true -> refused ErrClosed s (ensureNotClosed ≫= k).
Proof. intros Hc. unfold refused, mbind, ST_bind, ensureNotClosed. by rewrite Hc. Qed.

Lemma refused_readOnly {A} s (k : unit -> op A) : closed s = false -> readOnly s = true ->
  refused ErrReadOnly s (_ ← ensureNotClosed; ensureNotReadOnly ≫= k).
Proof.
  intros Hc Hr.
  unfold refused, mbind, ST_bind, ensureNotClosed, ensureNotReadOnly. by rewrite Hc, Hr.
Qed.

Lemma batch_guard {A} s b (k : unit -> bop_st A) :
  b_closed b = true -> (ensureOpen ≫= k) (s, b) = (Err ErrClosed, (s, b)).
Proof. intros Hc. unfold mbind, ST_bind, ensureOpen. by rewrite Hc. Qed.

Lemma forST_refused {A} (m : A -> bop_st unit) x xs s b :
  m x (s, b) = (Err ErrClosed, (s, b)) -> forST m (x :: xs) (s, b) = (Err ErrClosed, (s, b)).
Proof. intros H. cbn [forST]. unfold mbind, ST_bind. by rewrite H. Qed.

(** C36: a closed storage refuses every method with [ErrClosed], and a storage opened
    read-only refuses every method that writes with [ErrReadOnly]; a closed batch refuses
    whatever would add to it or commit it with [ErrClosed]. In all cases nothing changes.
    The methods are those of pebble.go, pebble_blocks.go, pebble_transactions.go,
    pebble_receipts.go, pebble_logs.go and pebble_batch.go that the library models. *)
Theorem guards_refuse {A} (fn : A -> bytes -> bytes -> A * bool) acc a s b :
  (closed s = true ->
     all_hold (readers_refused ErrClosed s fn acc a ++ writers_refused ErrClosed s a) /\
     (forall fuel start end_, GetBlocks fuel start end_ s = Some (Err ErrClosed, s)) /\
     (forall fuel filter, GetLogs fuel filter s = Some (Err ErrClosed, s)) /\
     (forall hashes, GetTransactions hashes s = ([], Some ErrClosed) /\
                     GetReceipts hashes s = ([], Some ErrClosed))) /\
  (closed s = false -> readOnly s = true -> all_hold (writers_refused ErrReadOnly s a)) /\
  (b_closed b = true ->
     Forall (fun m => m (s, b) = (Err ErrClosed, (s, b))) (batch_methods a)).
Proof.
  split_and!.
  - intros Hc. split_and!.
    + cbn. repeat split; exact (refused_closed s _ Hc).
    + intros. unfold GetBlocks, ensureNotClosed. by rewrite Hc.
    + intros. unfold GetLogs, ensureNotClosed. by rewrite Hc.
    + intros. unfold GetTransactions, GetReceipts, ensureNotClosed. by rewrite Hc.
  - intros Hc Hr. cbn. repeat split; exact (refused_readOnly s _ Hc Hr).
  - intros Hb. pose proof (fun k => batch_guard (A := unit) s b k Hb) as Hk.
    unfold batch_methods. repeat apply Forall_cons_2; [..|apply Forall_nil_2];
      try exact (Hk _); apply forST_refused; exact (Hk _).
Qed.

End Guards.

(** * At a concrete storage *)

Definition sample_args : args (C := mem_chain) :=
  mkArgs 7 (sample_hash 1) (sample_address 1) (lit "k") (lit "v") 10 0 0 9 (sample_hash 2) 0
    (Some mem_block1) [] None None (Some mem_receipt1) [] None [].

Definition shut : PebbleStorage := set_closed true mem_storage.

Lemma guards_refuse_witness :
  SetBlock (Some mem_block1) shut = (Err ErrClosed, shut) /\
  GetBlocks 3 0 2 shut = Some (Err ErrClosed, shut) /\
  b_Commit (mem_storage, mkBatch [] 0 0 true) = (Err ErrClosed, (mem_storage, mkBatch [] 0 0 true)).
Proof.
  pose proof (guards_refuse (fun (n : Z) _ _ => (n, true)) 0 sample_args) as G.
  split_and!.
  - destruct (proj1 (G shut NewBatch) eq_refl) as [HF _].
    do 20 apply proj2 in HF. exact (proj1 HF).
  - exact (proj1 (proj2 (proj1 (G shut NewBatch) eq_refl)) 3%nat 0 2).
  - pose proof (proj2 (proj2 (G mem_storage (mkBatch [] 0 0 true))) eq_refl) as HF.
    rewrite Forall_forall in HF. apply HF. do 8 right. left.
Defined.
