(* ===== verification/Heap.v ===== *)
(** Heap: the binary heap of Go's container/heap.

    The request queue of the RPC proxy keeps its requests in the heap of the standard
    library: [Push] and [Pop] with their loops [up] and [down], on a slice ordered by
    [less]. The loops take fuel; the length of the slice is enough. *)
From stdpp Require Import sorting.
From S2P Require Import Prelude.

Section Heap.
Context {A : Type} `{Inhabited A} (less : A -> A -> bool).

Definition Swap (i j : nat) (h : list A) : list A := <[i := h !!! j]> (<[j := h !!! i]> h).

Definition parent (j : nat) : nat := ((j - 1) / 2)%nat.

Fixpoint up (fuel : nat) (h : list A) (j : nat) : list A :=
  match fuel with
  | O => h
  | S fuel' =>
      let i := parent j in
      if (i =? j)%nat || negb (less (h !!! j) (h !!! i)) then h
      else up fuel' (Swap i j h) i
  end.

(** The child to compare with: the smaller of the two. *)
Definition child (h : list A) (i n : nat) : nat :=
  let j1 := (2 * i + 1)%nat in
  let j2 := (j1 + 1)%nat in
  if (j2 <? n)%nat && less (h !!! j2) (h !!! j1) then j2 else j1.

Fixpoint down (fuel : nat) (h : list A) (i n : nat) : list A :=
  match fuel with
  | O => h
  | S fuel' =>
      if (n <=? 2 * i + 1)%nat then h
      else
        let j := child h i n in
        if negb (less (h !!! j) (h !!! i)) then h
        else down fuel' (Swap i j h) j n
  end.

Definition Push (x : A) (h : list A) : list A :=
  let h' := h ++ [x] in up (length h') h' (length h' - 1).

(** [heap.Pop] of a heap that is not empty. *)
Definition Pop (h : list A) : A * list A :=
  let n := (length h - 1)%nat in
  let h' := down (length h) (Swap 0 n h) 0 n in
  (h' !!! n, take n h').

(** * Order *)

Definition le (a b : A) : Prop := less b a = false.

Context (less_trans : forall a b c, less a b = true -> less b c = true -> less a c = true).
Context (less_irrefl : forall a, less a a = false).
Context (less_neg_trans : forall a b c, le a b -> le b c -> le a c).

Lemma less_le a b : less a b = true -> le a b.
Proof.
  intros Hab. unfold le. destruct (less b a) eqn:Hba; [|done].
  by rewrite <- (less_irrefl a), (less_trans a b a).
Qed.

Lemma le_refl a : le a a.
Proof. apply less_irrefl. Qed.

(** The first [n] elements form a heap. *)
Definition heap_ok (h : list A) (n : nat) : Prop :=
  forall k, (0 < k < n)%nat -> le (h !!! parent k) (h !!! k).

Lemma parent_lt k : (0 < k)%nat -> (parent k < k)%nat.
Proof. intros Hk. unfold parent. apply Nat.Div0.div_lt_upper_bound. lia. Qed.

Lemma parent_child k i : (0 < k)%nat -> parent k = i <-> k = (2 * i + 1)%nat \/ k = (2 * i + 2)%nat.
Proof.
  intros Hk. unfold parent. pose proof (Nat.div_mod_eq (k - 1) 2).
  pose proof (Nat.mod_upper_bound (k - 1) 2). lia.
Qed.

Lemma heap_root h n k : heap_ok h n -> (k < n)%nat -> le (h !!! 0%nat) (h !!! k).
Proof.
  intros Hh. induction (lt_wf k) as [k _ IH]. intros Hk. destruct (decide (k = 0%nat)) as [->|Hne].
  - apply le_refl.
  - apply (less_neg_trans _ (h !!! parent k)); [|apply Hh; lia].
    apply IH; pose proof (parent_lt k); lia.
Qed.

(** * Swapping *)

Lemma length_Swap i j h : length (Swap i j h) = length h.
Proof. unfold Swap. by rewrite !length_insert. Qed.

Lemma lookup_Swap i j h k : (i < length h)%nat -> (j < length h)%nat ->
  Swap i j h !!! k = if decide (k = i) then h !!! j else if decide (k = j) then h !!! i else h !!! k.
Proof.
  intros Hi Hj. unfold Swap. case_decide as Hki; [subst k|].
  - by rewrite list_lookup_total_insert_eq by (by rewrite length_insert).
  - rewrite list_lookup_total_insert_ne by done. case_decide as Hkj; [subst k|].
    + by rewrite list_lookup_total_insert_eq.
    + by rewrite list_lookup_total_insert_ne.
Qed.

Lemma Swap_perm i j h : (i < length h)%nat -> (j < length h)%nat -> Swap i j h ≡ₚ h.
Proof.
  intros Hi Hj. destruct (decide (i = j)) as [->|Hne].
  - unfold Swap. rewrite list_insert_insert_eq, list_insert_id; [done|].
    by apply list_lookup_lookup_total_lt.
  - apply Permutation_inj. split; [by rewrite length_Swap|].
    exists (fun k => if decide (k = i) then j else if decide (k = j) then i else k). split.
    + intros x y. repeat case_decide; congruence.
    + intros k. destruct (decide (k < length h)%nat) as [Hk|Hk].
      * rewrite (list_lookup_lookup_total_lt (Swap i j h)) by (by rewrite length_Swap).
        rewrite lookup_Swap by done. repeat case_decide;
          by rewrite list_lookup_lookup_total_lt by lia.
      * rewrite (lookup_ge_None_2 (Swap i j h)) by (rewrite length_Swap; lia).
        repeat case_decide; subst; try lia. symmetry. apply lookup_ge_None_2. lia.
Qed.

(** * [up] *)

(** A heap but for the element at [j], which may be smaller than its parent. *)
Definition up_inv (h : list A) (j : nat) : Prop :=
  (forall k, (0 < k < length h)%nat -> k <> j -> le (h !!! parent k) (h !!! k)) /\
  (forall k, (0 < k < length h)%nat -> parent k = j -> (0 < j)%nat -> le (h !!! parent j) (h !!! k)).

Lemma up_step h j : up_inv h j -> (0 < j < length h)%nat -> less (h !!! j) (h !!! parent j) = true ->
  up_inv (Swap (parent j) j h) (parent j).
Proof.
  intros [Ha Hb] Hj Hless. pose proof (parent_lt j ltac:(lia)) as Hp.
  assert (Hlook := fun k => lookup_Swap (parent j) j h k ltac:(lia) ltac:(lia)).
  split; rewrite length_Swap.
  - intros k Hk Hne. rewrite !Hlook. pose proof (parent_lt k ltac:(lia)).
    destruct (decide (k = parent j)); [done|]. destruct (decide (k = j)) as [->|Hkj].
    + rewrite decide_True by done. by apply less_le.
    + destruct (decide (parent k = parent j)) as [He|].
      * apply (less_neg_trans _ (h !!! parent j)); [by apply less_le|]. rewrite <- He. by apply Ha.
      * destruct (decide (parent k = j)); [by apply Hb; try lia | by apply Ha].
  - intros k Hk Hpk H0. rewrite !Hlook. pose proof (parent_lt (parent j) ltac:(lia)).
    rewrite (decide_False (P := parent (parent j) = parent j)),
      (decide_False (P := parent (parent j) = j)) by lia.
    rewrite (decide_False (P := k = parent j)) by (intros ->; lia).
    assert (Hle : le (h !!! parent (parent j)) (h !!! parent j)) by (apply Ha; lia).
    case_decide; [done|]. apply (less_neg_trans _ _ _ Hle). rewrite <- Hpk. by apply Ha.
Qed.

Lemma up_spec fuel h j : (j < fuel)%nat -> (j < length h)%nat -> up_inv h j ->
  heap_ok (up fuel h j) (length h) /\ up fuel h j ≡ₚ h.
Proof.
  revert h j. induction fuel as [|fuel IH]; intros h j Hf Hj Hinv; [lia|]. cbn [up].
  destruct (Nat.eqb_spec (parent j) j) as [He|Hne]; cbn [orb].
  - split; [|done]. intros k Hk. apply Hinv; [done|]. intros ->.
    pose proof (parent_lt j ltac:(lia)). lia.
  - assert (Hj0 : (0 < j)%nat) by (destruct j; [done|lia]). pose proof (parent_lt j Hj0).
    destruct (less (h !!! j) (h !!! parent j)) eqn:Hless; cbn [negb].
    + destruct (IH (Swap (parent j) j h) (parent j)) as [Hok Hperm]; [lia | rewrite length_Swap; lia
        | by apply up_step |].
      rewrite length_Swap in Hok. split; [done|]. rewrite Hperm. apply Swap_perm; lia.
    + split; [|done]. intros k Hk. destruct (decide (k = j)) as [->|]; [done | by apply Hinv].
Qed.

(** * [down] *)

(** A heap of [n] elements but for the one at [i], which may exceed its children. *)
Definition down_inv (h : list A) (i n : nat) : Prop :=
  (forall k, (0 < k < n)%nat -> parent k <> i -> le (h !!! parent k) (h !!! k)) /\
  (forall k, (0 < k < n)%nat -> parent k = i -> (0 < i)%nat -> le (h !!! parent i) (h !!! k)).

Lemma child_spec h i n : (2 * i + 1 < n)%nat ->
  let j := child h i n in
  (i < j < n)%nat /\ parent j = i /\
  forall k, (0 < k < n)%nat -> parent k = i -> le (h !!! j) (h !!! k).
Proof.
  intros Hn j. subst j. unfold child.
  assert (H1 : parent (2 * i + 1) = i) by (apply parent_child; lia).
  assert (H2 : parent (2 * i + 1 + 1) = i) by (apply parent_child; lia).
  destruct (Nat.ltb_spec (2 * i + 1 + 1) n) as [Hlt|Hge]; cbn [andb].
  - destruct (less _ _) eqn:Hless; (split; [lia|]); (split; [done|]); intros k Hk Hpk;
      apply parent_child in Hpk as [-> | ->]; try lia; try apply le_refl.
    + by apply less_le.
    + replace (2 * i + 2)%nat with (2 * i + 1 + 1)%nat by lia. apply le_refl.
    + replace (2 * i + 2)%nat with (2 * i + 1 + 1)%nat by lia. exact Hless.
  - split; [lia|]. split; [done|]. intros k Hk Hpk.
    apply parent_child in Hpk as [-> | ->]; try lia. apply le_refl.
Qed.

Lemma down_step h i n j : down_inv h i n -> (n <= length h)%nat -> (i < j < n)%nat -> parent j = i ->
  (forall k, (0 < k < n)%nat -> parent k = i -> le (h !!! j) (h !!! k)) ->
  less (h !!! j) (h !!! i) = true -> down_inv (Swap i j h) j n.
Proof.
  intros [Ha Hb] Hn Hj Hpj Hmin Hless.
  assert (Hlook := fun k => lookup_Swap i j h k ltac:(lia) ltac:(lia)). split.
  - intros k Hk Hpk. rewrite !Hlook. pose proof (parent_lt k ltac:(lia)).
    destruct (decide (parent k = i)) as [Hki|Hki].
    + rewrite (decide_False (P := k = i)) by lia. case_decide; [by apply less_le | by apply Hmin].
    + rewrite (decide_False (P := parent k = j)) by done.
      destruct (decide (k = i)) as [->|]; [apply Hb; try lia; done|].
      rewrite decide_False by (intros ->; done). by apply Ha.
  - intros k Hk Hpk _. rewrite Hpj, !Hlook. pose proof (parent_lt k ltac:(lia)).
    rewrite (decide_True (P := i = i)) by done.
    rewrite (decide_False (P := k = i)), (decide_False (P := k = j)) by lia.
    rewrite <- Hpk. apply Ha; lia.
Qed.

Lemma down_spec fuel h i n : (n - i <= fuel)%nat -> (i < n)%nat -> (n <= length h)%nat -> down_inv h i n ->
  heap_ok (down fuel h i n) n /\ down fuel h i n ≡ₚ h /\
  forall k, (n <= k)%nat -> down fuel h i n !!! k = h !!! k.
Proof.
  revert h i. induction fuel as [|fuel IH]; intros h i Hf Hi Hn Hinv; [lia|]. cbn [down].
  destruct (Nat.leb_spec n (2 * i + 1)) as [Hle|Hgt].
  { split_and!; try done. intros k Hk. apply Hinv; [done|]. intros Hpk.
    apply parent_child in Hpk; lia. }
  destruct (child_spec h i n Hgt) as (Hj & Hpj & Hmin). set (j := child h i n) in *.
  destruct (less (h !!! j) (h !!! i)) eqn:Hless; cbn [negb].
  - destruct (IH (Swap i j h) j) as (Hok & Hperm & Hrest); [lia | lia | by rewrite length_Swap
      | by apply down_step |].
    split; [done|]. split; [rewrite Hperm; apply Swap_perm; lia|].
    intros k Hk. rewrite Hrest, lookup_Swap by lia. by rewrite !decide_False by lia.
  - split_and!; try done. intros k Hk. destruct (decide (parent k = i)) as [<-|].
    + apply (less_neg_trans _ (h !!! j)); [done | by apply Hmin].
    + by apply Hinv.
Qed.

(** * The heap as a priority queue *)

Lemma Push_spec x h : heap_ok h (length h) ->
  heap_ok (Push x h) (length (Push x h)) /\ Push x h ≡ₚ x :: h.
Proof.
  intros Hh. unfold Push. assert (Hlen : length (h ++ [x]) = S (length h)) by (rewrite length_app; cbn; lia).
  destruct (up_spec (length (h ++ [x])) (h ++ [x]) (length (h ++ [x]) - 1)) as [Hok Hperm]; [lia..| |].
  - rewrite Hlen. cbn. rewrite Nat.sub_0_r. split; rewrite Hlen; intros k Hk.
    + intros Hne. pose proof (parent_lt k ltac:(lia)).
      rewrite !lookup_total_app_l by lia. apply Hh. lia.
    + intros Hpk. pose proof (parent_lt k ltac:(lia)). lia.
  - assert (Hl : length (up (length (h ++ [x])) (h ++ [x]) (length (h ++ [x]) - 1)) = length (h ++ [x]))
      by (by rewrite Hperm).
    split; [by rewrite Hl|]. rewrite Hperm. symmetry. apply Permutation_cons_append.
Qed.

(** [Pop] takes a least element out. *)
Lemma Pop_spec h x h' : heap_ok h (length h) -> h <> [] -> Pop h = (x, h') ->
  h ≡ₚ x :: h' /\ heap_ok h' (length h') /\ forall y, y ∈ h -> le x y.
Proof.
  intros Hh Hne. unfold Pop. set (n := (length h - 1)%nat).
  assert (Hlen : length h = S n) by (destruct h; [done | cbn in *; lia]).
  assert (Hdown : let d := down (length h) (Swap 0 n h) 0 n in
    heap_ok d n /\ d ≡ₚ h /\ d !!! n = h !!! 0%nat).
  { destruct (decide (n = 0%nat)) as [Hn0|Hn0].
    - rewrite Hn0, Hlen, Hn0. cbn [down]. change (0 <=? 2 * 0 + 1)%nat with true. cbn iota.
      split_and!; [intros k Hk; lia | apply Swap_perm; lia |].
      rewrite lookup_Swap by lia. by rewrite decide_True.
    - destruct (down_spec (length h) (Swap 0 n h) 0 n) as (Hok & Hperm & Hrest);
        [lia | lia | rewrite length_Swap; lia | |].
      + split; [|intros; lia]. intros k Hk Hpk. pose proof (parent_lt k ltac:(lia)).
        rewrite !lookup_Swap by lia. rewrite !decide_False by lia. apply Hh. lia.
      + split_and!; [done | rewrite Hperm; apply Swap_perm; lia |].
        rewrite Hrest, lookup_Swap by lia.
        rewrite decide_False, decide_True by done. done. }
  cbv zeta in Hdown. set (d := down (length h) (Swap 0 n h) 0 n) in *.
  destruct Hdown as (Hok & Hperm & Hlast). intros [= <- <-].
  assert (Hd : length d = S n) by (by rewrite Hperm).
  assert (Hsplit : d = take n d ++ [d !!! n]).
  { rewrite <- (take_drop n d) at 1. f_equal.
    rewrite (drop_S d (d !!! n) n) by (apply list_lookup_lookup_total_lt; lia).
    by rewrite drop_ge by lia. }
  split; [|split].
  - rewrite <- Hperm, Hsplit at 1. symmetry. apply Permutation_cons_append.
  - rewrite length_take, Hd. intros k Hk. pose proof (parent_lt k ltac:(lia)).
    rewrite !lookup_total_take, !decide_True by lia. apply Hok. lia.
  - intros y (k & Hy)%list_elem_of_lookup. rewrite Hlast.
    rewrite <- (list_lookup_total_correct h k y Hy). apply (heap_root h (length h)); [done|].
    by eapply lookup_lt_Some.
Qed.
End Heap.
