(* ===== verification/Queue.v ===== *)
(** Queue: the request queue of the RPC proxy.

    Models pkg/rpcproxy/queue.go: [PriorityQueue] over the heap of Heap.v and
    [MultiPriorityQueue]. The operations are atomic where the code holds the lock;
    the waiting of [Dequeue] and [DequeueWithTimeout] on the condition variable is the
    step relation of Waiters.v. Of a request the queue reads the priority and the time
    of its creation. *)
From stdpp Require Import sorting.
From S2P Require Import Prelude Heap.

Definition PriorityCritical : Z := 0.
Definition PriorityHigh : Z := 1.
Definition PriorityNormal : Z := 2.

Record Request := mkRequest { req_ID : string; Priority : Z; CreatedAt : Z; Timeout : Z }.

#[export] Instance request_inhabited : Inhabited Request := populate (mkRequest "" 0 0 0).
#[export] Instance request_eq_dec : EqDecision Request.
Proof. solve_decision. Defined.

(** Lower values first, then earlier requests. *)
Definition Less (a b : Request) : bool :=
  if negb (Priority a =? Priority b) then Priority a <? Priority b else CreatedAt a <? CreatedAt b.

Record PriorityQueue := mkPQ {
  items : list Request;
  maxSize : Z;
  pq_closed : bool;
  enqueued : Z;
  dequeued : Z;
  dropped : Z;
}.

Definition NewPriorityQueue (maxSize : Z) : PriorityQueue := mkPQ [] maxSize false 0 0 0.

Definition Size (pq : PriorityQueue) : Z := Z.of_nat (length (items pq)).

Definition Enqueue (req : Request) (pq : PriorityQueue) : bool * PriorityQueue :=
  if pq_closed pq then (false, pq)
  else if maxSize pq <=? Size pq then
    (false, mkPQ (items pq) (maxSize pq) (pq_closed pq) (enqueued pq) (dequeued pq) (i64 (dropped pq + 1)))
  else
    (true, mkPQ (Push Less req (items pq)) (maxSize pq) (pq_closed pq) (i64 (enqueued pq + 1))
             (dequeued pq) (dropped pq)).

(** [heap.Pop] and the counter, on a queue that is not empty. *)
Definition take_first (pq : PriorityQueue) : Request * PriorityQueue :=
  let '(req, rest) := Pop Less (items pq) in
  (req, mkPQ rest (maxSize pq) (pq_closed pq) (enqueued pq) (i64 (dequeued pq + 1)) (dropped pq)).

(** [Dequeue] once it need not wait: [None] when the queue is empty and open. *)
Definition Dequeue (pq : PriorityQueue) : option (option Request * PriorityQueue) :=
  match items pq with
  | [] => if pq_closed pq then Some (None, pq) else None
  | _ => let '(req, pq') := take_first pq in Some (Some req, pq')
  end.

Definition TryDequeue (pq : PriorityQueue) : option Request * PriorityQueue :=
  match items pq with
  | [] => (None, pq)
  | _ => if pq_closed pq then (None, pq)
         else let '(req, pq') := take_first pq in (Some req, pq')
  end.

Definition Close (pq : PriorityQueue) : PriorityQueue :=
  mkPQ (items pq) (maxSize pq) true (enqueued pq) (dequeued pq) (dropped pq).

(** [Drain]: the loop ends when the heap is empty; the length is enough fuel. *)
Fixpoint Drain_loop (fuel : nat) (h : list Request) : list Request * list Request :=
  match fuel, h with
  | S fuel', _ :: _ =>
      let '(req, h') := Pop Less h in
      let '(result, rest) := Drain_loop fuel' h' in (req :: result, rest)
  | _, _ => ([], h)
  end.

Definition Drain (pq : PriorityQueue) : list Request * PriorityQueue :=
  let '(result, rest) := Drain_loop (length (items pq)) (items pq) in
  (result, mkPQ rest (maxSize pq) (pq_closed pq) (enqueued pq) (dequeued pq) (dropped pq)).

(** * Several queues *)

Abbreviation MultiPriorityQueue := (gmap Z PriorityQueue).

Definition priorities : list Z := [PriorityCritical; PriorityHigh; PriorityNormal].

Definition NewMultiPriorityQueue (maxSizePerPriority : Z) : MultiPriorityQueue :=
  list_to_map ((fun p => (p, NewPriorityQueue maxSizePerPriority)) <$> priorities).

Definition mpq_Enqueue (req : Request) (mpq : MultiPriorityQueue) : bool * MultiPriorityQueue :=
  match mpq !! Priority req with
  | None => (false, mpq)
  | Some pq => let '(ok, pq') := Enqueue req pq in (ok, <[Priority req := pq']> mpq)
  end.

Fixpoint mpq_Dequeue_from (ps : list Z) (mpq : MultiPriorityQueue) : option Request * MultiPriorityQueue :=
  match ps with
  | [] => (None, mpq)
  | p :: ps' =>
      match mpq !! p with
      | None => (None, mpq)
      | Some pq =>
          match TryDequeue pq with
          | (Some req, pq') => (Some req, <[p := pq']> mpq)
          | (None, pq') => mpq_Dequeue_from ps' (<[p := pq']> mpq)
          end
      end
  end.

Definition mpq_Dequeue (mpq : MultiPriorityQueue) : option Request * MultiPriorityQueue :=
  mpq_Dequeue_from priorities mpq.

Definition TotalSize (mpq : MultiPriorityQueue) : Z :=
  map_fold (fun _ pq total => total + Size pq) 0 mpq.

Definition mpq_Close (mpq : MultiPriorityQueue) : MultiPriorityQueue := Close <$> mpq.

(** * The order of requests *)

Ltac less_tac :=
  unfold le, Less;
  repeat match goal with |- context [?x =? ?y] => destruct (Z.eqb_spec x y) end;
  cbn [negb]; lia.

Lemma Less_trans a b c : Less a b = true -> Less b c = true -> Less a c = true.
Proof. less_tac. Qed.
Lemma Less_irrefl a : Less a a = false.
Proof. less_tac. Qed.
Lemma Less_neg_trans a b c : le Less a b -> le Less b c -> le Less a c.
Proof. less_tac. Qed.

(** [a] may be served before [b]. *)
Definition before (a b : Request) : Prop :=
  Priority a < Priority b \/ Priority a = Priority b /\ CreatedAt a <= CreatedAt b.

Lemma le_before a b : le Less a b <-> before a b.
Proof. unfold before. less_tac. Qed.

Definition heaped (h : list Request) : Prop := heap_ok Less h (length h).

Definition pq_Push_spec := Push_spec Less Less_trans Less_irrefl Less_neg_trans.
Definition pq_Pop_spec := Pop_spec Less Less_trans Less_irrefl Less_neg_trans.

Lemma Pop_before h r h' : heaped h -> h <> [] -> Pop Less h = (r, h') ->
  h ≡ₚ r :: h' /\ heaped h' /\ forall y, y ∈ h -> before r y.
Proof.
  intros Hh Hne HP. destruct (pq_Pop_spec h r h' Hh Hne HP) as (Hperm & Hok & Hmin).
  split_and!; [done..|]. intros y Hy. by apply le_before, Hmin.
Qed.

(** * Reachable queues *)

Inductive pq_op := OpEnqueue (r : Request) | OpDequeue | OpTryDequeue | OpClose | OpDrain.

(** A dequeue that would wait leaves the queue as it is. *)
Definition pq_step (o : pq_op) (pq : PriorityQueue) : PriorityQueue :=
  match o with
  | OpEnqueue r => snd (Enqueue r pq)
  | OpDequeue => match Dequeue pq with Some (_, pq') => pq' | None => pq end
  | OpTryDequeue => snd (TryDequeue pq)
  | OpClose => Close pq
  | OpDrain => snd (Drain pq)
  end.

Definition pq_run (ops : list pq_op) (pq : PriorityQueue) : PriorityQueue := foldl (flip pq_step) pq ops.

Lemma Drain_loop_spec fuel h : (length h <= fuel)%nat -> heaped h ->
  exists result, Drain_loop fuel h = (result, []) /\ result ≡ₚ h /\ StronglySorted before result.
Proof.
  revert h. induction fuel as [|fuel IH]; intros h Hf Hh.
  { destruct h; [|cbn in Hf; lia]. exists []. split_and!; [done..|constructor]. }
  destruct h as [|x h]; [exists []; split_and!; [done..|constructor]|].
  cbn [Drain_loop]. destruct (Pop Less (x :: h)) as [r h'] eqn:HP.
  destruct (Pop_before (x :: h) r h' Hh ltac:(done) HP) as (Hperm & Hh' & Hmin).
  destruct (IH h') as (result & -> & Hres & Hsort); [|done|].
  { apply Permutation_length in Hperm. cbn in Hperm, Hf. lia. }
  exists (r :: result). split_and!; [done | by rewrite Hperm, Hres |]. constructor; [done|].
  apply Forall_forall. intros y Hy. apply Hmin. rewrite Hperm. right. by rewrite <- Hres.
Qed.

Lemma take_first_spec pq r pq' : heaped (items pq) -> items pq <> [] -> take_first pq = (r, pq') ->
  items pq ≡ₚ r :: items pq' /\ heaped (items pq') /\ (forall y, y ∈ items pq -> before r y) /\
  pq' = mkPQ (items pq') (maxSize pq) (pq_closed pq) (enqueued pq) (i64 (dequeued pq + 1)) (dropped pq).
Proof.
  intros Hh Hne. unfold take_first. destruct (Pop Less (items pq)) as [x h'] eqn:HP. intros [= <- <-].
  destruct (Pop_before (items pq) x h' Hh Hne HP) as (? & ? & ?). done.
Qed.

(** A heap of at most [maxSize] requests. *)
Definition pq_wf (pq : PriorityQueue) : Prop := heaped (items pq) /\ Size pq <= Z.max 0 (maxSize pq).

Lemma pq_wf_rest pq pq' r : items pq ≡ₚ r :: items pq' -> heaped (items pq') ->
  maxSize pq' = maxSize pq -> pq_wf pq -> pq_wf pq'.
Proof.
  intros Hperm Hh Hm [_ Hsize]. split; [done|]. apply Permutation_length in Hperm.
  unfold Size in *. cbn in Hperm. rewrite Hm. lia.
Qed.

Lemma pq_wf_step o pq : pq_wf pq -> pq_wf (pq_step o pq).
Proof.
  intros Hwf. pose proof Hwf as [Hh Hsize].
  assert (Htake : items pq <> [] -> pq_wf (snd (take_first pq))).
  { intros Hne. destruct (take_first pq) as [r pq'] eqn:Ht.
    destruct (take_first_spec pq r pq' Hh Hne Ht) as (Hperm & Hh' & _ & Hpq).
    eapply pq_wf_rest; [done..| by rewrite Hpq | done]. }
  destruct o as [r| | | |]; cbn [pq_step].
  - unfold Enqueue. destruct (pq_closed pq); [done|].
    destruct (Z.leb_spec (maxSize pq) (Size pq)); [done|].
    destruct (pq_Push_spec r (items pq) Hh) as [Hok Hperm]. split; [done|].
    unfold Size in *. cbn. rewrite Hperm. cbn. lia.
  - unfold Dequeue. destruct (items pq) as [|x h] eqn:Hi; [by destruct (pq_closed pq)|].
    specialize (Htake ltac:(done)). by destruct (take_first pq).
  - unfold TryDequeue. destruct (items pq) as [|x h] eqn:Hi; [done|]. destruct (pq_closed pq); [done|].
    specialize (Htake ltac:(done)). by destruct (take_first pq).
  - done.
  - unfold Drain. destruct (Drain_loop_spec (length (items pq)) (items pq)) as (res & -> & _); [lia|done|].
    split; [|unfold Size; cbn; lia]. intros k Hk. cbn in Hk. lia.
Qed.

Lemma pq_wf_run maxSize ops : pq_wf (pq_run ops (NewPriorityQueue maxSize)).
Proof.
  assert (Hnew : pq_wf (NewPriorityQueue maxSize)).
  { split; [intros k Hk; cbn in Hk; lia | unfold Size; cbn; lia]. }
  revert Hnew. generalize (NewPriorityQueue maxSize). unfold pq_run.
  induction ops as [|o ops IH]; intros pq Hpq; [done|]. cbn. by apply IH, pq_wf_step.
Qed.

(** * Properties *)

(** C17: the queue implements a bag of requests of bounded size. In every reachable queue a
    request is accepted exactly when the queue is open and not full, and then added; a
    dequeue of a queue that is not empty takes out a request that no other precedes, by
    priority and then by creation time; draining returns all requests in that order. *)
Theorem queue_refines n ops r : let pq := pq_run ops (NewPriorityQueue n) in
  (let '(ok, pq') := Enqueue r pq in
   (ok = true <-> pq_closed pq = false /\ Size pq < maxSize pq) /\
   items pq' ≡ₚ if ok then r :: items pq else items pq) /\
  (items pq <> [] -> exists x pq', Dequeue pq = Some (Some x, pq') /\
     items pq ≡ₚ x :: items pq' /\ forall y, y ∈ items pq -> before x y) /\
  (exists result pq', Drain pq = (result, pq') /\ items pq' = [] /\
     result ≡ₚ items pq /\ StronglySorted before result).
Proof.
  intros pq. destruct (pq_wf_run n ops) as [Hh _]. fold pq in Hh. split_and!.
  - unfold Enqueue. destruct (pq_closed pq).
    { split; [|done]. split; [done | by intros []]. }
    destruct (Z.leb_spec (maxSize pq) (Size pq)).
    { split; [|done]. split; [done | intros []; lia]. }
    split; [done|]. by destruct (pq_Push_spec r (items pq) Hh) as [_ Hperm].
  - intros Hne. destruct (take_first pq) as [x pq'] eqn:Ht.
    destruct (take_first_spec pq x pq' Hh Hne Ht) as (Hperm & _ & Hmin & _).
    exists x, pq'. split; [|done]. unfold Dequeue. rewrite Ht. by destruct (items pq).
  - destruct (Drain_loop_spec (length (items pq)) (items pq)) as (result & Hd & Hperm & Hs); [lia|done|].
    exists result. eexists. split; [unfold Drain; by rewrite Hd|]. done.
Qed.

Lemma maxSize_step o pq : maxSize (pq_step o pq) = maxSize pq.
Proof.
  destruct o; cbn; try done.
  - unfold Enqueue. by repeat case_match.
  - unfold Dequeue, take_first. destruct (items pq); [by destruct (pq_closed pq)|].
    by destruct (Pop _ _).
  - unfold TryDequeue, take_first. destruct (items pq); [done|]. destruct (pq_closed pq); [done|].
    by destruct (Pop _ _).
  - unfold Drain. by destruct (Drain_loop _ _).
Qed.

Lemma maxSize_run ops pq : maxSize (pq_run ops pq) = maxSize pq.
Proof.
  unfold pq_run. revert pq. induction ops as [|o ops IH]; intros pq; [done|].
  cbn [foldl flip]. rewrite IH. apply maxSize_step.
Qed.

(** The heap order and the bound on the size hold in every reachable queue, whatever
    the bound, and a closed queue accepts nothing: it only shrinks. *)
Theorem queue_bounded n ops o : let pq := pq_run ops (NewPriorityQueue n) in
  heaped (items pq) /\ Size pq <= Z.max 0 n /\
  (pq_closed pq = true -> pq_closed (pq_step o pq) = true /\ Size (pq_step o pq) <= Size pq).
Proof.
  intros pq. destruct (pq_wf_run n ops) as [Hh Hsize]. fold pq in Hh, Hsize.
  assert (Hmax : maxSize pq = n) by apply maxSize_run.
  rewrite Hmax in Hsize. split_and!; [done..|]. intros Hc.
  assert (Htake : items pq <> [] -> Size (snd (take_first pq)) <= Size pq /\
    pq_closed (snd (take_first pq)) = true).
  { intros Hne. destruct (take_first pq) as [x pq'] eqn:Ht.
    destruct (take_first_spec pq x pq' Hh Hne Ht) as (Hperm & _ & _ & Hpq).
    apply Permutation_length in Hperm. unfold Size. cbn [snd]. cbn in Hperm.
    split; [lia | by rewrite Hpq]. }
  destruct o; cbn [pq_step].
  - unfold Enqueue. rewrite Hc. cbn. split; [done | lia].
  - unfold Dequeue. destruct (items pq) eqn:Hi; [rewrite Hc; cbn; split; [done | lia]|].
    specialize (Htake ltac:(done)). destruct (take_first pq). cbn in *. tauto.
  - unfold TryDequeue. rewrite Hc. destruct (items pq); cbn; (split; [done | lia]).
  - cbn. split; [done|]. unfold Size. cbn. lia.
  - unfold Drain. destruct (Drain_loop_spec (length (items pq)) (items pq)) as (res & -> & _); [lia|done|].
    unfold Size. cbn. split; [done | lia].
Qed.

(** ** Several queues *)

Inductive mpq_op := MEnqueue (r : Request) | MDequeue | MClose.

Definition mpq_step (o : mpq_op) (mpq : MultiPriorityQueue) : MultiPriorityQueue :=
  match o with
  | MEnqueue r => snd (mpq_Enqueue r mpq)
  | MDequeue => snd (mpq_Dequeue mpq)
  | MClose => mpq_Close mpq
  end.

Definition mpq_run (ops : list mpq_op) (mpq : MultiPriorityQueue) : MultiPriorityQueue :=
  foldl (flip mpq_step) mpq ops.

(** There is a heap for each of the three priorities, of requests of that priority. *)
Definition mpq_wf (mpq : MultiPriorityQueue) : Prop :=
  (forall p, p ∈ priorities -> is_Some (mpq !! p)) /\
  (forall p pq, mpq !! p = Some pq ->
     p ∈ priorities /\ heaped (items pq) /\ forall r, r ∈ items pq -> Priority r = p).

(** [r] waits in one of the queues. *)
Definition queued (mpq : MultiPriorityQueue) (r : Request) : Prop :=
  exists p pq, mpq !! p = Some pq /\ r ∈ items pq.

Lemma mpq_wf_insert mpq p pq : mpq_wf mpq -> p ∈ priorities -> heaped (items pq) ->
  (forall r, r ∈ items pq -> Priority r = p) -> mpq_wf (<[p := pq]> mpq).
Proof.
  intros [Hall Hq] Hp Hh Hr. split.
  - intros q Hqp. rewrite lookup_insert_is_Some. destruct (decide (p = q)); eauto.
  - intros q qq Hqq. apply lookup_insert_Some in Hqq as [[<- <-]|[_ Hqq]]; [done | by apply Hq].
Qed.

Lemma TryDequeue_wf pq o pq' : heaped (items pq) -> TryDequeue pq = (o, pq') ->
  heaped (items pq') /\ (forall r, r ∈ items pq' -> r ∈ items pq) /\
  match o with
  | None => pq' = pq /\ (items pq = [] \/ pq_closed pq = true)
  | Some r => r ∈ items pq /\ forall y, y ∈ items pq -> before r y
  end.
Proof.
  intros Hh. unfold TryDequeue. destruct (items pq) as [|x h] eqn:Hi.
  { intros [= <- <-]. rewrite Hi. split_and!; [done..|by left]. }
  destruct (pq_closed pq) eqn:Hc; [intros [= <- <-]; rewrite Hi; split_and!; [done..|by right]|].
  destruct (take_first pq) as [r q] eqn:Ht. intros [= <- <-]. rewrite <- Hi in *.
  destruct (take_first_spec pq r q Hh ltac:(congruence) Ht) as (Hperm & Hq & Hmin & _).
  split; [done|]. split; [|split; [rewrite Hperm; by left | done]].
  intros y Hy. rewrite Hperm. by right.
Qed.

Lemma mpq_Dequeue_from_wf ps mpq o mpq' : mpq_wf mpq -> ps ⊆ priorities ->
  mpq_Dequeue_from ps mpq = (o, mpq') -> mpq_wf mpq'.
Proof.
  revert mpq. induction ps as [|p ps IH]; intros mpq Hwf Hps; cbn [mpq_Dequeue_from]; [by intros [= <- <-]|].
  destruct (mpq !! p) as [pq|] eqn:Hp; [|by intros [= <- <-]].
  destruct Hwf as [Hall Hq]. destruct (Hq p pq Hp) as (Hpp & Hh & Hr).
  destruct (TryDequeue pq) as [[r|] pq'] eqn:Ht;
    destruct (TryDequeue_wf pq _ pq' Hh Ht) as (Hh' & Hsub & _);
    assert (Hwf' : mpq_wf (<[p := pq']> mpq)) by (apply mpq_wf_insert; [split|..]; auto).
  - by intros [= <- <-].
  - apply IH; [done | set_solver].
Qed.

Lemma mpq_wf_step o mpq : mpq_wf mpq -> mpq_wf (mpq_step o mpq).
Proof.
  intros Hwf. destruct o as [r| |]; cbn [mpq_step].
  - unfold mpq_Enqueue. destruct (mpq !! Priority r) as [pq|] eqn:Hp; [|done].
    destruct Hwf as [Hall Hq]. destruct (Hq _ pq Hp) as (Hpp & Hh & Hr).
    destruct (Enqueue r pq) as [ok pq'] eqn:He. cbn. unfold Enqueue in He.
    assert (Hwf' : forall q, items q = items pq -> mpq_wf (<[Priority r := q]> mpq)).
    { intros q Hqq. apply mpq_wf_insert; rewrite ?Hqq; done. }
    destruct (pq_closed pq); [injection He as <- <-; by apply Hwf'|].
    destruct (maxSize pq <=? Size pq); injection He as <- <-; [by apply Hwf'|].
    destruct (pq_Push_spec r (items pq) Hh) as [Hok Hperm]. apply mpq_wf_insert; try done.
    cbn. intros x. rewrite Hperm. intros [->|Hx]%elem_of_cons; [done | by apply Hr].
  - destruct (mpq_Dequeue mpq) as [o mpq'] eqn:Hd. cbn.
    eapply mpq_Dequeue_from_wf; [exact Hwf | reflexivity | exact Hd].
  - destruct Hwf as [Hall Hq]. split.
    + intros p Hp. unfold mpq_Close. rewrite lookup_fmap. by apply fmap_is_Some, Hall.
    + intros p pq Hp. unfold mpq_Close in Hp. rewrite lookup_fmap in Hp.
      apply fmap_Some in Hp as (pq0 & Hp0 & ->). exact (Hq p pq0 Hp0).
Qed.

Lemma mpq_wf_run n ops : mpq_wf (mpq_run ops (NewMultiPriorityQueue n)).
Proof.
  assert (Hnew : mpq_wf (NewMultiPriorityQueue n)).
  { split.
    - intros p Hp. unfold priorities in Hp. set_unfold.
      destruct Hp as [->|[->|[->|[]]]]; eexists; by vm_compute.
    - intros p pq Hp. unfold NewMultiPriorityQueue in Hp. apply elem_of_list_to_map_2 in Hp.
      apply list_elem_of_fmap in Hp as (p' & [= <- ->] & Hp'). split; [done|].
      split; [intros k Hk; cbn in Hk; lia|]. by intros r ?%not_elem_of_nil. }
  revert Hnew. generalize (NewMultiPriorityQueue n). unfold mpq_run.
  induction ops as [|o ops IH]; intros q Hq; [done|]. cbn. by apply IH, mpq_wf_step.
Qed.

Lemma mpq_Dequeue_from_best ps mpq o mpq' : mpq_wf mpq -> ps ⊆ priorities -> StronglySorted Z.lt ps ->
  (forall p pq, mpq !! p = Some pq -> pq_closed pq = false) ->
  mpq_Dequeue_from ps mpq = (o, mpq') ->
  match o with
  | Some r => (exists p pq, p ∈ ps /\ mpq !! p = Some pq /\ r ∈ items pq) /\
      forall p pq y, p ∈ ps -> mpq !! p = Some pq -> y ∈ items pq -> before r y
  | None => forall p pq, p ∈ ps -> mpq !! p = Some pq -> items pq = []
  end.
Proof.
  intros Hwf. revert mpq Hwf. induction ps as [|p ps IH]; intros mpq Hwf Hps Hsort Hopen; cbn [mpq_Dequeue_from].
  { intros [= <- <-]. by intros p pq ?%not_elem_of_nil. }
  apply StronglySorted_inv in Hsort as [Hsort Hlt]. rewrite Forall_forall in Hlt.
  pose proof Hwf as [Hall Hq]. destruct (Hall p) as [pq Hp]; [set_solver|]. rewrite Hp.
  destruct (Hq p pq Hp) as (Hpp & Hh & Hr).
  destruct (TryDequeue pq) as [[r|] pq'] eqn:Ht;
    destruct (TryDequeue_wf pq _ pq' Hh Ht) as (_ & _ & Hres).
  - intros [= <- <-]. destruct Hres as [Hin Hmin]. split; [exists p, pq; set_solver|].
    intros q qq y [->|Hqp]%elem_of_cons Hqq Hy; [assert (qq = pq) as -> by congruence; auto|].
    destruct (Hq q qq Hqq) as (_ & _ & Hrq). left. rewrite (Hr r Hin), (Hrq y Hy). by apply Hlt.
  - destruct Hres as [-> [Hempty|Hcl]]; [|by rewrite (Hopen p pq Hp) in Hcl].
    rewrite insert_id by done. intros Hd.
    assert (Hps' : ps ⊆ priorities) by set_solver.
    specialize (IH mpq Hwf Hps' Hsort Hopen Hd). destruct o as [r|].
    + destruct IH as [(q & qq & ? & ? & ?) Hmin]. split; [exists q, qq; set_solver|].
      intros q' qq' y [->|Hq']%elem_of_cons Hqq' Hy; [|by eapply Hmin].
      assert (qq' = pq) as -> by congruence. rewrite Hempty in Hy. by apply not_elem_of_nil in Hy.
    + intros q qq [->|Hqp]%elem_of_cons Hqq; [congruence | by eapply IH].
Qed.

(** C37: the queues together: while they are open a dequeue returns a queued request that no
    other queued request precedes, and nothing only when nothing is queued. Once closed, a
    dequeue returns nothing although requests are still queued. *)
Theorem mpq_best n ops : let mpq := mpq_run ops (NewMultiPriorityQueue n) in
  ((forall p pq, mpq !! p = Some pq -> pq_closed pq = false) ->
   match fst (mpq_Dequeue mpq) with
   | Some r => queued mpq r /\ forall y, queued mpq y -> before r y
   | None => forall y, ~ queued mpq y
   end) /\
  fst (mpq_Dequeue (mpq_Close mpq)) = None /\
  (forall y, queued mpq y -> queued (mpq_Close mpq) y).
Proof.
  intros mpq. pose proof (mpq_wf_run n ops) as Hwf. fold mpq in Hwf. split_and!.
  - intros Hopen. destruct (mpq_Dequeue mpq) as [o mpq'] eqn:Hd. cbn [fst].
    apply mpq_Dequeue_from_best in Hd; [|done|done| |done].
    2: { repeat constructor; done. }
    destruct Hwf as [_ Hq]. destruct o as [r|].
    + destruct Hd as [(p & pq & _ & Hp & Hr) Hmin]. split; [by exists p, pq|].
      intros y (q & qq & Hqq & Hy). apply (Hmin q qq); [by apply Hq in Hqq as [? _] | done..].
    + intros y (q & qq & Hqq & Hy). rewrite (Hd q qq) in Hy; [by apply not_elem_of_nil in Hy| |done].
      by apply Hq in Hqq as [? _].
  - assert (Hcl : forall ps m, (forall p pq, m !! p = Some pq -> pq_closed pq = true) ->
      fst (mpq_Dequeue_from ps m) = None).
    { induction ps as [|p ps IH]; intros m Hm; [done|]. cbn. destruct (m !! p) as [pq|] eqn:Hp; [|done].
      assert (Ht : TryDequeue pq = (None, pq)).
      { unfold TryDequeue. rewrite (Hm p pq Hp). by destruct (items pq). }
      rewrite Ht, insert_id by done. by apply IH. }
    apply Hcl. intros p pq Hp. unfold mpq_Close in Hp. rewrite lookup_fmap in Hp.
    by apply fmap_Some in Hp as (pq0 & _ & ->).
  - intros y (p & pq & Hp & Hy). exists p, (Close pq). split; [|done]. unfold mpq_Close.
    by rewrite lookup_fmap, Hp.
Qed.
