(* ===== verification/Waiters.v ===== *)
(** Waiters: waiting for a request of the queue.

    [Dequeue] and [DequeueWithTimeout] of pkg/rpcproxy/queue.go wait on the condition
    variable of the queue, which [Enqueue] signals and [Close] and the timers broadcast.
    [wstep] interleaves them: a waiter is asleep, or about to look at the queue with the
    lock. Whether the deadline of a timed waiter has passed is not determined. *)
From stdpp Require Import relations.
From S2P Require Import Prelude Heap Queue.

Inductive wkind := WForever | WTimed.
Inductive wstatus := Asleep | Checking (woken : bool).

Record waiter := mkWaiter { w_kind : wkind; w_status : wstatus }.

Record wqueue := mkWQ { wq : PriorityQueue; waiters : list waiter; served : list Request }.

Definition asleep (w : waiter) : bool := match w_status w with Asleep => true | _ => false end.

Definition wake (w : waiter) : waiter :=
  match w_status w with Asleep => mkWaiter (w_kind w) (Checking true) | _ => w end.

(** The result of looking at the queue: the waiter returns, with a request or with
    nothing, or it goes to sleep. *)
Inductive look := Return (o : option Request) (pq : PriorityQueue) | Sleep.

Definition Dequeue_look (pq : PriorityQueue) : look :=
  match Dequeue pq with Some (o, pq') => Return o pq' | None => Sleep end.

(** The deadline is looked at before sleeping and after every wake-up. *)
Definition DequeueWithTimeout_look (woken expired : bool) (pq : PriorityQueue) : look :=
  if woken && expired then Return None pq
  else match Dequeue_look pq with
       | Sleep => if expired then Return None pq else Sleep
       | r => r
       end.

Definition look_at (k : wkind) (woken expired : bool) (pq : PriorityQueue) : look :=
  match k with
  | WForever => Dequeue_look pq
  | WTimed => DequeueWithTimeout_look woken expired pq
  end.

Inductive wstep : wqueue -> wqueue -> Prop :=
| w_call s k : wstep s (mkWQ (wq s) (mkWaiter k (Checking false) :: waiters s) (served s))
| w_enqueue_refused s r : fst (Enqueue r (wq s)) = false ->
    wstep s (mkWQ (snd (Enqueue r (wq s))) (waiters s) (served s))
| w_enqueue_signal s r k ws : fst (Enqueue r (wq s)) = true ->
    waiters s ≡ₚ mkWaiter k Asleep :: ws ->
    wstep s (mkWQ (snd (Enqueue r (wq s))) (mkWaiter k (Checking true) :: ws) (served s))
| w_enqueue_none s r : fst (Enqueue r (wq s)) = true -> List.filter asleep (waiters s) = [] ->
    wstep s (mkWQ (snd (Enqueue r (wq s))) (waiters s) (served s))
| w_return s k woken expired ws o pq : waiters s ≡ₚ mkWaiter k (Checking woken) :: ws ->
    look_at k woken expired (wq s) = Return o pq ->
    wstep s (mkWQ pq ws (served s ++ option_list o))
| w_sleep s k woken expired ws : waiters s ≡ₚ mkWaiter k (Checking woken) :: ws ->
    look_at k woken expired (wq s) = Sleep ->
    wstep s (mkWQ (wq s) (mkWaiter k Asleep :: ws) (served s))
| w_timer s ws : waiters s ≡ₚ mkWaiter WTimed Asleep :: ws ->
    wstep s (mkWQ (wq s) (wake <$> waiters s) (served s))
| w_close s : wstep s (mkWQ (Close (wq s)) (wake <$> waiters s) (served s)).

Definition wq_init (n : Z) : wqueue := mkWQ (NewPriorityQueue n) [] [].

(** * Counting waiters *)

Definition sleeping (ws : list waiter) : nat := length (List.filter asleep ws).
Definition looking (ws : list waiter) : nat := length (List.filter (fun w => negb (asleep w)) ws).

Lemma filter_perm {A} (f : A -> bool) l k : l ≡ₚ k -> length (List.filter f l) = length (List.filter f k).
Proof.
  induction 1 as [|x l k _ IH|x y l|l k m _ IH1 _ IH2]; cbn; [done| | |congruence].
  - destruct (f x); cbn; congruence.
  - by destruct (f x), (f y).
Qed.

#[export] Instance sleeping_proper : Proper ((≡ₚ) ==> (=)) sleeping.
Proof. intros l k. apply filter_perm. Qed.
#[export] Instance looking_proper : Proper ((≡ₚ) ==> (=)) looking.
Proof. intros l k. apply filter_perm. Qed.

Lemma sleeping_cons w ws : sleeping (w :: ws) = ((if asleep w then 1 else 0) + sleeping ws)%nat.
Proof. unfold sleeping. cbn. by destruct (asleep w). Qed.

Lemma looking_cons w ws : looking (w :: ws) = ((if asleep w then 0 else 1) + looking ws)%nat.
Proof. unfold looking. cbn. by destruct (asleep w). Qed.

Ltac counts :=
  cbn [wq waiters served] in *; rewrite ?sleeping_cons, ?looking_cons in *;
  cbn [asleep w_status Nat.add] in *.

Lemma sleeping_wake ws : sleeping (wake <$> ws) = 0%nat.
Proof. induction ws as [|[k []] ws IH]; [done|exact IH..]. Qed.

(** * Dequeue alone loses no request *)

(** As long as a waiter sleeps, the queue is open and every request of it has a waiter
    that is about to look. *)
Definition covered (s : wqueue) : Prop :=
  (0 < sleeping (waiters s))%nat ->
  pq_closed (wq s) = false /\ (length (items (wq s)) <= looking (waiters s))%nat.

Definition forever (s : wqueue) : Prop := Forall (fun w => w_kind w = WForever) (waiters s).

Definition w_inv (s : wqueue) : Prop := heaped (items (wq s)) /\ covered s.

Lemma Enqueue_cases r pq : heaped (items pq) ->
  heaped (items (snd (Enqueue r pq))) /\ pq_closed (snd (Enqueue r pq)) = pq_closed pq /\
  length (items (snd (Enqueue r pq))) = ((if fst (Enqueue r pq) then 1 else 0) + length (items pq))%nat.
Proof.
  intros Hh. unfold Enqueue. destruct (pq_closed pq) eqn:Hc; [done|].
  destruct (maxSize pq <=? Size pq); cbn; [done|].
  destruct (pq_Push_spec r (items pq) Hh) as [Hok Hperm]. split_and!; [done..|].
  by apply Permutation_length in Hperm.
Qed.

Lemma Dequeue_look_cases pq : heaped (items pq) ->
  match Dequeue_look pq with
  | Return (Some r) pq' => heaped (items pq') /\ pq_closed pq' = pq_closed pq /\
      items pq ≡ₚ r :: items pq'
  | Return None pq' => pq' = pq /\ pq_closed pq = true
  | Sleep => items pq = [] /\ pq_closed pq = false
  end.
Proof.
  intros Hh. unfold Dequeue_look, Dequeue. destruct (items pq) as [|x h] eqn:Hi.
  { by destruct (pq_closed pq) eqn:Hc. }
  rewrite <- Hi in Hh. destruct (take_first pq) as [r pq'] eqn:Ht.
  destruct (take_first_spec pq r pq' Hh ltac:(congruence) Ht) as (Hperm & Hh' & _ & Hpq).
  rewrite Hi in Hperm. split_and!; [done | by rewrite Hpq | done].
Qed.

Lemma w_inv_step s s' : wstep s s' -> forever s -> w_inv s -> w_inv s'.
Proof.
  intros Hstep Hfor [Hh Hcov]. unfold covered in Hcov.
  destruct Hstep as [s k|s r Hr|s r k ws Hr Hws|s r Hr Hnone|s k woken expired ws o pq Hws Hl
    |s k woken expired ws Hws Hl|s ws Hws|s].
  - split; [done|]. intros Hs. counts. destruct (Hcov Hs). split; [done | lia].
  - destruct (Enqueue_cases r (wq s) Hh) as (Hh' & Hc & Hlen). rewrite Hr in Hlen.
    split; [done|]. intros Hs. counts. rewrite Hc, Hlen. auto.
  - destruct (Enqueue_cases r (wq s) Hh) as (Hh' & Hc & Hlen). rewrite Hr in Hlen.
    rewrite Hws in Hcov. split; [done|]. intros Hs. counts. rewrite Hc, Hlen.
    destruct Hcov as [? Hle]; [lia|]. split; [done|]. lia.
  - destruct (Enqueue_cases r (wq s) Hh) as (Hh' & Hc & Hlen). split; [done|].
    intros Hs. unfold sleeping in Hs. cbn in Hs. rewrite Hnone in Hs. cbn in Hs. lia.
  - assert (Hk : k = WForever).
    { unfold forever in Hfor. rewrite Hws in Hfor. by apply Forall_cons in Hfor as [Hk _]. }
    subst k. cbn [look_at] in Hl. pose proof (Dequeue_look_cases (wq s) Hh) as Hcase.
    rewrite Hl in Hcase. rewrite Hws in Hcov. destruct o as [r|].
    + destruct Hcase as (Hh' & Hc & Hperm). split; [done|]. intros Hs. counts. rewrite Hc.
      apply Permutation_length in Hperm. cbn in Hperm. destruct (Hcov Hs). split; [done | lia].
    + destruct Hcase as [-> Hc]. split; [done|]. intros Hs. counts.
      destruct (Hcov Hs). congruence.
  - assert (Hk : k = WForever).
    { unfold forever in Hfor. rewrite Hws in Hfor. by apply Forall_cons in Hfor as [Hk _]. }
    subst k. cbn [look_at] in Hl. pose proof (Dequeue_look_cases (wq s) Hh) as Hcase.
    rewrite Hl in Hcase. destruct Hcase as [Hempty Hc]. split; [done|]. intros _. cbn.
    rewrite Hempty. cbn. split; [done | lia].
  - split; [done|]. intros Hs. cbn [waiters] in Hs. rewrite sleeping_wake in Hs. lia.
  - split; [done|]. intros Hs. cbn [waiters] in Hs. rewrite sleeping_wake in Hs. lia.
Qed.

(** C20: with [Dequeue] alone no wake-up is lost: in every reachable state in which only
    such calls wait, as long as one of them sleeps the queue is open and each queued
    request has a waiter that is about to look at the queue; such a waiter, when there is
    a request, takes one. *)
Theorem no_lost_wakeup n s : rtc (fun s s' => wstep s s' /\ forever s /\ forever s') (wq_init n) s ->
  covered s /\
  (items (wq s) <> [] -> forall woken expired, exists r pq,
     look_at WForever woken expired (wq s) = Return (Some r) pq).
Proof.
  intros Hrun. assert (Hinit : w_inv (wq_init n)).
  { split; [intros k Hk; cbn in Hk; lia|]. intros Hs. cbn in Hs. lia. }
  assert (Hinv : w_inv s).
  { clear -Hrun Hinit. induction Hrun as [|x y z (Hxy & Hx & _) _ IH]; [done|].
    by apply IH, (w_inv_step x). }
  destruct Hinv as [Hh Hcov]. split; [done|]. intros Hne woken expired. cbn [look_at].
  pose proof (Dequeue_look_cases (wq s) Hh) as Hcase.
  destruct (Dequeue_look (wq s)) as [[r|] pq|] eqn:Hl; [by eexists _, _| |by destruct Hcase].
  exfalso. revert Hl. unfold Dequeue_look, Dequeue. destruct (items (wq s)); [done|].
  by destruct (take_first (wq s)).
Qed.

(** * A timeout loses a wake-up *)

Definition urgent : Request := mkRequest "urgent" 0 1 1000.

Definition lost_state : wqueue :=
  mkWQ (snd (Enqueue urgent (NewPriorityQueue 10))) [mkWaiter WForever Asleep] [].

(** A timed waiter can swallow a wake-up. It is signalled for a request just when its
    deadline passes, returns nothing and leaves the request; a [Dequeue] that sleeps next
    to it stays asleep although the queue is open and holds a request, and nothing but a
    further call or the closing of the queue can go on from there. *)
Theorem timeout_loses_wakeup : rtc wstep (wq_init 10) lost_state /\
  items (wq lost_state) = [urgent] /\ sleeping (waiters lost_state) = 1%nat /\
  forall s, wstep lost_state s ->
    (exists k, s = mkWQ (wq lost_state) (mkWaiter k (Checking false) :: waiters lost_state) []) \/
    (exists r, wq s = snd (Enqueue r (wq lost_state))) \/
    wq s = Close (wq lost_state).
Proof.
  split; [|split; [by vm_compute|split; [done|]]].
  - eapply rtc_l; [apply (w_call _ WForever)|]. cbn.
    eapply rtc_l; [eapply (w_sleep _ WForever false false); [cbn; reflexivity|]; by vm_compute|]. cbn.
    eapply rtc_l; [apply (w_call _ WTimed)|]. cbn.
    eapply rtc_l; [eapply (w_sleep _ WTimed false false); [cbn; reflexivity|]; by vm_compute|]. cbn.
    eapply rtc_l; [eapply (w_enqueue_signal _ urgent WTimed); [by vm_compute | cbn; reflexivity]|]. cbn.
    eapply rtc_l; [eapply (w_return _ WTimed true true); [cbn; reflexivity|]; reflexivity|]. cbn.
    apply rtc_refl.
  - intros s Hs. remember lost_state as x eqn:Hx. destruct Hs; subst; cbn [waiters lost_state] in *;
      try (by right; left; eexists); try (by right; right); try (by left; eexists).
    all: match goal with Hp : [_] ≡ₚ _ :: _ |- _ =>
      apply Permutation_length_1_inv in Hp || (symmetry in Hp; apply Permutation_length_1_inv in Hp) end;
      discriminate.
Qed.

Lemma no_lost_wakeup_witness : covered (mkWQ (NewPriorityQueue 10) [mkWaiter WForever Asleep] []).
Proof.
  apply (no_lost_wakeup 10).
  eapply rtc_l; [split; [apply (w_call _ WForever)|]|].
  - split; [by constructor | by repeat constructor].
  - cbn. eapply rtc_l; [|apply rtc_refl]. split.
    + eapply (w_sleep (mkWQ (NewPriorityQueue 10) [mkWaiter WForever (Checking false)] [])
        WForever false false []); reflexivity.
    + split; by repeat constructor.
Defined.
