(* ===== verification/Worker.v ===== *)
(** Worker: the circuit breaker and the workers of the RPC proxy.

    Models pkg/rpcproxy/worker.go: [CircuitBreaker] as a state machine over an explicit
    clock, and [processRequest] with its retries. The handler and the moments at which the
    context of a request ends are arguments; latencies and log messages are left out. *)
From S2P Require Import Prelude.

(** * The circuit breaker *)

Inductive CircuitState := CircuitClosed | CircuitOpen | CircuitHalfOpen.

#[export] Instance CircuitState_eq_dec : EqDecision CircuitState.
Proof. solve_decision. Defined.

Record CircuitBreakerConfig := mkCBConfig {
  MaxFailures : Z;
  ResetTimeout : Z;
  HalfOpenRequests : Z;
}.

Record CircuitBreaker := mkCB {
  cb_state : CircuitState;
  failures : Z;
  successes : Z;
  lastFailure : Z;
  lastStateChange : Z;
}.

Definition NewCircuitBreaker (now : Z) : CircuitBreaker := mkCB CircuitClosed 0 0 0 now.

Section Breaker.
Context (config : CircuitBreakerConfig).

Definition Allow (now : Z) (cb : CircuitBreaker) : bool * CircuitBreaker :=
  match cb_state cb with
  | CircuitClosed => (true, cb)
  | CircuitOpen =>
      if ResetTimeout config <? now - lastStateChange cb
      then (true, mkCB CircuitHalfOpen (failures cb) 0 (lastFailure cb) now)
      else (false, cb)
  | CircuitHalfOpen => (successes cb <? HalfOpenRequests config, cb)
  end.

Definition RecordSuccess (now : Z) (cb : CircuitBreaker) : CircuitBreaker :=
  match cb_state cb with
  | CircuitHalfOpen =>
      let n := i64 (successes cb + 1) in
      if HalfOpenRequests config <=? n
      then mkCB CircuitClosed 0 n (lastFailure cb) now
      else mkCB CircuitHalfOpen 0 n (lastFailure cb) (lastStateChange cb)
  | st => mkCB st 0 (successes cb) (lastFailure cb) (lastStateChange cb)
  end.

Definition RecordFailure (now : Z) (cb : CircuitBreaker) : CircuitBreaker :=
  let n := i64 (failures cb + 1) in
  match cb_state cb with
  | CircuitClosed =>
      if MaxFailures config <=? n
      then mkCB CircuitOpen n (successes cb) now now
      else mkCB CircuitClosed n (successes cb) now (lastStateChange cb)
  | CircuitHalfOpen => mkCB CircuitOpen n (successes cb) now now
  | CircuitOpen => mkCB CircuitOpen n (successes cb) now (lastStateChange cb)
  end.

Definition Reset (now : Z) (cb : CircuitBreaker) : CircuitBreaker :=
  mkCB CircuitClosed 0 0 (lastFailure cb) now.

Inductive cb_event := EvAllow (now : Z) | EvSuccess (now : Z) | EvFailure (now : Z) | EvReset (now : Z).

Definition cb_step (cb : CircuitBreaker) (e : cb_event) : CircuitBreaker :=
  match e with
  | EvAllow now => snd (Allow now cb)
  | EvSuccess now => RecordSuccess now cb
  | EvFailure now => RecordFailure now cb
  | EvReset now => Reset now cb
  end.

Definition cb_run (es : list cb_event) (cb : CircuitBreaker) : CircuitBreaker := foldl cb_step cb es.

(** Limits that are at least one and fit a Go int. *)
Definition cb_limits : Prop :=
  1 <= MaxFailures config < 2 ^ 63 /\ 1 <= HalfOpenRequests config < 2 ^ 63.

(** While closed the failures stay below the limit, while half open the successes. *)
Definition cb_inv (cb : CircuitBreaker) : Prop :=
  match cb_state cb with
  | CircuitClosed => 0 <= failures cb < MaxFailures config
  | CircuitHalfOpen => 0 <= successes cb < HalfOpenRequests config
  | CircuitOpen => True
  end.

Lemma cb_inv_step cb e : cb_limits -> cb_inv cb -> cb_inv (cb_step cb e).
Proof.
  intros [HM HH] Hinv. unfold cb_inv in *. destruct e as [now|now|now|now]; cbn.
  - unfold Allow. destruct (cb_state cb) eqn:Hst; cbn; rewrite ?Hst; try done.
    destruct (_ <? _); cbn; rewrite ?Hst; [lia | done].
  - unfold RecordSuccess. destruct (cb_state cb) eqn:Hst; cbn; [lia|done|].
    rewrite i64_id by lia. destruct (Z.leb_spec (HalfOpenRequests config) (successes cb + 1)); cbn; lia.
  - unfold RecordFailure. destruct (cb_state cb) eqn:Hst; cbn; [|done..].
    rewrite i64_id by lia. destruct (Z.leb_spec (MaxFailures config) (failures cb + 1)); cbn; [done|lia].
  - lia.
Qed.

Lemma cb_inv_run es cb : cb_limits -> cb_inv cb -> cb_inv (cb_run es cb).
Proof.
  intros Hl. unfold cb_run. revert cb. induction es as [|e es IH]; intros cb Hinv; [done|].
  cbn. by apply IH, cb_inv_step.
Qed.

Lemma cb_inv_new es now : cb_limits -> cb_inv (cb_run es (NewCircuitBreaker now)).
Proof. intros Hl. apply cb_inv_run; [done|]. unfold cb_inv, cb_limits in *. cbn. lia. Qed.

(** A run of failures on a closed breaker. *)
Lemma failures_run cb (times : list Z) : cb_limits -> cb_state cb = CircuitClosed -> cb_inv cb ->
  failures cb + Z.of_nat (length times) < MaxFailures config ->
  let cb' := foldl (flip RecordFailure) cb times in
  cb_state cb' = CircuitClosed /\ failures cb' = failures cb + Z.of_nat (length times).
Proof.
  intros Hl. revert cb. induction times as [|t times IH]; intros cb Hst Hinv Hlt; cbn in *.
  { split; [done | lia]. }
  unfold cb_inv in Hinv. rewrite Hst in Hinv. unfold cb_limits in Hl.
  assert (Hn : RecordFailure t cb = mkCB CircuitClosed (failures cb + 1) (successes cb) t (lastStateChange cb)).
  { unfold RecordFailure. rewrite Hst, i64_id by lia.
    destruct (Z.leb_spec (MaxFailures config) (failures cb + 1)); [lia | done]. }
  rewrite Hn. destruct (IH (mkCB CircuitClosed (failures cb + 1) (successes cb) t (lastStateChange cb)))
    as [H1 H2]; [done | unfold cb_inv; cbn; lia | cbn; lia |].
  split; [done|]. rewrite H2. cbn. lia.
Qed.

(** A run of successes on a half-open breaker. *)
Lemma successes_run cb (times : list Z) : cb_limits -> cb_state cb = CircuitHalfOpen -> cb_inv cb ->
  successes cb + Z.of_nat (length times) < HalfOpenRequests config ->
  let cb' := foldl (flip RecordSuccess) cb times in
  cb_state cb' = CircuitHalfOpen /\ successes cb' = successes cb + Z.of_nat (length times).
Proof.
  intros Hl. revert cb. induction times as [|t times IH]; intros cb Hst Hinv Hlt; cbn in *.
  { split; [done | lia]. }
  unfold cb_inv in Hinv. rewrite Hst in Hinv. unfold cb_limits in Hl.
  assert (Hn : RecordSuccess t cb = mkCB CircuitHalfOpen 0 (successes cb + 1) (lastFailure cb) (lastStateChange cb)).
  { unfold RecordSuccess. rewrite Hst, i64_id by lia.
    destruct (Z.leb_spec (HalfOpenRequests config) (successes cb + 1)); [lia | done]. }
  rewrite Hn. destruct (IH (mkCB CircuitHalfOpen 0 (successes cb + 1) (lastFailure cb) (lastStateChange cb)))
    as [H1 H2]; [done | unfold cb_inv; cbn; lia | cbn; lia |].
  split; [done|]. rewrite H2. cbn. lia.
Qed.

(** C18: the transitions of the circuit breaker. In every reachable closed breaker, after a
    success it takes exactly [MaxFailures] failures in a row to open it, fewer leave it
    closed. Half open since a moment, it takes exactly [HalfOpenRequests] successes in a
    row to close it, with no failures counted, and any failure opens it again. *)
Theorem breaker_transitions es now0 t (times : list Z) (Hl : cb_limits) :
  let cb := cb_run es (NewCircuitBreaker now0) in
  (cb_state cb = CircuitClosed ->
   let cb' := foldl (flip RecordFailure) (RecordSuccess t cb) times in
   (Z.of_nat (length times) < MaxFailures config -> cb_state cb' = CircuitClosed) /\
   (Z.of_nat (length times) = MaxFailures config -> cb_state cb' = CircuitOpen)) /\
  (cb_state cb = CircuitOpen -> fst (Allow t cb) = true ->
   let cb' := foldl (flip RecordSuccess) (snd (Allow t cb)) times in
   (Z.of_nat (length times) < HalfOpenRequests config ->
      cb_state cb' = CircuitHalfOpen /\ forall t', cb_state (RecordFailure t' cb') = CircuitOpen) /\
   (Z.of_nat (length times) = HalfOpenRequests config ->
      cb_state cb' = CircuitClosed /\ failures cb' = 0)).
Proof.
  intros cb. pose proof Hl as [HM HH]. split.
  - intros Hst. set (c0 := RecordSuccess t cb).
    assert (H0 : cb_state c0 = CircuitClosed /\ failures c0 = 0)
      by (unfold c0, RecordSuccess; by rewrite Hst).
    assert (Hinv : cb_inv c0) by (unfold cb_inv; destruct H0 as [-> ->]; lia).
    destruct H0 as [Hc Hf]. split; intros Hlen.
    + apply failures_run; try done. lia.
    + destruct times as [|x times] using rev_ind; [cbn in Hlen; lia|]. clear IHtimes.
      rewrite length_app in Hlen. cbn in Hlen. rewrite foldl_snoc.
      destruct (failures_run c0 times) as [H1 H2]; [done..|lia|].
      set (c1 := foldl _ c0 times) in *. unfold flip, RecordFailure. rewrite H1, H2, Hf, i64_id by lia.
      destruct (Z.leb_spec (MaxFailures config) (0 + Z.of_nat (length times) + 1)); [done | lia].
  - intros Hst Ha. unfold Allow in *. rewrite Hst in *.
    destruct (ResetTimeout config <? t - lastStateChange cb); [|done]. cbn [fst snd] in *.
    set (c0 := mkCB CircuitHalfOpen (failures cb) 0 (lastFailure cb) t).
    assert (Hinv : cb_inv c0) by (unfold cb_inv; cbn; lia). split; intros Hlen.
    + destruct (successes_run c0 times) as [H1 H2]; [done..|cbn; lia|]. split; [done|].
      intros t'. unfold RecordFailure. by rewrite H1.
    + destruct times as [|x times] using rev_ind; [cbn in Hlen; lia|]. clear IHtimes.
      rewrite length_app in Hlen. cbn in Hlen. rewrite foldl_snoc.
      destruct (successes_run c0 times) as [H1 H2]; [done..|cbn; lia|].
      set (c1 := foldl _ c0 times) in *. unfold flip, RecordSuccess. rewrite H1, H2. cbn [successes c0]. rewrite i64_id by lia.
      destruct (Z.leb_spec (HalfOpenRequests config) (0 + Z.of_nat (length times) + 1)); [done | lia].
Qed.

(** C38: the breaker refuses a request exactly when it is open and the reset timeout has not
    passed. In particular it refuses none while half open, however many are under way: the
    limit of [HalfOpenRequests] bounds the successes, not the requests. *)
Theorem breaker_refuses es now0 t (Hl : cb_limits) : let cb := cb_run es (NewCircuitBreaker now0) in
  fst (Allow t cb) = false <-> cb_state cb = CircuitOpen /\ t - lastStateChange cb <= ResetTimeout config.
Proof.
  intros cb. pose proof (cb_inv_new es now0 Hl) as Hinv. fold cb in Hinv.
  unfold Allow, cb_inv in *. destruct (cb_state cb) eqn:Hst; cbn.
  - split; [done | by intros []].
  - destruct (Z.ltb_spec (ResetTimeout config) (t - lastStateChange cb)); cbn.
    + split; [done | intros []; lia].
    + split; [done | done].
  - split; [lia | by intros []].
Qed.

End Breaker.

(** * Processing a request *)

Record Response := mkResponse { resp_Success : bool; resp_Cancelled : bool }.

Record WorkerPool := mkWP { active : Z; total : Z; success : Z; failed : Z }.

Section Worker.
(** The answer of the handler to an attempt; whether the context ends while the worker
    waits before an attempt; whether it has ended after the attempt. A context that has
    ended stays ended, so the second implies the third; nothing below depends on that. *)
Context (MaxRetries : Z) (handler : Z -> Response) (done_waiting : Z -> bool) (ctx_err : Z -> bool).

(** The loop over the attempts, with the attempts made. The [break] on a context that ends
    during the wait leaves the [select] only: the response is replaced by the handler's. *)
Fixpoint attempts (left : nat) (attempt : Z) : Response * list Z :=
  let waited := if (0 <? attempt) && done_waiting attempt then Some (mkResponse false true) else None in
  let resp := handler attempt in
  if resp_Success resp then (resp, [attempt])
  else if ctx_err attempt then (resp, [attempt])
  else match left with
       | O => (resp, [attempt])
       | S left' => let '(r, as_) := attempts left' (attempt + 1) in (r, attempt :: as_)
       end.

(** [None]: without an attempt the response is nil, and reading it panics. *)
Definition processRequest (wp : WorkerPool) : option (Response * WorkerPool) :=
  if MaxRetries <? 0 then None
  else
    let resp := fst (attempts (Z.to_nat MaxRetries) 0) in
    Some (resp,
          if resp_Success resp
          then mkWP (active wp) (i64 (total wp + 1)) (i64 (success wp + 1)) (failed wp)
          else mkWP (active wp) (i64 (total wp + 1)) (success wp) (i64 (failed wp + 1))).

Lemma attempts_spec left a : let '(r, as_) := attempts left a in
  exists n : nat, (n <= left)%nat /\ as_ = seqZ a (Z.of_nat n + 1) /\ r = handler (a + Z.of_nat n) /\
    (forall i, a <= i < a + Z.of_nat n -> resp_Success (handler i) = false /\ ctx_err i = false) /\
    (resp_Success r = true \/ ctx_err (a + Z.of_nat n) = true \/ n = left).
Proof.
  revert a. induction left as [|left IH]; intros a; cbn [attempts].
  all: destruct (resp_Success (handler a)) eqn:Hs;
    [exists 0%nat; rewrite Z.add_0_r; split_and!; [lia | done | done | lia | by left]|].
  all: destruct (ctx_err a) eqn:Hc;
    [exists 0%nat; rewrite Z.add_0_r; split_and!; [lia | done | done | lia | by right; left]|].
  - exists 0%nat. rewrite Z.add_0_r. split_and!; [lia | done | done | lia | by right; right].
  - specialize (IH (a + 1)). destruct (attempts left (a + 1)) as [r as_].
    destruct IH as (n & Hn & -> & Hr & Hfail & Hend). exists (S n).
    replace (a + Z.of_nat (S n)) with (a + 1 + Z.of_nat n) by lia. split_and!; [lia| |done| |].
    + rewrite (seqZ_cons a) by lia. f_equal. f_equal; lia.
    + intros i Hi. destruct (decide (i = a)) as [->|]; [done | apply Hfail; lia].
    + destruct Hend as [?|[?| ->]]; auto.
Qed.

(** C21: a worker calls the handler for the attempts 0, 1, ... up to the first that succeeds
    or after which the context has ended, at most [MaxRetries] + 1 times, answers with its
    last result and counts it once; that the context ended during the wait before an
    attempt does not stop that attempt. *)
Theorem processRequest_attempts wp (Hmax : 0 <= MaxRetries) :
  let '(r, as_) := attempts (Z.to_nat MaxRetries) 0 in
  (exists n, 0 <= n <= MaxRetries /\ as_ = seqZ 0 (n + 1) /\ r = handler n /\
    (forall i, 0 <= i < n -> resp_Success (handler i) = false /\ ctx_err i = false) /\
    (resp_Success r = true \/ ctx_err n = true \/ n = MaxRetries)) /\
  exists wp', processRequest wp = Some (r, wp') /\ total wp' = i64 (total wp + 1) /\
    (resp_Success r = true -> success wp' = i64 (success wp + 1) /\ failed wp' = failed wp) /\
    (resp_Success r = false -> failed wp' = i64 (failed wp + 1) /\ success wp' = success wp).
Proof.
  pose proof (attempts_spec (Z.to_nat MaxRetries) 0) as Hspec. unfold processRequest.
  destruct (Z.ltb_spec MaxRetries 0); [lia|].
  destruct (attempts (Z.to_nat MaxRetries) 0) as [r as_]. cbn [fst].
  destruct Hspec as (n & Hn & -> & Hr & Hfail & Hend). split.
  - exists (Z.of_nat n). split_and!; [lia | lia | done | done | |].
    + intros i Hi. apply Hfail. lia.
    + destruct Hend as [?|[?| ->]]; [by left | by right; left | right; right; lia].
  - eexists. split; [reflexivity|]. destruct (resp_Success r); done.
Qed.
End Worker.

(** * Witnesses *)

Definition default_limits : CircuitBreakerConfig := mkCBConfig 5 30 3.

Lemma default_cb_limits : cb_limits default_limits.
Proof. unfold cb_limits. cbn. lia. Qed.

Lemma breaker_transitions_witness :
  cb_state (foldl (flip (RecordFailure default_limits))
    (RecordSuccess default_limits 1 (NewCircuitBreaker 0)) [1; 2; 3; 4; 5]) = CircuitOpen.
Proof.
  apply (breaker_transitions default_limits [] 0 1 [1; 2; 3; 4; 5] default_cb_limits);
    reflexivity.
Defined.

Lemma breaker_refuses_witness :
  fst (Allow default_limits 20 (cb_run default_limits (EvFailure <$> [1; 2; 3; 4; 5])
    (NewCircuitBreaker 0))) = false.
Proof.
  apply (breaker_refuses default_limits (EvFailure <$> [1; 2; 3; 4; 5]) 0 20 default_cb_limits).
  split; [reflexivity | vm_compute; discriminate].
Defined.

(** The third attempt succeeds, and the context ends in the wait before it. *)
Definition third (a : Z) : Response := mkResponse (a =? 2) false.
Definition at_third (a : Z) : bool := a =? 2.

Lemma processRequest_attempts_witness : exists wp',
  processRequest 3 third at_third at_third (mkWP 0 0 0 0)
    = Some (mkResponse true false, wp') /\ success wp' = 1 /\ failed wp' = 0.
Proof.
  pose proof (processRequest_attempts 3 third at_third at_third (mkWP 0 0 0 0)
    ltac:(lia)) as H.
  change (attempts third at_third at_third (Z.to_nat 3) 0)
    with (mkResponse true false, [0; 1; 2]) in H.
  destruct H as (_ & wp' & Hp & _ & Hs & _). exists wp'. split; [exact Hp|]. apply Hs. reflexivity.
Defined.
