(* ===== verification/Json.v ===== *)
(** Json: the texts in which the storage keeps records.

    Many records are stored as JSON. This file models what the code uses of Go's
    encoding/json and encoding/base64: the text [json.Marshal] prints for a value, the
    scanner of [json.Unmarshal], strings with their escapes, and the fields of a struct,
    which are matched by name without regard to case. [JSON] is the interface through which
    the storage sees the codec of a record; a codec is made of the codecs of its fields.
    Also the readers of texts that [String] and [Hex] methods print: [big.Int.SetString]
    and [common.HexToAddress]. *)
From S2P Require Import Prelude Eth.

(** * The interface *)

(** The codec of a record. [json_valid] holds of the values a Go variable of the type
    can have whose texts are ASCII. *)
Class JSON (A : Type) := {
  json_Marshal : A -> res bytes;
  json_Unmarshal : bytes -> res A;
  json_valid : A -> Prop;
}.

Class JSONLaws (A : Type) {J : JSON A} : Prop := {
  json_nonempty : forall a b, json_Marshal a = Ok b -> b <> [];
  json_roundtrip : forall a b, json_valid a -> json_Marshal a = Ok b -> json_Unmarshal b = Ok a;
}.
Arguments JSONLaws A J : clear implicits.
#[global] Arguments json_Marshal : simpl never.
#[global] Arguments json_Unmarshal : simpl never.

(** The text of a value that [Marshal] accepts. *)
Definition marshaled {A} {J : JSON A} (a : A) : bytes :=
  match json_Marshal a with Ok b => b | Err _ => [] end.

Lemma marshaled_eq {A} {J : JSON A} (a : A) b : json_Marshal a = Ok b -> b = marshaled a.
Proof. unfold marshaled. by intros ->. Qed.

(** * Values and their texts *)

(** A number is kept as its text, like [json.Number]. *)
#[warnings="-register-all"]
Inductive json : Type :=
| JNull
| JBool (b : bool)
| JNum (s : bytes)
| JStr (s : bytes)
| JArr (l : list json)
| JObj (l : list (bytes * json)).

Definition quotation : ascii := byte_of 34.
Definition backslash : ascii := byte_of 92.

(** How many bytes the UTF-8 sequence at the start of [s] has; 0 when there is none. *)
Definition in_bytes (lo hi : Z) (c : ascii) : bool := (lo <=? byte_val c) && (byte_val c <=? hi).
Definition cont : ascii -> bool := in_bytes 128 191.

Definition second_ok (c d : ascii) : bool :=
  let v := byte_val c in
  if v =? 224 then in_bytes 160 191 d
  else if v =? 237 then in_bytes 128 159 d
  else if v =? 240 then in_bytes 144 191 d
  else if v =? 244 then in_bytes 128 143 d
  else cont d.

Definition utf8_len (s : bytes) : nat :=
  match s with
  | c :: d :: r =>
      if in_bytes 194 223 c && cont d then 2
      else match r with
           | e :: r' =>
               if in_bytes 224 239 c && second_ok c d && cont e then 3
               else match r' with
                    | f :: _ =>
                        if in_bytes 240 244 c && second_ok c d && cont e && cont f then 4 else 0
                    | [] => 0
                    end
           | [] => 0
           end
  | _ => 0
  end%nat.

(** The character U+FFFD, which replaces what is not UTF-8. *)
Definition replacement : bytes := [byte_of 239; byte_of 191; byte_of 189].

(** A character below 128 inside a string; [Marshal] also escapes <, > and &. *)
Definition escape (c : ascii) : bytes :=
  let v := byte_val c in
  if (v =? 34) || (v =? 92) then [backslash; c]
  else if v =? 8 then lit "\b" else if v =? 12 then lit "\f"
  else if v =? 10 then lit "\n" else if v =? 13 then lit "\r" else if v =? 9 then lit "\t"
  else if (v <? 32) || (v =? 60) || (v =? 62) || (v =? 38)
       then lit "\u00" ++ fixed_digits 16 2 v
  else [c].

Fixpoint quote_body (s : bytes) : bytes :=
  match s with
  | [] => []
  | c :: r =>
      if byte_val c <? 128 then escape c ++ quote_body r
      else match utf8_len s, r with
           | 2%nat, d :: r2 => c :: d :: quote_body r2
           | 3%nat, d :: e :: r3 =>
               (if (byte_val c =? 226) && (byte_val d =? 128) && in_bytes 168 169 e
                then lit "\u202" ++ fixed_digits 16 1 (byte_val e - 160) else [c; d; e])
               ++ quote_body r3
           | 4%nat, d :: e :: f :: r4 => c :: d :: e :: f :: quote_body r4
           | _, _ => lit "\ufffd" ++ quote_body r
           end
  end.

Definition quote (s : bytes) : bytes := quotation :: quote_body s ++ [quotation].

(** The elements with commas between them. *)
Fixpoint commas (l : list bytes) : bytes :=
  match l with
  | [] => []
  | [x] => x
  | x :: l' => x ++ lit "," ++ commas l'
  end.

Fixpoint print (v : json) : bytes :=
  match v with
  | JNull => lit "null"
  | JBool b => if b then lit "true" else lit "false"
  | JNum s => s
  | JStr s => quote s
  | JArr l => lit "[" ++ commas (map print l) ++ lit "]"
  | JObj l => lit "{" ++ commas (map (fun kv => quote (fst kv) ++ lit ":" ++ print (snd kv)) l) ++ lit "}"
  end.

(** * Reading *)

Definition is_ws (c : ascii) : bool := bool_decide (byte_val c ∈ [32; 9; 13; 10]).

Fixpoint skip_ws (s : bytes) : bytes :=
  match s with c :: r => if is_ws c then skip_ws r else s | [] => [] end.

Definition is_dec (c : ascii) : bool := in_bytes 48 57 c.

Definition hex_val (c : ascii) : option Z :=
  if is_dec c then Some (byte_val c - 48)
  else if in_bytes 97 102 c then Some (byte_val c - 87)
  else if in_bytes 65 70 c then Some (byte_val c - 55)
  else None.

Definition hex4 (a b c d : ascii) : option Z :=
  w ← hex_val a; x ← hex_val b; y ← hex_val c; z ← hex_val d;
  Some (w * 4096 + x * 256 + y * 16 + z).

(** [utf8.AppendRune]: surrogates are not characters. *)
Definition encode_rune (n : Z) : bytes :=
  if n <? 128 then [byte_of n]
  else if n <? 2048 then [byte_of (192 + n / 64); byte_of (128 + n mod 64)]
  else if (55296 <=? n) && (n <=? 57343) then replacement
  else if n <? 65536 then
    [byte_of (224 + n / 4096); byte_of (128 + n / 64 mod 64); byte_of (128 + n mod 64)]
  else [byte_of (240 + n / 262144); byte_of (128 + n / 4096 mod 64);
        byte_of (128 + n / 64 mod 64); byte_of (128 + n mod 64)].

Definition simple_escape (c : ascii) : option ascii :=
  let v := byte_val c in
  if (v =? 34) || (v =? 92) || (v =? 47) then Some c
  else if v =? 98 then Some (byte_of 8) else if v =? 102 then Some (byte_of 12)
  else if v =? 110 then Some (byte_of 10) else if v =? 114 then Some (byte_of 13)
  else if v =? 116 then Some (byte_of 9) else None.

Definition high_surrogate (n : Z) : bool := (55296 <=? n) && (n <? 56320).
Definition low_surrogate (n : Z) : bool := (56320 <=? n) && (n <=? 57343).

(** After a backslash and a u: the code unit, or two of them that make one character. *)
Definition unicode_escape (s : bytes) : option (bytes * bytes) :=
  match s with
  | h1 :: h2 :: h3 :: h4 :: r =>
      n ← hex4 h1 h2 h3 h4;
      let alone := Some (encode_rune n, r) in
      match r with
      | b :: u :: l1 :: l2 :: l3 :: l4 :: r' =>
          if high_surrogate n && (byte_val b =? 92) && (byte_val u =? 117) then
            m ← hex4 l1 l2 l3 l4;
            if low_surrogate m
            then Some (encode_rune (65536 + (n - 55296) * 1024 + (m - 56320)), r') else alone
          else alone
      | _ => alone
      end
  | _ => None
  end.

(** One character of a string and the rest, without a character at the closing mark. *)
Definition string_char (s : bytes) : option (option bytes * bytes) :=
  match s with
  | [] => None
  | c :: r =>
      let v := byte_val c in
      if v =? 34 then Some (None, r)
      else if v =? 92 then
        match r with
        | [] => None
        | e :: r1 =>
            if byte_val e =? 117 then '(x, r2) ← unicode_escape r1; Some (Some x, r2)
            else x ← simple_escape e; Some (Some [x], r1)
        end
      else if v <? 32 then None
      else if v <? 128 then Some (Some [c], r)
      else match utf8_len s with
           | O => Some (Some replacement, r)
           | n => Some (Some (take n s), drop n s)
           end
  end.

(** The characters up to the closing quotation mark, and the rest; every round reads at
    least one. *)
Fixpoint string_loop (fuel : nat) (s : bytes) : option (bytes * bytes) :=
  match fuel with
  | O => None
  | S fuel' =>
      '(o, r) ← string_char s;
      match o with
      | None => Some ([], r)
      | Some x => '(t, rest) ← string_loop fuel' r; Some (x ++ t, rest)
      end
  end.

Definition string_body (s : bytes) : option (bytes * bytes) := string_loop (length s) s.

Fixpoint span (p : ascii -> bool) (s : bytes) : bytes * bytes :=
  match s with
  | c :: r => if p c then let '(d, rest) := span p r in (c :: d, rest) else ([], s)
  | [] => ([], [])
  end.

(** A non-empty run of digits. *)
Definition digits1 (s : bytes) : option (bytes * bytes) :=
  match span is_dec s with ([], _) => None | dr => Some dr end.

Definition opt_sign (s : bytes) : bytes * bytes :=
  match s with
  | c :: r => if (byte_val c =? 43) || (byte_val c =? 45) then ([c], r) else ([], s)
  | [] => ([], [])
  end.

Definition scan_frac (s : bytes) : option (bytes * bytes) :=
  match s with
  | c :: r => if byte_val c =? 46 then '(d, rest) ← digits1 r; Some (c :: d, rest) else Some ([], s)
  | [] => Some ([], [])
  end.

Definition scan_exp (s : bytes) : option (bytes * bytes) :=
  match s with
  | c :: r =>
      if (byte_val c =? 101) || (byte_val c =? 69)
      then let '(sg, r1) := opt_sign r in '(d, rest) ← digits1 r1; Some (c :: sg ++ d, rest)
      else Some ([], s)
  | [] => Some ([], [])
  end.

(** The integer part: a zero, or digits that do not start with one. *)
Definition scan_int (s : bytes) : option (bytes * bytes) :=
  match s with
  | c :: r => if byte_val c =? 48 then Some ([c], r) else if is_dec c then Some (span is_dec s) else None
  | [] => None
  end.

Definition scan_number (s : bytes) : option (bytes * bytes) :=
  let '(sg, s1) := match s with
                   | c :: r => if byte_val c =? 45 then ([c], r) else ([], s)
                   | [] => ([], [])
                   end in
  '(i, s2) ← scan_int s1;
  '(f, s3) ← scan_frac s2;
  '(e, s4) ← scan_exp s3;
  Some (sg ++ i ++ f ++ e, s4).

Definition expect (c : ascii) (s : bytes) : option bytes :=
  match s with d :: r => if bool_decide (c = d) then Some r else None | [] => None end.

(** A value at the start of the text, its members and elements. *)
Fixpoint scan_value (fuel : nat) (s : bytes) : option (json * bytes) :=
  match fuel with
  | O => None
  | S fuel' =>
      match skip_ws s with
      | [] => None
      | c :: r =>
          if byte_val c =? 123 then
            match expect "}" (skip_ws r) with
            | Some rest => Some (JObj [], rest)
            | None => '(l, rest) ← scan_members fuel' r; Some (JObj l, rest)
            end
          else if byte_val c =? 91 then
            match expect "]" (skip_ws r) with
            | Some rest => Some (JArr [], rest)
            | None => '(l, rest) ← scan_elements fuel' r; Some (JArr l, rest)
            end
          else if byte_val c =? 34 then '(t, rest) ← string_body r; Some (JStr t, rest)
          else if HasPrefix (c :: r) (lit "true") then Some (JBool true, drop 4 (c :: r))
          else if HasPrefix (c :: r) (lit "false") then Some (JBool false, drop 5 (c :: r))
          else if HasPrefix (c :: r) (lit "null") then Some (JNull, drop 4 (c :: r))
          else '(t, rest) ← scan_number (c :: r); Some (JNum t, rest)
      end
  end
with scan_members (fuel : nat) (s : bytes) : option (list (bytes * json) * bytes) :=
  match fuel with
  | O => None
  | S fuel' =>
      s1 ← expect quotation (skip_ws s);
      '(k, s2) ← string_body s1;
      s3 ← expect ":" (skip_ws s2);
      '(v, s4) ← scan_value fuel' s3;
      let s5 := skip_ws s4 in
      match expect "," s5 with
      | Some s6 => '(l, rest) ← scan_members fuel' s6; Some ((k, v) :: l, rest)
      | None => rest ← expect "}" s5; Some ([(k, v)], rest)
      end
  end
with scan_elements (fuel : nat) (s : bytes) : option (list json * bytes) :=
  match fuel with
  | O => None
  | S fuel' =>
      '(v, s1) ← scan_value fuel' s;
      let s2 := skip_ws s1 in
      match expect "," s2 with
      | Some s3 => '(l, rest) ← scan_elements fuel' s3; Some (v :: l, rest)
      | None => rest ← expect "]" s2; Some ([v], rest)
      end
  end.

(** Every call reads a character or is followed by one that does: twice the length and
    one more is enough fuel. *)
Definition parse (s : bytes) : option json :=
  '(v, rest) ← scan_value (S (2 * length s)) s;
  match skip_ws rest with [] => Some v | _ => None end.

(** Texts of examples: an apostrophe stands for a quotation mark. *)
Definition text (s : string) : bytes :=
  map (fun c => if bool_decide (c = "'"%char) then quotation else c) (lit s).

Example parse_examples :
  parse (text "{ 'a': [1, -2.5e3, null], 'b\u0041' : 'x' }")
  = Some (JObj [(lit "a", JArr [JNum (lit "1"); JNum (lit "-2.5e3"); JNull]); (lit "bA", JStr (lit "x"))])
  /\ parse (lit "01") = None /\ parse (lit "[1,]") = None.
Proof. vm_compute. auto. Qed.

(** * Reading back what is printed *)

Definition ascii_text (s : bytes) : Prop := Forall (fun c => byte_val c < 128) s.

(** Values whose numbers are integers and whose strings are ASCII. *)
Fixpoint json_wf (v : json) : Prop :=
  match v with
  | JNum s => exists z, s = fmt_d z
  | JStr s => ascii_text s
  | JArr l => fold_right (fun v P => json_wf v /\ P) True l
  | JObj l => fold_right (fun kv P => (ascii_text (fst kv) /\ json_wf (snd kv)) /\ P) True l
  | _ => True
  end.

Section JsonInd.
Context (Q : json -> Prop).
Context (Hnull : Q JNull) (Hbool : forall b, Q (JBool b)) (Hnum : forall s, Q (JNum s))
  (Hstr : forall s, Q (JStr s)) (Harr : forall l, Forall Q l -> Q (JArr l))
  (Hobj : forall l, Forall (fun kv => Q (snd kv)) l -> Q (JObj l)).

(** Induction with the hypothesis for every element and member. *)
Fixpoint json_induction (v : json) : Q v :=
  match v with
  | JNull => Hnull
  | JBool b => Hbool b
  | JNum s => Hnum s
  | JStr s => Hstr s
  | JArr l => Harr l ((fix go l := match l return Forall Q l with
      | [] => Forall_nil_2 _ | x :: l' => Forall_cons_2 _ _ _ (json_induction x) (go l') end) l)
  | JObj l => Hobj l ((fix go l := match l return Forall (fun kv => Q (snd kv)) l with
      | [] => Forall_nil_2 _ | x :: l' => Forall_cons_2 _ _ _ (json_induction (snd x)) (go l') end) l)
  end.
End JsonInd.

(** ** Strings *)

Lemma hex_val_digit d : 0 <= d < 16 -> hex_val (digit d) = Some d.
Proof.
  intros Hd. unfold hex_val, is_dec, in_bytes. rewrite byte_val_digit by lia.
  destruct (Z.ltb_spec d 10).
  - replace ((48 <=? 48 + d) && (48 + d <=? 57)) with true by lia. f_equal. lia.
  - replace ((48 <=? 87 + d) && (87 + d <=? 57)) with false by lia.
    replace ((97 <=? 87 + d) && (87 + d <=? 102)) with true by lia. f_equal. lia.
Qed.

(** The escape by code point. *)
Lemma unicode_escape_ascii c t : byte_val c < 128 ->
  unicode_escape (lit "00" ++ fixed_digits 16 2 (byte_val c) ++ t) = Some ([c], t).
Proof.
  intros Hc. pose proof (byte_val_range c). cbn [fixed_digits app lit list_ascii_of_string].
  unfold unicode_escape.
  assert (Hh : hex4 "0" "0" (digit (byte_val c / 16 mod 16)) (digit (byte_val c mod 16)) = Some (byte_val c)).
  { unfold hex4. change (hex_val "0") with (Some 0). cbn [mbind option_bind].
    rewrite !hex_val_digit by (apply Z.mod_pos_bound; lia). cbn [mbind option_bind]. f_equal.
    rewrite (Z.mod_small (byte_val c / 16)) by (split; [apply Z.div_pos|apply Z.div_lt_upper_bound]; lia).
    pose proof (Z.div_mod (byte_val c) 16). lia. }
  rewrite Hh. cbn [mbind option_bind].
  assert (He : encode_rune (byte_val c) = [c]).
  { unfold encode_rune. replace (byte_val c <? 128) with true by lia. by rewrite byte_of_val. }
  rewrite He. replace (high_surrogate (byte_val c)) with false by (unfold high_surrogate; lia).
  cbn [andb]. by destruct t as [|? [|? [|? [|? [|? [|? ?]]]]]].
Qed.

Lemma string_char_short c e t : simple_escape e = Some c -> byte_val e <> 117 ->
  string_char (backslash :: e :: t) = Some (Some [c], t).
Proof.
  intros He Hu. unfold string_char. change (byte_val backslash) with 92. cbn [Z.eqb Pos.eqb].
  replace (byte_val e =? 117) with false by lia. by rewrite He.
Qed.

Lemma string_char_escape c t : byte_val c < 128 -> string_char (escape c ++ t) = Some (Some [c], t).
Proof.
  intros Hc. pose proof (byte_val_range c). unfold escape.
  destruct (Z.eqb_spec (byte_val c) 34) as [E|]; [apply string_char_short; [|lia];
    unfold simple_escape; by rewrite E|].
  destruct (Z.eqb_spec (byte_val c) 92) as [E|]; [apply string_char_short; [|lia];
    unfold simple_escape; by rewrite E|].
  cbn [orb].
  repeat match goal with |- context [if byte_val c =? ?n then _ else _] =>
    destruct (Z.eqb_spec (byte_val c) n) as [E|];
    [ replace c with (byte_of n) by (apply byte_val_inj; rewrite E; reflexivity);
      apply string_char_short; [reflexivity | vm_compute; discriminate] |] end.
  destruct ((byte_val c <? 32) || (byte_val c =? 60) || (byte_val c =? 62) || (byte_val c =? 38)) eqn:Hu.
  - rewrite <- app_assoc. pose proof (unicode_escape_ascii c t Hc) as Hun.
    cbn [lit list_ascii_of_string app] in *. unfold string_char.
    change (byte_val "\") with 92. change (byte_val "u") with 117. cbn [Z.eqb Pos.eqb].
    by rewrite Hun.
  - cbn [app]. unfold string_char.
    replace (byte_val c =? 34) with false by lia. replace (byte_val c =? 92) with false by lia.
    replace (byte_val c <? 32) with false by lia. by replace (byte_val c <? 128) with true by lia.
Qed.

Lemma escape_nonempty c : (1 <= length (escape c))%nat.
Proof. unfold escape. repeat case_match; cbn; lia. Qed.

Lemma string_body_quote s rest : ascii_text s ->
  string_body (quote_body s ++ quotation :: rest) = Some (s, rest).
Proof.
  intros Hs. unfold string_body.
  assert (Hgo : forall fuel, (length (quote_body s ++ quotation :: rest) <= fuel)%nat ->
    string_loop fuel (quote_body s ++ quotation :: rest) = Some (s, rest)); [|by apply Hgo].
  induction Hs as [|c s Hc Hs IH]; intros fuel Hf.
  { destruct fuel; [cbn in Hf; lia | reflexivity]. }
  cbn [quote_body] in *. destruct (Z.ltb_spec (byte_val c) 128); [|lia].
  rewrite <- app_assoc in *. rewrite length_app in Hf. pose proof (escape_nonempty c).
  destruct fuel as [|fuel]; [lia|]. cbn [string_loop]. rewrite string_char_escape by done.
  cbn [mbind option_bind]. rewrite IH by lia. reflexivity.
Qed.

(** ** Numbers *)

Definition stops (rest : bytes) : Prop :=
  match rest with [] => True | c :: _ => c ∈ lit ",]}" end.

Lemma span_digits d rest : Forall (is_digit_byte 10) d ->
  match rest with [] => True | c :: _ => is_dec c = false end -> span is_dec (d ++ rest) = (d, rest).
Proof.
  intros Hd Hr. induction Hd as [|c d (x & Hx & ->) Hd IH]; cbn [app span].
  { destruct rest as [|c r]; [done|]. cbn. by rewrite Hr. }
  assert (His : is_dec (digit x) = true).
  { unfold is_dec, in_bytes. rewrite byte_val_digit by lia. destruct (Z.ltb_spec x 10); lia. }
  by rewrite His, IH.
Qed.

(** The decimal text of a number has no leading zero. *)
Lemma fmt_nat_head z c r : 0 <= z -> fmt_nat 10 0 z = c :: r ->
  (z = 0 /\ c = digit 0 /\ r = []) \/ exists d, 1 <= d < 10 /\ c = digit d.
Proof.
  intros Hz. unfold fmt_nat. rewrite Nat.max_0_l. unfold ndigits.
  assert (Hgo : forall fuel z, 0 <= z -> z < 2 ^ Z.of_nat (S fuel) ->
    exists d s, fixed_digits 10 (ndigits_go fuel 10 z) z = digit d :: s /\
      (1 <= d < 10 \/ d = 0 /\ z = 0 /\ s = [])).
  { clear. induction fuel as [|fuel IH]; intros z Hz Hlt.
    - change (2 ^ Z.of_nat 1) with 2 in Hlt. cbn [ndigits_go fixed_digits app].
      exists (z mod 10), []. rewrite Z.mod_small by lia.
        split; [done|]. destruct (decide (z = 0)); [by right | left; lia].
    - cbn [ndigits_go]. destruct (Z.ltb_spec z 10).
      + cbn [fixed_digits app]. exists (z mod 10), []. rewrite Z.mod_small by lia.
        split; [done|]. destruct (decide (z = 0)); [by right | left; lia].
      + destruct (IH (z / 10)) as (d & s & Heq & Hd).
        * apply Z.div_pos; lia.
        * apply Z.div_lt_upper_bound; [lia|]. rewrite Nat2Z.inj_succ, Z.pow_succ_r in Hlt by lia. lia.
        * cbn [fixed_digits]. rewrite Heq. exists d, (s ++ [digit (z mod 10)]). split; [done|].
          left. destruct Hd as [?|(_ & Hd & _)]; [done|]. exfalso.
          pose proof (Z.div_str_pos z 10). lia. }
  intros Heq. destruct (Hgo (Z.to_nat (Z.log2 z)) z Hz) as (d & s & Hf & Hd).
  { rewrite Nat2Z.inj_succ, Z2Nat.id by apply Z.log2_nonneg.
    destruct (decide (z = 0)) as [->|]; [done|]. apply Z.log2_spec. lia. }
  rewrite Hf in Heq. injection Heq as <- <-. destruct Hd as [?|(-> & -> & ->)]; [right; eauto|by left].
Qed.

Lemma fmt_nat_digit z c r : 0 <= z -> fmt_nat 10 0 z = c :: r -> exists d, 0 <= d < 10 /\ c = digit d.
Proof.
  intros Hz Heq. destruct (fmt_nat_head z c r Hz Heq) as [(_ & -> & _)|(d & Hd & ->)].
  - by exists 0.
  - exists d. split; [lia|done].
Qed.

Lemma digit_dec x : 0 <= x < 10 -> is_dec (digit x) = true /\ byte_val (digit x) = 48 + x.
Proof.
  intros Hx. assert (Hv : byte_val (digit x) = 48 + x).
  { rewrite byte_val_digit by lia. destruct (Z.ltb_spec x 10); lia. }
  split; [|done]. unfold is_dec, in_bytes. rewrite Hv. lia.
Qed.

Lemma stops_head rest : stops rest -> match rest with
  | [] => True
  | c :: _ => is_dec c = false /\ byte_val c <> 46 /\ byte_val c <> 101 /\ byte_val c <> 69
  end.
Proof.
  destruct rest as [|c r]; [done|]. cbn. intros Hc.
  repeat (apply elem_of_cons in Hc as [->|Hc]; [by vm_compute|]). by apply not_elem_of_nil in Hc.
Qed.

Lemma scan_int_fmt z rest : 0 <= z -> stops rest ->
  scan_int (fmt_nat 10 0 z ++ rest) = Some (fmt_nat 10 0 z, rest).
Proof.
  intros Hz Hr%stops_head. pose proof (fmt_nat_chars 10 0 z good_base_10) as Hc.
  destruct (fmt_nat 10 0 z) as [|c r] eqn:Heq; [by apply fmt_nat_nonempty in Heq|].
  unfold scan_int. cbn [app]. destruct (fmt_nat_head z c r Hz Heq) as [(-> & -> & ->)|(d & Hd & ->)].
  - reflexivity.
  - destruct (digit_dec d) as [Hdec Hv]; [lia|]. rewrite Hv, Hdec.
    replace (48 + d =? 48) with false by lia. change (digit d :: r ++ rest) with ((digit d :: r) ++ rest).
    rewrite span_digits; [done|done|]. destruct rest; [done|]. apply Hr.
Qed.

Lemma scan_number_fmt z rest : stops rest -> scan_number (fmt_d z ++ rest) = Some (fmt_d z, rest).
Proof.
  intros Hr. pose proof (stops_head rest Hr) as Hh.
  assert (Hfrac : scan_frac rest = Some ([], rest)).
  { destruct rest as [|c r]; [done|]. cbn. destruct Hh as (_ & H1 & _).
    by replace (byte_val c =? 46) with false by lia. }
  assert (Hexp : scan_exp rest = Some ([], rest)).
  { destruct rest as [|c r]; [done|]. cbn. destruct Hh as (_ & _ & H1 & H2).
    replace (byte_val c =? 101) with false by lia. by replace (byte_val c =? 69) with false by lia. }
  unfold scan_number, fmt_d, fmt_int. destruct (Z.ltb_spec z 0).
  - cbn [app Nat.sub]. change (byte_val "-") with 45. cbn [Z.eqb Pos.eqb].
    rewrite scan_int_fmt by (done || lia). cbn [mbind option_bind].
    rewrite Hfrac. cbn [mbind option_bind]. rewrite Hexp. cbn [mbind option_bind].
    by rewrite !app_nil_r.
  - pose proof (scan_int_fmt z rest) as Hint.
    destruct (fmt_nat 10 0 z) as [|c r] eqn:Heq; [by apply fmt_nat_nonempty in Heq|].
    assert (Hc : byte_val c <> 45).
    { destruct (fmt_nat_digit z c r) as (d & Hd & ->); [done|done|].
      destruct (digit_dec d Hd) as [_ ->]. lia. }
    cbn [app] in *. replace (byte_val c =? 45) with false by lia.
    rewrite Hint by (done || lia). cbn [mbind option_bind].
    rewrite Hfrac. cbn [mbind option_bind]. rewrite Hexp. cbn [mbind option_bind].
    by rewrite !app_nil_r.
Qed.

(** ** Values *)

Lemma print_head v : json_wf v -> exists c r, print v = c :: r /\ is_ws c = false /\
  bool_decide ("]"%char = c) = false.
Proof.
  destruct v as [|[]|s|s|l|l]; cbn [json_wf print]; try (intros _; eexists _, _; by split_and!).
  intros [z ->]. unfold fmt_d, fmt_int. destruct (Z.ltb_spec z 0); [by eexists _, _|].
  destruct (fmt_nat 10 0 z) as [|c r] eqn:Heq; [by apply fmt_nat_nonempty in Heq|].
  exists c, r. split; [done|].
  destruct (fmt_nat_digit z c r) as (d & Hd & ->); [done|done|]. destruct (digit_dec d Hd) as [_ Hv]. split.
  - unfold is_ws. apply bool_decide_eq_false. rewrite Hv. set_unfold. lia.
  - apply bool_decide_eq_false. intros Heq'. rewrite <- Heq' in Hv. change (byte_val "]") with 93 in Hv. lia.
Qed.

Lemma skip_ws_print v rest : json_wf v -> skip_ws (print v ++ rest) = print v ++ rest.
Proof. intros Hv. destruct (print_head v Hv) as (c & r & -> & Hc & _). cbn. by rewrite Hc. Qed.

Lemma stops_ws rest : stops rest -> skip_ws rest = rest.
Proof.
  destruct rest as [|c r]; [done|]. cbn. intros Hc.
  repeat (apply elem_of_cons in Hc as [->|Hc]; [done|]). by apply not_elem_of_nil in Hc.
Qed.

(** A value reads back with enough fuel, wherever it stands. *)
Definition reads_back (v : json) : Prop := forall rest fuel, json_wf v -> stops rest ->
  (2 * length (print v) < fuel)%nat -> scan_value fuel (print v ++ rest) = Some (v, rest).

Lemma commas_cons x y l : commas (x :: y :: l) = x ++ lit "," ++ commas (y :: l).
Proof. reflexivity. Qed.

Lemma scan_elements_print l rest fuel : l <> [] -> Forall reads_back l -> Forall json_wf l ->
  (2 * length (commas (map print l)) + 1 < fuel)%nat ->
  scan_elements fuel (commas (map print l) ++ "]"%char :: rest) = Some (l, rest).
Proof.
  intros Hne Hl Hwf. revert Hne fuel. induction Hl as [|v l Hv Hl IH]; [done|].
  apply Forall_cons in Hwf as [Hwv Hwl]. intros _ [|fuel] Hf; [lia|]. cbn [scan_elements].
  destruct l as [|w l].
  - cbn [map commas] in *. rewrite (Hv ("]"%char :: rest)); [|done|by vm_compute; right; left|lia].
    cbn [mbind option_bind]. reflexivity.
  - cbn [map] in *. rewrite commas_cons in *. rewrite <- !app_assoc.
    rewrite !length_app in Hf. cbn [length lit list_ascii_of_string] in Hf.
    rewrite Hv; [|done|by vm_compute; left|lia]. cbn [mbind option_bind app lit list_ascii_of_string].
    change (skip_ws (","%char :: ?x)) with (","%char :: x). cbn [expect].
    rewrite bool_decide_eq_true_2 by done. rewrite IH; [reflexivity|done|done|lia].
Qed.

Definition member (kv : bytes * json) : bytes := quote (fst kv) ++ lit ":" ++ print (snd kv).

Lemma scan_members_print l rest fuel : l <> [] -> Forall (fun kv => reads_back (snd kv)) l ->
  Forall (fun kv => ascii_text (fst kv) /\ json_wf (snd kv)) l ->
  (2 * length (commas (map member l)) + 1 < fuel)%nat ->
  scan_members fuel (commas (map member l) ++ "}"%char :: rest) = Some (l, rest).
Proof.
  intros Hne Hl Hwf. revert Hne fuel. induction Hl as [|[k v] l Hv Hl IH]; [done|].
  apply Forall_cons in Hwf as [[Hk Hwv] Hwl]. cbn [fst snd] in *. intros _ [|fuel] Hf; [lia|].
  cbn [scan_members].
  assert (Hkey : forall t, expect quotation (skip_ws (quote k ++ t)) = Some (quote_body k ++ quotation :: t)).
  { intros t. unfold quote. cbn [app]. rewrite <- app_assoc. reflexivity. }
  destruct l as [|w l].
  - cbn [map commas] in *. unfold member in *. cbn [fst snd] in *. rewrite <- !app_assoc, Hkey.
    rewrite !length_app in Hf.
    cbn [mbind option_bind]. rewrite string_body_quote by done. cbn [mbind option_bind].
    change (expect ":" (skip_ws (lit ":" ++ ?x))) with (Some x). cbn [mbind option_bind].
    rewrite (Hv ("}"%char :: rest)); [|done|by vm_compute; right; right; left|lia].
    cbn [mbind option_bind]. reflexivity.
  - cbn [map] in *. rewrite commas_cons in *. unfold member at 1 in Hf. unfold member at 1.
    cbn [fst snd] in *. rewrite <- !app_assoc, Hkey.
    rewrite !length_app in Hf. cbn [length lit list_ascii_of_string] in Hf.
    cbn [mbind option_bind]. rewrite string_body_quote by done. cbn [mbind option_bind].
    change (expect ":" (skip_ws (lit ":" ++ ?x))) with (Some x). cbn [mbind option_bind].
    rewrite Hv; [|done|by vm_compute; left|lia].
    cbn [mbind option_bind app lit list_ascii_of_string].
    change (skip_ws (","%char :: ?x)) with (","%char :: x). cbn [expect].
    rewrite bool_decide_eq_true_2 by done. rewrite IH; [reflexivity|done|done|lia].
Qed.

Lemma wf_arr l : json_wf (JArr l) -> Forall json_wf l.
Proof. cbn. induction l as [|v l IH]; [done|]. cbn. intros [? ?]. auto. Qed.

Lemma wf_obj l : json_wf (JObj l) -> Forall (fun kv => ascii_text (fst kv) /\ json_wf (snd kv)) l.
Proof. cbn. induction l as [|v l IH]; [done|]. cbn. intros [? ?]. auto. Qed.

Lemma value_reads_back v : reads_back v.
Proof.
  induction v as [|b|s|s|l IHl|l IHl] using json_induction; intros rest [|fuel] Hwf Hr Hf; try lia.
  - by destruct rest.
  - by destruct b, rest.
  - destruct Hwf as [z ->]. destruct (print_head (JNum (fmt_d z))) as (c & r & Heq & Hws & _); [by exists z|].
    cbn [print] in *. pose proof (scan_number_fmt z rest Hr) as Hnum.
    cbn [scan_value]. rewrite Heq in *. cbn [app skip_ws] in *. rewrite Hws.
    assert (Hd : byte_val c = 45 \/ exists d, 0 <= d < 10 /\ c = digit d).
    { unfold fmt_d, fmt_int in Heq. destruct (Z.ltb_spec z 0); [injection Heq as <- _; by left|right].
      by apply (fmt_nat_digit z c r). }
    assert (Hne : forall x, byte_val x <> 45 -> is_dec x = false -> c <> x).
    { intros x H1 H2 ->. destruct Hd as [?|(d & Hd & ->)]; [done|]. destruct (digit_dec d Hd). congruence. }
    assert (Hv : byte_val c = 45 \/ 48 <= byte_val c < 58).
    { destruct Hd as [?|(d & Hd & ->)]; [by left|right]. destruct (digit_dec d Hd) as [_ ->]. lia. }
    replace (byte_val c =? 123) with false by lia. replace (byte_val c =? 91) with false by lia.
    replace (byte_val c =? 34) with false by lia. cbn [HasPrefix lit list_ascii_of_string].
    rewrite !bool_decide_eq_false_2 by (apply not_eq_sym, Hne; [by vm_compute|done]). cbn [andb].
    rewrite Hnum. reflexivity.
  - cbn [print scan_value]. unfold quote. cbn [app skip_ws]. change (is_ws quotation) with false. cbn [byte_val].
    change (byte_val quotation) with 34. cbn [Z.eqb Pos.eqb]. rewrite <- app_assoc. cbn [app].
    by rewrite string_body_quote.
  - cbn [print] in *. rewrite !length_app in Hf. cbn [length lit list_ascii_of_string] in Hf.
    cbn [lit list_ascii_of_string app]. rewrite <- app_assoc. cbn [app].
    apply wf_arr in Hwf. destruct l as [|v l]; [reflexivity|].
    cbn [scan_value skip_ws]. change (is_ws "[") with false. change (byte_val "[") with 91.
    cbn [Z.eqb Pos.eqb].
    assert (Hx : expect "]" (skip_ws (commas (map print (v :: l)) ++ "]"%char :: rest)) = None).
    { apply Forall_cons in Hwf as [Hv _]. destruct (print_head v Hv) as (c & r & Hp & Hws & Hc).
      assert (Hcm : exists t, commas (map print (v :: l)) = c :: t).
      { cbn [map commas]. rewrite Hp. destruct (map print l); eexists; reflexivity. }
      destruct Hcm as [t ->]. cbn [app skip_ws]. rewrite Hws. cbn [expect]. by rewrite Hc. }
    rewrite Hx, scan_elements_print; [reflexivity|done|done|done|lia].
  - cbn [print] in *. rewrite !length_app in Hf. cbn [length lit list_ascii_of_string] in Hf.
    cbn [lit list_ascii_of_string app]. rewrite <- app_assoc. cbn [app].
    change (map _ l) with (map member l) in *.
    apply wf_obj in Hwf. destruct l as [|[k v] l]; [reflexivity|].
    cbn [scan_value skip_ws]. change (is_ws "{") with false. change (byte_val "{") with 123.
    cbn [Z.eqb Pos.eqb].
    assert (Hx : expect "}" (skip_ws (commas (map member ((k, v) :: l)) ++ "}"%char :: rest)) = None).
    { assert (Hcm : exists t, commas (map member ((k, v) :: l)) = quotation :: t).
      { destruct l; eexists; reflexivity. }
      destruct Hcm as [t ->]. reflexivity. }
    rewrite Hx, scan_members_print; [reflexivity|done|done|done|lia].
Qed.

(** The scanner reads back what is printed. *)
Lemma parse_print v : json_wf v -> parse (print v) = Some v.
Proof.
  intros Hv. unfold parse. pose proof (value_reads_back v [] (S (2 * length (print v))) Hv I) as H.
  rewrite app_nil_r in H. rewrite H by lia. reflexivity.
Qed.
