(* ===== verification/JsonCodec.v ===== *)
(** JsonCodec: how Go values appear in JSON.

    A [codec] is how [json.Marshal] prints a value of a field and how [json.Unmarshal] reads
    it into the field, whose current value stays when the text says nothing. Structs are made
    of fields ([field_out], [field_in]). The codecs follow encoding/json and encoding/base64;
    those of addresses, hashes and big integers the [MarshalText] and [MarshalJSON] methods
    of their types. Times are printed by time.Time, an interface here. *)
From S2P Require Import Prelude Eth Json.

Record codec (A : Type) := mkCodec {
  c_enc : A -> json;
  c_dec : json -> A -> res A;
  c_zero : A;
  c_ok : A -> Prop;
}.
Arguments mkCodec {A}.
Arguments c_enc {A}.
Arguments c_dec {A}.
Arguments c_zero {A}.
Arguments c_ok {A}.

Definition codec_law {A} (c : codec A) : Prop :=
  forall a, c_ok c a -> json_wf (c_enc c a) /\ forall x, c_dec c (c_enc c a) x = Ok a.

(** [UnmarshalTypeError] and the errors of the types' own methods. *)
Definition ErrType : error := External 1.

(** * Numbers *)

(** An integer without fraction and exponent; [big.Int.SetString] with base 10 also takes
    a plus sign. *)
Fixpoint dec_val (n : Z) (s : bytes) : option Z :=
  match s with
  | [] => Some n
  | c :: r => if is_dec c then dec_val (n * 10 + (byte_val c - 48)) r else None
  end.

Definition parse_nat (s : bytes) : option Z := match s with [] => None | _ => dec_val 0 s end.

Definition parse_int (s : bytes) : option Z :=
  match s with
  | c :: r => if byte_val c =? 45 then Z.opp <$> parse_nat r else parse_nat s
  | [] => None
  end.

Definition SetString (s : bytes) : option Z :=
  match s with
  | c :: r => if byte_val c =? 43 then parse_nat r else parse_int s
  | [] => None
  end.

Lemma dec_val_digits s n : Forall (is_digit_byte 10) s ->
  dec_val n s = Some (fold_left (fun a c => a * 10 + digit_val c) s n).
Proof.
  intros Hs. revert n. induction Hs as [|c s (d & Hd & ->) Hs IH]; intros n; [done|].
  cbn [dec_val fold_left]. destruct (digit_dec d Hd) as [-> ->].
  rewrite digit_val_digit by lia. rewrite IH. do 3 f_equal. lia.
Qed.

Lemma parse_nat_fmt z : 0 <= z -> parse_nat (fmt_nat 10 0 z) = Some z.
Proof.
  intros Hz. pose proof (digits_val_fmt_nat 10 0 z good_base_10 Hz) as Hv. unfold digits_val in Hv.
  unfold parse_nat. destruct (fmt_nat 10 0 z) eqn:Heq; [by apply fmt_nat_nonempty in Heq|].
  rewrite <- Heq in *. rewrite dec_val_digits by apply fmt_nat_chars, good_base_10. by rewrite Hv.
Qed.

Lemma parse_int_fmt z : parse_int (fmt_d z) = Some z.
Proof.
  unfold fmt_d, fmt_int. destruct (Z.ltb_spec z 0).
  - cbn [parse_int Nat.sub]. change (byte_val "-" =? 45) with true.
    rewrite parse_nat_fmt by lia. cbn. f_equal. lia.
  - pose proof (parse_nat_fmt z) as Hp. unfold parse_int.
    destruct (fmt_nat 10 0 z) as [|c r] eqn:Heq; [by apply fmt_nat_nonempty in Heq|].
    destruct (fmt_nat_digit z c r) as (d & Hd & ->); [done|done|].
    destruct (digit_dec d Hd) as [_ ->]. replace (48 + d =? 45) with false by lia. by apply Hp.
Qed.

Lemma SetString_fmt z : SetString (fmt_d z) = Some z.
Proof.
  pose proof (parse_int_fmt z) as Hp. unfold SetString. unfold fmt_d, fmt_int in *.
  destruct (Z.ltb_spec z 0); [exact Hp|].
  destruct (fmt_nat 10 0 z) as [|c r] eqn:Heq; [done|].
  destruct (fmt_nat_digit z c r) as (d & Hd & ->); [done|done|].
  destruct (digit_dec d Hd) as [_ Hv]. rewrite Hv. by replace (48 + d =? 43) with false by lia.
Qed.

Definition in_width (lo hi : Z) (o : option Z) : res Z :=
  match o with Some z => if (lo <=? z) && (z <? hi) then Ok z else Err ErrType | None => Err ErrType end.

(** A number type that holds the integers from [lo] to below [hi]. Unsigned types refuse a
    minus sign, also that of -0. *)
Definition int_codec (signed : bool) (lo hi : Z) : codec Z := {|
  c_enc := fun z => JNum (fmt_d z);
  c_dec := fun v x => match v with
                      | JNull => Ok x
                      | JNum s => in_width lo hi (if signed then parse_int s else parse_nat s)
                      | _ => Err ErrType
                      end;
  c_zero := 0;
  c_ok := fun z => lo <= z < hi;
|}.

Definition c_uint64 : codec Z := int_codec false 0 two64.
Definition c_uint32 : codec Z := int_codec false 0 (2 ^ 32).
Definition c_uint8 : codec Z := int_codec false 0 (2 ^ 8).
Definition c_int : codec Z := int_codec true (- 2 ^ 63) (2 ^ 63).

Lemma int_codec_law signed lo hi : signed = true \/ 0 <= lo -> codec_law (int_codec signed lo hi).
Proof.
  intros Hs z Hz. cbn in *. split; [by exists z|]. intros _.
  assert (Hp : (if signed then parse_int (fmt_d z) else parse_nat (fmt_d z)) = Some z).
  { destruct signed; [apply parse_int_fmt|]. destruct Hs as [|Hs]; [done|].
    unfold fmt_d, fmt_int. destruct (Z.ltb_spec z 0); [lia|]. by apply parse_nat_fmt. }
  rewrite Hp. cbn. by replace ((lo <=? z) && (z <? hi)) with true by lia.
Qed.

(** * Strings, booleans, big integers *)

Definition c_string : codec bytes := {|
  c_enc := JStr;
  c_dec := fun v x => match v with JNull => Ok x | JStr s => Ok s | _ => Err ErrType end;
  c_zero := [];
  c_ok := ascii_text;
|}.

Definition c_bool : codec bool := {|
  c_enc := JBool;
  c_dec := fun v x => match v with JNull => Ok x | JBool b => Ok b | _ => Err ErrType end;
  c_zero := false;
  c_ok := fun _ => True;
|}.

(** A [*big.Int]: nil is printed as null. *)
Definition c_bigint : codec (option Z) := {|
  c_enc := fun o => match o with None => JNull | Some z => JNum (fmt_d z) end;
  c_dec := fun v _ => match v with
                      | JNull => Ok None
                      | JNum s => match parse_int s with Some z => Ok (Some z) | None => Err ErrType end
                      | _ => Err ErrType
                      end;
  c_zero := None;
  c_ok := fun _ => True;
|}.

Lemma c_string_law : codec_law c_string.
Proof. intros s Hs. by split. Qed.
Lemma c_bool_law : codec_law c_bool.
Proof. intros b _. by split. Qed.
Lemma c_bigint_law : codec_law c_bigint.
Proof.
  intros [z|] _; cbn; [|by split]. split; [by exists z|]. intros _. by rewrite parse_int_fmt.
Qed.

(** * Hexadecimal texts *)

(** [hex.DecodeString] keeps the bytes before an error. *)
Fixpoint hex_pairs (s : bytes) : bytes * bool :=
  match s with
  | [] => ([], true)
  | c :: d :: r =>
      match hex_val c, hex_val d with
      | Some x, Some y => let '(b, ok) := hex_pairs r in (byte_of (x * 16 + y) :: b, ok)
      | _, _ => ([], false)
      end
  | _ => ([], false)
  end.

Definition has_0x (s : bytes) : bool := HasPrefix s (lit "0x") || HasPrefix s (lit "0X").

(** [common.FromHex]: an odd number of digits gets a zero in front, errors are dropped. *)
Definition FromHex (s : bytes) : bytes :=
  let t := if has_0x s then drop 2 s else s in
  fst (hex_pairs (if Nat.even (length t) then t else "0"%char :: t)).

(** [SetBytes]: the last bytes, padded in front. *)
Definition array_right (n : nat) (s : bytes) : byte_array n :=
  let t := drop (length s - n) s in array_copy n (replicate (n - length t) zero ++ t).

Definition BytesToAddress (s : bytes) : Address := array_right 20 s.
Definition BytesToHash (s : bytes) : Hash := array_right 32 s.
Definition HexToAddress (s : bytes) : Address := BytesToAddress (FromHex s).
Definition HexToHash (s : bytes) : Hash := BytesToHash (FromHex s).

(** What the code relies on when it reads addresses back out of keys and records. *)
Class EthHexReads (E : EthHex) : Prop := {
  HexToAddress_Hex : forall a, HexToAddress (Address_Hex a) = a;
  HexToHash_Hex : forall h, HexToHash (Hash_Hex h) = h;
  Address_Hex_ascii : forall a, ascii_text (Address_Hex a);
  Hash_Hex_length : forall h, length (Hash_Hex h) = 66%nat;
}.

Lemma array_right_bytes n (a : byte_array n) : array_right n (`a) = a.
Proof.
  assert (Hl : length (`a) = n) by apply (proj2_dsig a).
  unfold array_right. replace (drop (length (`a) - n) (`a)) with (`a) by (by rewrite Hl, Nat.sub_diag).
  rewrite Hl, Nat.sub_diag. apply array_copy_bytes.
Qed.

Lemma BytesToAddress_bytes (a : Address) : BytesToAddress (`a) = a.
Proof. apply array_right_bytes. Qed.
Lemma BytesToHash_bytes (h : Hash) : BytesToHash (`h) = h.
Proof. apply array_right_bytes. Qed.

Definition hex_digits (s : bytes) : bytes := flat_map (fun c => fixed_digits 16 2 (byte_val c)) s.

Lemma hex_pairs_digits s : hex_pairs (hex_digits s) = (s, true).
Proof.
  induction s as [|c s IH]; [done|]. unfold hex_digits in *. cbn [flat_map].
  change (fixed_digits 16 2 (byte_val c)) with [digit (byte_val c / 16 mod 16); digit (byte_val c mod 16)].
  cbn [app hex_pairs]. pose proof (byte_val_range c).
  rewrite !hex_val_digit by (apply Z.mod_pos_bound; lia). rewrite IH. do 2 f_equal.
  apply byte_val_inj. rewrite byte_val_of.
  rewrite (Z.mod_small (byte_val c / 16)) by (split; [apply Z.div_pos|apply Z.div_lt_upper_bound]; lia).
  pose proof (Z.div_mod (byte_val c) 16). rewrite Z.mod_small; lia.
Qed.

Lemma length_hex_digits s : length (hex_digits s) = (2 * length s)%nat.
Proof. induction s as [|c s IH]; [done|]. unfold hex_digits in *. cbn [flat_map]. rewrite length_app, IH. cbn. lia. Qed.

Lemma hex_encode_digits s : hex_encode s = lit "0x" ++ hex_digits s.
Proof. reflexivity. Qed.

Lemma FromHex_encode s : FromHex (hex_encode s) = s.
Proof.
  unfold FromHex, has_0x. rewrite hex_encode_digits, HasPrefix_app. cbn [orb].
  change (drop 2 (lit "0x" ++ hex_digits s)) with (hex_digits s). cbv zeta. rewrite length_hex_digits, Nat.even_mul. cbn [Nat.even orb]. by rewrite hex_pairs_digits.
Qed.

Lemma hex_encode_ascii s : ascii_text (hex_encode s).
Proof.
  rewrite hex_encode_digits. unfold ascii_text. apply Forall_app. split; [repeat constructor; by vm_compute|].
  induction s as [|c s IH]; [constructor|]. unfold hex_digits in *. cbn [flat_map]. apply Forall_app. split; [|done].
  eapply Forall_impl; [by apply fixed_digits_chars, good_base_16|].
  intros x (d & Hd & ->). rewrite byte_val_digit by lia. destruct (Z.ltb_spec d 10); lia.
Qed.

#[export] Instance lower_hex_reads : EthHexReads lower_hex.
Proof.
  split.
  - intros a. change (Address_Hex a) with (hex_encode (`a)). unfold HexToAddress.
    rewrite FromHex_encode. apply BytesToAddress_bytes.
  - intros h. change (Hash_Hex h) with (hex_encode (`h)). unfold HexToHash.
    rewrite FromHex_encode. apply BytesToHash_bytes.
  - intros a. apply hex_encode_ascii.
  - intros h. change (Hash_Hex h) with (hex_encode (`h)).
    rewrite hex_encode_digits, length_app, length_hex_digits.
    by replace (length (`h)) with 32%nat by (symmetry; apply (proj2_dsig h)).
Qed.

(** [hexutil.UnmarshalFixedJSON]: a string of exactly the digits of the array. *)
Definition array_codec (n : nat) : codec (byte_array n) := {|
  c_enc := fun a => JStr (hex_encode (`a));
  c_dec := fun v _ => match v with
    | JStr s =>
        if has_0x s then
          match hex_pairs (drop 2 s) with
          | (b, true) => match decide (length b = n) with
                         | left p => Ok (dexist b p)
                         | right _ => Err ErrType
                         end
          | _ => Err ErrType
          end
        else Err ErrType
    | _ => Err ErrType
    end;
  c_zero := zero_array n;
  c_ok := fun _ => True;
|}.

Definition c_address : codec Address := array_codec 20.
Definition c_hash : codec Hash := array_codec 32.

Lemma array_codec_law n : codec_law (array_codec n).
Proof.
  intros a _. cbn [c_enc c_dec array_codec]. split; [apply hex_encode_ascii|]. intros _.
  unfold has_0x. rewrite hex_encode_digits, HasPrefix_app. cbn [orb].
  change (drop 2 (lit "0x" ++ hex_digits (`a))) with (hex_digits (`a)). rewrite hex_pairs_digits. destruct (decide (length (`a) = n)) as [p|p].
  - f_equal. by apply dsig_eq.
  - destruct p. apply (proj2_dsig a).
Qed.

(** A pointer, nil or to a value. *)
Definition ptr_codec {A} (c : codec A) : codec (option A) := {|
  c_enc := fun o => match o with None => JNull | Some a => c_enc c a end;
  c_dec := fun v _ => match v with JNull => Ok None | _ => Some <$> c_dec c v (c_zero c) end;
  c_zero := None;
  c_ok := fun o => match o with None => True | Some a => c_ok c a /\ c_enc c a <> JNull end;
|}.

Lemma ptr_codec_law {A} (c : codec A) : codec_law c -> codec_law (ptr_codec c).
Proof.
  intros Hc [a|] Ho; cbn in *; [|by split]. destruct Ho as [Ha Hn]. destruct (Hc a Ha) as [Hwf Hd].
  split; [done|]. intros _. rewrite Hd. by destruct (c_enc c a).
Qed.

(** * Base 64 *)

Definition b64_char (n : Z) : ascii :=
  byte_of (if n <? 26 then 65 + n else if n <? 52 then 71 + n else if n <? 62 then n - 4
           else if n =? 62 then 43 else 47).

Definition b64_val (c : ascii) : option Z :=
  let v := byte_val c in
  if in_bytes 65 90 c then Some (v - 65) else if in_bytes 97 122 c then Some (v - 71)
  else if in_bytes 48 57 c then Some (v + 4) else if v =? 43 then Some 62
  else if v =? 47 then Some 63 else None.

Fixpoint b64_encode (s : bytes) : bytes :=
  match s with
  | [] => []
  | [a] => let n := byte_val a * 16 in [b64_char (n / 64); b64_char (n mod 64)] ++ lit "=="
  | [a; b] => let n := (byte_val a * 256 + byte_val b) * 4 in
      [b64_char (n / 4096); b64_char (n / 64 mod 64); b64_char (n mod 64)] ++ lit "="
  | a :: b :: c :: r => let n := byte_val a * 65536 + byte_val b * 256 + byte_val c in
      [b64_char (n / 262144); b64_char (n / 4096 mod 64); b64_char (n / 64 mod 64); b64_char (n mod 64)]
      ++ b64_encode r
  end.

(** Groups of four; padding may only end the text. The bits behind the last byte are not
    looked at. *)
Fixpoint b64_groups (s : bytes) : option bytes :=
  match s with
  | [] => Some []
  | w :: x :: y :: z :: r =>
      a ← b64_val w; b ← b64_val x;
      if (byte_val y =? 61) && (byte_val z =? 61) && bool_decide (r = []) then
        Some [byte_of ((a * 64 + b) / 16)]
      else
        c ← b64_val y;
        if (byte_val z =? 61) && bool_decide (r = []) then
          let n := (a * 4096 + b * 64 + c) / 4 in Some [byte_of (n / 256); byte_of n]
        else
          d ← b64_val z; t ← b64_groups r;
          let n := a * 262144 + b * 4096 + c * 64 + d in
          Some (byte_of (n / 65536) :: byte_of (n / 256) :: byte_of n :: t)
  | _ => None
  end.

(** Line ends are skipped. *)
Definition b64_decode (s : bytes) : option bytes :=
  b64_groups (List.filter (fun c => negb ((byte_val c =? 10) || (byte_val c =? 13))) s).

Lemma b64_char_facts n : 0 <= n < 64 ->
  b64_val (b64_char n) = Some n /\ byte_val (b64_char n) <> 61 /\
  byte_val (b64_char n) <> 10 /\ byte_val (b64_char n) <> 13 /\ byte_val (b64_char n) < 128.
Proof.
  intros Hn. unfold b64_val, in_bytes.
  assert (Hv : byte_val (b64_char n) = if n <? 26 then 65 + n else if n <? 52 then 71 + n
    else if n <? 62 then n - 4 else if n =? 62 then 43 else 47).
  { unfold b64_char. rewrite byte_val_of. repeat case_match; rewrite Z.mod_small; lia. }
  rewrite Hv. destruct (Z.ltb_spec n 26); [|destruct (Z.ltb_spec n 52); [|destruct (Z.ltb_spec n 62);
    [|destruct (Z.eqb_spec n 62)]]].
  - replace ((65 <=? 65 + n) && (65 + n <=? 90)) with true by lia. split_and!; [f_equal|..]; lia.
  - replace ((65 <=? 71 + n) && (71 + n <=? 90)) with false by lia.
    replace ((97 <=? 71 + n) && (71 + n <=? 122)) with true by lia. split_and!; [f_equal|..]; lia.
  - replace ((65 <=? n - 4) && (n - 4 <=? 90)) with false by lia.
    replace ((97 <=? n - 4) && (n - 4 <=? 122)) with false by lia.
    replace ((48 <=? n - 4) && (n - 4 <=? 57)) with true by lia. split_and!; [f_equal|..]; lia.
  - subst. by vm_compute.
  - replace n with 63 by lia. by vm_compute.
Qed.

Lemma b64_groups_full w x y z r : 0 <= w < 64 -> 0 <= x < 64 -> 0 <= y < 64 -> 0 <= z < 64 ->
  b64_groups (b64_char w :: b64_char x :: b64_char y :: b64_char z :: r) =
  t ← b64_groups r;
  let n := w * 262144 + x * 4096 + y * 64 + z in
  Some (byte_of (n / 65536) :: byte_of (n / 256) :: byte_of n :: t).
Proof.
  intros Hw Hx Hy Hz. cbn [b64_groups].
  destruct (b64_char_facts w Hw) as (-> & _). destruct (b64_char_facts x Hx) as (-> & _).
  destruct (b64_char_facts y Hy) as (-> & Hny & _). destruct (b64_char_facts z Hz) as (-> & Hnz & _).
  cbn [mbind option_bind].
  replace (byte_val (b64_char y) =? 61) with false by lia.
  by replace (byte_val (b64_char z) =? 61) with false by lia.
Qed.

Lemma byte_of_eq n c : n mod 256 = byte_val c -> byte_of n = c.
Proof. intros Hn. apply byte_val_inj. by rewrite byte_val_of. Qed.

Lemma six_bits n : 0 <= n / 64 mod 64 < 64 /\ 0 <= n / 4096 mod 64 < 64 /\ 0 <= n mod 64 < 64.
Proof. split_and!; apply Z.mod_pos_bound; lia. Qed.

Lemma three_by_induction (Q : bytes -> Prop) : Q [] -> (forall a, Q [a]) -> (forall a b, Q [a; b]) ->
  (forall a b c r, Q r -> Q (a :: b :: c :: r)) -> forall s, Q s.
Proof.
  intros H0 H1 H2 H3. fix IH 1. intros [|a [|b [|c r]]]; [done | apply H1 | apply H2 | apply H3, IH].
Qed.

Lemma b64_groups_encode s : b64_groups (b64_encode s) = Some s.
Proof.
  induction s as [|a|a b|a b c r IH] using three_by_induction; cbn [b64_encode].
  - done.
  - pose proof (byte_val_range a). set (n := byte_val a * 16).
    cbn [app lit list_ascii_of_string b64_groups].
    destruct (b64_char_facts (n / 64)) as (-> & _); [split; [apply Z.div_pos|apply Z.div_lt_upper_bound]; lia|].
    destruct (b64_char_facts (n mod 64)) as (-> & _); [apply six_bits|]. cbn [mbind option_bind].
    change (byte_val "=" =? 61) with true. rewrite bool_decide_eq_true_2 by done. cbn [andb].
    do 2 f_equal. apply byte_of_eq.
    replace (n / 64 * 64 + n mod 64) with n by (pose proof (Z.div_mod n 64); lia).
    unfold n. rewrite Z.div_mul by lia. apply Z.mod_small. lia.
  - pose proof (byte_val_range a). pose proof (byte_val_range b).
    set (n := (byte_val a * 256 + byte_val b) * 4).
    cbn [app lit list_ascii_of_string b64_groups]. pose proof (six_bits n) as (H1 & H2 & H3).
    destruct (b64_char_facts (n / 4096)) as (-> & _); [split; [apply Z.div_pos|apply Z.div_lt_upper_bound]; lia|].
    destruct (b64_char_facts (n / 64 mod 64)) as (-> & _); [done|].
    destruct (b64_char_facts (n mod 64)) as (-> & Hne & _); [done|]. cbn [mbind option_bind].
    change (byte_val "=" =? 61) with true. rewrite bool_decide_eq_true_2 by done.
    replace (byte_val (b64_char (n mod 64)) =? 61) with false by lia. cbn [andb].
    replace (n / 4096 * 4096 + n / 64 mod 64 * 64 + n mod 64) with n.
    2: { pose proof (Z.div_mod n 64). pose proof (Z.div_mod (n / 64) 64).
         rewrite Z.div_div in * by lia. change (64 * 64) with 4096 in *. lia. }
    unfold n. rewrite Z.div_mul by lia. f_equal. f_equal; [|f_equal]; apply byte_of_eq.
    + rewrite Z.div_add_l by lia. rewrite (Z.div_small (byte_val b)), Z.add_0_r by lia. apply Z.mod_small. lia.
    + rewrite Z.add_comm, Z.mod_add by lia. apply Z.mod_small. lia.
  - pose proof (byte_val_range a). pose proof (byte_val_range b). pose proof (byte_val_range c).
    set (n := byte_val a * 65536 + byte_val b * 256 + byte_val c). cbn [app].
    pose proof (six_bits n) as (H2 & H3 & H4).
    rewrite b64_groups_full, IH;
      [|split; [apply Z.div_pos|apply Z.div_lt_upper_bound]; lia|done|done|done].
    cbn [mbind option_bind].
    replace (n / 262144 * 262144 + n / 4096 mod 64 * 4096 + n / 64 mod 64 * 64 + n mod 64) with n.
    2: { pose proof (Z.div_mod n 64). pose proof (Z.div_mod (n / 64) 64). pose proof (Z.div_mod (n / 4096) 64).
         rewrite !Z.div_div in * by lia. change (64 * 64) with 4096 in *. change (4096 * 64) with 262144 in *. lia. }
    f_equal. f_equal; [|f_equal; [|f_equal]]; apply byte_of_eq; unfold n.
    + replace (byte_val a * 65536 + byte_val b * 256 + byte_val c)
        with (byte_val a * 65536 + (byte_val b * 256 + byte_val c)) by lia.
      rewrite Z.div_add_l, (Z.div_small (_ + _)), Z.add_0_r by lia. apply Z.mod_small. lia.
    + replace (byte_val a * 65536 + byte_val b * 256 + byte_val c)
        with ((byte_val a * 256 + byte_val b) * 256 + byte_val c) by lia.
      rewrite Z.div_add_l, (Z.div_small (byte_val c)), Z.add_0_r, Z.add_comm, Z.mod_add by lia. apply Z.mod_small. lia.
    + replace (byte_val a * 65536 + byte_val b * 256 + byte_val c)
        with (byte_val c + (byte_val a * 256 + byte_val b) * 256) by lia.
      rewrite Z.mod_add by lia. apply Z.mod_small. lia.
Qed.

(** The characters of the encoding. *)
Definition b64_text (c : ascii) : Prop := byte_val c <> 10 /\ byte_val c <> 13 /\ byte_val c < 128.

Lemma b64_char_text n : 0 <= n < 64 -> b64_text (b64_char n).
Proof. intros Hn. destruct (b64_char_facts n Hn) as (_ & _ & ? & ? & ?). done. Qed.

Lemma b64_text_pad : b64_text "=".
Proof. by vm_compute. Qed.

Lemma b64_encode_text s : Forall b64_text (b64_encode s).
Proof.
  assert (Hm : forall n, b64_text (b64_char (n mod 64)))
    by (intros n; apply b64_char_text, Z.mod_pos_bound; lia).
  assert (Hd : forall n k, 0 <= n < k * 64 -> 0 < k -> b64_text (b64_char (n / k)))
    by (intros n k Hn Hk; apply b64_char_text; split; [apply Z.div_pos|apply Z.div_lt_upper_bound]; lia).
  induction s as [|a|a b|a b c r IH] using three_by_induction;
    cbn [b64_encode app lit list_ascii_of_string].
  - constructor.
  - pose proof (byte_val_range a).
    repeat apply Forall_cons_2; auto using b64_text_pad; try apply Hd; try lia; constructor.
  - pose proof (byte_val_range a). pose proof (byte_val_range b).
    repeat apply Forall_cons_2; auto using b64_text_pad; try apply Hd; try lia; constructor.
  - pose proof (byte_val_range a). pose proof (byte_val_range b). pose proof (byte_val_range c).
    repeat apply Forall_cons_2; auto; try apply Hd; lia.
Qed.

Lemma b64_decode_encode s : b64_decode (b64_encode s) = Some s.
Proof.
  unfold b64_decode. etransitivity; [|apply b64_groups_encode]. f_equal.
  induction (b64_encode_text s) as [|c l (H1 & H2 & _) _ IH]; [done|]. cbn.
  replace (byte_val c =? 10) with false by lia. replace (byte_val c =? 13) with false by lia.
  cbn. by rewrite IH.
Qed.

(** A [[]byte]: nil is printed as null. *)
Definition c_bytes : codec (option bytes) := {|
  c_enc := fun o => match o with None => JNull | Some s => JStr (b64_encode s) end;
  c_dec := fun v _ => match v with
    | JNull => Ok None
    | JStr s => match b64_decode s with Some b => Ok (Some b) | None => Err ErrType end
    | _ => Err ErrType
    end;
  c_zero := None;
  c_ok := fun _ => True;
|}.

Lemma c_bytes_law : codec_law c_bytes.
Proof.
  intros [s|] _; cbn; [|by split]. split; [|intros _; by rewrite b64_decode_encode].
  eapply Forall_impl; [apply b64_encode_text|]. by intros c (_ & _ & ?).
Qed.

(** * Times *)

(** [time.Time] and its text in JSON. *)
Class GoTime := {
  Time : Type;
  time_zero : Time;
  time_text : Time -> bytes;
  time_read : bytes -> res Time;
}.

Class GoTimeLaws (G : GoTime) : Prop := {
  time_ascii : forall t, ascii_text (time_text t);
  time_read_text : forall t, time_read (time_text t) = Ok t;
}.

Definition c_time {G : GoTime} : codec Time := {|
  c_enc := fun t => JStr (time_text t);
  c_dec := fun v x => match v with JNull => Ok x | JStr s => time_read s | _ => Err ErrType end;
  c_zero := time_zero;
  c_ok := fun _ => True;
|}.

Lemma c_time_law {G : GoTime} : GoTimeLaws G -> codec_law c_time.
Proof. intros HG t _. split; [apply time_ascii|]. intros x. apply time_read_text. Qed.

(** Seconds since the epoch, in decimal. *)
Definition unix_time : GoTime := {|
  Time := Z;
  time_zero := 0;
  time_text := fmt_d;
  time_read := fun s => match parse_int s with Some z => Ok z | None => Err ErrType end;
|}.

Lemma fmt_d_ascii z : ascii_text (fmt_d z).
Proof.
  assert (Hn : forall n, ascii_text (fmt_nat 10 0 n)).
  { intros n. eapply Forall_impl; [apply fmt_nat_chars, good_base_10|].
    intros c (d & Hd & ->). destruct (digit_dec d Hd) as [_ ->]. lia. }
  unfold fmt_d, fmt_int. destruct (z <? 0); [constructor; [by vm_compute|]|]; apply Hn.
Qed.

Lemma unix_time_laws : GoTimeLaws unix_time.
Proof. split; intros; cbn; [apply fmt_d_ascii | by rewrite parse_int_fmt]. Qed.

(** * Structs *)

(** A field as [Marshal] prints it; with omitempty an empty value is left out. *)
Definition field_out {A} (c : codec A) (name : string) (a : A) : list (bytes * json) :=
  [(lit name, c_enc c a)].

Definition field_omit {A} (c : codec A) (name : string) (empty : A -> bool) (a : A) : list (bytes * json) :=
  if empty a then [] else [(lit name, c_enc c a)].

(** Names are compared without regard to case. *)
Definition upper (c : ascii) : ascii := if in_bytes 97 122 c then byte_of (byte_val c - 32) else c.

Definition same_name (k : bytes) (name : string) : bool := bool_decide (map upper k = map upper (lit name)).

(** The members of an object update the field one after the other. *)
Fixpoint field_from {A} (c : codec A) (name : string) (fs : list (bytes * json)) (a : A) : res A :=
  match fs with
  | [] => Ok a
  | (k, v) :: fs' =>
      if same_name k name then a' ← c_dec c v a; field_from c name fs' a'
      else field_from c name fs' a
  end.

Definition field_in {A} (c : codec A) (name : string) (fs : list (bytes * json)) : res A :=
  field_from c name fs (c_zero c).

(** A codec of a struct, from its fields out and in; null leaves the zero value. *)
Definition struct_dec {A} (zero : A) (fields : list (bytes * json) -> res A) (v : json) : res A :=
  match v with JNull => Ok zero | JObj fs => fields fs | _ => Err ErrType end.

Definition struct_JSON {A} (zero : A) (out : A -> list (bytes * json))
  (fields : list (bytes * json) -> res A) (ok : A -> Prop) : JSON A := {|
  json_Marshal := fun a => Ok (print (JObj (out a)));
  json_Unmarshal := fun b => match parse b with Some v => struct_dec zero fields v | None => Err ErrSyntax end;
  json_valid := ok;
|}.

Definition members_wf (fs : list (bytes * json)) : Prop :=
  Forall (fun kv => ascii_text (fst kv) /\ json_wf (snd kv)) fs.

Lemma members_wf_obj fs : members_wf fs -> json_wf (JObj fs).
Proof. induction 1 as [|kv fs H _ IH]; cbn; [done|]. split; [done|exact IH]. Qed.

Lemma struct_JSON_laws {A} zero out fields (ok : A -> Prop) :
  (forall a, ok a -> members_wf (out a) /\ fields (out a) = Ok a) ->
  JSONLaws A (struct_JSON zero out fields ok).
Proof.
  intros H. split; unfold json_Marshal, json_Unmarshal, struct_JSON; cbn [json_valid]; intros a b.
  - intros [= <-]. discriminate.
  - intros Hok Hb. assert (b = print (JObj (out a))) as -> by congruence.
    destruct (H a Hok) as [Hwf Hf].
    rewrite parse_print by by apply members_wf_obj. exact Hf.
Qed.

Definition ascii_string (s : string) : bool := forallb (fun c => byte_val c <? 128) (lit s).

Lemma ascii_string_text s : ascii_string s = true -> ascii_text (lit s).
Proof.
  unfold ascii_string, ascii_text. rewrite forallb_forall. intros H. apply Forall_forall.
  intros c Hc. apply list_elem_of_In, H in Hc. lia.
Qed.

Lemma members_wf_field {A} (c : codec A) name a fs : codec_law c -> c_ok c a ->
  ascii_string name = true -> members_wf fs -> members_wf (field_out c name a ++ fs).
Proof.
  intros Hc Ha Hn Hfs. constructor; [|done]. cbn. split; [by apply ascii_string_text | by apply Hc].
Qed.

Lemma members_wf_omit {A} (c : codec A) name empty a fs : codec_law c -> c_ok c a ->
  ascii_string name = true -> members_wf fs -> members_wf (field_omit c name empty a ++ fs).
Proof.
  intros Hc Ha Hn Hfs. unfold field_omit. destruct (empty a); [done|].
  by apply (members_wf_field c name a fs).
Qed.

(** * Structs read back *)

Create HintDb json discriminated.

Lemma c_uint64_law : codec_law c_uint64.
Proof. apply int_codec_law. right. lia. Qed.
Lemma c_uint32_law : codec_law c_uint32.
Proof. apply int_codec_law. right. lia. Qed.
Lemma c_uint8_law : codec_law c_uint8.
Proof. apply int_codec_law. right. lia. Qed.
Lemma c_int_law : codec_law c_int.
Proof. apply int_codec_law. by left. Qed.
Lemma c_address_law : codec_law c_address.
Proof. apply array_codec_law. Qed.
Lemma c_hash_law : codec_law c_hash.
Proof. apply array_codec_law. Qed.

#[export] Hint Resolve c_uint64_law c_uint32_law c_uint8_law c_int_law c_address_law c_hash_law
  c_string_law c_bool_law c_bigint_law c_bytes_law c_time_law ptr_codec_law : json.

Lemma dec_enc {A} (c : codec A) a x : codec_law c -> c_ok c a -> c_dec c (c_enc c a) x = Ok a.
Proof. intros Hc Ha. by apply Hc. Qed.

Lemma members_wf_nil : members_wf [].
Proof. constructor. Qed.

(** The members of a struct are well formed. *)
Ltac json_members :=
  repeat rewrite <- app_assoc;
  repeat first [ apply members_wf_field; [by auto with json | by auto | reflexivity |]
               | apply members_wf_omit; [by auto with json | by auto | reflexivity |]
               | match goal with
                 | |- members_wf (field_out ?c ?n ?a) =>
                     rewrite <- (app_nil_r (field_out c n a))
                 | |- members_wf (field_omit ?c ?n ?e ?a) =>
                     rewrite <- (app_nil_r (field_omit c n e a))
                 end
               | apply members_wf_nil ].

(** The fields of a struct are found by their names and read back. *)
Ltac json_fields :=
  unfold field_in, field_out; cbn [app field_from];
  repeat match goal with |- context [same_name ?k ?n] =>
    let b := eval vm_compute in (same_name k n) in change (same_name k n) with b end;
  cbn iota beta;
  repeat match goal with |- context [c_dec ?c (c_enc ?c ?a) ?x] =>
    rewrite (dec_enc c a x) by (first [by auto with json | by auto]); cbn [mbind res_bind] end.
