(* ===== verification/Index.v ===== *)
(** Index: what the record stores of pkg/storage share.

    The files pebble_address_index.go, pebble_token_holder.go, pebble_userop.go,
    pebble_setcode.go and pebble_fee_delegation.go all work alike: a record is written with
    its index entries in one batch of the database, a query scans the entries of an index
    and fetches the records they name, a page at a time. Here are the batches without the
    counters of [pebbleBatch], the loops over index entries, and the theory of a table of
    records with its families of entries: [table_holds] says which database holds a set of
    records, saving a record adds it to the set, and scanning a family lists its records in
    the order of their keys. *)
From stdpp Require Import sorting.
From S2P Require Import Prelude Eth KV Chain Storage Batch PrefixOps StorageProps AddressIndex.

(** * Pagination (constants.go and pebble_userop.go) *)

Definition DefaultPaginationLimit : Z := 10.
Definition DefaultMaxPaginationLimit : Z := 100.

Definition normalize_limit (limit : Z) : Z :=
  let limit := if limit <=? 0 then DefaultPaginationLimit else limit in
  if DefaultMaxPaginationLimit <? limit then DefaultMaxPaginationLimit else limit.

Definition normalizePagination (limit offset : Z) : Z * Z :=
  (normalize_limit limit, if offset <? 0 then 0 else offset).

(** [all[start:end]] with the bounds the code computes. *)
Definition page {A} (offset limit : Z) (all : list A) : list A :=
  let len := Z.of_nat (length all) in
  if len <=? offset then []
  else
    let end_ := if len <? offset + limit then len else offset + limit in
    take (Z.to_nat (end_ - offset)) (drop (Z.to_nat offset) all).

Lemma page_slice {A} offset limit (all : list A) : 0 <= offset -> 0 <= limit ->
  page offset limit all = take (Z.to_nat limit) (drop (Z.to_nat offset) all).
Proof.
  intros Ho Hl. unfold page. destruct (Z.leb_spec (Z.of_nat (length all)) offset).
  - rewrite drop_ge by lia. by rewrite take_nil.
  - destruct (Z.ltb_spec (Z.of_nat (length all)) (offset + limit)).
    + rewrite !take_ge; [done|rewrite length_drop; lia..].
    + do 2 f_equal. lia.
Qed.

Lemma normalize_limit_range limit : 1 <= normalize_limit limit <= 100.
Proof.
  unfold normalize_limit, DefaultPaginationLimit, DefaultMaxPaginationLimit.
  destruct (Z.leb_spec limit 0); cbn; [lia|]. destruct (Z.ltb_spec 100 limit); lia.
Qed.

Lemma i64_range z : - 2 ^ 63 <= i64 z < 2 ^ 63.
Proof.
  unfold i64, two64. pose proof (Z.mod_pos_bound z (2 ^ 64)). destruct (Z.ltb_spec (z mod 2 ^ 64) (2 ^ 63)); lia.
Qed.

Lemma Split_slash_nonempty p : Split_slash p <> [].
Proof.
  destruct p as [|c p]; cbn; [done|]. case_bool_decide; [done|]. by destruct (Split_slash p).
Qed.

Lemma Split_slash_last p s : no_slash s -> Split_slash (p ++ slash :: s) = Split_slash p ++ [s].
Proof.
  intros Hs. induction p as [|c p IH]; cbn [app Split_slash].
  - rewrite bool_decide_eq_true_2 by done. by rewrite Split_slash_seg.
  - rewrite IH. case_bool_decide; [done|].
    destruct (Split_slash p) as [|x l] eqn:Hp; [|done]. by destruct (Split_slash_nonempty p).
Qed.

(** * Scans *)

Section Scans.
Context {E : EthHex} {P : Pebble}.

(** An iterator from a prefix to the prefix followed by 0xff. *)
Definition scan_prefix (prefix : bytes) : op (list (bytes * bytes)) :=
  wrapST "failed to create iterator" (dbScan prefix (Some (prefix ++ [xff]))).

Definition count_prefix (prefix : bytes) : op Z :=
  entries ← scan_prefix prefix; mret (Z.of_nat (length entries)).

(** [for ... { r, err := get(ref); if err != nil { continue }; append }]. *)
Fixpoint fetch_all {I R} (get : I -> op R) (refs : list I) : op (list R) :=
  match refs with
  | [] => mret []
  | i :: refs' => tryST (get i) (fun r =>
      rest ← fetch_all get refs';
      mret (match r with Ok x => x :: rest | Err _ => rest end))
  end.

(** The same, over entries some of which name nothing, until [limit] are found. *)
Fixpoint fetch_some {I R} (ref : bytes * bytes -> option I) (get : I -> op R) (limit : option Z)
  (entries : list (bytes * bytes)) (found : list R) : op (list R) :=
  match entries with
  | [] => mret found
  | kv :: entries' =>
      if match limit with Some l => l <=? Z.of_nat (length found) | None => false end then mret found
      else match ref kv with
           | None => fetch_some ref get limit entries' found
           | Some i => tryST (get i) (fun r =>
               fetch_some ref get limit entries' (match r with Ok x => found ++ [x] | Err _ => found end))
           end
  end.

(** The loops that skip [offset] entries first. *)
Fixpoint fetch_page {I R} (ref : bytes * bytes -> option I) (get : I -> op R) (limit : option Z)
  (skipped offset : Z) (entries : list (bytes * bytes)) (found : list R) : op (list R) :=
  match entries with
  | [] => mret found
  | kv :: entries' =>
      if skipped <? offset then fetch_page ref get limit (skipped + 1) offset entries' found
      else if match limit with Some l => l <=? Z.of_nat (length found) | None => false end then mret found
      else match ref kv with
           | None => fetch_page ref get limit skipped offset entries' found
           | Some i => tryST (get i) (fun r =>
               fetch_page ref get limit skipped offset entries'
                 (match r with Ok x => found ++ [x] | Err _ => found end))
           end
  end.

(** ** The loops over entries that all name their records *)

Lemma fetch_all_found {I R} (get : I -> op R) (id : R -> I) l s :
  (forall r, r ∈ l -> get (id r) s = (Ok r, s)) -> fetch_all get (id <$> l) s = (Ok l, s).
Proof.
  induction l as [|r l IH]; intros Hget; [done|]. cbn [fmap list_fmap fetch_all]. unfold tryST.
  rewrite Hget by by left. unfold mbind, ST_bind. rewrite IH; [done|]. intros x Hx. apply Hget. by right.
Qed.

Definition names {I R} (ref : bytes * bytes -> option I) (get : I -> op R) (s : PebbleStorage)
  (entry : R -> bytes * bytes) (l : list R) : Prop :=
  forall r, r ∈ l -> exists i, ref (entry r) = Some i /\ get i s = (Ok r, s).

Definition at_most {A} (limit : option Z) (n : Z) (l : list A) : list A :=
  match limit with Some k => take (Z.to_nat (k - n)) l | None => l end.

Lemma fetch_some_found {I R} ref (get : I -> op R) limit entry l found s :
  names ref get s entry l ->
  fetch_some ref get limit (entry <$> l) found s
  = (Ok (found ++ at_most limit (Z.of_nat (length found)) l), s).
Proof.
  revert found. induction l as [|r l IH]; intros found Hn; cbn [fmap list_fmap fetch_some].
  { destruct limit; cbn; by rewrite ?take_nil, app_nil_r. }
  destruct (Hn r) as (i & Hi & Hg); [by left|]. rewrite Hi.
  assert (Hl : names ref get s entry l) by (intros x Hx; apply Hn; by right).
  destruct limit as [k|].
  - destruct (Z.leb_spec k (Z.of_nat (length found))).
    + cbn. replace (Z.to_nat (k - Z.of_nat (length found))) with 0%nat by lia. by rewrite app_nil_r.
    + unfold tryST. rewrite Hg, IH by done. rewrite length_app, <- app_assoc. cbn [length app at_most].
      replace (Z.to_nat (k - Z.of_nat (length found)))
        with (S (Z.to_nat (k - Z.of_nat (length found + 1)))) by lia. done.
  - unfold tryST. rewrite Hg, IH by done. by rewrite <- app_assoc.
Qed.

Lemma fetch_page_some {I R} ref (get : I -> op R) limit n offset entries found s : offset <= n ->
  fetch_page ref get limit n offset entries found s = fetch_some ref get limit entries found s.
Proof.
  intros Hn. revert found s. induction entries as [|kv entries IH]; intros found s; [done|].
  cbn [fetch_page fetch_some]. replace (n <? offset) with false by lia.
  destruct (match limit with Some l => _ | None => _ end); [done|].
  destruct (ref kv); [|apply IH]. unfold tryST. destruct (get _ s). apply IH.
Qed.

Lemma fetch_page_found {I R} ref (get : I -> op R) limit offset entry l s : names ref get s entry l ->
  fetch_page ref get limit 0 offset (entry <$> l) [] s
  = (Ok (at_most limit 0 (drop (Z.to_nat offset) l)), s).
Proof.
  assert (Hgo : forall n l, 0 <= n -> names ref get s entry l ->
    fetch_page ref get limit n offset (entry <$> l) [] s
    = (Ok (at_most limit 0 (drop (Z.to_nat (offset - n)) l)), s)).
  { clear l. intros n l. revert n. induction l as [|r l IH]; intros n Hn Hl.
    - cbn. rewrite drop_nil. destruct limit; cbn; by rewrite ?take_nil.
    - destruct (Z.ltb_spec n offset) as [Hlt|Hge].
      + cbn [fmap list_fmap fetch_page]. replace (n <? offset) with true by lia.
        rewrite IH by (lia || (intros x Hx; apply Hl; by right)).
        by replace (Z.to_nat (offset - n)) with (S (Z.to_nat (offset - (n + 1)))) by lia.
      + replace (Z.to_nat (offset - n)) with 0%nat by lia. rewrite fetch_page_some by lia.
        by apply (fetch_some_found ref get limit entry (r :: l) []). }
  intros Hl. rewrite Hgo by done. by rewrite Z.sub_0_r.
Qed.

End Scans.

(** * Batches of the database *)

Section RawBatch.
Context {P : Pebble}.

(** [batch := s.db.NewBatch(); ...; batch.Commit(pebble.Sync)]: the operations of the batch
    are those of a [pebbleBatch] whose counters are not used. *)
Definition commit (msg : string) : bop_st unit := wrapST msg batchCommit.

(** On the storage [s], [m] leaves the storage alone and, when it succeeds, adds [ops] to the
    batch. *)
Definition adds (s : PebbleStorage) {A} (m : bop_st A) (ops : list bop) : Prop :=
  forall b r sb', m (s, b) = (r, sb') -> exists b', sb' = (s, b') /\
    forall a, r = Ok a -> b_ops b' = b_ops b ++ ops.

Lemma adds_write s o : adds s (batchWrite o) [o].
Proof.
  intros b r sb'. unfold batchWrite.
  destruct (batch_add_err _ _); intros [= <- <-]; eexists; split; [done|by intros|done|by intros].
Qed.

Lemma adds_set s k v : adds s (batchSet k v) [(k, Some v)].
Proof. apply adds_write. Qed.

Lemma adds_delete s k : adds s (batchDelete k) [(k, None)].
Proof. apply adds_write. Qed.

Lemma adds_wrap s {A} msg (m : bop_st A) ops : adds s m ops -> adds s (wrapST msg m) ops.
Proof.
  intros Hm b r sb'. unfold wrapST. destruct (m (s, b)) as [r1 sb1] eqn:H1. intros [= <- <-].
  apply Hm in H1 as (b1 & -> & Hb). exists b1. split; [done|].
  destruct r1; [|done]. intros x _. by apply (Hb a).
Qed.

Lemma adds_ret s {A} (a : A) : adds s (mret a) [].
Proof. intros b r sb' [= <- <-]. exists b. by rewrite app_nil_r. Qed.

Lemma adds_fail s {A} e ops : adds s (fail e : bop_st A) ops.
Proof. intros b r sb' [= <- <-]. by exists b. Qed.

Lemma adds_bind s {A B} (m : bop_st A) (k : A -> bop_st B) o1 o2 :
  adds s m o1 -> (forall a, adds s (k a) o2) -> adds s (m ≫= k) (o1 ++ o2).
Proof.
  intros Hm Hk b r sb'. unfold mbind, ST_bind. destruct (m (s, b)) as [r1 sb1] eqn:H1.
  apply Hm in H1 as (b1 & -> & Hb1). destruct r1 as [a|e]; [|intros [= <- <-]; by exists b1].
  intros H2. apply Hk in H2 as (b2 & -> & Hb2). exists b2. split; [done|].
  intros x Hx. by rewrite (Hb2 x Hx), (Hb1 a eq_refl), app_assoc.
Qed.

Lemma adds_lift s {A B} (x : res A) (k : A -> bop_st B) ops :
  (forall a, x = Ok a -> adds s (k a) ops) -> adds s (lift x ≫= k) ops.
Proof.
  intros Hk b r sb'. unfold mbind, ST_bind, lift. destruct x as [a|e]; [by apply Hk|].
  intros [= <- <-]. by exists b.
Qed.

(** A computation that handles the outcome of a read. *)
Lemma adds_read s {A B} (m : op A) (k : res A -> bop_st B) ops :
  snd (m s) = s -> adds s (k (fst (m s))) ops -> adds s (tryST (on_storage m) k) ops.
Proof.
  intros Hs Hk b r sb'. unfold tryST, on_storage. destruct (m s) as [x s1]. cbn in Hs, Hk. subst s1. apply Hk.
Qed.

Lemma adds_for s {A} (f : A -> bop_st unit) (ops : A -> list bop) l :
  (forall x, x ∈ l -> adds s (f x) (ops x)) -> adds s (forST f l) (flat_map ops l).
Proof.
  induction l as [|x l IH]; intros Hf; cbn [forST flat_map]; [apply adds_ret|].
  apply adds_bind; [apply Hf; by left|]. intros _. apply IH. intros y Hy. apply Hf. by right.
Qed.

(** The state of the database after a list of writes. *)
Definition written (g : bytes -> res (option bytes)) (ops : list bop) (k : bytes) : res (option bytes) :=
  match last_write ops k with Some o => Ok o | None => g k end.

Lemma written_app g o1 o2 k : written (written g o1) o2 k = written g (o1 ++ o2) k.
Proof. unfold written. rewrite last_write_app. by destruct (last_write o2 k). Qed.

Lemma db_write_written (HP : PebbleLaws P) ops s s' : dbWrite ops s = (Ok tt, s') ->
  s' = set_db (db s') s /\ forall k, db_get (db s') k = written (db_get (db s)) ops k.
Proof.
  intros H. split; [by eapply dbWrite_frame|]. intros k.
  exact (dbWrite_pending HP ops s s' H k).
Qed.

(** The outcome of a batch: all its operations are written, or none. *)
Definition all_or_none {A} (g : bytes -> res (option bytes)) (ops : list bop) (r : res A)
  (g' : bytes -> res (option bytes)) : Prop :=
  forall k, g' k = match r with Ok _ => written g ops k | Err _ => g k end.

Lemma dbWrite_all_or_none (HP : PebbleLaws P) ops s r s' : dbWrite ops s = (r, s') ->
  s' = set_db (db s') s /\ all_or_none (db_get (db s)) ops r (db_get (db s')).
Proof.
  intros H. split; [by eapply dbWrite_frame|]. intros k. destruct r as [[]|e].
  - by apply db_write_written.
  - unfold dbWrite in H. destruct (db_write (db s) ops) as [d [e'|]] eqn:Hw; [|done].
    injection H as <- <-. by eapply db_write_atomic.
Qed.

(** The two ways to commit. *)
Definition commits (m : bop_st unit) : Prop := m = batchCommit \/ exists msg, m = commit msg.

Lemma batchCommit_all_or_none (HP : PebbleLaws P) s b r sb' : batchCommit (s, b) = (r, sb') ->
  exists s', sb' = (s', b) /\ s' = set_db (db s') s /\
  all_or_none (db_get (db s)) (b_ops b) r (db_get (db s')).
Proof.
  unfold batchCommit. destruct (dbWrite (b_ops b) s) as [r1 s1] eqn:Hw.
  intros [= <- <-]. exists s1. split; [done|]. by apply dbWrite_all_or_none.
Qed.

Lemma commits_all_or_none (HP : PebbleLaws P) m s b r sb' : commits m -> m (s, b) = (r, sb') ->
  exists s', sb' = (s', b) /\ s' = set_db (db s') s /\
  all_or_none (db_get (db s)) (b_ops b) r (db_get (db s')).
Proof.
  intros [->|[msg ->]]; [by apply batchCommit_all_or_none|]. unfold commit, wrapST.
  destruct (batchCommit (s, b)) as [r1 sb1] eqn:Hc. intros [= <- <-].
  apply (batchCommit_all_or_none HP) in Hc as (s' & -> & Hs & Hall). exists s'. split_and!; [done..|].
  intros k. rewrite (Hall k). by destruct r1.
Qed.

Lemma commit_written (HP : PebbleLaws P) s {A} (m : bop_st A) (k : A -> bop_st unit) ops r s' :
  adds s m ops -> (forall a, commits (k a)) -> with_batch (m ≫= k) s = (r, s') ->
  s' = set_db (db s') s /\ all_or_none (db_get (db s)) ops r (db_get (db s')).
Proof.
  intros Hm Hk. unfold with_batch, mbind, ST_bind.
  destruct (m (s, NewBatch)) as [r1 sb1] eqn:H1. apply Hm in H1 as (b1 & -> & Hb1).
  destruct r1 as [a|e]; [|by intros [= <- <-]; split; [destruct s|]].
  specialize (Hb1 a eq_refl). cbn [b_ops NewBatch app] in Hb1.
  destruct (k a (s, b1)) as [r2 sb2] eqn:H2. intros H.
  apply (commits_all_or_none HP) in H2 as (s2 & -> & Hs & Hall); [|done]. injection H as <- <-.
  by rewrite <- Hb1.
Qed.

End RawBatch.

(** * Tables *)

(** The entries of a record: a family of entries has a base, the key of an entry is the base
    and a suffix made from the record. The record itself is the entry of one of the
    families. *)
Record table (R Fam : Type) := mkTable {
  base : Fam -> bytes;
  real : Fam -> Prop;
  families : R -> list Fam;
  suffix : Fam -> R -> bytes;
  ival : Fam -> R -> bytes;
}.
Arguments mkTable {R Fam}.
Arguments base {R Fam}.
Arguments real {R Fam}.
Arguments families {R Fam}.
Arguments suffix {R Fam}.
Arguments ival {R Fam}.

Class TableLaws {R Fam} (t : table R Fam) : Prop := {
  base_inj : forall f1 f2 k1 k2, real t f1 -> real t f2 ->
    base t f1 ++ k1 = base t f2 ++ k2 -> f1 = f2 /\ k1 = k2;
  families_real : forall r f, f ∈ families t r -> real t f;
}.

Section Table.
Context {P : Pebble} (HP : PebbleLaws P).
Context {R Fam : Type} (t : table R Fam) (Ht : TableLaws t).

Definition entry (f : Fam) (r : R) : bytes * bytes := (base t f ++ suffix t f r, ival t f r).

Definition save_ops (r : R) : list bop :=
  (fun f => (base t f ++ suffix t f r, Some (ival t f r))) <$> families t r.

(** The database holds exactly the records [T]; their entries are apart. *)
Record table_holds (T : R -> Prop) (g : bytes -> res (option bytes)) : Prop := {
  holds_entries : forall f k v, real t f -> g (base t f ++ k) = Ok (Some v) <->
    exists r, T r /\ f ∈ families t r /\ k = suffix t f r /\ v = ival t f r;
  holds_apart : forall f r1 r2, T r1 -> T r2 -> f ∈ families t r1 -> f ∈ families t r2 ->
    suffix t f r1 = suffix t f r2 -> r1 = r2;
}.

(** [r] shares no entry with another record. *)
Definition fresh (T : R -> Prop) (r : R) : Prop :=
  forall x f, T x -> f ∈ families t x -> f ∈ families t r -> suffix t f x = suffix t f r -> x = r.

Definition add (r : R) (T : R -> Prop) : R -> Prop := fun x => x = r \/ T x.

Definition remove_ops (r : R) : list bop :=
  (fun f => (base t f ++ suffix t f r, None)) <$> families t r.

(** The last write of a record's operations to a key. *)
Lemma last_write_entries (val : Fam -> option bytes) r k v :
  last_write ((fun f => (base t f ++ suffix t f r, val f)) <$> families t r) k = Some v <->
  exists f, f ∈ families t r /\ k = base t f ++ suffix t f r /\ v = val f.
Proof.
  set (ops := (fun f => (base t f ++ suffix t f r, val f)) <$> families t r).
  assert (Hin : forall k v, last_write ops k = Some v -> (k, v) ∈ ops).
  { clear. intros k v. induction ops as [|[k' v'] ops IH]; cbn; [done|].
    destruct (last_write ops k) as [o|] eqn:Ho.
    - intros [= ->]. right. by apply IH.
    - case_decide; [intros [= ->]; subst; by left | done]. }
  split.
  - intros H. apply Hin in H. apply list_elem_of_fmap in H as (f & [= -> ->] & Hf). by exists f.
  - intros (f & Hf & -> & ->).
    destruct (last_write ops (base t f ++ suffix t f r)) as [o|] eqn:Ho.
    + apply Hin in Ho. apply list_elem_of_fmap in Ho as (f' & [= Heq ->] & Hf').
      apply base_inj in Heq as [<- _]; eauto using families_real.
    + exfalso. assert (Hel : (base t f ++ suffix t f r) ∈ ops.*1).
      { unfold ops. rewrite <- list_fmap_compose. apply list_elem_of_fmap. by exists f. }
      revert Ho Hel. clear. generalize (base t f ++ suffix t f r).
      induction ops as [|[k' v'] ops IH]; intros k; cbn; [by intros _ ?%not_elem_of_nil|].
      destruct (last_write ops k) eqn:Ho; [done|]. case_decide; [done|].
      intros _ [->|Hel]%elem_of_cons; [done|]. by apply (IH k).
Qed.

Lemma last_write_save r k v : last_write (save_ops r) k = Some v <->
  exists f, f ∈ families t r /\ k = base t f ++ suffix t f r /\ v = Some (ival t f r).
Proof. apply (last_write_entries (fun f => Some (ival t f r))). Qed.

Lemma last_write_remove r k v : last_write (remove_ops r) k = Some v <->
  exists f, f ∈ families t r /\ k = base t f ++ suffix t f r /\ v = None.
Proof. apply (last_write_entries (fun _ => None)). Qed.

(** Deleting an entry that no record has changes nothing. *)
Lemma holds_delete T g f k : real t f -> table_holds T g ->
  (forall r, T r -> f ∈ families t r -> suffix t f r <> k) ->
  table_holds T (written g [(base t f ++ k, None)]).
Proof.
  intros Hf [He Ha] Hno. split; [|done]. intros f' k' v Hf'. unfold written. cbn [last_write].
  case_decide as Heq; [|by apply He].
  apply base_inj in Heq as [<- <-]; [|done..]. split; [done|].
  intros (r & Hr & Hfr & Hs & _). by destruct (Hno r Hr Hfr).
Qed.

(** Removing the entries of a record removes it. *)
Lemma holds_remove T g r : table_holds T g -> T r ->
  table_holds (fun x => T x /\ x <> r) (written g (remove_ops r)).
Proof.
  intros [He Ha] Hr. split.
  - intros f k v Hf. unfold written.
    destruct (last_write (remove_ops r) (base t f ++ k)) as [o|] eqn:Ho.
    + apply last_write_remove in Ho as (f' & Hf' & Heq & ->).
      apply base_inj in Heq as [<- ->]; [|done|by eapply families_real]. split; [done|].
      intros (x & [Hx Hne] & Hfx & Hs & _). destruct Hne. by eapply Ha.
    + rewrite He by done. split; intros (x & Hx & Hfx & -> & ->); [|by exists x; destruct Hx].
      exists x. split_and!; [done| |done..]. intros ->.
      assert (Hs : last_write (remove_ops r) (base t f ++ suffix t f r) = Some None)
        by (apply last_write_remove; by exists f). congruence.
  - intros f r1 r2 [H1 _] [H2 _]. by apply Ha.
Qed.

(** Saving a record adds it. *)
Lemma holds_add T g r : table_holds T g -> fresh T r -> table_holds (add r T) (written g (save_ops r)).
Proof.
  intros [He Ha] Hfresh. split.
  - intros f k v Hf. unfold written.
    destruct (last_write (save_ops r) (base t f ++ k)) as [o|] eqn:Ho.
    + apply last_write_save in Ho as (f' & Hf' & Heq & ->).
      apply base_inj in Heq as [<- ->]; [|done|by eapply families_real]. split.
      * intros [= <-]. exists r. by split_and!; [left|..].
      * intros (x & [->|Hx] & Hfx & Hs & ->); [done|].
        by rewrite (Hfresh x f Hx Hfx Hf' (eq_sym Hs)).
    + rewrite He by done. split; intros (x & Hx & Hfx & -> & ->).
      * exists x. by split_and!; [right|..].
      * destruct Hx as [->|Hx]; [|by exists x].
        assert (Hs : last_write (save_ops r) (base t f ++ suffix t f r) = Some (Some (ival t f r)))
          by (apply last_write_save; by exists f). congruence.
  - intros f r1 r2 [->|H1] [->|H2] Hf1 Hf2 Hs; [done|symmetry; by eapply Hfresh|by eapply Hfresh|].
    by eapply Ha.
Qed.

Definition add_all (rs : list R) (T : R -> Prop) : R -> Prop := fun x => x ∈ rs \/ T x.

(** No two of the records, new or held, share an entry. *)
Definition all_fresh (T : R -> Prop) (rs : list R) : Prop :=
  forall r, r ∈ rs -> fresh (add_all rs T) r.

Lemma holds_equiv T T' g : (forall r, T r <-> T' r) -> table_holds T g -> table_holds T' g.
Proof.
  intros Heq [He Ha]. split.
  - intros f k v Hf. rewrite He by done. split; intros (x & Hx & Hr); exists x; split; try done; by apply Heq.
  - intros f r1 r2 H1 H2. apply Ha; by apply Heq.
Qed.

Lemma holds_ext T g g' : (forall f k, real t f -> g' (base t f ++ k) = g (base t f ++ k)) ->
  table_holds T g -> table_holds T g'.
Proof.
  intros Heq [He Ha]. split; [|done]. intros f k v Hf. rewrite Heq by done. by apply He.
Qed.

Lemma holds_add_all T g rs : table_holds T g -> all_fresh T rs ->
  table_holds (add_all rs T) (written g (flat_map save_ops rs)).
Proof.
  revert T g. induction rs as [|r rs IH]; intros T g Hh Hf.
  - cbn. apply (holds_equiv T); [|by apply (holds_ext T g)].
    intros x. unfold add_all. rewrite elem_of_nil. tauto.
  - cbn [flat_map]. apply (holds_ext _ (written (written g (save_ops r)) (flat_map save_ops rs)));
      [intros; by rewrite written_app|].
    apply (holds_equiv (add_all rs (add r T))).
    { intros x. unfold add_all, add. rewrite elem_of_cons. tauto. }
    apply IH.
    + apply holds_add; [done|]. intros x f Hx. apply (Hf r); [by left | by right].
    + intros x Hx y f Hy. apply (Hf x); [by right|].
      unfold add_all, add in *. rewrite elem_of_cons. tauto.
Qed.

(** ** Scanning a family *)

Definition suffix_lt (f : Fam) (a b : R) : Prop := bytes_ltb (suffix t f a) (suffix t f b) = true.

(** The records of a family whose suffixes lie in a range, in the order of their keys. *)
Definition listing (T : R -> Prop) (f : Fam) (Q : R -> Prop) (l : list R) : Prop :=
  StronglySorted (suffix_lt f) l /\ forall r, r ∈ l <-> T r /\ f ∈ families t r /\ Q r.

Lemma scan_listing T s f a hi b entries s' : table_holds T (db_get (db s)) -> real t f ->
  (forall k, in_range (base t f ++ a) hi (base t f ++ k) <-> in_range a b k) ->
  (forall k, in_range (base t f ++ a) hi k -> exists k', k = base t f ++ k') ->
  dbScan (base t f ++ a) hi s = (Ok entries, s') ->
  exists l, entries = entry f <$> l /\ listing T f (fun r => in_range a b (suffix t f r)) l.
Proof.
  intros [He Ha] Hf Hin Hbase [Hs _]%dbScan_ok.
  assert (Hsort : StronglySorted key_lt entries) by by eapply db_scan_sorted.
  assert (Hel : forall k v, (k, v) ∈ entries <-> exists r, T r /\ f ∈ families t r /\
    in_range a b (suffix t f r) /\ (k, v) = entry f r).
  { intros k v. rewrite (db_scan_elem _ _ _ _ _ _ Hs). split.
    - intros [Hr Hg]. destruct (Hbase k Hr) as [k' ->]. apply He in Hg as (r & HT & Hfr & -> & ->); [|done].
      exists r. split_and!; [done..|by apply Hin | done].
    - intros (r & HT & Hfr & Hr & [= -> ->]). split; [by apply Hin|]. apply He; [done|]. by exists r. }
  assert (Hl : exists l, entries = entry f <$> l /\ Forall (fun r => T r /\ f ∈ families t r /\ in_range a b (suffix t f r)) l).
  { clear Hs Hsort. assert (Hall : forall e, e ∈ entries -> exists r, T r /\ f ∈ families t r /\
      in_range a b (suffix t f r) /\ e = entry f r) by (intros [k v]; apply Hel).
    clear Hel. induction entries as [|e entries IH]; [by exists []|].
    destruct IH as (l & -> & Hl); [intros; apply Hall; by right|].
    destruct (Hall e) as (r & H1 & H2 & H3 & ->); [by left|]. exists (r :: l). by split; [|constructor]. }
  destruct Hl as (l & -> & Hl). exists l. split; [done|]. rewrite Forall_forall in Hl. split.
  - clear Hel Hl Hs. induction l as [|r l IH]; [constructor|]. cbn in Hsort.
    apply StronglySorted_inv in Hsort as [Hs Hfirst]. constructor; [by apply IH|].
    apply Forall_forall. intros x Hx. rewrite Forall_forall in Hfirst.
    specialize (Hfirst (entry f x) (list_elem_of_fmap_2 _ _ _ Hx)).
    unfold key_lt, entry in Hfirst. cbn in Hfirst. by rewrite bytes_ltb_app in Hfirst.
  - intros r. split; [apply Hl|]. intros (HT & Hfr & Hr).
    assert (Hin' : entry f r ∈ entry f <$> l) by (apply Hel; by exists r).
    apply list_elem_of_fmap in Hin' as (x & Heq & Hx). destruct (Hl x Hx) as (HTx & Hfx & _).
    injection Heq as Heq _. apply (inj (app _)) in Heq. by rewrite (Ha f r x).
Qed.

(** A scan of the prefix made of a base and some more. *)
Lemma scan_prefix_listing T s f a entries s' : table_holds T (db_get (db s)) -> real t f ->
  scan_prefix (base t f ++ a) s = (Ok entries, s') ->
  s' = s /\ exists l, entries = entry f <$> l /\
    listing T f (fun r => in_range a (Some (a ++ [xff])) (suffix t f r)) l.
Proof.
  intros Hh Hf H. unfold scan_prefix in H. apply wrapST_ok in H.
  pose proof H as Hs. apply dbScan_ok in Hs as [_ ->]. split; [done|].
  eapply scan_listing; [done|done| | |exact H].
  - intros k. rewrite <- app_assoc, in_range_app. split.
    + by intros (k' & ->%(inj (app _)) & Hk).
    + intros Hk. by exists k.
  - intros k. rewrite <- app_assoc, in_range_app. intros (k' & -> & _). by exists k'.
Qed.

(** A scan bounded by the next prefix. *)
Lemma upper_bound_listing T s f a entries s' : table_holds T (db_get (db s)) -> real t f ->
  dbScan (base t f ++ a) (prefixUpperBound (base t f ++ a)) s = (Ok entries, s') ->
  s' = s /\ exists l, entries = entry f <$> l /\
    listing T f (fun r => HasPrefix (suffix t f r) a = true) l.
Proof.
  intros Hh Hf H. pose proof H as Hs. apply dbScan_ok in Hs as [_ ->]. split; [done|].
  assert (Hp : forall k, in_range (base t f ++ a) (prefixUpperBound (base t f ++ a)) (base t f ++ k)
    <-> HasPrefix k a = true).
  { intros k. rewrite prefixUpperBound_exact, !HasPrefix_spec. split.
    - intros (r & Heq). rewrite <- app_assoc in Heq. apply (inj (app _)) in Heq. by exists r.
    - intros (r & ->). exists r. by rewrite <- app_assoc. }
  edestruct (scan_listing T s f a (prefixUpperBound (base t f ++ a)) (prefixUpperBound a)) as (l & -> & Hl);
    [done|done| | |exact H|].
  - intros k. by rewrite Hp, prefixUpperBound_exact.
  - intros k. rewrite prefixUpperBound_exact, HasPrefix_spec. intros (r & ->).
    exists (a ++ r). by rewrite app_assoc.
  - exists l. split; [done|]. destruct Hl as [Hs Hel]. split; [done|].
    intros r. by rewrite Hel, prefixUpperBound_exact.
Qed.

Lemma listing_nil T f Q l : (forall r, T r -> f ∈ families t r -> ~ Q r) -> listing T f Q l -> l = [].
Proof.
  intros Hno [_ Hel]. destruct l as [|r l]; [done|]. destruct (proj1 (Hel r)) as (H1 & H2 & H3); [by left|].
  by destruct (Hno r H1 H2).
Qed.

Lemma listing_weaken T f Q Q' l : (forall r, T r -> f ∈ families t r -> Q r <-> Q' r) ->
  listing T f Q l -> listing T f Q' l.
Proof.
  intros Heq [Hs Hel]. split; [done|]. intros r. rewrite Hel. split; intros (H1 & H2 & H3);
    (split_and!; [done..|by apply Heq]).
Qed.

End Table.

(** The suffixes of a family as an order on the records that the program means. *)
Lemma sorted_impl {A} (R1 R2 : relation A) l : StronglySorted R1 l ->
  (forall x y, x ∈ l -> y ∈ l -> R1 x y -> R2 x y) -> StronglySorted R2 l.
Proof.
  induction 1 as [|x l Hs IH Hf]; intros Himp; constructor.
  - apply IH. intros y z Hy Hz. apply Himp; by right.
  - rewrite Forall_forall in Hf |- *. intros y Hy. apply Himp; [by left|by right|auto].
Qed.

Lemma sorted_rev {A} (R : relation A) l : StronglySorted R l -> StronglySorted (flip R) (reverse l).
Proof.
  induction 1 as [|x l Hs IH Hf]; [constructor|]. rewrite reverse_cons.
  clear Hs. assert (Hf' : Forall (fun y => flip R y x) (reverse l)) by by rewrite Forall_reverse.
  revert IH Hf'. generalize (reverse l). intros k. induction k as [|y k IH2]; cbn; intros Hs Hall.
  - repeat constructor.
  - apply StronglySorted_inv in Hs as [Hs Hy]. inversion_clear Hall as [|? ? Hyx Hk].
    constructor; [by apply IH2|]. apply Forall_app. split; [done|]. by constructor.
Qed.
