(* ===== verification/TokenHolders.v ===== *)
(** TokenHolders: who holds how much of a token.

    Models pkg/storage/pebble_token_holder.go and token_holder.go: a record per token and
    holder, an index of the holders of a token by descending balance, an index of the tokens
    of a holder, and statistics with the number of holders, all kept up to date from the
    ERC20 transfers. The store is specified by the balances it holds and refined by them. *)
From stdpp Require Import sorting.
From S2P Require Import Prelude Eth Schema KeySpace KV Chain Storage Batch PrefixOps.
From S2P Require Import StorageFacts StorageProps AddressIndex Json JsonCodec Index.

(** A nil balance is [None]. *)
Record TokenHolder := mkHolder {
  TokenAddress : Address;
  HolderAddress : Address;
  Balance : option Z;
  LastUpdatedAt : Z;
}.

Record TokenHolderStats := mkStats {
  StatsToken : Address;
  HolderCount : Z;
  TransferCount : Z;
  LastActivityAt : Z;
}.

(** The fields of an ERC20 transfer (address_index.go). *)
Record ERC20Transfer := mkERC20 {
  e20_ContractAddress : Address;
  e20_From : Address;
  e20_To : Address;
  e20_Value : option Z;
  e20_TransactionHash : Hash;
  e20_BlockNumber : Z;
  e20_LogIndex : Z;
  e20_Timestamp : Z;
}.

Definition zero_address : Address := zero_array 20.

(** * JSON *)

Record TokenHolderJSON := mkHolderJSON {
  j_TokenAddress : bytes;
  j_HolderAddress : bytes;
  j_Balance : bytes;
  j_LastUpdatedAt : Z;
}.

Record TokenHolderStatsJSON := mkStatsJSON {
  js_TokenAddress : bytes;
  js_HolderCount : Z;
  js_TransferCount : Z;
  js_LastActivityAt : Z;
}.

Definition int_range (z : Z) : Prop := - 2 ^ 63 <= z < 2 ^ 63.

#[export] Instance holder_JSON : JSON TokenHolderJSON :=
  struct_JSON (mkHolderJSON [] [] [] 0)
    (fun r => field_out c_string "tokenAddress" (j_TokenAddress r) ++
              field_out c_string "holderAddress" (j_HolderAddress r) ++
              field_out c_string "balance" (j_Balance r) ++
              field_out c_uint64 "lastUpdatedAt" (j_LastUpdatedAt r))
    (fun fs => a ← field_in c_string "tokenAddress" fs;
               b ← field_in c_string "holderAddress" fs;
               c ← field_in c_string "balance" fs;
               d ← field_in c_uint64 "lastUpdatedAt" fs;
               Ok (mkHolderJSON a b c d))
    (fun r => ascii_text (j_TokenAddress r) /\ ascii_text (j_HolderAddress r) /\
              ascii_text (j_Balance r) /\ is_u64 (j_LastUpdatedAt r)).

#[export] Instance stats_JSON : JSON TokenHolderStatsJSON :=
  struct_JSON (mkStatsJSON [] 0 0 0)
    (fun r => field_out c_string "tokenAddress" (js_TokenAddress r) ++
              field_out c_int "holderCount" (js_HolderCount r) ++
              field_out c_int "transferCount" (js_TransferCount r) ++
              field_out c_uint64 "lastActivityAt" (js_LastActivityAt r))
    (fun fs => a ← field_in c_string "tokenAddress" fs;
               b ← field_in c_int "holderCount" fs;
               c ← field_in c_int "transferCount" fs;
               d ← field_in c_uint64 "lastActivityAt" fs;
               Ok (mkStatsJSON a b c d))
    (fun r => ascii_text (js_TokenAddress r) /\ int_range (js_HolderCount r) /\
              int_range (js_TransferCount r) /\ is_u64 (js_LastActivityAt r)).

Section TokenHolders.
Context {E : EthHex} {P : Pebble}.

Definition tokenHolderToJSON (h : TokenHolder) : TokenHolderJSON :=
  mkHolderJSON (Address_Hex (TokenAddress h)) (Address_Hex (HolderAddress h))
    (match Balance h with Some b => fmt_d b | None => lit "0" end) (LastUpdatedAt h).

Definition tokenHolderFromJSON (j : TokenHolderJSON) : TokenHolder :=
  mkHolder (HexToAddress (j_TokenAddress j)) (HexToAddress (j_HolderAddress j))
    (Some (match j_Balance j with [] => 0 | s => default 0 (SetString s) end)) (j_LastUpdatedAt j).

Definition tokenHolderStatsToJSON (s : TokenHolderStats) : TokenHolderStatsJSON :=
  mkStatsJSON (Address_Hex (StatsToken s)) (HolderCount s) (TransferCount s) (LastActivityAt s).

Definition tokenHolderStatsFromJSON (j : TokenHolderStatsJSON) : TokenHolderStats :=
  mkStats (HexToAddress (js_TokenAddress j)) (js_HolderCount j) (js_TransferCount j) (js_LastActivityAt j).

(** * Reading *)

Definition getTokenHolder (token holder : Address) : op TokenHolder :=
  o ← wrapST "failed to get token holder" (dbGet (TokenHolderKey token holder));
  match o with
  | None => fail ErrNotFound
  | Some value =>
      jsonData ← lift (wrap_err "failed to unmarshal token holder" (json_Unmarshal value));
      mret (tokenHolderFromJSON jsonData)
  end.

Definition GetTokenHolderStats (token : Address) : op TokenHolderStats :=
  _ ← ensureNotClosed;
  o ← wrapST "failed to get token holder stats" (dbGet (TokenHolderStatsKey token));
  match o with
  | None => fail ErrNotFound
  | Some value =>
      jsonData ← lift (wrap_err "failed to unmarshal token holder stats" (json_Unmarshal value));
      mret (tokenHolderStatsFromJSON jsonData)
  end.

(** The address after the last slash of an index key, which has at least two parts. *)
Definition last_address (kv : bytes * bytes) : option Address :=
  let parts := Split_slash (fst kv) in
  if (length parts <? 2)%nat then None else HexToAddress <$> last parts.

(** No limit when it is not positive. *)
Definition opt_limit (limit : Z) : option Z := if 0 <? limit then Some limit else None.

Definition GetTokenHolders (token : Address) (limit offset : Z) : op (list TokenHolder) :=
  _ ← ensureNotClosed;
  let prefix := TokenHolderByTokenIndexPrefix token in
  entries ← wrapST "failed to create iterator" (dbScan prefix (prefixUpperBound prefix));
  fetch_page last_address (getTokenHolder token) (opt_limit limit) 0 offset entries [].

Definition GetTokenHolderCount (token : Address) : op Z :=
  _ ← ensureNotClosed;
  tryST (GetTokenHolderStats token) (fun r =>
    match r with
    | Ok stats => mret (HolderCount stats)
    | Err _ =>
        let prefix := TokenHolderByTokenIndexPrefix token in
        entries ← wrapST "failed to create iterator" (dbScan prefix (prefixUpperBound prefix));
        mret (Z.of_nat (length entries))
    end).

Definition GetTokenBalance (token holder : Address) : op (option Z) :=
  _ ← ensureNotClosed;
  h ← getTokenHolder token holder;
  mret (Balance h).

Definition GetHolderTokens (holder : Address) (limit offset : Z) : op (list TokenHolder) :=
  _ ← ensureNotClosed;
  let prefix := TokenHolderByHolderIndexPrefix holder in
  entries ← wrapST "failed to create iterator" (dbScan prefix (prefixUpperBound prefix));
  fetch_page last_address (fun token => getTokenHolder token holder) (opt_limit limit) 0 offset entries [].

(** * Writing *)

Definition adjust_count (delta : Z) (s : TokenHolderStats) : TokenHolderStats :=
  mkStats (StatsToken s) (Z.max 0 (i64 (HolderCount s + delta))) (TransferCount s) (LastActivityAt s).

(** Unreadable statistics count as none. *)
Definition updateHolderCountInBatch (token : Address) (delta : Z) : bop_st unit :=
  let key := TokenHolderStatsKey token in
  tryST (on_storage (dbGet key)) (fun r =>
    let read := match r with
                | Ok (Some value) => match json_Unmarshal value with
                                     | Ok jsonData => Some (tokenHolderStatsFromJSON jsonData)
                                     | Err _ => None
                                     end
                | _ => None
                end in
    let stats := adjust_count delta (default (mkStats token 0 0 0) read) in
    data ← lift (wrap_err "failed to marshal token holder stats" (json_Marshal (tokenHolderStatsToJSON stats)));
    wrapST "failed to set token holder stats" (batchSet key data)).

(** The key is made from [oldHolder.Balance]; a nil balance would panic. *)
Definition delete_old (h : TokenHolder) (old : option TokenHolder) : bop_st unit :=
  match old with
  | None => mret tt
  | Some o =>
      match Balance o with
      | None => fail (Panic "nil balance")
      | Some b => wrapST "failed to delete old token index"
                    (batchDelete (TokenHolderByTokenIndexKey (TokenAddress h) (HolderAddress h) b))
      end
  end.

Definition remove_holder (h : TokenHolder) (old : option TokenHolder) : bop_st unit :=
  _ ← wrapST "failed to delete holder data"
        (batchDelete (TokenHolderKey (TokenAddress h) (HolderAddress h)));
  _ ← wrapST "failed to delete holder index"
        (batchDelete (TokenHolderByHolderIndexKey (HolderAddress h) (TokenAddress h)));
  match old with Some _ => updateHolderCountInBatch (TokenAddress h) (-1) | None => mret tt end.

Definition store_holder (h : TokenHolder) (b : Z) (old : option TokenHolder) : bop_st unit :=
  data ← lift (wrap_err "failed to marshal token holder" (json_Marshal (tokenHolderToJSON h)));
  _ ← wrapST "failed to set holder data" (batchSet (TokenHolderKey (TokenAddress h) (HolderAddress h)) data);
  _ ← wrapST "failed to set token index"
        (batchSet (TokenHolderByTokenIndexKey (TokenAddress h) (HolderAddress h) b) [byte_of 1]);
  _ ← wrapST "failed to set holder index"
        (batchSet (TokenHolderByHolderIndexKey (HolderAddress h) (TokenAddress h)) [byte_of 1]);
  match old with Some _ => mret tt | None => updateHolderCountInBatch (TokenAddress h) 1 end.

Definition UpdateTokenHolder (h : TokenHolder) : op unit :=
  _ ← ensureNotClosed;
  _ ← ensureNotReadOnly;
  tryST (getTokenHolder (TokenAddress h) (HolderAddress h)) (fun r =>
    let old := match r with Ok o => Some o | Err _ => None end in
    with_batch
      (_ ← (_ ← delete_old h old;
            match Balance h with
            | None => remove_holder h old
            | Some b => if b =? 0 then remove_holder h old else store_holder h b old
            end);
       batchCommit)).

Definition UpdateTokenHolderStats (stats : TokenHolderStats) : op unit :=
  _ ← ensureNotClosed;
  _ ← ensureNotReadOnly;
  data ← lift (wrap_err "failed to marshal token holder stats" (json_Marshal (tokenHolderStatsToJSON stats)));
  wrapST "failed to set token holder stats" (dbSet (TokenHolderStatsKey (StatsToken stats)) data).

(** One side of a transfer: the record of the account, or a new one with balance 0 when it
    cannot be read, with the balance that [f] makes of its own; a nil value panics. *)
Definition move_balance (token account : Address) (block : Z) (f : Z -> option Z) : op unit :=
  if bool_decide (account = zero_address) then mret tt
  else tryST (getTokenHolder token account) (fun r =>
    let holder := match r with Ok h => h | Err _ => mkHolder token account (Some 0) block end in
    match b ← Balance holder; f b with
    | None => fail (Panic "nil pointer")
    | Some newBalance =>
        UpdateTokenHolder (mkHolder (TokenAddress holder) (HolderAddress holder) (Some newBalance) block)
    end).

Definition ProcessERC20TransferForHolders (transfer : ERC20Transfer) : op unit :=
  let token := e20_ContractAddress transfer in
  let block := e20_BlockNumber transfer in
  _ ← ensureNotClosed;
  _ ← ensureNotReadOnly;
  _ ← wrapST "failed to update sender balance"
        (move_balance token (e20_From transfer) block
           (fun b => value ← e20_Value transfer; Some (if b - value <? 0 then 0 else b - value)));
  _ ← wrapST "failed to update receiver balance"
        (move_balance token (e20_To transfer) block (fun b => value ← e20_Value transfer; Some (b + value)));
  tryST (GetTokenHolderStats token) (fun r =>
    let stats := match r with Ok s => s | Err _ => mkStats token 0 0 block end in
    wrapST "failed to update token stats"
      (UpdateTokenHolderStats
         (mkStats (StatsToken stats) (HolderCount stats) (i64 (TransferCount stats + 1)) block))).

End TokenHolders.

(** * The store as a map *)

#[export] Instance holder_JSON_laws : JSONLaws TokenHolderJSON holder_JSON.
Proof.
  apply struct_JSON_laws. intros [t h b l] (Ht & Hh & Hb & Hl). cbn in Ht, Hh, Hb, Hl.
  cbn [j_TokenAddress j_HolderAddress j_Balance j_LastUpdatedAt]. split; [json_members|]. json_fields.
  done.
Qed.

#[export] Instance stats_JSON_laws : JSONLaws TokenHolderStatsJSON stats_JSON.
Proof.
  apply struct_JSON_laws. intros [t h c l] (Ht & Hh & Hc & Hl). cbn in Ht, Hh, Hc, Hl.
  cbn [js_TokenAddress js_HolderCount js_TransferCount js_LastActivityAt]. split; [json_members|]. json_fields.
  done.
Qed.

(** What the code reads back as [h]. *)
Definition balance (h : TokenHolder) : Z := default 0 (Balance h).

Inductive holder_family := FToken (token : Address) | FHolder (holder : Address).

#[export] Instance holder_family_eq_dec : EqDecision holder_family.
Proof. solve_decision. Defined.

Section Store.
Context {E : EthHex} {P : Pebble}.
Context (HE : EthHexLaws E) (HX : EthHexReads E) (HP : PebbleLaws P).

Definition inverted (b : Z) : bytes := fmt_0x 64 (2 ^ 256 - 1 - b).

(** The two indexes of the holders. *)
Definition holder_table : table TokenHolder holder_family := mkTable
  (fun f => match f with
            | FToken token => TokenHolderByTokenIndexPrefix token
            | FHolder holder => TokenHolderByHolderIndexPrefix holder
            end)
  (fun _ => True)
  (fun h => [FToken (TokenAddress h); FHolder (HolderAddress h)])
  (fun f h => match f with
              | FToken _ => inverted (balance h) ++ lit "/" ++ Address_Hex (HolderAddress h)
              | FHolder _ => Address_Hex (TokenAddress h)
              end)
  (fun _ _ => [byte_of 1]).

#[local] Instance holder_table_laws : TableLaws holder_table.
Proof.
  split; [|done]. intros [t1|h1] [t2|h2] k1 k2 _ _ Heq; cbn [base holder_table] in Heq;
    try discriminate Heq;
    unfold TokenHolderByTokenIndexPrefix, TokenHolderByHolderIndexPrefix in Heq;
    rewrite <- !app_assoc in Heq; apply (inj (app _)) in Heq; cbn [app] in Heq;
    apply slash_app_inj in Heq as [->%Address_Hex_inj ->]; auto with go.
Qed.

Definition encoded (h : TokenHolder) : bytes := marshaled (tokenHolderToJSON h).
Definition encoded_stats (s : TokenHolderStats) : bytes := marshaled (tokenHolderStatsToJSON s).

Definition holder_key (h : TokenHolder) : Address * Address := (TokenAddress h, HolderAddress h).

Abbreviation balances := (gmap (Address * Address) TokenHolder).
Abbreviation statistics := (gmap Address TokenHolderStats).

Definition holder_valid (k : Address * Address) (h : TokenHolder) : Prop :=
  k = holder_key h /\ (exists b, Balance h = Some b /\ 0 < b) /\ is_u64 (LastUpdatedAt h).

Definition stats_valid (token : Address) (s : TokenHolderStats) : Prop :=
  StatsToken s = token /\ int_range (HolderCount s) /\ int_range (TransferCount s) /\
  is_u64 (LastActivityAt s).

Definition held (B : balances) (h : TokenHolder) : Prop := B !! holder_key h = Some h.

(** The database holds exactly these holders and statistics. *)
Record store_holds (B : balances) (S : statistics) (g : bytes -> res (option bytes)) : Prop := {
  sh_data : forall token holder, g (TokenHolderKey token holder) = Ok (encoded <$> B !! (token, holder));
  sh_index : table_holds holder_table (held B) g;
  sh_stats : forall token, g (TokenHolderStatsKey token) = Ok (encoded_stats <$> S !! token);
  sh_valid : forall k h, B !! k = Some h -> holder_valid k h;
  sh_stats_valid : forall token s, S !! token = Some s -> stats_valid token s;
}.

(** ** Reading *)

Lemma holder_roundtrip k h : holder_valid k h -> 
  json_Unmarshal (encoded h) = Ok (tokenHolderToJSON h) /\ tokenHolderFromJSON (tokenHolderToJSON h) = h.
Proof.
  intros (_ & (b & Hb & Hpos) & Hu). split.
  - apply json_roundtrip; [|done]. cbn. rewrite Hb. split_and!; auto using Address_Hex_ascii, fmt_d_ascii.
  - destruct h as [t a o l]. cbn in *. subst o. unfold tokenHolderFromJSON, tokenHolderToJSON.
    cbn [j_TokenAddress j_HolderAddress j_Balance j_LastUpdatedAt TokenAddress HolderAddress Balance LastUpdatedAt].
    rewrite !HexToAddress_Hex. pose proof (SetString_fmt b) as Hs.
    destruct (fmt_d b); [discriminate Hs|]. by rewrite Hs.
Qed.

Lemma stats_roundtrip token s : stats_valid token s ->
  json_Unmarshal (encoded_stats s) = Ok (tokenHolderStatsToJSON s) /\
  tokenHolderStatsFromJSON (tokenHolderStatsToJSON s) = s.
Proof.
  intros (_ & H1 & H2 & H3). split.
  - apply json_roundtrip; [|done]. cbn. split_and!; auto using Address_Hex_ascii.
  - destruct s. unfold tokenHolderStatsFromJSON, tokenHolderStatsToJSON. cbn. by rewrite HexToAddress_Hex.
Qed.

Lemma getTokenHolder_held B S s token holder : store_holds B S (db_get (db s)) ->
  getTokenHolder token holder s
  = (match B !! (token, holder) with Some h => Ok h | None => Err ErrNotFound end, s).
Proof.
  intros Hh. unfold getTokenHolder, mbind, ST_bind, wrapST, dbGet. rewrite (sh_data _ _ _ Hh). cbn.
  destruct (B !! (token, holder)) as [h|] eqn:Hb; [|reflexivity]. cbn.
  destruct (holder_roundtrip _ h (sh_valid _ _ _ Hh _ _ Hb)) as [Hu Hf].
  unfold lift. rewrite Hu. cbn. by rewrite Hf.
Qed.

Lemma GetTokenHolderStats_held B S s token : store_holds B S (db_get (db s)) -> closed s = false ->
  GetTokenHolderStats token s
  = (match S !! token with Some x => Ok x | None => Err ErrNotFound end, s).
Proof.
  intros Hh Hc. unfold GetTokenHolderStats, mbind, ST_bind, ensureNotClosed, wrapST, dbGet.
  rewrite Hc, (sh_stats _ _ _ Hh). cbn. destruct (S !! token) as [x|] eqn:Hs; [|reflexivity]. cbn.
  destruct (stats_roundtrip _ x (sh_stats_valid _ _ _ Hh _ _ Hs)) as [Hu Hf].
  unfold lift. rewrite Hu. cbn. by rewrite Hf.
Qed.

(** ** Updating a holder *)

Definition put_holder (h : TokenHolder) (B : balances) : balances :=
  if balance h =? 0 then delete (holder_key h) B else <[holder_key h := h]> B.

(** How many holders more an update makes. *)
Definition new_holders (h : TokenHolder) (B : balances) : Z :=
  match B !! holder_key h with
  | None => if balance h =? 0 then 0 else 1
  | Some _ => if balance h =? 0 then -1 else 0
  end.

Definition count_holders (token : Address) (delta : Z) (S : statistics) : statistics :=
  if delta =? 0 then S
  else <[token := adjust_count delta (default (mkStats token 0 0 0) (S !! token))]> S.

Definition put_stats (h : TokenHolder) (B : balances) (S : statistics) : statistics :=
  count_holders (TokenAddress h) (new_holders h B) S.

(** What the update of a holder writes. *)
Definition delete_old_ops (h : TokenHolder) (old : option TokenHolder) : list bop :=
  match old with
  | Some o => [(TokenHolderByTokenIndexKey (TokenAddress h) (HolderAddress h) (balance o), None)]
  | None => []
  end.

Definition data_key (h : TokenHolder) : bytes := TokenHolderKey (TokenAddress h) (HolderAddress h).

Definition holder_ops (h : TokenHolder) : list bop :=
  if balance h =? 0
  then [(data_key h, None); (TokenHolderByHolderIndexKey (HolderAddress h) (TokenAddress h), None)]
  else (data_key h, Some (encoded h)) :: save_ops holder_table h.

Definition count_ops (token : Address) (delta : Z) (S : statistics) : list bop :=
  if delta =? 0 then []
  else [(TokenHolderStatsKey token, encoded_stats <$> count_holders token delta S !! token)].

Definition update_ops (h : TokenHolder) (B : balances) (S : statistics) : list bop :=
  delete_old_ops h (B !! holder_key h) ++ holder_ops h ++
  count_ops (TokenAddress h) (new_holders h B) S.

Lemma adds_count B S s token delta : store_holds B S (db_get (db s)) -> delta <> 0 ->
  adds s (updateHolderCountInBatch token delta) (count_ops token delta S).
Proof.
  intros Hh Hd. unfold updateHolderCountInBatch, count_ops, count_holders.
  replace (delta =? 0) with false by lia. rewrite lookup_insert_eq. cbn [fmap option_fmap option_map].
  apply adds_read; [done|]. cbn [dbGet fst]. rewrite (sh_stats _ _ _ Hh).
  apply adds_lift. intros data Hdata. apply adds_wrap.
  match goal with |- adds _ (batchSet _ ?d) [(_, Some ?e)] => replace e with d; [apply adds_set|] end.
  unfold wrap_err in Hdata.
  destruct (json_Marshal _) as [d|] eqn:Hm in Hdata; [|done]. injection Hdata as ->.
  apply marshaled_eq in Hm. rewrite Hm. unfold encoded_stats. do 3 f_equal.
  destruct (S !! token) as [x|] eqn:Hx; [|done].
  destruct (stats_roundtrip _ x (sh_stats_valid _ _ _ Hh _ _ Hx)) as [Hu Hf].
  cbn [fmap option_fmap option_map]. unfold encoded_stats in Hu. rewrite Hu. cbn [default]. by rewrite Hf.
Qed.

(** The parts of an update that the balance and the old record decide. *)
Lemma adds_remove B S s h : store_holds B S (db_get (db s)) -> balance h = 0 ->
  adds s (remove_holder h (B !! holder_key h))
    (holder_ops h ++ count_ops (TokenAddress h) (new_holders h B) S).
Proof.
  intros Hh Hb. unfold remove_holder, holder_ops, new_holders. rewrite Hb. cbn [Z.eqb app].
  apply (adds_bind _ _ _ [_] (_ :: _)); [apply adds_wrap, adds_delete|intros _].
  apply (adds_bind _ _ _ [_] _); [apply adds_wrap, adds_delete|intros _].
  destruct (B !! holder_key h); [by apply (adds_count B) | apply adds_ret].
Qed.

Lemma adds_store B S s h b : store_holds B S (db_get (db s)) -> Balance h = Some b -> 0 < b ->
  adds s (store_holder h b (B !! holder_key h))
    (holder_ops h ++ count_ops (TokenAddress h) (new_holders h B) S).
Proof.
  intros Hh Hb Hpos. unfold store_holder, holder_ops, new_holders, save_ops, encoded.
  assert (Hbal : balance h = b) by (unfold balance; by rewrite Hb). rewrite Hbal.
  replace (b =? 0) with false by lia. cbn [families holder_table fmap list_fmap app base suffix ival].
  apply adds_lift. intros data Hdata. unfold wrap_err in Hdata.
  destruct (json_Marshal _) as [d|] eqn:Hm in Hdata; [|done]. injection Hdata as ->.
  apply marshaled_eq in Hm as ->.
  apply (adds_bind _ _ _ [_] (_ :: _)); [apply adds_wrap, adds_set|intros _].
  apply (adds_bind _ _ _ [_] (_ :: _)).
  { apply adds_wrap. replace (TokenHolderByTokenIndexPrefix (TokenAddress h) ++ _)
      with (TokenHolderByTokenIndexKey (TokenAddress h) (HolderAddress h) b); [apply adds_set|].
    unfold TokenHolderByTokenIndexKey, TokenHolderByTokenIndexPrefix, inverted.
    rewrite Hbal, <- !app_assoc. reflexivity. }
  intros _. apply (adds_bind _ _ _ [_] _).
  { apply adds_wrap. unfold TokenHolderByHolderIndexPrefix. rewrite <- !app_assoc. apply adds_set. }
  intros _. destruct (B !! holder_key h); [apply adds_ret | by apply (adds_count B)].
Qed.

Lemma adds_delete_old B S s h : store_holds B S (db_get (db s)) ->
  adds s (delete_old h (B !! holder_key h)) (delete_old_ops h (B !! holder_key h)).
Proof.
  intros Hh. unfold delete_old, delete_old_ops. destruct (B !! holder_key h) as [o|] eqn:Ho; [|apply adds_ret].
  destruct (sh_valid _ _ _ Hh _ _ Ho) as (_ & (b & Hb & _) & _). unfold balance. rewrite Hb.
  apply adds_wrap, adds_delete.
Qed.

Lemma UpdateTokenHolder_writes B S s h r s' : store_holds B S (db_get (db s)) ->
  closed s = false -> readOnly s = false -> 0 <= balance h ->
  UpdateTokenHolder h s = (r, s') ->
  s' = set_db (db s') s /\ all_or_none (db_get (db s)) (update_ops h B S) r (db_get (db s')).
Proof.
  intros Hh Hc Hr Hpos H. unfold UpdateTokenHolder in H.
  unfold mbind at 1, ST_bind in H. unfold ensureNotClosed, ensureNotReadOnly in H. rewrite Hc in H.
  unfold mbind at 1, ST_bind in H. rewrite Hr in H. unfold tryST in H.
  rewrite (getTokenHolder_held B S) in H by done.
  assert (Hold : forall x : option TokenHolder, match (match x with Some h => Ok h | None => Err ErrNotFound end) with
    | Ok o => Some o | Err _ => None end = x) by by intros [].
  fold (holder_key h) in H. rewrite Hold in H.
  refine (commit_written HP s _ _ _ _ _ _ (fun _ => or_introl eq_refl) H).
  apply adds_bind; [by eapply adds_delete_old|]. intros _.
  unfold balance in Hpos. destruct (Balance h) as [b|] eqn:Hb.
  - destruct (Z.eqb_spec b 0).
    + apply adds_remove; [done|]. unfold balance. by rewrite Hb.
    + apply adds_store; [done..|]. cbn in Hpos. lia.
  - apply adds_remove; [done|]. unfold balance. by rewrite Hb.
Qed.

(** The keys of the store are apart. *)
Lemma data_key_inj t1 h1 t2 h2 : TokenHolderKey t1 h1 = TokenHolderKey t2 h2 -> (t1, h1) = (t2, h2).
Proof. intros H. by apply (same_key HE (KTokenHolder t1 h1) (KTokenHolder t2 h2)) in H as [= -> ->]. Qed.

Lemma stats_key_inj t1 t2 : TokenHolderStatsKey t1 = TokenHolderStatsKey t2 -> t1 = t2.
Proof. intros H. by apply (same_key HE (KTokenHolderStats t1) (KTokenHolderStats t2)) in H as [= ->]. Qed.

Lemma data_not_stats t1 h t2 : TokenHolderKey t1 h <> TokenHolderStatsKey t2.
Proof. intros H. by apply (same_key HE (KTokenHolder t1 h) (KTokenHolderStats t2)) in H. Qed.

Lemma data_not_index f t h k : TokenHolderKey t h <> base holder_table f ++ k.
Proof. destruct f; discriminate. Qed.

Lemma stats_not_index f t k : TokenHolderStatsKey t <> base holder_table f ++ k.
Proof. destruct f; discriminate. Qed.

Lemma index_key_base token holder b : TokenHolderByTokenIndexKey token holder b
  = base holder_table (FToken token) ++ (inverted b ++ lit "/" ++ Address_Hex holder).
Proof.
  unfold TokenHolderByTokenIndexKey, inverted. cbn [base holder_table].
  unfold TokenHolderByTokenIndexPrefix. rewrite <- !app_assoc. reflexivity.
Qed.

Lemma holder_index_base holder token : TokenHolderByHolderIndexKey holder token
  = base holder_table (FHolder holder) ++ Address_Hex token.
Proof.
  unfold TokenHolderByHolderIndexKey. cbn [base holder_table].
  unfold TokenHolderByHolderIndexPrefix. rewrite <- !app_assoc. reflexivity.
Qed.

(** The operations of an update on the data, the statistics and the indexes. *)
Definition index_ops (h : TokenHolder) (old : option TokenHolder) : list bop :=
  delete_old_ops h old ++
  (if balance h =? 0 then [(TokenHolderByHolderIndexKey (HolderAddress h) (TokenAddress h), None)]
   else save_ops holder_table h).

Lemma last_write_index h old k :
  (forall t a, k <> TokenHolderKey t a) -> (forall t, k <> TokenHolderStatsKey t) ->
  forall token delta S,
  last_write (delete_old_ops h old ++ holder_ops h ++ count_ops token delta S) k
  = last_write (index_ops h old) k.
Proof.
  intros Hd Hs token delta S. unfold index_ops, holder_ops, count_ops, data_key. rewrite !last_write_app.
  assert (Hc : last_write (if delta =? 0 then [] else
    [(TokenHolderStatsKey token, encoded_stats <$> count_holders token delta S !! token)]) k = None).
  { destruct (delta =? 0); [done|]. cbn. case_decide; [by destruct (Hs token)|done]. }
  rewrite Hc. clear Hc. destruct (balance h =? 0); cbn [last_write];
    (destruct (decide (k = TokenHolderKey (TokenAddress h) (HolderAddress h))) as [Heq|_]; [by destruct (Hd _ _ Heq)|]).
  - by case_decide.
  - by destruct (last_write (save_ops _ _) k).
Qed.

Lemma last_write_no_index h old k : (forall f k', k <> base holder_table f ++ k') ->
  last_write (index_ops h old) k = None.
Proof.
  intros Hno. apply last_write_none. intros Hin. apply list_elem_of_fmap in Hin as ([k' v] & -> & Hin).
  cbn [fst] in Hno. unfold index_ops, delete_old_ops in Hin. apply elem_of_app in Hin as [Hin|Hin].
  - destruct old; [|by apply not_elem_of_nil in Hin]. apply list_elem_of_singleton in Hin as [= -> ->].
    exact (Hno _ _ (index_key_base _ _ _)).
  - destruct (balance h =? 0).
    + apply list_elem_of_singleton in Hin as [= -> ->]. exact (Hno _ _ (holder_index_base _ _)).
    + apply list_elem_of_fmap in Hin as (f & [= -> ->] & _). by eapply Hno.
Qed.

Lemma last_write_data h B S token holder :
  last_write (update_ops h B S) (TokenHolderKey token holder)
  = if decide ((token, holder) = holder_key h) then Some (if balance h =? 0 then None else Some (encoded h))
    else None.
Proof.
  assert (Hstats : forall d, last_write (count_ops (TokenAddress h) d S) (TokenHolderKey token holder) = None).
  { intros d. unfold count_ops. destruct (d =? 0); [done|]. cbn.
    rewrite decide_False; [done|]. apply data_not_stats. }
  pose proof (last_write_no_index h (B !! holder_key h) (TokenHolderKey token holder)
    (fun f k => data_not_index f token holder k)) as Hidx.
  unfold update_ops, index_ops, holder_ops in *. rewrite last_write_app in Hidx.
  rewrite !last_write_app, Hstats. revert Hidx. unfold data_key.
  destruct (balance h =? 0); cbn [last_write].
  - case_decide as H1; [done|]. intros ->. case_decide as H2.
    + apply data_key_inj in H2. rewrite decide_True; [done|]. done.
    + rewrite decide_False; [done|]. intros Heq. destruct H2. by injection Heq as -> ->.
  - destruct (last_write (save_ops _ _) _); [done|]. intros ->. case_decide as H2.
    + apply data_key_inj in H2. by rewrite decide_True.
    + rewrite decide_False; [done|]. intros Heq. destruct H2. by injection Heq as -> ->.
Qed.

Lemma last_write_stats h B S token :
  last_write (update_ops h B S) (TokenHolderStatsKey token)
  = if decide (new_holders h B <> 0 /\ token = TokenAddress h)
    then Some (encoded_stats <$> put_stats h B S !! token) else None.
Proof.
  pose proof (last_write_no_index h (B !! holder_key h) (TokenHolderStatsKey token)
    (fun f k => stats_not_index f token k)) as Hidx.
  unfold update_ops, index_ops, holder_ops, put_stats in *. rewrite last_write_app in Hidx.
  rewrite !last_write_app. unfold count_ops.
  assert (Hrest : last_write (if balance h =? 0
     then [(data_key h, None); (TokenHolderByHolderIndexKey (HolderAddress h) (TokenAddress h), None)]
     else (data_key h, Some (encoded h)) :: save_ops holder_table h) (TokenHolderStatsKey token) = None /\
     last_write (delete_old_ops h (B !! holder_key h)) (TokenHolderStatsKey token) = None).
  { assert (Hd : TokenHolderStatsKey token <> data_key h) by (intros Heq; by eapply data_not_stats).
    revert Hidx. destruct (balance h =? 0); cbn [last_write].
    - case_decide; [done|]. intros ->. by rewrite decide_False.
    - destruct (last_write (save_ops _ _) _); [done|]. intros ->. by rewrite decide_False. }
  destruct Hrest as [-> ->]. destruct (Z.eqb_spec (new_holders h B) 0) as [Hn|Hn]; cbn [last_write].
  - rewrite decide_False; [done|]. intros [? _]. done.
  - case_decide as H2.
    + apply stats_key_inj in H2 as ->. by rewrite decide_True.
    + rewrite decide_False; [done|]. intros [_ ->]. done.
Qed.

(** ** The indexes follow *)

Lemma held_same_key B h1 h2 : held B h1 -> held B h2 -> holder_key h1 = holder_key h2 -> h1 = h2.
Proof. unfold held. intros H1 H2 Heq. rewrite Heq in H1. congruence. Qed.

Lemma suffix_same_key f x h : f ∈ families holder_table x -> f ∈ families holder_table h ->
  suffix holder_table f x = suffix holder_table f h -> holder_key x = holder_key h.
Proof.
  cbn [families holder_table]. unfold holder_key. rewrite !elem_of_cons, elem_of_nil.
  intros [->|[->|[]]] [[= H1]|[[= H1]|[]]]; cbn [suffix holder_table]; rewrite H1.
  - unfold inverted. cbn [app]. intros Hs. apply slash_app_inj in Hs as [_ Hs]; auto with go.
    apply Address_Hex_inj in Hs. by rewrite Hs.
  - intros Hs. apply Address_Hex_inj in Hs. by rewrite Hs.
Qed.

Lemma remove_ops_keys o h k : holder_key o = holder_key h ->
  last_write (remove_ops holder_table o) k
  = last_write (delete_old_ops h (Some o) ++ [(TokenHolderByHolderIndexKey (HolderAddress h) (TokenAddress h), None)]) k.
Proof.
  intros Heq. injection Heq as Ht Ha. unfold remove_ops, delete_old_ops. cbn [families holder_table fmap list_fmap app].
  rewrite index_key_base, holder_index_base. cbn [suffix holder_table]. by rewrite Ht, Ha.
Qed.

Lemma held_put B h x : held (put_holder h B) x <->
  (x = h /\ balance h <> 0) \/ (held B x /\ holder_key x <> holder_key h).
Proof.
  unfold held, put_holder. destruct (Z.eqb_spec (balance h) 0) as [Hb|Hb].
  - rewrite lookup_delete_Some. split; [intros [H1 H2]; right; split; [done|congruence]|].
    intros [[-> ?]|[H1 H2]]; [done|]. split; [congruence|done].
  - rewrite lookup_insert_Some. split.
    + intros [[H1 ->]|[H1 H2]]; [by left|right]. split; [done|congruence].
    + intros [[-> _]|[H1 H2]]; [by left|right]. split; [congruence|done].
Qed.

Lemma index_written B h g : (forall k x, B !! k = Some x -> k = holder_key x) ->
  table_holds holder_table (held B) g ->
  table_holds holder_table (held (put_holder h B)) (written g (index_ops h (B !! holder_key h))).
Proof.
  intros Hkey Hh. pose proof (held_put B h) as Hput. set (B' := put_holder h B) in *. unfold index_ops.
  assert (Hfresh : fresh holder_table (fun x => held B x /\ holder_key x <> holder_key h) h).
  { intros x f [_ Hne] Hx Hf Hs. by destruct Hne; eapply suffix_same_key. }
  destruct (B !! holder_key h) as [o|] eqn:Ho.
  - pose proof (Hkey _ _ Ho) as Hok.
    assert (Hrem : table_holds holder_table (fun x => held B x /\ holder_key x <> holder_key h)
      (written g (remove_ops holder_table o))).
    { eapply holds_equiv; [|apply (holds_remove _ _ (held B)); [done|]].
      - intros x. cbn beta. split; (intros [Hx Hne]; split; [done|contradict Hne]).
        + eapply held_same_key; [done| |congruence]. unfold held. by rewrite <- Hok.
        + by subst.
      - unfold held. by rewrite <- Hok. }
    destruct (Z.eqb_spec (balance h) 0) as [Hb|Hb].
    + apply (holds_ext _ _ (written g (remove_ops holder_table o))).
      { intros f k _. unfold written. by rewrite (remove_ops_keys o h). }
      revert Hrem. apply holds_equiv. intros x. rewrite Hput. intuition congruence.
    + apply (holds_ext _ _ (written (written g (remove_ops holder_table o)) (save_ops holder_table h))).
      { intros f k _. rewrite written_app. unfold written. rewrite !last_write_app.
        destruct (last_write (save_ops holder_table h) (base holder_table f ++ k)) as [w|] eqn:Hw; [done|].
        rewrite (remove_ops_keys o h) by done. rewrite last_write_app. cbn [last_write].
        case_decide as Heq; [|done]. exfalso. rewrite Heq, holder_index_base in Hw.
        assert (Hs : last_write (save_ops holder_table h)
          (base holder_table (FHolder (HolderAddress h)) ++ Address_Hex (TokenAddress h)) = Some (Some [byte_of 1])).
        { apply (last_write_save holder_table _). exists (FHolder (HolderAddress h)).
          split_and!; [right; by left|done..]. }
        congruence. }
      eapply holds_equiv; [|apply holds_add; [exact _|exact Hrem|done]].
      intros x. rewrite Hput. unfold add. tauto.
  - assert (Hnone : forall x, held B x -> holder_key x <> holder_key h)
      by (unfold held; intros x Hx Heq; congruence).
    destruct (Z.eqb_spec (balance h) 0) as [Hb|Hb].
    + cbn [delete_old_ops app]. rewrite holder_index_base.
      eapply holds_equiv; [|apply holds_delete; [exact _|done|exact Hh|]].
      * intros x. rewrite Hput. pose proof (Hnone x). tauto.
      * intros x Hx Hf Hs. eapply Hnone; [done|]. eapply (suffix_same_key (FHolder (HolderAddress h))); [done| |done].
        right; by left.
    + cbn [delete_old_ops app]. eapply holds_equiv; [|apply holds_add; [exact _|exact Hh|]].
      * intros x. rewrite Hput. unfold add. pose proof (Hnone x). tauto.
      * intros x f Hx. apply Hfresh. split; [done|auto].
Qed.

Definition updatable (h : TokenHolder) : Prop := 0 <= balance h /\ is_u64 (LastUpdatedAt h).

Lemma adjust_count_range d x : int_range (HolderCount (adjust_count d x)).
Proof.
  cbn [HolderCount adjust_count]. unfold int_range.
  pose proof (i64_range (HolderCount x + d)). lia.
Qed.

Lemma put_stats_valid h B S : (forall token x, S !! token = Some x -> stats_valid token x) ->
  forall token x, put_stats h B S !! token = Some x -> stats_valid token x.
Proof.
  intros Hs token x. unfold put_stats, count_holders. destruct (_ =? 0); [apply Hs|].
  rewrite lookup_insert_Some. intros [[<- <-]|[_ Hx]]; [|by apply Hs].
  destruct (S !! TokenAddress h) as [y|] eqn:Hy.
  - destruct (Hs _ _ Hy) as (H1 & H2 & H3 & H4). split_and!; try done. apply adjust_count_range.
  - split_and!; try done; apply adjust_count_range.
Qed.

Lemma store_ext B S g g' : (forall k, g' k = g k) -> store_holds B S g -> store_holds B S g'.
Proof.
  intros Hg [H1 H2 H3 H4 H5]. split; [intros; by rewrite Hg| |intros; by rewrite Hg|done..].
  by apply (holds_ext _ _ g).
Qed.

Lemma store_written B S g h : store_holds B S g -> updatable h ->
  store_holds (put_holder h B) (put_stats h B S) (written g (update_ops h B S)).
Proof.
  intros [Hd Hi Hs Hv Hsv] [Hpos Hu]. split.
  - intros token holder. unfold written. rewrite last_write_data, Hd. unfold put_holder.
    case_decide as Hk; destruct (balance h =? 0); rewrite ?Hk.
    + by rewrite lookup_delete_eq.
    + by rewrite lookup_insert_eq.
    + by rewrite lookup_delete_ne.
    + by rewrite lookup_insert_ne.
  - apply (holds_ext _ _ (written g (index_ops h (B !! holder_key h)))).
    + intros f k _. unfold written, update_ops. rewrite last_write_index; [done| |];
        intros; [by intros Heq; eapply data_not_index|by intros Heq; eapply stats_not_index].
    + apply index_written; [|done]. intros k x Hx. apply (Hv k x Hx).
  - intros token. unfold written. rewrite last_write_stats, Hs. case_decide as Hk; [done|].
    unfold put_stats, count_holders. destruct (Z.eqb_spec (new_holders h B) 0); [done|].
    rewrite lookup_insert_ne; [done|]. intros Heq. by destruct Hk.
  - intros k x. unfold put_holder. destruct (Z.eqb_spec (balance h) 0) as [Hb|Hb].
    + rewrite lookup_delete_Some. intros [_ Hx]. by apply Hv.
    + rewrite lookup_insert_Some. intros [[<- <-]|[_ Hx]]; [|by apply Hv].
      split_and!; [done| |done]. unfold balance in *. destruct (Balance h) as [b|]; [|done].
      exists b. cbn in *. split; [done|lia].
  - by apply put_stats_valid.
Qed.

(** An update happens as a whole or not at all. *)
Lemma UpdateTokenHolder_refines B S s h r s' : store_holds B S (db_get (db s)) ->
  closed s = false -> readOnly s = false -> updatable h ->
  UpdateTokenHolder h s = (r, s') -> s' = set_db (db s') s /\
  match r with
  | Ok _ => store_holds (put_holder h B) (put_stats h B S) (db_get (db s'))
  | Err _ => store_holds B S (db_get (db s'))
  end.
Proof.
  intros Hh Hc Hr Hup H. destruct (UpdateTokenHolder_writes B S s h r s') as [Hs Hall]; [done..|apply Hup|done|].
  split; [done|]. destruct r; (eapply store_ext; [exact Hall|]); [by apply store_written | done].
Qed.

(** ** Transfers *)

Definition holders_state : Type := balances * statistics.

Definition balance_of (B : balances) (token account : Address) : Z :=
  match B !! (token, account) with Some h => balance h | None => 0 end.

(** The account's balance becomes [b]; the zero address holds nothing. *)
Definition set_balance (token account : Address) (block b : Z) (st : holders_state) : holders_state :=
  if bool_decide (account = zero_address) then st
  else let h := mkHolder token account (Some b) block in
       (put_holder h (fst st), put_stats h (fst st) (snd st)).

Definition debit (t : ERC20Transfer) (v : Z) (st : holders_state) : holders_state :=
  let token := e20_ContractAddress t in
  set_balance token (e20_From t) (e20_BlockNumber t)
    (Z.max 0 (balance_of (fst st) token (e20_From t) - v)) st.

Definition credit (t : ERC20Transfer) (v : Z) (st : holders_state) : holders_state :=
  let token := e20_ContractAddress t in
  set_balance token (e20_To t) (e20_BlockNumber t) (balance_of (fst st) token (e20_To t) + v) st.

Definition count_transfer (t : ERC20Transfer) (st : holders_state) : holders_state :=
  let token := e20_ContractAddress t in
  let stats := default (mkStats token 0 0 (e20_BlockNumber t)) (snd st !! token) in
  (fst st, <[token := mkStats token (HolderCount stats) (i64 (TransferCount stats + 1)) (e20_BlockNumber t)]> (snd st)).

Definition transfer (t : ERC20Transfer) (v : Z) (st : holders_state) : holders_state :=
  count_transfer t (credit t v (debit t v st)).

Definition state_holds (st : holders_state) (s : PebbleStorage) : Prop :=
  store_holds (fst st) (snd st) (db_get (db s)) /\ closed s = false /\ readOnly s = false.

Lemma state_holds_set st s s' : s' = set_db (db s') s -> closed s = false -> readOnly s = false ->
  store_holds (fst st) (snd st) (db_get (db s')) -> state_holds st s'.
Proof. intros Heq Hc Hr Hh. split; [done|]. rewrite Heq. done. Qed.

Lemma balance_of_nonneg (st : holders_state) token account :
  (forall k h, fst st !! k = Some h -> holder_valid k h) -> 0 <= balance_of (fst st) token account.
Proof.
  intros Hv. unfold balance_of. destruct (fst st !! (token, account)) as [h|] eqn:Hx; [|done].
  destruct (Hv _ _ Hx) as (_ & (b & Hb & Hpos) & _). unfold balance. rewrite Hb. cbn. lia.
Qed.

Lemma balance_nonneg st s token account : state_holds st s -> 0 <= balance_of (fst st) token account.
Proof. intros [Hh _]. apply balance_of_nonneg. intros k h. apply (sh_valid _ _ _ Hh). Qed.

Lemma move_balance_refines st s token account block f b' r s' : state_holds st s ->
  is_u64 block -> f (balance_of (fst st) token account) = Some b' -> 0 <= b' ->
  move_balance token account block f s = (r, s') ->
  state_holds (match r with Ok _ => set_balance token account block b' st | Err _ => st end) s'.
Proof.
  intros Hst Hu Hf Hpos. pose proof Hst as (Hh & Hc & Hr). unfold move_balance, set_balance.
  case_bool_decide as Hz; [by intros [= <- <-]|]. unfold tryST. rewrite (getTokenHolder_held (fst st) (snd st)) by done.
  assert (Hup : forall h, h = mkHolder token account (Some b') block -> UpdateTokenHolder h s = (r, s') ->
    state_holds (match r with Ok _ => (put_holder h (fst st), put_stats h (fst st) (snd st)) | Err _ => st end) s').
  { intros h -> H. apply (UpdateTokenHolder_refines (fst st) (snd st)) in H as [Hs Hh']; [|done..].
    destruct r; by eapply state_holds_set. }
  unfold balance_of in Hf. destruct (fst st !! (token, account)) as [h|] eqn:Hx.
  - destruct (sh_valid _ _ _ Hh _ _ Hx) as ([= -> ->] & (b & Hb & _) & _).
    unfold balance in Hf. rewrite Hb in *. cbn in Hf |- *. rewrite Hf. by apply Hup.
  - cbn in Hf |- *. rewrite Hf. by apply Hup.
Qed.

Lemma stats_written B S g token x : store_holds B S g -> stats_valid token x ->
  store_holds B (<[token := x]> S) (written g [(TokenHolderStatsKey token, Some (encoded_stats x))]).
Proof.
  intros [Hd Hi Hs Hv Hsv] Hx. unfold written. cbn [last_write]. split; [| | |done|].
  - intros t a. rewrite decide_False; [done|]. apply data_not_stats.
  - revert Hi. apply holds_ext. intros f k _. rewrite decide_False; [done|].
    intros Heq. by eapply stats_not_index.
  - intros t. case_decide as Heq.
    + apply stats_key_inj in Heq as ->. by rewrite lookup_insert_eq.
    + rewrite lookup_insert_ne; [done|]. by intros ->.
  - intros t y. rewrite lookup_insert_Some. intros [[<- <-]|[_ Hy]]; [done|by apply Hsv].
Qed.

Lemma UpdateTokenHolderStats_refines st s x r s' : state_holds st s -> stats_valid (StatsToken x) x ->
  UpdateTokenHolderStats x s = (r, s') ->
  state_holds (match r with Ok _ => (fst st, <[StatsToken x := x]> (snd st)) | Err _ => st end) s'.
Proof.
  intros (Hh & Hc & Hr) Hx. unfold UpdateTokenHolderStats, ensureNotClosed, ensureNotReadOnly.
  unfold mbind at 1, ST_bind. rewrite Hc. unfold mbind at 1, ST_bind. rewrite Hr.
  unfold mbind, ST_bind, lift, wrap_err. destruct (json_Marshal _) as [d|] eqn:Hm; [|by intros [= <- <-]].
  apply marshaled_eq in Hm as ->. fold (encoded_stats x). unfold wrapST, dbSet.
  destruct (dbWrite _ s) as [r1 s1] eqn:Hw. intros [= <- <-].
  apply (dbWrite_all_or_none HP) in Hw as [Hs Hall]. apply (state_holds_set _ s); [done..|].
  destruct r1; (eapply store_ext; [exact Hall|]); [by apply stats_written|done].
Qed.

Lemma GetTokenHolderStats_state st s token : state_holds st s ->
  GetTokenHolderStats token s
  = (match snd st !! token with Some x => Ok x | None => Err ErrNotFound end, s).
Proof. intros (Hh & Hc & _). by apply (GetTokenHolderStats_held (fst st) (snd st)). Qed.

Lemma count_transfer_refines st s t r s' : state_holds st s -> is_u64 (e20_BlockNumber t) ->
  tryST (GetTokenHolderStats (e20_ContractAddress t)) (fun r =>
    let stats := match r with Ok s => s | Err _ => mkStats (e20_ContractAddress t) 0 0 (e20_BlockNumber t) end in
    wrapST "failed to update token stats"
      (UpdateTokenHolderStats
         (mkStats (StatsToken stats) (HolderCount stats) (i64 (TransferCount stats + 1)) (e20_BlockNumber t)))) s
  = (r, s') ->
  state_holds (match r with Ok _ => count_transfer t st | Err _ => st end) s'.
Proof.
  intros Hst Hu. unfold tryST. rewrite (GetTokenHolderStats_state st) by done.
  set (old := default (mkStats (e20_ContractAddress t) 0 0 (e20_BlockNumber t)) (snd st !! e20_ContractAddress t)).
  assert (Hold : StatsToken old = e20_ContractAddress t /\ int_range (HolderCount old)).
  { subst old. destruct (snd st !! e20_ContractAddress t) as [x|] eqn:Hx; [|done].
    destruct Hst as [Hh _]. destruct (sh_stats_valid _ _ _ Hh _ _ Hx) as (H1 & H2 & _). done. }
  replace (match match snd st !! _ with Some _ => _ | None => _ end with Ok s0 => s0 | Err _ => _ end)
    with old by (subst old; by destruct (snd st !! _)).
  cbv zeta. unfold wrapST. destruct (UpdateTokenHolderStats _ s) as [r1 s1] eqn:H. intros [= <- <-].
  apply (UpdateTokenHolderStats_refines st) in H; [|done|].
  - destruct r1; [|done]. unfold count_transfer. fold old. cbn [StatsToken] in H. by rewrite (proj1 Hold) in H.
  - split_and!; [done|apply Hold|apply i64_range|done].
Qed.

(** C0: the store of token holders implements the balances. Processing a transfer of [v] takes
    it from the sender, never below zero, gives it to the receiver and counts the transfer;
    the indexes and statistics stay those of the balances. The three writes are separate: after
    an error the store is as it was before the transfer, after its first or its second step. *)
Theorem ProcessERC20Transfer_refines st s t v r s' : state_holds st s ->
  e20_Value t = Some v -> 0 <= v -> is_u64 (e20_BlockNumber t) ->
  ProcessERC20TransferForHolders t s = (r, s') ->
  match r with
  | Ok _ => state_holds (transfer t v st) s'
  | Err _ => exists st', st' ∈ [st; debit t v st; credit t v (debit t v st)] /\ state_holds st' s'
  end.
Proof.
  intros Hst Hv Hpos Hu H. pose proof Hst as (_ & Hc & Hr).
  unfold ProcessERC20TransferForHolders, ensureNotClosed, ensureNotReadOnly in H.
  unfold mbind at 1, ST_bind in H. rewrite Hc in H. unfold mbind at 1, ST_bind in H. rewrite Hr in H.
  unfold mbind at 1, ST_bind, wrapST at 1 in H. cbv zeta in H.
  destruct (move_balance _ (e20_From t) _ _ s) as [r1 s1] eqn:H1.
  eapply (move_balance_refines st) with
    (b' := Z.max 0 (balance_of (fst st) (e20_ContractAddress t) (e20_From t) - v)) in H1;
    [|done|done| |lia].
  2:{ rewrite Hv. cbn. f_equal. destruct (Z.ltb_spec (balance_of (fst st) (e20_ContractAddress t) (e20_From t) - v) 0); lia. }
  fold (debit t v st) in H1. destruct r1 as [[]|e]; cbn [wrap_err] in H.
  2:{ injection H as <- <-. exists st. split; [by left|done]. }
  unfold mbind at 1, ST_bind, wrapST at 1 in H.
  destruct (move_balance _ (e20_To t) _ _ s1) as [r2 s2] eqn:H2.
  eapply (move_balance_refines (debit t v st)) with (b' := balance_of (fst (debit t v st)) (e20_ContractAddress t) (e20_To t) + v) in H2;
    [|done|done|by rewrite Hv|].
  2:{ pose proof (balance_nonneg (debit t v st) s1 (e20_ContractAddress t) (e20_To t) H1). lia. }
  fold (credit t v (debit t v st)) in H2. destruct r2 as [[]|e]; cbn [wrap_err] in H.
  2:{ injection H as <- <-. exists (debit t v st). split; [right; by left|done]. }
  apply (count_transfer_refines (credit t v (debit t v st))) in H; [|done..].
  destruct r; [done|]. exists (credit t v (debit t v st)). split; [do 2 right; by left|done].
Qed.

(** ** What the balances add up to *)

(** The sum of [w] over the holders of a token: their balances, or how many they are. *)
Definition total (w : TokenHolder -> Z) (token : Address) (B : balances) : Z :=
  map_fold (fun k h acc => (if decide (fst k = token) then w h else 0) + acc) 0 B.

Lemma total_insert w token B k h : B !! k = None ->
  total w token (<[k := h]> B) = (if decide (fst k = token) then w h else 0) + total w token B.
Proof.
  intros Hk. unfold total. rewrite map_fold_insert_L; [done| |done]. intros. lia.
Qed.

Lemma total_delete w token B k :
  total w token (delete k B)
  = total w token B - match B !! k with
                      | Some h => if decide (fst k = token) then w h else 0
                      | None => 0
                      end.
Proof.
  destruct (B !! k) as [h|] eqn:Hk.
  - rewrite <- (insert_delete_id B k h Hk) at 2. rewrite total_insert by apply lookup_delete_eq. lia.
  - rewrite delete_id by done. lia.
Qed.

Lemma total_put w token B h : w h = 0 \/ balance h <> 0 ->
  total w token (put_holder h B)
  = total w token B + (if decide (TokenAddress h = token)
                       then w h - match B !! holder_key h with Some o => w o | None => 0 end else 0).
Proof.
  intros Hw. unfold put_holder. destruct (Z.eqb_spec (balance h) 0).
  - rewrite total_delete. cbn [fst holder_key]. destruct Hw as [->|?]; [|done].
    destruct (B !! _); case_decide; lia.
  - rewrite <- insert_delete_eq, total_insert by apply lookup_delete_eq. rewrite total_delete.
    cbn [fst holder_key]. destruct (B !! _); case_decide; lia.
Qed.

Definition one_holder (h : TokenHolder) : Z := if balance h =? 0 then 0 else 1.
Definition supply (token : Address) (st : holders_state) : Z := total balance token (fst st).
Definition holders (token : Address) (st : holders_state) : Z := total one_holder token (fst st).

(** The statistics count the holders. *)
Definition counts_match (st : holders_state) : Prop :=
  forall token, HolderCount (default (mkStats token 0 0 0) (snd st !! token)) = holders token st.

Definition holders_valid (st : holders_state) : Prop :=
  forall k h, fst st !! k = Some h -> holder_valid k h.

Lemma state_holds_valid st s : state_holds st s -> holders_valid st.
Proof. intros [Hh _] k h. apply (sh_valid _ _ _ Hh). Qed.

Lemma one_holder_held st k h : holders_valid st -> fst st !! k = Some h -> one_holder h = 1.
Proof.
  intros Hv Hh. destruct (Hv _ _ Hh) as (_ & (b & Hb & Hpos) & _). unfold one_holder, balance. rewrite Hb.
  cbn. destruct (Z.eqb_spec b 0); lia.
Qed.

Lemma holders_bound token st : holders_valid st -> 0 <= holders token st <= Z.of_nat (size (fst st)).
Proof.
  unfold holders, holders_valid. generalize (fst st) as B. intros B Hv.
  assert (Hv1 : forall k h, B !! k = Some h -> one_holder h = 1)
    by (intros k h Hh; by apply (one_holder_held (B, ∅) k)).
  clear Hv. induction B as [|k h B Hk IH] using map_ind; [done|].
  rewrite total_insert, map_size_insert_None by done. rewrite (Hv1 k h) by apply lookup_insert_eq.
  assert (H : 0 <= total one_holder token B <= Z.of_nat (size B)); [|case_decide; lia].
  apply IH. intros k' h' Hk'. apply (Hv1 k'). rewrite lookup_insert_ne; [done|]. congruence.
Qed.

Lemma put_size h B : (size (put_holder h B) <= S (size B))%nat.
Proof.
  unfold put_holder. destruct (_ =? 0).
  - rewrite map_size_delete. destruct (B !! holder_key h); cbn; lia.
  - rewrite map_size_insert. destruct (B !! holder_key h); cbn; lia.
Qed.

Lemma set_balance_size token account block b st :
  (size (fst (set_balance token account block b st)) <= S (size (fst st)))%nat.
Proof. unfold set_balance. case_bool_decide; cbn [fst]; [lia|apply put_size]. Qed.

Section SetBalance.
Context (token account : Address) (block b : Z) (st : holders_state).
Context (Hvalid : holders_valid st) (Hb : 0 <= b) (Hu : is_u64 block).

#[local] Abbreviation st' := (set_balance token account block b st).
#[local] Abbreviation live := (account <> zero_address).

Lemma set_balance_valid : holders_valid st'.
Proof.
  unfold set_balance. case_bool_decide; [done|]. intros k x. cbn [fst]. unfold put_holder. cbn [balance Balance].
  case_match eqn:Hz; [rewrite lookup_delete_Some; intros [_ ?]; by apply Hvalid|].
  rewrite lookup_insert_Some. intros [[<- <-]|[_ ?]]; [|by apply Hvalid].
  split_and!; [done| |done]. exists b. split; [done|]. cbn in Hz. lia.
Qed.

Lemma set_balance_of t a : balance_of (fst st') t a
  = if decide (live /\ (t, a) = (token, account)) then b else balance_of (fst st) t a.
Proof.
  unfold set_balance. case_bool_decide as Hz; [rewrite decide_False by tauto; done|]. cbn [fst].
  unfold balance_of, put_holder. change (holder_key _) with (token, account).
  change (balance (mkHolder token account (Some b) block)) with b.
  destruct (decide _) as [[_ Heq]|Hne]; destruct (Z.eqb_spec b 0).
  - rewrite Heq, lookup_delete_eq. lia.
  - by rewrite Heq, lookup_insert_eq.
  - rewrite lookup_delete_ne; [done|]. intros Heq. destruct Hne. by split.
  - rewrite lookup_insert_ne; [done|]. intros Heq. destruct Hne. by split.
Qed.

Lemma set_balance_supply t : supply t st'
  = supply t st + (if decide (live /\ t = token) then b - balance_of (fst st) token account else 0).
Proof.
  unfold set_balance. case_bool_decide as Hz; [rewrite decide_False by tauto; lia|].
  unfold supply. cbn [fst]. rewrite total_put by (cbn; lia). cbn [holder_key TokenAddress HolderAddress].
  unfold balance_of. destruct (decide (token = t)) as [<-|Hne].
  - rewrite decide_True by done. cbn. destruct (fst st !! _); lia.
  - rewrite decide_False; [done|]. intros [_ ->]. done.
Qed.

Lemma new_holders_weight h B : (forall k x, B !! k = Some x -> one_holder x = 1) ->
  new_holders h B = one_holder h - match B !! holder_key h with Some o => one_holder o | None => 0 end.
Proof.
  intros Hone. unfold new_holders. destruct (B !! holder_key h) as [o|] eqn:Ho; [rewrite (Hone _ _ Ho)|];
    unfold one_holder; by destruct (balance h =? 0).
Qed.

(** Fewer holders than an int64 can count. *)
Lemma set_balance_counts : Z.of_nat (size (fst st)) < 2 ^ 63 - 1 -> counts_match st -> counts_match st'.
Proof.
  unfold set_balance. case_bool_decide as Hz; [done|]. intros Hsize Hcount t.
  set (h := mkHolder token account (Some b) block).
  assert (Hholders : holders t (put_holder h (fst st), put_stats h (fst st) (snd st))
    = holders t st + (if decide (token = t) then new_holders h (fst st) else 0)).
  { unfold holders. cbn [fst]. rewrite total_put.
    - rewrite new_holders_weight; [done|]. intros k x Hx. by eapply one_holder_held.
    - unfold one_holder. destruct (Z.eqb_spec (balance h) 0); tauto. }
  rewrite Hholders. pose proof (Hcount t) as Ht. cbn [snd].
  pose proof (holders_bound t st Hvalid) as Hbound. rewrite <- Ht in Hbound |- *.
  assert (Hnext : 0 <= holders t (put_holder h (fst st), put_stats h (fst st) (snd st))).
  { eapply holders_bound. pose proof set_balance_valid as Hv. unfold set_balance in Hv.
    by rewrite bool_decide_eq_false_2 in Hv. }
  rewrite Hholders, <- Ht in Hnext. unfold put_stats, count_holders. change (TokenAddress h) with token.
  destruct (Z.eqb_spec (new_holders h (fst st)) 0) as [Hn|Hn]; [case_decide; lia|].
  destruct (decide (token = t)) as [<-|Hne]; [|rewrite lookup_insert_ne by done; lia].
  rewrite lookup_insert_eq. assert (Hd : forall d x : TokenHolderStats, default d (Some x) = x) by done.
  rewrite Hd. cbn [HolderCount adjust_count].
  assert (new_holders h (fst st) <= 1) by (unfold new_holders; repeat case_match; lia).
 rewrite i64_id by lia. lia.
Qed.

Lemma set_balance_step : Z.of_nat (size (fst st)) < 2 ^ 63 - 1 -> counts_match st ->
  holders_valid st' /\ counts_match st' /\ (size (fst st') <= S (size (fst st)))%nat /\
  (forall t a, balance_of (fst st') t a
     = if decide (live /\ (t, a) = (token, account)) then b else balance_of (fst st) t a) /\
  forall t, supply t st'
    = supply t st + (if decide (live /\ t = token) then b - balance_of (fst st) token account else 0).
Proof.
  intros Hs Hc. split_and!; auto using set_balance_valid, set_balance_counts, set_balance_size,
    set_balance_of, set_balance_supply.
Qed.

End SetBalance.

(** ** The counts and the supply through a transfer *)

Definition enough (t : ERC20Transfer) (v : Z) (st : holders_state) : Prop :=
  e20_From t = zero_address \/ v <= balance_of (fst st) (e20_ContractAddress t) (e20_From t).

Definition moved (t : ERC20Transfer) (v : Z) (token account : Address) : Z :=
  if decide (token = e20_ContractAddress t /\ account <> zero_address)
  then (if decide (account = e20_To t) then v else 0) - (if decide (account = e20_From t) then v else 0)
  else 0.

(** The cases of who the sender, the receiver and the account are; [H] says what the sender has
    left. *)
#[local] Ltac accounts t H :=
  clear -H; revert H; generalize (e20_From t) as from, (e20_To t) as to; intros from to H;
  repeat case_decide; destruct_and?; simplify_eq; try specialize (H ltac:(done)); try lia; exfalso; tauto.

(** C0: the balances are conserved. A transfer the sender can pay moves its value and nothing
    else: every account's balance changes by what it got and gave, the balances of a token add
    up to the same unless the transfer mints (from the zero address) or burns (to it), and the
    holder count of the statistics stays the number of holders, while that is an int. *)
Theorem transfer_conserves t v st : holders_valid st -> 0 <= v -> is_u64 (e20_BlockNumber t) ->
  enough t v st -> Z.of_nat (size (fst st)) < 2 ^ 63 - 2 -> counts_match st ->
  let st' := transfer t v st in
  holders_valid st' /\ counts_match st' /\
  (forall token account, balance_of (fst st') token account
     = balance_of (fst st) token account + moved t v token account) /\
  forall token, supply token st' = supply token st
    + (if decide (token = e20_ContractAddress t)
       then (if decide (e20_From t = zero_address) then v else 0)
            - (if decide (e20_To t = zero_address) then v else 0)
       else 0).
Proof.
  intros Hv Hpos Hu Hen Hsize Hcount. cbv zeta. unfold enough in Hen. set (token0 := e20_ContractAddress t) in *.
  set (b1 := Z.max 0 (balance_of (fst st) token0 (e20_From t) - v)).
  assert (Hb1 : 0 <= b1) by lia.
  destruct (set_balance_step token0 (e20_From t) (e20_BlockNumber t) b1 st Hv Hb1 Hu ltac:(lia) Hcount)
    as (Hv1 & Hc1 & Hs1 & Hof1 & Hsup1).
  set (st1 := set_balance token0 (e20_From t) (e20_BlockNumber t) b1 st) in *.
  set (b2 := balance_of (fst st1) token0 (e20_To t) + v).
  assert (Hb2 : 0 <= b2) by (pose proof (balance_of_nonneg st1 token0 (e20_To t) Hv1); lia).
  destruct (set_balance_step token0 (e20_To t) (e20_BlockNumber t) b2 st1 Hv1 Hb2 Hu ltac:(lia) Hc1)
    as (Hv2 & Hc2 & _ & Hof2 & Hsup2).
  change (transfer t v st) with (count_transfer t (set_balance token0 (e20_To t) (e20_BlockNumber t) b2 st1)).
  set (st2 := set_balance token0 (e20_To t) (e20_BlockNumber t) b2 st1) in *.
  assert (Hb1' : e20_From t <> zero_address -> b1 = balance_of (fst st) token0 (e20_From t) - v)
    by (destruct Hen; [done|lia]).
  split_and!.
  - done.
  - intros token. specialize (Hc2 token). unfold holders in *. cbn [count_transfer fst snd]. fold token0. rewrite <- Hc2.
    destruct (decide (token0 = token)) as [<-|Hne]; [rewrite lookup_insert_eq|by rewrite lookup_insert_ne].
    destruct (snd st2 !! token0); reflexivity.
  - intros token account. cbn [count_transfer fst]. rewrite Hof2. subst b2. rewrite !Hof1. unfold moved. fold token0.
    clearbody b1 token0. accounts t Hb1'.
  - intros token. change (supply token (count_transfer t st2)) with (supply token st2). rewrite Hsup2, Hsup1. fold token0. subst b2.
    rewrite !Hof1.
    clearbody b1 token0. accounts t Hb1'.
Qed.

(** ** The listings *)

Lemma last_address_entry p a v : last_address (p ++ lit "/" ++ Address_Hex a, v) = Some a.
Proof.
  unfold last_address. cbn [fst]. change (lit "/" ++ Address_Hex a) with (slash :: Address_Hex a).
  rewrite Split_slash_last by auto with go. rewrite length_app. cbn [length].
  destruct (Nat.ltb_spec (length (Split_slash p) + 1) 2) as [Hlt|_].
  - destruct (Split_slash p) eqn:Hp; [by destruct (Split_slash_nonempty p)|cbn in Hlt; lia].
  - rewrite last_snoc. cbn. by rewrite HexToAddress_Hex.
Qed.

Definition small_balances (st : holders_state) : Prop :=
  forall k h, fst st !! k = Some h -> balance h < 2 ^ 256.

(** The larger balance first, then the smaller text of the address. *)
Definition more_first (h1 h2 : TokenHolder) : Prop :=
  balance h2 < balance h1 \/
  (balance h1 = balance h2 /\ bytes_ltb (Address_Hex (HolderAddress h1)) (Address_Hex (HolderAddress h2)) = true).

(** The records of a scan of one of the two indexes. *)
Lemma holder_scan st s f : state_holds st s -> forall x entries s',
  wrapST x (dbScan (base holder_table f) (prefixUpperBound (base holder_table f))) s = (Ok entries, s') ->
  s' = s /\ exists l, entries = entry holder_table f <$> l /\
    listing holder_table (held (fst st)) f (fun _ => True) l.
Proof.
  intros (Hh & _) x entries s' H. apply wrapST_ok in H. rewrite <- (app_nil_r (base holder_table f)) in H.
  eapply (upper_bound_listing HP holder_table (held (fst st))) in H as [-> (l & -> & Hl)];
    [|apply (sh_index _ _ _ Hh)|done].
  split; [done|]. exists l. split; [done|]. revert Hl.
  apply listing_weaken. intros h _ _. split; [done|intros _]. apply HasPrefix_spec. by eexists.
Qed.

Lemma suffix_more_first token h1 h2 : 0 <= balance h1 < 2 ^ 256 -> 0 <= balance h2 < 2 ^ 256 ->
  suffix_lt holder_table (FToken token) h1 h2 -> more_first h1 h2.
Proof.
  intros Hb1 Hb2. unfold suffix_lt, more_first. cbn [suffix holder_table]. unfold inverted.
  destruct (Z.lt_trichotomy (balance h1) (balance h2)) as [Hlt|[Heq|Hgt]]; [|rewrite Heq, !bytes_ltb_app; auto|auto].
  intros Hs. exfalso.
  assert (Hrev : bytes_ltb (fmt_0x 64 (2 ^ 256 - 1 - balance h2) ++ lit "/" ++ Address_Hex (HolderAddress h2))
    (fmt_0x 64 (2 ^ 256 - 1 - balance h1) ++ lit "/" ++ Address_Hex (HolderAddress h1)) = true).
  { apply fmt_0x_ltb; [lia|lia|]. change (16 ^ Z.of_nat 64) with (2 ^ 256). lia. }
  pose proof (bytes_ltb_trans _ _ _ Hs Hrev) as Hirr. by rewrite bytes_ltb_irrefl in Hirr.
Qed.

(** C0: a page of the holders of a token. GetTokenHolders returns the records from the offset
    on, at most [limit] of them when the limit is positive, of the one list of all holders of
    the token in the order of descending balance; it fails only when the database does. *)
Theorem GetTokenHolders_page st s token limit offset r s' : state_holds st s -> small_balances st ->
  GetTokenHolders token limit offset s = (r, s') ->
  s' = s /\
  match r with
  | Ok page => exists l, StronglySorted more_first l /\
      (forall h, h ∈ l <-> held (fst st) h /\ TokenAddress h = token) /\
      page = at_most (opt_limit limit) 0 (drop (Z.to_nat offset) l)
  | Err _ => exists e, db_scan (db s) (TokenHolderByTokenIndexPrefix token)
                       (prefixUpperBound (TokenHolderByTokenIndexPrefix token)) = Err e
  end.
Proof.
  intros Hst Hsmall H. pose proof Hst as (Hh & Hc & _). unfold GetTokenHolders, ensureNotClosed in H.
  unfold mbind at 1, ST_bind in H. rewrite Hc in H. unfold mbind, ST_bind in H. cbv zeta in H.
  destruct (wrapST _ _ s) as [[entries|e] s1] eqn:Hscan.
  - apply (holder_scan st s (FToken token) Hst) in Hscan as [-> (l & -> & Hsort & Hel)].
    assert (Hvalid : forall h, h ∈ l -> held (fst st) h /\ TokenAddress h = token /\ 0 <= balance h < 2 ^ 256).
    { intros h Hin. apply Hel in Hin as (Hheld & Hf & _). split; [done|].
      assert (Ht : TokenAddress h = token).
      { apply elem_of_cons in Hf as [[= ->]|Hf]; [done|]. by apply list_elem_of_singleton in Hf. }
      split; [done|]. split; [|by eapply Hsmall].
      destruct (sh_valid _ _ _ Hh _ _ Hheld) as (_ & (b & Hb & Hpos) & _). unfold balance. rewrite Hb. cbn. lia. }
    rewrite (fetch_page_found _ _ _ _ (entry holder_table (FToken token)) l) in H.
    + injection H as <- <-. split; [done|]. exists l. split_and!; [| |done].
      * eapply sorted_impl; [exact Hsort|]. intros x y Hx Hy. apply (suffix_more_first token); by apply Hvalid.
      * intros h. split; [intros Hin; split; by apply Hvalid|]. intros [Hheld <-]. apply Hel.
        split_and!; [done|by left|done].
    + intros h Hin. exists (HolderAddress h). split.
      * unfold entry. cbn [base suffix ival holder_table]. rewrite app_assoc. apply last_address_entry.
      * destruct (Hvalid h Hin) as (Hheld & <- & _). rewrite (getTokenHolder_held (fst st) (snd st)) by done.
        unfold held, holder_key in Hheld. by rewrite Hheld.
  - injection H as <- <-. unfold wrapST, dbScan in Hscan. injection Hscan as Hscan <-. split; [done|].
    destruct (db_scan _ _ _) as [|e']; [done|by exists e'].
Qed.

Lemma holders_none st token : holders_valid st -> holders token st = 0 ->
  forall h, held (fst st) h -> TokenAddress h <> token.
Proof.
  unfold holders. intros Hv H0 h Hh Ht. unfold held in Hh.
  pose proof (total_delete one_holder token (fst st) (holder_key h)) as Hd.
  rewrite Hh, decide_True, (one_holder_held st (holder_key h)) in Hd by done.
  assert (Hpos : 0 <= holders token (delete (holder_key h) (fst st), snd st)); [|unfold holders in Hpos; cbn [fst] in Hpos; lia].
  apply holders_bound. intros k x. cbn [fst]. rewrite lookup_delete_Some. intros [_ Hx]. by apply Hv.
Qed.

(** The holder count, from the statistics or from the index, is the number of holders. *)
Theorem GetTokenHolderCount_exact st s token n s' : state_holds st s -> counts_match st ->
  GetTokenHolderCount token s = (Ok n, s') -> s' = s /\ n = holders token st.
Proof.
  intros Hst Hcount H. pose proof Hst as (Hh & Hc & _). unfold GetTokenHolderCount, ensureNotClosed in H.
  unfold mbind at 1, ST_bind in H. rewrite Hc in H. unfold tryST in H.
  rewrite (GetTokenHolderStats_state st) in H by done. pose proof (Hcount token) as Ht.
  destruct (snd st !! token) as [x|] eqn:Hx; [by injection H as <- <-|]. cbn in Ht.
  cbv zeta in H. unfold mbind, ST_bind in H. destruct (wrapST _ _ s) as [[entries|e] s1] eqn:Hscan; [|done].
  apply (holder_scan st s (FToken token) Hst) in Hscan as [-> (l & -> & Hl)].
  injection H as <- <-. split; [done|]. rewrite length_fmap.
  rewrite (listing_nil _ _ _ _ l) with (2 := Hl); [done|].
  intros h Hheld Hf _. apply (holders_none st token) in Hheld; [|by eapply state_holds_valid|done].
  apply elem_of_cons in Hf as [[= ->]|Hf]; [done|]. by apply list_elem_of_singleton in Hf.
Qed.

End Store.

(** * On concrete storages *)

Section Witnesses.
#[local] Existing Instance lower_hex.
#[local] Existing Instance mem_pebble.

Definition mint : ERC20Transfer :=
  mkERC20 (sample_address 1) zero_address (sample_address 2) (Some 5) (sample_hash 1) 7 0 0.
Definition pay : ERC20Transfer :=
  mkERC20 (sample_address 1) (sample_address 2) (sample_address 3) (Some 5) (sample_hash 2) 8 0 0.

Definition no_holders : PebbleStorage := mkStorage (∅ : gmap bytes bytes) false false ∅ 0.
Definition minted : holders_state := transfer mint 5 (∅, ∅).
Definition mem_minted : PebbleStorage := snd (ProcessERC20TransferForHolders mint no_holders).

Lemma no_holders_state : state_holds (∅, ∅) no_holders.
Proof.
  split; [|done]. split; intros; rewrite ?lookup_empty in *; try done. split.
  - intros f k v _. split; [done|]. by intros (r & Hr & _).
  - by intros f r1 r2 Hr.
Qed.

Lemma minted_ok : fst (ProcessERC20TransferForHolders mint no_holders) = Ok tt.
Proof. by vm_compute. Qed.

Lemma minted_state : state_holds minted mem_minted.
Proof.
  pose proof (ProcessERC20Transfer_refines lower_hex_laws lower_hex_reads mem_pebble_laws (∅, ∅) no_holders mint 5) as H.
  specialize (H _ _ no_holders_state eq_refl ltac:(lia) ltac:(split; done) (surjective_pairing _)).
  by rewrite minted_ok in H.
Qed.

Lemma paid_ok : fst (ProcessERC20TransferForHolders pay mem_minted) = Ok tt.
Proof. by vm_compute. Qed.

Lemma ProcessERC20Transfer_refines_witness :
  state_holds (transfer pay 5 minted) (snd (ProcessERC20TransferForHolders pay mem_minted)).
Proof.
  pose proof (ProcessERC20Transfer_refines lower_hex_laws lower_hex_reads mem_pebble_laws minted mem_minted pay 5
    _ _ minted_state eq_refl ltac:(lia) ltac:(split; done) (surjective_pairing _)) as H.
  by rewrite paid_ok in H.
Defined.

Lemma no_holders_valid : holders_valid (∅, ∅).
Proof. intros k h. cbn. by rewrite lookup_empty. Qed.

Lemma minted_conserved : let st := minted in holders_valid st /\ counts_match st /\ supply (sample_address 1) st = 5.
Proof.
  destruct (transfer_conserves mint 5 (∅, ∅)) as (Hv & Hc & _ & Hs);
    [apply no_holders_valid|lia|split; done|by left|reflexivity|intros token; reflexivity|].
  split_and!; [done..|]. unfold minted. rewrite Hs. by vm_compute.
Qed.

Lemma transfer_conserves_witness :
  balance_of (fst (transfer pay 5 minted)) (sample_address 1) (sample_address 3) = 5 /\
  supply (sample_address 1) (transfer pay 5 minted) = 5 /\ counts_match (transfer pay 5 minted).
Proof.
  destruct minted_conserved as (Hv0 & Hc0 & Hs0).
  destruct (transfer_conserves pay 5 minted) as (Hv & Hc & Hb & Hs);
    [done|lia|split; done|right; by vm_compute|by vm_compute|done|].
  split; [rewrite Hb; by vm_compute|]. split; [|done]. rewrite Hs, Hs0. by vm_compute.
Defined.

Lemma small_check (st : holders_state) :
  forallb (fun p : (Address * Address) * TokenHolder => balance (snd p) <? 2 ^ 256) (map_to_list (fst st)) = true ->
  small_balances st.
Proof.
  rewrite forallb_forall. intros Hall k h Hk. apply elem_of_map_to_list, list_elem_of_In in Hk.
  by apply Hall, Z.ltb_lt in Hk.
Qed.

Lemma minted_small : small_balances minted.
Proof. apply small_check. by vm_compute. Qed.

Lemma GetTokenHolders_page_witness : exists page,
  GetTokenHolders (sample_address 1) 0 0 mem_minted = (Ok page, mem_minted) /\
  mkHolder (sample_address 1) (sample_address 2) (Some 5) 7 ∈ page.
Proof.
  destruct (GetTokenHolders (sample_address 1) 0 0 mem_minted) as [r s'] eqn:H.
  apply (GetTokenHolders_page lower_hex_laws lower_hex_reads mem_pebble_laws minted) in H as [-> Hr];
    [|apply minted_state|apply minted_small].
  destruct r as [page|e]; [|by destruct Hr].
  exists page. split; [done|]. destruct Hr as (l & _ & Hel & ->). cbn. apply Hel. split; [by vm_compute|done].
Defined.

End Witnesses.
